(* ===== verification/_CoqProject ===== *)
-Q . S2P
Prelude.v
Utf8.v
Protocol.v
TextOffset.v
TextEdits.v
PositionMapper.v
Session.v
Plugins.v
Dispatch.v
DocSync.v
DocSyncSpec.v
DocSyncProof.v
Scip.v
Occurrences.v
Paths.v
Scanner.v
ScannerProof.v
PrefixTree.v
PrefixTreeProof.v
PartialIndex.v
PartialIndexProof.v
Registry.v
RegistryProof.v
LibRegistry.v
LibRegistryProof.v
FullRegistry.v
FullRegistryProof.v
Diagnostics.v
IndexNotifier.v
PersistentNotifier.v
PersistentNotifierProof.v
Capabilities.v
ActionStore.v
QuickActions.v
QuickActionsProof.v
JavaUtils.v
JavaActions.v
ScipController.v
ScipControllerProof.v
ScipWatch.v
Startup.v
Indexer.v
IndexerProof.v
IdeClient.v
WorkspaceUtils.v
Goroutines.v
UserGuidance.v
UserGuidanceProof.v
BazelProject.v
Jdk.v
ScalaAssist.v
Json.v
ServerInfo.v
Process.v
Daemon.v
Router.v
DaemonProof.v
Application.v
System.v
