(* ===== verification/Prelude.v ===== *)
(** * Verification of the SCIP language server

    The repository holds a language server that answers editor requests from
    SCIP indices: [src/scip-lib] reads and queries the indices, [src/ulsp] is
    the daemon that keeps the sessions of editors and their open documents and
    passes each request to a set of plugins.  This library models the parts of
    both that carry the program's own logic and proves them correct.

    ** Parts and files

    The parts, in the order in which they build on each other; paths are under
    the repository's [src].  A file [XProof] holds the theorems about [X].

    - [Prelude]: outcomes of Go code ([gores]: a value, an error, a panic, or
      fuel used up), the state monad [GoM], fixed-width integers, slices with
      their bounds checks, and shared lemmas.  [Utf8]: runes and the decoding
      of UTF-8, as Go's [range] over a string does it.  [Protocol]: the
      structures of the protocol.  [Paths]: Go's [path/filepath].
    - [TextOffset]: [ulsp/internal/protocol/mapper.go], byte offsets and
      UTF-16 positions of a text.  [TextEdits]: the content changes and edits
      of [ulsp/mapper/lsp.go].  [PositionMapper]:
      [ulsp/controller/doc-sync/position_mapper.go], positions of the base and
      the current version of a document.
    - [Session]: [ulsp/repository/session], with the interface [Repository] as
      a class with laws.  [Plugins]: the plugins of [ulsp/entity/ulsp-plugin]
      and [ulsp/mapper/ulsp_plugin.go] and their dispatch in
      [ulsp/controller/ulsp-daemon/ulsp_daemon.go].  [Dispatch]: the goroutines
      of the asynchronous handlers of a request, with their wait groups.
    - [DocSync]: [ulsp/controller/doc-sync/doc_sync.go], the store of open
      documents.  Its entries are objects that point to base entries and are
      shared, so they live in a heap; each handler of the controller is a
      function over the heap, the map of sessions and the calls it makes.
      [DocSyncSpec]: the same handlers over a map of plain values.
    - [Scip]: the data model and mappers of [scip-lib/model] and
      [scip-lib/mapper]; the SCIP bindings are the class [Bindings].
      [Occurrences]: [scip-lib/utils].  [Scanner]: the buffer pool and the
      incremental scanner of [scip-lib/scanner]; the protobuf library is the
      class [Wire], the file system the class [FileSystem].
    - [PrefixTree]: the symbol tree of [scip-lib/partialloader/prefixtree.go]
      as a heap of nodes with parent pointers.  [PartialIndex]:
      [scip-lib/partialloader/index.go], the index of a workspace.
      [Registry]: [ulsp/controller/scip/partial_registry.go], the queries, over
      the interface of the index as a class ([Index.PartialIndex]).
      [LibRegistry]: the registry of the library, [scip-lib/registry], over the
      same index.  [FullRegistry]: the older registry that keeps whole indices,
      [ulsp/controller/scip/types.go] and [consume.go], a heap of packages,
      symbols and documents that share lists of occurrences, with their locks.
    - [Diagnostics]: [ulsp/controller/diagnostics].  [IndexNotifier]:
      [ulsp/controller/scip/scip_notify.go], over the interface of the
      notification manager as a class with laws.  [PersistentNotifier]:
      [ulsp/internal/persistent-notifier], the manager that satisfies them, with
      the goroutines of its handlers as steps.  [Capabilities]:
      [ulsp/mapper/lsp_lifecycle.go].
    - [ScipController]: [ulsp/controller/scip/scip.go], the plugin that puts
      these together: its state holds the registries of the workspaces, the
      document store, the diagnostics and the notifier.  [ScipControllerProof]:
      queries and loads.  [ScipWatch]: file events and their timers.
      [Startup]: the plugins that the SCIP plugin works with, together.
    - [ActionStore] and [QuickActions]: [ulsp/controller/quick-actions], the
      plugin for code actions and lenses with its range store and its pending
      runs; an action is a record of its methods, with laws.  [JavaUtils]:
      [ulsp/internal/java-utils], the search for a Bazel target.  [JavaActions]:
      the actions of [quick-actions/actions-java].  [Indexer]:
      [ulsp/controller/indexer], the plugin that runs the index script, its
      goroutines cut at the critical sections of the store of pending commands.
    - [IdeClient]: [ulsp/gateway/ide-client], the clients of sessions and the
      calls to them.  [WorkspaceUtils]: [ulsp/internal/workspace-utils].
      [BazelProject]: [ulsp/internal/bazelproject], project views and the cache
      of their targets.
    - [Goroutines]: programs that call the outside, and pools of them under a
      schedule.  [UserGuidance]: [ulsp/controller/user-guidance], the messages of
      the configuration, as such programs.  [Jdk]: [ulsp/controller/jdk] with its
      handler and mapper, over the lookups of the SCIP controller as a class.
      [ScalaAssist]: [ulsp/controller/scala-assist], the watcher of the build
      server's configuration.
    - [Daemon]: the controller of [ulsp/controller/ulsp-daemon], the lifecycle
      of sessions with the idle timer and the methods that call plugins, over
      the repository, the gateway and the workspace utilities.  [Router]: the
      JSON-RPC side, [ulsp/handler/ulsp-daemon], [ulsp/internal/jsonrpcfx] and
      the decoding of parameters in [ulsp/mapper/lsp.go].  [DaemonProof]: runs
      of the whole server.
    - [Json]: the JSON form of a map of strings and a reader for it.
      [ServerInfo]: [ulsp/internal/serverinfofile], the file in which clients
      find the server, with what [ulsp/handler/server_info.go] and
      [ulsp/internal/logfilewriter] put there.  [Process]: configuration, logger,
      the module that listens, commands, checks of files and errors of callers
      ([ulsp/internal/core], [ulsp/app], [ulsp/internal/jsonrpcfx],
      [ulsp/internal/executor], [ulsp/internal/fs], [ulsp/internal/errors]), and
      the start and the stop of the daemon.
    - [Application]: the configuration of repositories in [ulsp/entity], the
      constructors of the plugins ([New] in [ulsp/controller]) as
      [ulsp/controller/module.go] puts them together, and the list of plugins
      that the daemon registers.  [System]: the document store, the diagnostics
      and the SCIP plugin on the state that they share, as an instance of the
      plugins of [Daemon] behind [Router].

    ** What the theorems show

    - Texts: the two conversions between offsets and positions are exact,
      total, and inverse to each other up to a carriage return at the end of a
      line; positions before a kept rune are mapped to the same rune; edits made
      from diffs that do not cut a line end produce the new text; content changes follow the protocol when
      they go from the end of the text to its start, and otherwise do not.
    - Documents: over every sequence of handlers the heap of entries behaves as
      the map of values (a refinement with an invariant by rule induction), a
      handler touches no other session, and positions keep being mapped from
      the text at opening or at the last reset.
    - Sessions and plugins: the repository is a map; the plugins of a method
      run in the order of their priorities, and each implements the method.  The
      goroutines of asynchronous handlers all end under every schedule, and no
      wait group goes wrong; if the actions of the handlers commute the result is
      that of one handler after the other.
    - The server: in every sequence of events sessions, clients and plugins belong
      together, and until a full shutdown is requested the idle timer runs exactly
      while there is no session; a session does not touch another and leaves nothing behind; the process ends by the idle
      timer when and only when it should; a request runs the plugins of its
      session and gets one reply; [initialize] sets a session up from its
      workspace or disables it.  Calls of the gateway reach the connection of
      the session, and a prompt for a selection ends once.
    - Quick actions: code actions and lenses are those of the version processed
      last; a command runs once and is cleaned up; the Java actions satisfy the
      laws of actions, and their targets are found by a search that ends.  The
      indexer loses no change of a target as long as arrivals and ends of runs do
      not interleave and nothing is cancelled.  Notifications: no panic and no send on a closed channel under
      one condition on the order of calls, which the code does not enforce; the
      goroutines of a handler end.  Where the code allows an interleaving that
      breaks such a property, a theorem exhibits it ([indexer_races],
      [executeCommand_race], [StartNotification_race], [end_before_update]).
    - Guidance: every interleaving of the goroutines of messages with different
      files gives each what it has alone; over sessions one after the other in
      which no call fails a message follows a small machine, by which it is shown
      once, and a remembered selection ends the prompts; the buffer of the channel
      of errors lets every goroutine end.  The project views (with lines below the
      limit of the scanner) are parsed back as they were written, and their targets are
      looked up again when no request has come for a minute.  The file of a class
      is found by its name.  The copy of a BSP configuration follows it; the
      plugin that keeps it is never enabled ([scala_never_enabled]).
    - Indices: on a serialised index the scanner makes exactly the calls that
      its messages ask for, whatever buffers the pool recycles; it ends with an
      error at a field that is not length-delimited, and panics or loops on
      certain malformed lengths.  A merge of trees is their union, an
      added symbol is found again, pruning removes exactly the outdated nodes of
      a document.  After [LoadIndex] the symbols of the index are found with
      their last definition, others as before.  The binary search over
      occurrences is correct.  The registry is proved against the laws of the
      index, and the partially loaded index is shown to satisfy them.  A query
      brings to memory only the documents it asks for, and tells the callback of
      exactly those ([Index.asks]).  Over any queries and loads of well-formed
      files the registry of the library answers like one that keeps the names of
      the loaded files and reads them anew.  Every call that changes the full
      registry keeps its heap well formed, and only [ClearReferences] of a document
      without package panics; the registry stores the symbols of a document in any order of the
      maps, and forgets exactly what a document has put there, references within
      its package excepted ([reindex_doubles]).
    - The SCIP plugin: go to definition and references on an edited document
      answer from the index of its base version with ranges of the current
      texts, and reset exactly the bases of the documents that the index brings to
      memory for them; a load of index directories calls [LoadIndexFile] on every
      file whose hash is new, and reports those that fail; a burst
      of file events leads to one reload; every notification of a load ends.
      The theorems about loads that do not happen (one CPU, no default
      directories, no hash file, an empty one) are behaviours of the code that look like bugs.
    - The process: with a complete configuration the daemon comes up, listens,
      and publishes its addresses in a file that reads back as exactly these; the
      stop removes it.  The file holds the last value of every field whenever the
      last write went well.  Commands run with all of their fields, and wrapping
      an error does not change what its caller sees.  The constructors succeed
      exactly for a complete configuration.
    - The composition: for every configuration the plugins of a session can be
      registered, and a table says which of them handle a method and in which
      order.  An editor that opens a document, changes it and asks for a
      definition gets through all layers what the index says of the text as it
      was opened, in the ranges of the texts as they are now
      ([definition_through_server]).

    ** Fuel and bounds

    Loops whose end is not structural take fuel and return [Fuel] when it is
    used up; the theorems say how much is enough: for the scanner more than the
    number of bytes (each field has at least two), for the trees more than the
    length of their paths, for the search one more than the number of
    occurrences, for the search for a BUILD file one more than the number of
    directories below the root.  [Fuel] is also the outcome of a send on a channel from which
    nobody will receive.  Integers have the width of the code where it matters
    ([int32], [int64], [uint32]); texts and buffers are assumed to be of less
    than 2^31 bytes, respectively what Go can allocate.  That the diffs of
    [DiffMain] put together give the two texts is a hypothesis for all byte
    strings; the library guarantees it for valid UTF-8, which the texts of requests
    are, being strings of JSON.

    ** Concurrency

    The handlers and the operations of the index run one at a time: the code
    guards its maps with locks.  The map of the plugins of sessions has none; the
    requests that use it are one step each, and races on it are not modelled.  Where it leaves a lock between two steps of one
    operation the model has both steps ([AddPendingEdits_with]).  The goroutines
    that scan the files of a folder, and those that load the indices of a
    directory, run one after the other in any order; timers fire between other
    operations, in any sequence of events; asynchronous plugin handlers are
    returned as work left to do, which the runs of the server start at any time;
    [Dispatch] has their goroutines.
    The notification handlers, the indexer, the messages to the user and the
    execution of commands are cut
    into steps at their critical sections and channel operations, and the
    theorems quantify over the interleavings of these steps.  The requests of one
    connection are handled one after the other, as the JSON-RPC library does it.
    Sessions of [UserGuidance] follow each other; those that run at the same time
    and share files are not modelled.  In [System] the asynchronous handlers that a request leaves behind have not
    run when the next request comes.

    ** What is not modelled

    Logging, metrics other than the gauge of documents, the JSON of requests (its
    decoding is a parameter), YAML, the operating system and its sockets, the
    libraries for dependency injection and JSON-RPC beyond the order in which
    they call the code, plain forwards to the operating system
    ([ulsp/internal/fs]), the clock, and the declarations of interfaces and
    parameters, which have no behaviour of their own. *)

From stdpp Require Import base gmap list strings fin_maps sorting.
From Stdlib Require Import ZArith Lia.

#[global] Set Default Goal Selector "!".

(** ** Outcomes of Go code

    A Go function that returns [(value, error)] is a computation of type
    [gores A]: it returns a value ([Ok]), returns a non-nil error ([Err]),
    panics ([Panic]: an index or slice bound out of range, a nil dereference),
    or, for the loops whose termination is not structural, runs past the fuel
    that the model gives it ([Fuel]). *)

Abbreviation uuid := N.
Abbreviation bytes := (list Z).

Inductive error : Type :=
  | EEOF                                  (** [io.EOF] *)
  | EText (s : string)                    (** [errors.New s], [fmt.Errorf s ...] *)
  | ESentinel (s : string)                (** an error of a package variable, which is compared by identity *)
  | EWrap (s : string) (e : error)        (** [fmt.Errorf "s: %w" e] *)
  | EJoin (s : string) (e : error)        (** [errors.Join(fmt.Errorf(s), e)] *)
  | EUUIDNotFound (u : uuid)              (** [errors.UUIDNotFoundError] *)
  | ENoSessionFound                       (** [errors.NoSessionFoundError] *)
  | EDocumentNotFound (uri : string)      (** [errors.DocumentNotFoundError] *)
  | EDocumentSizeLimit (size : Z)         (** [errors.DocumentSizeLimitError] *)
  | EDocumentOutdated (cur out : Z)       (** [errors.DocumentOutdatedError] *)
  | EExternal (n : Z).                    (** an error made outside the sources *)

#[export] Instance error_eq_dec : EqDecision error.
Proof. solve_decision. Defined.

Inductive gores (A : Type) : Type :=
  | Ok (a : A)
  | Err (e : error)
  | Panic
  | Fuel.
Arguments Ok {A} _.
Arguments Err {A} _.
Arguments Panic {A}.
Arguments Fuel {A}.

(** Sequencing of results: [x, err := m; if err != nil { return err }; k]. *)
Definition rbind {A B} (m : gores A) (k : A → gores B) : gores B :=
  match m with Ok a => k a | Err e => Err e | Panic => Panic | Fuel => Fuel end.
Notation "x <-? m ;; k" := (rbind m (λ x, k))
  (at level 100, m at next level, right associativity).
Notation "'let?' pat := m 'in' k" := (rbind m (λ x, match x with pat => k end))
  (at level 10, pat pattern, m at level 100, k at level 200).

(** [x, err := m; if err != nil { return ..., fmt.Errorf(s: %w, err) }]. *)
Definition wrap_err {A} (s : string) (m : gores A) : gores A :=
  match m with Err e => Err (EWrap s e) | _ => m end.
Definition join_err {A} (s : string) (m : gores A) : gores A :=
  match m with Err e => Err (EJoin s e) | _ => m end.

(** A stateful Go function over the state [S]: the outcome and the state that
    is left, also when an error is returned. *)
Definition GoM (S A : Type) : Type := S → gores A * S.

Definition sret {S A} (a : A) : GoM S A := λ s, (Ok a, s).
Definition sbind {S A B} (m : GoM S A) (k : A → GoM S B) : GoM S B := λ s,
  match m s with
  | (Ok a, s') => k a s'
  | (Err e, s') => (Err e, s')
  | (Panic, s') => (Panic, s')
  | (Fuel, s') => (Fuel, s')
  end.
Notation "x <- m ;; k" := (sbind m (λ x, k))
  (at level 100, m at next level, right associativity).
Notation "'let*' pat := m 'in' k" := (sbind m (λ x, match x with pat => k end))
  (at level 10, pat pattern, m at level 100, k at level 200).
Notation "m ;;; k" := (sbind m (λ _, k)) (at level 100, right associativity).

Definition get_st {S} : GoM S S := λ s, (Ok s, s).
Definition put_st {S} (s' : S) : GoM S unit := λ _, (Ok tt, s').
Definition modify_st {S} (f : S → S) : GoM S unit := λ s, (Ok tt, f s).
Definition lift_res {S A} (r : gores A) : GoM S A := λ s, (r, s).
Definition throw {S A} (e : error) : GoM S A := λ s, (Err e, s).
(** [v, err := m] with the error kept as a value. *)
Definition try_ {S A} (m : GoM S A) : GoM S (error + A) := λ s,
  match m s with
  | (Ok a, s') => (Ok (inr a), s')
  | (Err e, s') => (Ok (inl e), s')
  | (Panic, s') => (Panic, s')
  | (Fuel, s') => (Fuel, s')
  end.
Definition wrapM {S A} (s : string) (m : GoM S A) : GoM S A :=
  λ st, let '(r, st') := m st in (wrap_err s r, st').
Definition joinM {S A} (s : string) (m : GoM S A) : GoM S A :=
  λ st, let '(r, st') := m st in (join_err s r, st').

(** How the state passes through the primitives. *)
Lemma sbind_get {S A} (k : S → GoM S A) st : sbind get_st k st = k st st.
Proof. done. Qed.
Lemma sbind_ret {S A B} (a : A) (k : A → GoM S B) st : sbind (sret a) k st = k a st.
Proof. done. Qed.
Lemma sbind_modify {S A} f (k : unit → GoM S A) st : sbind (modify_st f) k st = k tt (f st).
Proof. done. Qed.
Lemma sbind_assoc {S A B C} (m : GoM S A) (k : A → GoM S B) (l : B → GoM S C) st :
  sbind (sbind m k) l st = sbind m (λ x, sbind (k x) l) st.
Proof. unfold sbind. by destruct (m st) as [[]?]. Qed.
Lemma sbind_ok {S A B} (m : GoM S A) (k : A → GoM S B) st a st' :
  m st = (Ok a, st') → sbind m k st = k a st'.
Proof. unfold sbind. by intros ->. Qed.
Lemma sbind_inv {S A B} (m : GoM S A) (k : A → GoM S B) st b st' :
  sbind m k st = (Ok b, st') → ∃ a st1, m st = (Ok a, st1) ∧ k a st1 = (Ok b, st').
Proof. unfold sbind. destruct (m st) as [[a| | |] st1]; [by exists a, st1|done..]. Qed.
Lemma sbind_err {S A B} (m : GoM S A) (k : A → GoM S B) st e st' :
  m st = (Err e, st') → sbind m k st = (Err e, st').
Proof. unfold sbind. by intros ->. Qed.
Lemma sbind_try_ok {S A B} (m : GoM S A) (k : error + A → GoM S B) st a st' :
  m st = (Ok a, st') → sbind (try_ m) k st = k (inr a) st'.
Proof. unfold sbind, try_. by intros ->. Qed.
Lemma sbind_try_err {S A B} (m : GoM S A) (k : error + A → GoM S B) st e st' :
  m st = (Err e, st') → sbind (try_ m) k st = k (inl e) st'.
Proof. unfold sbind, try_. by intros ->. Qed.
Lemma sbind_panic {S A B} (m : GoM S A) (k : A → GoM S B) st st' :
  m st = (Panic, st') → sbind m k st = (Panic, st').
Proof. unfold sbind. by intros ->. Qed.
Lemma sbind_fuel {S A B} (m : GoM S A) (k : A → GoM S B) st st' :
  m st = (Fuel, st') → sbind m k st = (Fuel, st').
Proof. unfold sbind. by intros ->. Qed.
Lemma wrapM_ok {S A} msg (m : GoM S A) st a st' : m st = (Ok a, st') → wrapM msg m st = (Ok a, st').
Proof. unfold wrapM. by intros ->. Qed.
Lemma try_panic {S A} (m : GoM S A) st st' : m st = (Panic, st') → try_ m st = (Panic, st').
Proof. unfold try_. by intros ->. Qed.
Lemma try_fuel {S A} (m : GoM S A) st st' : m st = (Fuel, st') → try_ m st = (Fuel, st').
Proof. unfold try_. by intros ->. Qed.

(** [for _, x := range l { body }]. *)
Fixpoint forM_ {S A} (l : list A) (body : A → GoM S unit) : GoM S unit :=
  match l with
  | [] => sret tt
  | x :: l' => body x ;;; forM_ l' body
  end.

(** ** Machine integers *)

Section machine_integers.
Local Open Scope Z_scope.

Definition wrap_signed (w z : Z) : Z := (z + 2 ^ (w - 1)) mod 2 ^ w - 2 ^ (w - 1).
Definition int32 (z : Z) : Z := wrap_signed 32 z.
Definition int64 (z : Z) : Z := wrap_signed 64 z.
Definition uint32 (z : Z) : Z := z mod 2 ^ 32.
Definition uint64 (z : Z) : Z := z mod 2 ^ 64.

Lemma uint32_small z : 0 ≤ z < 2 ^ 32 → uint32 z = z.
Proof. apply Z.mod_small. Qed.
Lemma uint32_range z : 0 ≤ uint32 z < 2 ^ 32.
Proof. apply Z.mod_pos_bound. lia. Qed.
Lemma int32_small z : - 2 ^ 31 ≤ z < 2 ^ 31 → int32 z = z.
Proof. intros H. unfold int32, wrap_signed. rewrite Z.mod_small; lia. Qed.
Lemma int64_small z : - 2 ^ 63 ≤ z < 2 ^ 63 → int64 z = z.
Proof. intros H. unfold int64, wrap_signed. rewrite Z.mod_small; lia. Qed.
Lemma int64_high z : 2 ^ 63 ≤ z < 2 ^ 64 → int64 z = z - 2 ^ 64.
Proof.
  intros H. unfold int64, wrap_signed.
  replace ((z + 2 ^ (64 - 1)) mod 2 ^ 64) with (z + 2 ^ (64 - 1) - 2 ^ 64);
    [lia|].
  apply Z.mod_unique with 1; lia.
Qed.

End machine_integers.

(** ** Slices with Go's bound checks *)

Section slices.
Context {A : Type}.
Implicit Types l : list A.
Local Open Scope Z_scope.

Definition zlen l : Z := Z.of_nat (length l).
(** [l[i]] *)
Definition go_index l (i : Z) : gores A :=
  if bool_decide (0 ≤ i) then
    match l !! Z.to_nat i with Some x => Ok x | None => Panic end
  else Panic.
(** [l[:n]] and [l[n:]] *)
Definition slice_to l (n : Z) : gores (list A) :=
  if bool_decide (0 ≤ n ≤ zlen l) then Ok (take (Z.to_nat n) l) else Panic.
Definition slice_from l (n : Z) : gores (list A) :=
  if bool_decide (0 ≤ n ≤ zlen l) then Ok (drop (Z.to_nat n) l) else Panic.

Lemma zlen_nonneg l : 0 ≤ zlen l.
Proof. unfold zlen. lia. Qed.
Lemma zlen_app l1 l2 : zlen (l1 ++ l2) = zlen l1 + zlen l2.
Proof. unfold zlen. rewrite length_app. lia. Qed.
Lemma zlen_cons x l : zlen (x :: l) = 1 + zlen l.
Proof. unfold zlen. simpl. lia. Qed.
Lemma zlen_nil : zlen (@nil A) = 0.
Proof. reflexivity. Qed.

Lemma slice_to_app l1 l2 n : n = zlen l1 → slice_to (l1 ++ l2) n = Ok l1.
Proof.
  intros ->. unfold slice_to. rewrite bool_decide_true.
  - unfold zlen. by rewrite Nat2Z.id, take_app_length.
  - pose proof (zlen_nonneg l2). rewrite zlen_app. unfold zlen in *. lia.
Qed.
Lemma slice_from_app l1 l2 n : n = zlen l1 → slice_from (l1 ++ l2) n = Ok l2.
Proof.
  intros ->. unfold slice_from. rewrite bool_decide_true.
  - unfold zlen. by rewrite Nat2Z.id, drop_app_length.
  - pose proof (zlen_nonneg l2). rewrite zlen_app. unfold zlen in *. lia.
Qed.
End slices.

(** ** Tactics *)

(** Splits the guards of the code ([bool_decide], [if], [match]) in the goal. *)
Ltac split_guard :=
  match goal with
  | |- context [bool_decide ?P] => destruct (bool_decide_reflect P)
  | H : context [bool_decide ?P] |- _ => destruct (bool_decide_reflect P)
  end.

Ltac zsimpl :=
  repeat first
    [ rewrite zlen_app | rewrite zlen_cons | rewrite zlen_nil
    | rewrite zlen_app in * | rewrite zlen_cons in * | rewrite zlen_nil in * ].

Create HintDb go.
Create Rewrite HintDb go.
#[export] Hint Resolve zlen_nonneg : go.
#[export] Hint Rewrite @zlen_app @zlen_cons @zlen_nil : go.

(** ** [sort.Search] *)

Section sort_search.
Local Open Scope Z_scope.

Fixpoint search_loop (fuel : nat) (f : Z → bool) (i j : Z) : Z :=
  match fuel with
  | O => i
  | S fuel' =>
    if i <? j then
      let h := (i + j) / 2 in
      if f h then search_loop fuel' f i h else search_loop fuel' f (h + 1) j
    else i
  end.

(** The smallest index in [[0, n)] at which [f] holds, [n] if there is none,
    for a predicate that stays true once it is. *)
Definition sort_Search (n : Z) (f : Z → bool) : Z := search_loop (Z.to_nat n) f 0 n.

Lemma search_loop_spec f n fuel i j :
  (∀ a b, 0 ≤ a ≤ b → b < n → f a = true → f b = true) →
  0 ≤ i ≤ j → j ≤ n → j - i ≤ Z.of_nat fuel →
  (∀ k, 0 ≤ k < i → f k = false) → (∀ k, j ≤ k < n → f k = true) →
  let r := search_loop fuel f i j in
  i ≤ r ≤ j ∧ (∀ k, 0 ≤ k < r → f k = false) ∧ (∀ k, r ≤ k < n → f k = true).
Proof.
  intros Hmono. revert i j. induction fuel as [|fuel IH]; intros i j Hij Hj Hf Hlo Hhi; simpl.
  { assert (i = j) by lia. subst. split; [lia|auto]. }
  destruct (Z.ltb_spec i j); [|assert (i = j) by lia; subst; split; [lia|auto]].
  assert (i ≤ (i + j) / 2 < j) by (Z.div_mod_to_equations; lia).
  destruct (f ((i + j) / 2)) eqn:Hh.
  - edestruct (IH i ((i + j) / 2)) as (?&?&?); eauto; try lia.
    { intros k Hk. apply (Hmono ((i + j) / 2)); auto; lia. }
    split; [lia|auto].
  - edestruct (IH ((i + j) / 2 + 1) j) as (?&?&?); eauto; try lia.
    { intros k Hk. destruct (f k) eqn:Hfk; [|done].
      rewrite (Hmono k ((i + j) / 2)) in Hh; auto; lia. }
    split; [lia|auto].
Qed.

Lemma sort_Search_spec n f :
  0 ≤ n → (∀ a b, 0 ≤ a ≤ b → b < n → f a = true → f b = true) →
  0 ≤ sort_Search n f ≤ n ∧
  (∀ k, 0 ≤ k < sort_Search n f → f k = false) ∧
  (∀ k, sort_Search n f ≤ k < n → f k = true).
Proof.
  intros Hn Hmono. apply (search_loop_spec f n); auto; lia.
Qed.

Lemma sort_Search_unique n f r :
  (∀ a b, 0 ≤ a ≤ b → b < n → f a = true → f b = true) →
  0 ≤ r ≤ n → (∀ k, 0 ≤ k < r → f k = false) → (∀ k, r ≤ k < n → f k = true) →
  sort_Search n f = r.
Proof.
  intros Hmono Hr Hlo Hhi.
  destruct (sort_Search_spec n f) as (Hs&Hl&Hh); [lia|done|].
  destruct (Z.lt_trichotomy (sort_Search n f) r) as [Hlt|[->|Hlt]]; [|done|].
  - assert (f (sort_Search n f) = false) by (apply Hlo; lia).
    assert (f (sort_Search n f) = true) by (apply Hh; lia). congruence.
  - assert (f r = false) by (apply Hl; lia).
    assert (f r = true) by (apply Hhi; lia). congruence.
Qed.
End sort_search.
