(* ===== verification/Utf8.v ===== *)
(** * UTF-8 decoding as Go's [unicode/utf8] does it

    [DecodeRune] is the standard library's decoder, with its table of first
    bytes and accept ranges written out.  [encode_rune] is the encoder of the
    Unicode standard, used only to state what well-formed text is.  The main
    fact is that decoding inverts encoding, which the position conversions of
    [TextOffset] are proved against. *)

From stdpp Require Import base list.
From Stdlib Require Import ZArith Lia.
From S2P Require Import Prelude.

Local Open Scope Z_scope.

(** [utf8.RuneError], [utf8.RuneSelf] *)
Definition RuneError : Z := 0xFFFD.
Definition RuneSelf : Z := 0x80.

(** The [first] table: size of the encoding and accept range of its second
    byte, [None] for an ASCII or an invalid first byte. *)
Definition first_info (p0 : Z) : option (Z * Z * Z) :=
  if (0xC2 <=? p0) && (p0 <=? 0xDF) then Some (2, 0x80, 0xBF)
  else if p0 =? 0xE0 then Some (3, 0xA0, 0xBF)
  else if p0 =? 0xED then Some (3, 0x80, 0x9F)
  else if (0xE1 <=? p0) && (p0 <=? 0xEF) then Some (3, 0x80, 0xBF)
  else if p0 =? 0xF0 then Some (4, 0x90, 0xBF)
  else if (0xF1 <=? p0) && (p0 <=? 0xF3) then Some (4, 0x80, 0xBF)
  else if p0 =? 0xF4 then Some (4, 0x80, 0x8F)
  else None.

Definition is_cont (b : Z) : bool := (0x80 <=? b) && (b <=? 0xBF).

Definition join6 (hi lo : Z) : Z := Z.lor (Z.shiftl hi 6) (Z.land lo 0x3F).

(** [utf8.DecodeRune]: the rune and the number of bytes it takes. *)
Definition DecodeRune (p : bytes) : Z * Z :=
  match p with
  | [] => (RuneError, 0)
  | p0 :: rest =>
    if p0 <? RuneSelf then (p0, 1) else
    match first_info p0 with
    | None => (RuneError, 1)
    | Some (sz, lo, hi) =>
      match rest with
      | [] => (RuneError, 1)
      | b1 :: rest2 =>
        if zlen p <? sz then (RuneError, 1)
        else if (b1 <? lo) || (hi <? b1) then (RuneError, 1)
        else if sz <=? 2 then (join6 (Z.land p0 0x1F) b1, 2)
        else match rest2 with
        | [] => (RuneError, 1)
        | b2 :: rest3 =>
          if negb (is_cont b2) then (RuneError, 1)
          else if sz <=? 3 then (join6 (join6 (Z.land p0 0x0F) b1) b2, 3)
          else match rest3 with
          | [] => (RuneError, 1)
          | b3 :: _ =>
            if negb (is_cont b3) then (RuneError, 1)
            else (join6 (join6 (join6 (Z.land p0 0x07) b1) b2) b3, 4)
          end
        end
      end
    end
  end.

(** ** Well-formed text *)

(** Unicode scalar values. *)
Definition scalar (r : Z) : Prop := 0 ≤ r < 0xD800 ∨ 0xE000 ≤ r ≤ 0x10FFFF.
#[export] Instance scalar_dec r : Decision (scalar r).
Proof. unfold scalar. apply _. Defined.

Definition encode_rune (r : Z) : bytes :=
  if r <? 0x80 then [r]
  else if r <? 0x800 then [0xC0 + r / 64; 0x80 + r mod 64]
  else if r <? 0x10000 then
    [0xE0 + r / 4096; 0x80 + (r / 64) mod 64; 0x80 + r mod 64]
  else
    [0xF0 + r / 262144; 0x80 + (r / 4096) mod 64; 0x80 + (r / 64) mod 64;
     0x80 + r mod 64].

Definition encode (rs : list Z) : bytes := rs ≫= encode_rune.

(** Number of UTF-16 code units of a rune. *)
Definition utf16_width (r : Z) : Z := if 0x10000 <=? r then 2 else 1.

(** ** Decoding inverts encoding *)

Lemma land_mod a k b : 0 ≤ k → b = Z.ones k → Z.land a b = a mod 2 ^ k.
Proof. intros Hk ->. by rewrite Z.land_ones. Qed.

Lemma lor_shiftl_small a b k :
  0 ≤ k → 0 ≤ b < 2 ^ k → Z.lor (Z.shiftl a k) b = a * 2 ^ k + b.
Proof.
  intros Hk Hb. pose proof (Z.add_lor_land (Z.shiftl a k) b) as Hadd.
  rewrite <- Z.shiftl_mul_pow2 by done.
  enough (Z.land (Z.shiftl a k) b = 0) by lia.
  clear Hadd.
  apply Z.bits_inj'. intros n Hn. rewrite Z.land_spec, Z.bits_0.
  destruct (decide (n < k)).
  - by rewrite Z.shiftl_spec_low.
  - assert (b = b mod 2 ^ k) as -> by (symmetry; by apply Z.mod_small).
    rewrite Z.mod_pow2_bits_high by lia. by rewrite andb_false_r.
Qed.

Lemma join6_arith hi lo : join6 hi lo = hi * 64 + lo mod 64.
Proof.
  unfold join6. rewrite (land_mod lo 6) by done.
  apply lor_shiftl_small; [done|]. apply Z.mod_pos_bound. lia.
Qed.

Lemma encode_rune_nonempty r : encode_rune r ≠ [].
Proof. unfold encode_rune. by repeat case_match. Qed.

Lemma encode_rune_length r : 1 ≤ zlen (encode_rune r) ≤ 4.
Proof. unfold encode_rune. repeat case_match; unfold zlen; simpl; lia. Qed.

Lemma encode_rune_bytes r : scalar r → Forall (λ b, 0 ≤ b < 256) (encode_rune r).
Proof.
  unfold scalar, encode_rune. intros Hr.
  repeat case_match; repeat constructor; Z.div_mod_to_equations; lia.
Qed.

(** Only a newline encodes to a newline byte; a byte below 0x80 starts an
    encoding only if it is the whole of it. *)
Lemma encode_rune_head r b rest :
  scalar r → encode_rune r = b :: rest → b < 0x80 → r = b ∧ rest = [].
Proof.
  unfold scalar, encode_rune. intros Hr He Hb.
  repeat case_match; simplify_eq; [done|..];
    exfalso; Z.div_mod_to_equations; lia.
Qed.

Lemma encode_rune_tail_high r b rest :
  scalar r → encode_rune r = b :: rest → Forall (λ c, 0x80 ≤ c) rest.
Proof.
  unfold scalar, encode_rune. intros Hr He.
  repeat case_match; simplify_eq; repeat constructor; Z.div_mod_to_equations; lia.
Qed.

(** Decides the guards of the decoder on symbolic bytes. *)
Ltac decode_guards :=
  repeat (match goal with
  | |- context [?a <? ?b] => destruct (Z.ltb_spec a b); try (exfalso; lia)
  | |- context [?a <=? ?b] => destruct (Z.leb_spec a b); try (exfalso; lia)
  | |- context [?a =? ?b] => destruct (Z.eqb_spec a b); try (exfalso; lia)
  end; cbn [andb orb negb]).

(** The leading byte's payload bits, as arithmetic. *)
Lemma land_1F a : Z.land a 0x1F = a mod 32.
Proof. by apply (land_mod a 5). Qed.
Lemma land_0F a : Z.land a 0x0F = a mod 16.
Proof. by apply (land_mod a 4). Qed.
Lemma land_07 a : Z.land a 0x07 = a mod 8.
Proof. by apply (land_mod a 3). Qed.

Ltac divlia := Z.div_mod_to_equations; lia.

(** Decoding of two, three and four byte encodings, in terms of the digits of
    the rune in base 64. *)
Lemma DecodeRune_2 a b rest :
  2 ≤ a < 32 → 0 ≤ b < 64 →
  DecodeRune (0xC0 + a :: 0x80 + b :: rest) = (a * 64 + b, 2).
Proof.
  intros Ha Hb. unfold DecodeRune, RuneSelf, first_info. zsimpl.
  pose proof (zlen_nonneg rest). decode_guards.
  rewrite join6_arith, land_1F. f_equal. divlia.
Qed.

Lemma DecodeRune_3 a b c rest :
  0 ≤ a < 16 → 0 ≤ b < 64 → 0 ≤ c < 64 →
  scalar (a * 4096 + b * 64 + c) → 0x800 ≤ a * 4096 + b * 64 + c →
  DecodeRune (0xE0 + a :: 0x80 + b :: 0x80 + c :: rest) = (a * 4096 + b * 64 + c, 3).
Proof.
  unfold scalar. intros Ha Hb Hc Hs Hlow.
  unfold DecodeRune, RuneSelf, first_info, is_cont. zsimpl.
  pose proof (zlen_nonneg rest). decode_guards.
  all: rewrite !join6_arith, land_0F; f_equal; divlia.
Qed.

Lemma DecodeRune_4 a b c d rest :
  0 ≤ a < 5 → 0 ≤ b < 64 → 0 ≤ c < 64 → 0 ≤ d < 64 →
  0x10000 ≤ a * 262144 + b * 4096 + c * 64 + d ≤ 0x10FFFF →
  DecodeRune (0xF0 + a :: 0x80 + b :: 0x80 + c :: 0x80 + d :: rest)
  = (a * 262144 + b * 4096 + c * 64 + d, 4).
Proof.
  intros Ha Hb Hc Hd Hs.
  unfold DecodeRune, RuneSelf, first_info, is_cont. zsimpl.
  pose proof (zlen_nonneg rest). decode_guards.
  all: rewrite !join6_arith, land_07; f_equal; divlia.
Qed.

Lemma DecodeRune_encode r rest :
  scalar r → DecodeRune (encode_rune r ++ rest) = (r, zlen (encode_rune r)).
Proof.
  intros Hs. unfold encode_rune.
  destruct (Z.ltb_spec r 0x80); [|destruct (Z.ltb_spec r 0x800);
    [|destruct (Z.ltb_spec r 0x10000)]]; cbn [app].
  - unfold DecodeRune, RuneSelf. by rewrite (proj2 (Z.ltb_lt _ _)) by lia.
  - rewrite DecodeRune_2 by divlia. f_equal. divlia.
  - rewrite DecodeRune_3; [f_equal; divlia|divlia|divlia|divlia| |divlia].
    assert (r / 4096 * 4096 + (r / 64) mod 64 * 64 + r mod 64 = r) as -> by divlia.
    done.
  - unfold scalar in Hs. rewrite DecodeRune_4; [f_equal; divlia|divlia..].
Qed.

Lemma DecodeRune_size p r sz : DecodeRune p = (r, sz) → 0 ≤ sz ≤ zlen p.
Proof.
  unfold DecodeRune, first_info. intros H.
  repeat case_match; simplify_eq; unfold zlen; simpl; lia.
Qed.

Lemma DecodeRune_size_pos b p r sz : DecodeRune (b :: p) = (r, sz) → 1 ≤ sz.
Proof.
  unfold DecodeRune. intros H. repeat case_match; simplify_eq; lia.
Qed.
