(* ===== verification/Protocol.v ===== *)
(** * The Language Server Protocol types the server works on

    The structures of [go.lsp.dev/protocol] that the sources read and write,
    with the fields they use.  A [uint32] is a [Z]; conversions to and from
    other widths are written where the code makes them.  A document URI is the
    string it is in Go. *)

From stdpp Require Import base gmap list strings.
From Stdlib Require Import ZArith.
From S2P Require Import Prelude.

Abbreviation URI := string (only parsing).

Record Position := mkPosition { Line : Z; Character : Z }.
Record Range := mkRange { RStart : Position; REnd : Position }.
Record Location := mkLocation { LocURI : URI; LocRange : Range }.
Record TextEdit := mkTextEdit { EditRange : Range; NewText : bytes }.
Record TextDocumentItem := mkTextDocumentItem {
  DocURI : URI; LanguageID : string; Version : Z; Text : bytes
}.
Record TextDocumentContentChangeEvent := mkChange {
  ChangeRange : Range; ChangeText : bytes
}.

#[export] Instance Position_eq_dec : EqDecision Position.
Proof. solve_decision. Defined.
#[export] Instance Range_eq_dec : EqDecision Range.
Proof. solve_decision. Defined.
#[export] Instance Position_countable : Countable Position.
Proof.
  apply (inj_countable' (λ p, (Line p, Character p)) (λ q, mkPosition q.1 q.2)).
  by intros [].
Defined.
#[export] Instance Range_countable : Countable Range.
Proof.
  apply (inj_countable' (λ r, (RStart r, REnd r)) (λ q, mkRange q.1 q.2)).
  by intros [].
Defined.

(** Order of positions in a text: by line, then by character. *)
Definition pos_le (p q : Position) : Prop :=
  (Line p < Line q ∨ (Line p = Line q ∧ Character p ≤ Character q))%Z.
#[export] Instance pos_le_dec : RelDecision pos_le.
Proof. intros p q. unfold pos_le. apply _. Defined.

(** The zero values Go gives to declared variables. *)
Definition zero_Position : Position := mkPosition 0 0.
Definition zero_Range : Range := mkRange zero_Position zero_Position.
