(* ===== verification/TextOffset.v ===== *)
(** * Conversion between byte offsets and protocol positions

    Models [src/ulsp/internal/protocol/mapper.go]: the table of line starts,
    [PositionOffset] (UTF-16 position to byte offset) and [OffsetPosition]
    (byte offset to UTF-16 position).  The table is computed from the content
    when it is needed, as [initLines] does once; the content of a mapper never
    changes, so computing it again gives the same table.

    Shown: the table is the strictly increasing list of line starts; both
    conversions are total and stay in bounds on every content, also on text
    that is not UTF-8; on UTF-8 text they are exact at every rune boundary and
    inverse to each other, up to the code's treatment of a carriage return
    before a line end. *)

From stdpp Require Import base list strings.
From Stdlib Require Import ZArith Lia.
From S2P Require Import Prelude Utf8 Protocol.

Local Open Scope Z_scope.

Record TextOffsetMapper := mkTextOffsetMapper { Content : bytes }.

Definition NewTextOffsetMapper (content : bytes) : TextOffsetMapper :=
  mkTextOffsetMapper content.

Definition NL : Z := 10.
Definition CR : Z := 13.

(** The loop of [initLines] at byte [offset], with the table built so far. *)
Fixpoint initLines_loop (offset : Z) (content : bytes) (lineStart : list Z)
    (nonASCII : bool) : list Z * bool :=
  match content with
  | [] => (lineStart, nonASCII)
  | b :: content' =>
    initLines_loop (offset + 1) content'
      (if b =? NL then lineStart ++ [offset + 1] else lineStart)
      (if RuneSelf <=? b then true else nonASCII)
  end.

Definition initLines (m : TextOffsetMapper) : list Z * bool :=
  initLines_loop 0 (Content m) [0] false.

(** The loop of [PositionOffset]: advance bytes up to the required number of
    UTF-16 codes.  Every iteration that goes on drops at least one byte, so
    the length of the content is fuel enough ([advance_total]). *)
Fixpoint advance (fuel : nat) (content : bytes) (col16 col8 char : Z) : gores Z :=
  match fuel with
  | O => Fuel
  | S fuel' =>
    if col16 <? char then
      let '(r, sz) := DecodeRune content in
      if sz =? 0 then Err (EText "column is beyond end of file")
      else if r =? NL then Err (EText "column is beyond end of line")
      else if (sz =? 1) && (r =? RuneError) then
        Err (EText "buffer contains invalid UTF-8 text")
      else
        let content' := drop (Z.to_nat sz) content in
        if 0x10000 <=? r then
          if col16 + 1 =? char then Ok col8
          else advance fuel' content' (col16 + 1 + 1) (col8 + sz) char
        else advance fuel' content' (col16 + 1) (col8 + sz) char
    else Ok col8
  end.

Definition PositionOffset (m : TextOffsetMapper) (p : Position) : gores Z :=
  let '(lineStart, _) := initLines m in
  let n := uint32 (zlen lineStart) in
  if n <? Line p then Err (EText "line number out of range")
  else if Line p =? n then
    if Character p =? 0 then Ok (zlen (Content m))
    else Err (EText "column is beyond end of file")
  else
    offset <-? go_index lineStart (Line p);;
    content <-? slice_from (Content m) offset;;
    col8 <-? advance (S (length content)) content 0 0 (Character p);;
    Ok (offset + col8).

(** [UTF16Len]: the number of codes in the UTF-16 transcoding. *)
Fixpoint UTF16Len_loop (fuel : nat) (s : bytes) (n : Z) : Z :=
  match fuel, s with
  | S fuel', b :: s' =>
    if b <? 0x80 then UTF16Len_loop fuel' s' (n + 1)
    else
      let '(r, size) := DecodeRune s in
      UTF16Len_loop fuel' (drop (Z.to_nat size) s)
        (if 0x10000 <=? r then n + 1 + 1 else n + 1)
  | _, _ => n
  end.
Definition UTF16Len (s : bytes) : Z := UTF16Len_loop (length s) s 0.

(** [line]: the line of a valid offset, its start, and whether the offset
    denotes a carriage return at the line's end. *)
Definition line (m : TextOffsetMapper) (offset : Z) : gores (Z * Z * bool) :=
  let '(lineStart, _) := initLines m in
  let line := sort_Search (zlen lineStart)
    (λ i, offset <? default 0 (lineStart !! Z.to_nat i)) in
  eol <-? (if line =? zlen lineStart then Ok (zlen (Content m))
         else s <-? go_index lineStart line;; Ok (s - 1));;
  cr <-? (if (offset =? eol) && (0 <? offset) then
          b <-? go_index (Content m) (offset - 1);; Ok (b =? CR)
        else Ok false);;
  start <-? go_index lineStart (line - 1);;
  Ok (line - 1, start, cr).

Definition lineCol16 (m : TextOffsetMapper) (offset : Z) : gores (Z * Z) :=
  let? (line, start, cr) := line m offset in
  let '(_, nonASCII) := initLines m in
  col16 <-? (if nonASCII then
             s <-? slice_to (Content m) offset;;
             s' <-? slice_from s start;;
             Ok (UTF16Len s')
           else Ok (offset - start));;
  Ok (line, if cr then col16 - 1 else col16).

Definition OffsetPosition (m : TextOffsetMapper) (offset : Z) : gores Position :=
  if negb ((0 <=? offset) && (offset <=? zlen (Content m))) then
    Err (EText "invalid offset")
  else
    let? (line, col16) := lineCol16 m offset in
    Ok (mkPosition (uint32 line) (uint32 col16)).

(** ** The table of line starts *)

Definition count_nl (c : bytes) : Z := zlen (filter (λ b, b = NL) c).

Lemma count_nl_app a b : count_nl (a ++ b) = count_nl a + count_nl b.
Proof. unfold count_nl. by rewrite filter_app, zlen_app. Qed.
Lemma count_nl_cons b c : count_nl (b :: c) = (if b =? NL then 1 else 0) + count_nl c.
Proof.
  unfold count_nl. rewrite filter_cons. destruct (Z.eqb_spec b NL); case_decide;
    try done. by rewrite zlen_cons.
Qed.
Lemma count_nl_nonneg c : 0 ≤ count_nl c.
Proof. apply zlen_nonneg. Qed.
Lemma count_nl_le c : count_nl c ≤ zlen c.
Proof. unfold count_nl, zlen. pose proof (length_filter (λ b, b = NL) c). lia. Qed.

(** The starts of the lines of [c], for a content that begins at [off]. *)
Fixpoint starts (off : Z) (c : bytes) : list Z :=
  match c with
  | [] => []
  | b :: c' => (if b =? NL then [off + 1] else []) ++ starts (off + 1) c'
  end.

Lemma initLines_loop_spec off c ls na :
  initLines_loop off c ls na
  = (ls ++ starts off c, na || existsb (Z.leb RuneSelf) c).
Proof.
  revert off ls na. induction c as [|b c IH]; intros off ls na; simpl.
  { by rewrite app_nil_r, orb_false_r. }
  rewrite IH. f_equal.
  - destruct (b =? NL); [|done]. by rewrite <- app_assoc.
  - destruct (RuneSelf <=? b), na; done.
Qed.

Definition lineStarts (c : bytes) : list Z := 0 :: starts 0 c.

Lemma initLines_spec m :
  initLines m = (lineStarts (Content m), existsb (Z.leb RuneSelf) (Content m)).
Proof. unfold initLines. by rewrite initLines_loop_spec. Qed.

Lemma starts_app off a b : starts off (a ++ b) = starts off a ++ starts (off + zlen a) b.
Proof.
  revert off. induction a as [|x a IH]; intros off; simpl.
  { by rewrite zlen_nil, Z.add_0_r. }
  rewrite IH, zlen_cons, <- app_assoc. do 3 f_equal. lia.
Qed.

Lemma zlen_starts off c : zlen (starts off c) = count_nl c.
Proof.
  revert off. induction c as [|b c IH]; intros off; simpl; [done|].
  rewrite zlen_app, IH, count_nl_cons. by destruct (b =? NL).
Qed.

Lemma starts_bounds off c k s :
  starts off c !! k = Some s → off + 1 ≤ s ≤ off + zlen c.
Proof.
  revert off k. induction c as [|b c IH]; intros off k; simpl; [done|].
  rewrite lookup_app_Some. intros [H|[_ H]].
  - destruct (b =? NL); [|done]. apply list_lookup_singleton_Some in H as [_ <-].
    rewrite zlen_cons. pose proof (zlen_nonneg c). lia.
  - apply IH in H. rewrite zlen_cons. lia.
Qed.

Lemma zlen_lineStarts c : zlen (lineStarts c) = 1 + count_nl c.
Proof. unfold lineStarts. by rewrite zlen_cons, zlen_starts. Qed.

(** A prefix that is empty or ends in a newline: a line starts after it. *)
Definition line_boundary (a : bytes) : Prop := a = [] ∨ last a = Some NL.

Lemma lineStarts_lookup a b :
  line_boundary a → lineStarts (a ++ b) !! Z.to_nat (count_nl a) = Some (zlen a).
Proof.
  unfold lineStarts. intros [->|Ha]; [done|].
  apply last_Some in Ha as [a' ->].
  rewrite count_nl_app. change (count_nl [NL]) with 1.
  replace (Z.to_nat (count_nl a' + 1)) with (S (Z.to_nat (count_nl a')))
    by (pose proof (count_nl_nonneg a'); lia).
  simpl. rewrite <- app_assoc, starts_app.
  rewrite lookup_app_r by (rewrite <- (zlen_starts 0); unfold zlen; lia).
  rewrite <- (zlen_starts 0) at 1. unfold zlen at 1.
  replace (Z.to_nat _ - _)%nat with 0%nat by lia. simpl.
  by rewrite zlen_app.
Qed.

Lemma starts_no_nl off c : NL ∉ c → starts off c = [].
Proof.
  revert off. induction c as [|b c IH]; intros off Hc; simpl; [done|].
  apply not_elem_of_cons in Hc as [Hb Hc].
  destruct (Z.eqb_spec b NL); [congruence|]. by apply IH.
Qed.

Lemma count_nl_none c : NL ∉ c → count_nl c = 0.
Proof. intros Hc. by rewrite <- (zlen_starts 0), starts_no_nl. Qed.

(** The table around a line [l] that begins after the line boundary [a]. *)
Lemma lineStarts_split a l b :
  NL ∉ l → lineStarts (a ++ l ++ b) = lineStarts a ++ starts (zlen a + zlen l) b.
Proof.
  intros Hl. unfold lineStarts. by rewrite !starts_app, (starts_no_nl _ l).
Qed.

Lemma lineStarts_le a k s : lineStarts a !! k = Some s → 0 ≤ s ≤ zlen a.
Proof.
  destruct k; simpl.
  - intros [= <-]. split; [done|apply zlen_nonneg].
  - intros H%starts_bounds. lia.
Qed.

Lemma starts_increasing off c i j x y :
  (i < j)%nat → starts off c !! i = Some x → starts off c !! j = Some y → x < y.
Proof.
  revert off i j. induction c as [|b c IH]; intros off i j Hij; simpl; [done|].
  destruct (b =? NL); simpl; [|eauto].
  destruct i, j; simpl; try lia.
  - intros [= <-] H%starts_bounds. lia.
  - intros Hx Hy. eapply IH; [|apply Hx|apply Hy]. lia.
Qed.

(** The table is strictly increasing. *)
Lemma lineStarts_increasing c i j x y :
  (i < j)%nat → lineStarts c !! i = Some x → lineStarts c !! j = Some y → x < y.
Proof.
  destruct i, j; simpl; try lia.
  - intros _ [= <-] H%starts_bounds. lia.
  - intros ? Hx Hy. eapply starts_increasing; [|apply Hx|apply Hy]. lia.
Qed.

Lemma go_index_lookup {A} (l : list A) i x :
  0 ≤ i → l !! Z.to_nat i = Some x → go_index l i = Ok x.
Proof. intros Hi Hl. unfold go_index. by rewrite bool_decide_true, Hl. Qed.

Lemma lineStarts_some c i :
  0 ≤ i < zlen (lineStarts c) → ∃ s, lineStarts c !! Z.to_nat i = Some s.
Proof. intros Hi. apply lookup_lt_is_Some. unfold zlen in Hi. lia. Qed.

(** The binary search of [line] finds the line that holds the offset. *)
Lemma line_search a l b :
  NL ∉ l →
  let ls := lineStarts (a ++ l ++ b) in
  sort_Search (zlen ls) (λ i, zlen a + zlen l <? default 0 (ls !! Z.to_nat i))
  = 1 + count_nl a.
Proof.
  intros Hl ls. pose proof (count_nl_nonneg a). pose proof (zlen_nonneg l).
  assert (Hls : ls = lineStarts a ++ starts (zlen a + zlen l) b)
    by by apply lineStarts_split.
  apply sort_Search_unique.
  - intros i j Hij Hj. rewrite !Z.ltb_lt.
    destruct (decide (i = j)) as [->|]; [done|].
    destruct (lineStarts_some (a ++ l ++ b) i) as [x Hx]; [fold ls; lia|].
    destruct (lineStarts_some (a ++ l ++ b) j) as [y Hy]; [fold ls; lia|].
    fold ls in Hx, Hy. rewrite Hx, Hy. simpl.
    assert (x < y) by (eapply lineStarts_increasing; [|apply Hx|apply Hy]; lia).
    lia.
  - subst ls. rewrite zlen_lineStarts, count_nl_app.
    pose proof (count_nl_nonneg (l ++ b)). lia.
  - intros k Hk. apply Z.ltb_ge. rewrite Hls, lookup_app_l.
    + destruct (lineStarts_some a k) as [x Hx]; [rewrite zlen_lineStarts; lia|].
      rewrite Hx. simpl. apply lineStarts_le in Hx. lia.
    + pose proof (zlen_lineStarts a). unfold zlen in *. lia.
  - intros k Hk. apply Z.ltb_lt. rewrite Hls in *.
    rewrite lookup_app_r by (pose proof (zlen_lineStarts a); unfold zlen in *; lia).
    destruct (lookup_lt_is_Some_2 (starts (zlen a + zlen l) b)
      (Z.to_nat k - length (lineStarts a))) as [x Hx].
    { pose proof (zlen_lineStarts a). rewrite zlen_app in Hk. unfold zlen in *. lia. }
    rewrite Hx. simpl. apply starts_bounds in Hx. lia.
Qed.

(** Whether the offset after [l] is a carriage return at the end of its line. *)
Definition at_cr (l b : bytes) : bool :=
  bool_decide (last l = Some CR) && bool_decide (head b = None ∨ head b = Some NL).

(** The end of the line that [line] computes, for a line followed by [b]. *)
Definition eol_of (ls : list Z) (len i : Z) : gores Z :=
  if i =? zlen ls then Ok len else s <-? go_index ls i;; Ok (s - 1).

Lemma eol_split a l b :
  NL ∉ l →
  ∃ eol, eol_of (lineStarts (a ++ l ++ b)) (zlen (a ++ l ++ b)) (1 + count_nl a) = Ok eol ∧
    (eol = zlen a + zlen l ↔ head b = None ∨ head b = Some NL) ∧
    zlen a + zlen l ≤ eol.
Proof.
  intros Hl. unfold eol_of. rewrite lineStarts_split by done.
  pose proof (count_nl_nonneg a). pose proof (zlen_nonneg b).
  rewrite !zlen_app, zlen_lineStarts, zlen_starts.
  destruct (Z.eqb_spec (1 + count_nl a) (1 + count_nl a + count_nl b)) as [Heq|Hne].
  - eexists; split; [done|]. split; [|lia]. destruct b as [|x b]; simpl.
    { rewrite zlen_nil. split; [auto|lia]. }
    rewrite count_nl_cons in Heq. pose proof (count_nl_nonneg b).
    destruct (Z.eqb_spec x NL); [lia|]. rewrite zlen_cons.
    pose proof (zlen_nonneg b). split; [lia|]. intros [|]; congruence.
  - destruct (lookup_lt_is_Some_2 (starts (zlen a + zlen l) b) 0%nat) as [x Hx].
    { pose proof (zlen_starts (zlen a + zlen l) b). pose proof (count_nl_nonneg b).
      unfold zlen in *. lia. }
    rewrite (go_index_lookup _ _ x); [|lia|].
    2:{ rewrite lookup_app_r; [|pose proof (zlen_lineStarts a); unfold zlen in *; lia].
        rewrite <- Hx. f_equal. pose proof (zlen_lineStarts a). unfold zlen in *. lia. }
    eexists; split; [done|]. pose proof (starts_bounds _ _ _ _ Hx).
    split; [|lia]. destruct b as [|y b]; [done|]. simpl in *.
    destruct (Z.eqb_spec y NL) as [->|]; simpl in Hx.
    { injection Hx as <-. split; [auto|lia]. }
    apply starts_bounds in Hx. split; [lia|]. intros [|]; congruence.
Qed.

Lemma last_lookup_app a l b (x : Z) :
  last l = Some x → (a ++ l ++ b) !! Z.to_nat (zlen a + zlen l - 1) = Some x.
Proof.
  intros [l' ->]%last_Some. rewrite !app_assoc, <- (app_assoc _ _ b).
  rewrite lookup_app_r by (unfold zlen; rewrite !length_app; simpl; lia).
  replace (Z.to_nat _ - _)%nat with 0%nat; [done|].
  unfold zlen. rewrite !length_app. simpl. lia.
Qed.

(** The byte before the offset is a carriage return only if the line's text
    ends in one. *)
Lemma cr_lookup a l b :
  line_boundary a → 0 < zlen a + zlen l →
  ∃ x, go_index (a ++ l ++ b) (zlen a + zlen l - 1) = Ok x ∧
    (x = CR ↔ last l = Some CR).
Proof.
  intros Ha Hpos. destruct l as [|y l] using rev_ind.
  - destruct Ha as [->|Ha]; [by cbn in Hpos|].
    exists NL. rewrite app_nil_l in *. split; [|done].
    apply go_index_lookup; [lia|].
    pose proof (last_lookup_app [] a b NL Ha) as H.
    rewrite zlen_nil in *. rewrite Z.add_0_r. by rewrite Z.add_0_l in H.
  - exists y. rewrite last_snoc. split; [|by split; congruence].
    apply go_index_lookup; [lia|]. apply last_lookup_app. by rewrite last_snoc.
Qed.

Lemma line_split a l b :
  line_boundary a → NL ∉ l →
  line (mkTextOffsetMapper (a ++ l ++ b)) (zlen a + zlen l)
  = Ok (count_nl a, zlen a, at_cr l b).
Proof.
  intros Ha Hl. unfold line. rewrite initLines_spec. cbn [Content].
  rewrite (line_search a l b Hl). cbn zeta.
  pose proof (count_nl_nonneg a). pose proof (zlen_nonneg a). pose proof (zlen_nonneg l).
  rewrite (go_index_lookup (lineStarts (a ++ l ++ b)) (1 + count_nl a - 1) (zlen a)).
  2: lia.
  2:{ replace (1 + count_nl a - 1) with (count_nl a) by lia. by apply lineStarts_lookup. }
  destruct (eol_split a l b Hl) as (eol&Heol&Hiff&Hle). unfold eol_of in Heol.
  rewrite Heol. cbn [rbind].
  replace (1 + count_nl a - 1) with (count_nl a) by lia. unfold at_cr.
  destruct (Z.eqb_spec (zlen a + zlen l) eol) as [Heq|Hne]; cbn [andb].
  2:{ rewrite (bool_decide_false (_ ∨ _)) by (intros Hh; apply Hne; symmetry; by apply Hiff).
      by rewrite andb_false_r. }
  rewrite (bool_decide_true (_ ∨ _)) by (by apply Hiff). rewrite andb_true_r.
  destruct (Z.ltb_spec 0 (zlen a + zlen l)) as [Hpos|Hneg].
  - destruct (cr_lookup a l b Ha Hpos) as (x&Hx&Hcr). rewrite Hx. cbn [rbind].
    do 2 f_equal. destruct (Z.eqb_spec x CR) as [Hx'|Hx']; symmetry.
    + apply bool_decide_true. by apply Hcr.
    + apply bool_decide_false. intros Hl'. apply Hx'. by apply Hcr.
  - cbn [rbind]. do 2 f_equal. symmetry. apply bool_decide_false.
    destruct l; [done|]. rewrite zlen_cons in Hneg. pose proof (zlen_nonneg l). lia.
Qed.

(** ** Totality and bounds on every content *)

Lemma split_line (c : bytes) : ∃ a l, c = a ++ l ∧ line_boundary a ∧ NL ∉ l.
Proof.
  induction c as [|b c (a&l&->&Ha&Hl)] using rev_ind.
  { exists [], []. repeat split; [by left|apply not_elem_of_nil]. }
  destruct (decide (b = NL)) as [->|Hb].
  - exists (a ++ l ++ [NL]), []. rewrite app_nil_r, app_assoc.
    repeat split; [|apply not_elem_of_nil]. right. by rewrite last_snoc.
  - exists a, (l ++ [b]). rewrite app_assoc. repeat split; [done|].
    rewrite elem_of_app, list_elem_of_singleton. intros [|]; congruence.
Qed.

Lemma split_at {A} (c : list A) n : 0 ≤ n ≤ zlen c → ∃ p q, c = p ++ q ∧ zlen p = n.
Proof.
  intros Hn. exists (take (Z.to_nat n) c), (drop (Z.to_nat n) c).
  rewrite take_drop. split; [done|]. unfold zlen in *. rewrite length_take. lia.
Qed.

(** The column that the code gives to the offset after the bytes [l] of a
    line, in a content of which [nonASCII] tells whether it has such bytes. *)
Definition col16_of (nonASCII : bool) (l : bytes) : Z :=
  if nonASCII then UTF16Len l else zlen l.

Lemma lineCol16_split a l b :
  line_boundary a → NL ∉ l →
  lineCol16 (mkTextOffsetMapper (a ++ l ++ b)) (zlen a + zlen l)
  = Ok (count_nl a, col16_of (existsb (Z.leb RuneSelf) (a ++ l ++ b)) l
                    - if at_cr l b then 1 else 0).
Proof.
  intros Ha Hl. unfold lineCol16. rewrite line_split by done. cbn [rbind].
  rewrite initLines_spec. cbn [Content].
  rewrite (app_assoc a l b) at 2. rewrite slice_to_app by (by rewrite zlen_app).
  cbn [rbind]. rewrite slice_from_app by done. cbn [rbind]. unfold col16_of.
  destruct (existsb _ _); cbn [rbind]; do 2 f_equal; destruct (at_cr l b); lia.
Qed.

Lemma OffsetPosition_split a l b :
  line_boundary a → NL ∉ l →
  OffsetPosition (mkTextOffsetMapper (a ++ l ++ b)) (zlen a + zlen l)
  = Ok (mkPosition (uint32 (count_nl a))
          (uint32 (col16_of (existsb (Z.leb RuneSelf) (a ++ l ++ b)) l
                   - if at_cr l b then 1 else 0))).
Proof.
  intros Ha Hl. unfold OffsetPosition. cbn [Content].
  pose proof (zlen_nonneg a). pose proof (zlen_nonneg l). pose proof (zlen_nonneg b).
  rewrite !zlen_app.
  destruct (Z.leb_spec 0 (zlen a + zlen l)); [|lia].
  destruct (Z.leb_spec (zlen a + zlen l) (zlen a + (zlen l + zlen b))); [|lia].
  cbn [negb andb]. by rewrite lineCol16_split.
Qed.

(** A byte offset is converted exactly when it is within the content, on any
    content and also inside a rune. *)
Theorem OffsetPosition_total m offset :
  (0 ≤ offset ≤ zlen (Content m) → ∃ p, OffsetPosition m offset = Ok p) ∧
  (¬ 0 ≤ offset ≤ zlen (Content m) → ∃ e, OffsetPosition m offset = Err e).
Proof.
  split; intros Ho.
  - destruct m as [c]. cbn in Ho. destruct (split_at c offset Ho) as (p&q&->&<-).
    destruct (split_line p) as (a&l&->&Ha&Hl).
    rewrite <- app_assoc, zlen_app, OffsetPosition_split by done. eauto.
  - unfold OffsetPosition.
    destruct (Z.leb_spec 0 offset), (Z.leb_spec offset (zlen (Content m)));
      simpl; eauto; lia.
Qed.

Lemma advance_total fuel content col16 col8 char :
  zlen content < Z.of_nat fuel →
  (∃ r, advance fuel content col16 col8 char = Ok r ∧ col8 ≤ r ≤ col8 + zlen content) ∨
  (∃ e, advance fuel content col16 col8 char = Err e).
Proof.
  revert content col16 col8. induction fuel as [|fuel IH]; intros content col16 col8 Hf.
  { pose proof (zlen_nonneg content). lia. }
  simpl. pose proof (zlen_nonneg content).
  destruct (col16 <? char); [|left; eexists; split; [done|lia]].
  destruct (DecodeRune content) as [r sz] eqn:Hd.
  destruct (Z.eqb_spec sz 0); [eauto|].
  destruct (r =? NL); [eauto|].
  destruct ((sz =? 1) && (r =? RuneError)); [eauto|].
  pose proof (DecodeRune_size _ _ _ Hd) as Hsz.
  assert (Hdrop : zlen (drop (Z.to_nat sz) content) = zlen content - sz)
    by (unfold zlen in *; rewrite length_drop; lia).
  destruct (0x10000 <=? r); [destruct (col16 + 1 =? char)|].
  - left. eexists; split; [done|lia].
  - destruct (IH (drop (Z.to_nat sz) content) (col16 + 1 + 1) (col8 + sz)) as [(x&->&?)|];
      [lia| |eauto]. left. eexists; split; [done|lia].
  - destruct (IH (drop (Z.to_nat sz) content) (col16 + 1) (col8 + sz)) as [(x&->&?)|];
      [lia| |eauto]. left. eexists; split; [done|lia].
Qed.

(** Hypothesis of the width theorems: the number of lines fits [uint32]. *)
Definition lines_fit (c : bytes) : Prop := 1 + count_nl c < 2 ^ 32.

(** [PositionOffset] neither panics nor loops, and an offset it returns lies
    in the content. *)
Theorem PositionOffset_total m p :
  lines_fit (Content m) → 0 ≤ Line p →
  (∃ o, PositionOffset m p = Ok o ∧ 0 ≤ o ≤ zlen (Content m)) ∨
  (∃ e, PositionOffset m p = Err e).
Proof.
  destruct m as [c]. unfold lines_fit, PositionOffset. rewrite initLines_spec.
  cbn [Content]. intros Hfit Hp. pose proof (count_nl_nonneg c).
  rewrite zlen_lineStarts, uint32_small by lia.
  destruct (Z.ltb_spec (1 + count_nl c) (Line p)); [eauto|].
  destruct (Z.eqb_spec (Line p) (1 + count_nl c)).
  { destruct (Character p =? 0); [|eauto]. left. eexists; split; [done|].
    pose proof (zlen_nonneg c). lia. }
  destruct (lineStarts_some c (Line p)) as [s Hs]; [rewrite zlen_lineStarts; lia|].
  rewrite (go_index_lookup _ _ s) by done. cbn [rbind].
  pose proof (lineStarts_le _ _ _ Hs).
  destruct (split_at c s) as (x&y&->&<-); [done|].
  rewrite slice_from_app by done. cbn [rbind].
  destruct (advance_total (S (length y)) y 0 0 (Character p)) as [(r&->&Hr)|(e&->)].
  { unfold zlen. lia. }
  - left. eexists; split; [done|]. rewrite zlen_app. pose proof (zlen_nonneg x). lia.
  - right. by exists e.
Qed.

(** ** UTF-8 text

    A text is a list of scalar values [rs]; its content is [encode rs].  The
    notions on bytes ([count_nl], [line_boundary], [at_cr]) apply to a list of
    runes as they are, and agree with those of its encoding. *)

Definition utf16_len (rs : list Z) : Z := foldr (λ r n, utf16_width r + n) 0 rs.

Lemma utf16_len_nonneg rs : 0 ≤ utf16_len rs.
Proof. induction rs; simpl; unfold utf16_width in *; [done|case_match; lia]. Qed.
Lemma utf16_len_app a b : utf16_len (a ++ b) = utf16_len a + utf16_len b.
Proof. induction a; simpl; lia. Qed.

Lemma encode_app a b : encode (a ++ b) = encode a ++ encode b.
Proof. unfold encode. by rewrite bind_app. Qed.
Lemma encode_cons r rs : encode (r :: rs) = encode_rune r ++ encode rs.
Proof. done. Qed.

Lemma utf16_len_le rs : Forall scalar rs → utf16_len rs ≤ zlen (encode rs).
Proof.
  induction 1 as [|r rs Hr _ IH]; [done|]. rewrite encode_cons, zlen_app. simpl.
  assert (utf16_width r ≤ zlen (encode_rune r)); [|lia].
  unfold utf16_width, encode_rune.
  repeat case_match; unfold zlen; simpl; lia.
Qed.

(** A byte below [RuneSelf] in the encoding is the rune itself. *)
Lemma encode_rune_ascii r : scalar r → r < RuneSelf → encode_rune r = [r].
Proof. unfold encode_rune, RuneSelf. intros _ Hr. by destruct (Z.ltb_spec r 0x80); [|lia]. Qed.

Lemma encode_rune_high r :
  scalar r → RuneSelf ≤ r → Forall (λ b, RuneSelf ≤ b) (encode_rune r).
Proof.
  intros Hr Hge. destruct (encode_rune r) as [|b rest] eqn:He; [constructor|].
  constructor.
  - destruct (decide (b < 0x80)) as [Hb|Hb]; [|unfold RuneSelf; lia].
    destruct (encode_rune_head r b rest Hr He Hb). subst. done.
  - by eapply encode_rune_tail_high.
Qed.

Lemma count_nl_high c : Forall (λ b, RuneSelf ≤ b) c → count_nl c = 0.
Proof.
  intros Hc. apply count_nl_none. intros Hin. rewrite Forall_forall in Hc.
  specialize (Hc _ Hin). unfold RuneSelf, NL in Hc. lia.
Qed.

Lemma count_nl_encode rs : Forall scalar rs → count_nl (encode rs) = count_nl rs.
Proof.
  induction 1 as [|r rs Hr _ IH]; [done|].
  rewrite encode_cons, count_nl_app, IH, count_nl_cons. f_equal.
  destruct (decide (r < RuneSelf)).
  - rewrite encode_rune_ascii, count_nl_cons by done. change (count_nl []) with 0. lia.
  - rewrite count_nl_high by (apply encode_rune_high; [done|lia]).
    unfold NL, RuneSelf in *. destruct (Z.eqb_spec r 10); lia.
Qed.

Lemma elem_of_encode b rs :
  Forall scalar rs → b < RuneSelf → b ∈ encode rs ↔ b ∈ rs.
Proof.
  intros Hrs Hb. induction Hrs as [|r rs Hr _ IH].
  { change (encode []) with (@nil Z). done. }
  rewrite encode_cons, elem_of_app, IH, elem_of_cons.
  destruct (decide (r < RuneSelf)).
  { by rewrite encode_rune_ascii, list_elem_of_singleton. }
  pose proof (encode_rune_high r Hr ltac:(lia)) as Hh. rewrite Forall_forall in Hh.
  split; intros [H|H]; auto; [specialize (Hh _ H)|]; lia.
Qed.

Lemma last_encode b rs :
  Forall scalar rs → b < RuneSelf → last (encode rs) = Some b ↔ last rs = Some b.
Proof.
  intros Hrs Hb. induction rs as [|r rs _] using rev_ind; [done|].
  apply Forall_app in Hrs as [_ [Hr _]%Forall_cons].
  rewrite last_snoc, encode_app, encode_cons. change (encode []) with (@nil Z).
  rewrite app_nil_r. destruct (decide (r < RuneSelf)).
  { by rewrite encode_rune_ascii, last_snoc. }
  pose proof (encode_rune_high r Hr ltac:(lia)) as Hh.
  split; [|intros [= ->]; lia].
  rewrite last_app. destruct (last (encode_rune r)) as [x|] eqn:Hx.
  - intros [= ->]. apply last_Some in Hx as [l' Hl']. rewrite Hl' in Hh.
    apply Forall_app in Hh as [_ [Hx _]%Forall_cons]. lia.
  - apply last_None in Hx. by apply encode_rune_nonempty in Hx.
Qed.

Lemma head_encode b rs :
  Forall scalar rs → b < RuneSelf → head (encode rs) = Some b ↔ head rs = Some b.
Proof.
  intros Hrs Hb. destruct rs as [|r rs]; [done|].
  apply Forall_cons in Hrs as [Hr _]. rewrite encode_cons.
  destruct (decide (r < RuneSelf)). { by rewrite encode_rune_ascii. }
  pose proof (encode_rune_high r Hr ltac:(lia)) as Hh.
  destruct (encode_rune r) eqn:He; [by apply encode_rune_nonempty in He|].
  apply Forall_cons in Hh as [Hz _]. simpl. split; intros [= ->]; lia.
Qed.

Lemma head_encode_None rs : head (encode rs) = None ↔ head rs = None.
Proof.
  destruct rs as [|r rs]; [done|]. rewrite encode_cons.
  destruct (encode_rune r) eqn:He; [by apply encode_rune_nonempty in He|done].
Qed.

Lemma line_boundary_encode a :
  Forall scalar a → line_boundary a → line_boundary (encode a).
Proof. intros Hs [->|H]; [by left|right]. by apply last_encode. Qed.

Lemma at_cr_encode l b :
  Forall scalar l → Forall scalar b → at_cr (encode l) (encode b) = at_cr l b.
Proof.
  intros Hl Hb. unfold at_cr. f_equal; apply bool_decide_ext.
  - by apply last_encode.
  - by rewrite head_encode_None, head_encode.
Qed.

Lemma drop_encode_rune r rest : drop (Z.to_nat (zlen (encode_rune r))) (encode_rune r ++ rest) = rest.
Proof. unfold zlen. by rewrite Nat2Z.id, drop_app_length. Qed.

Lemma UTF16Len_loop_encode fuel rs n :
  Forall scalar rs → (length (encode rs) ≤ fuel)%nat →
  UTF16Len_loop fuel (encode rs) n = n + utf16_len rs.
Proof.
  intros Hrs. revert fuel n. induction Hrs as [|r rs Hr _ IH]; intros fuel n Hf.
  { destruct fuel; simpl; lia. }
  pose proof (encode_rune_length r) as Hlen.
  pose proof (DecodeRune_encode r (encode rs) Hr) as Hd.
  pose proof (drop_encode_rune r (encode rs)) as Hdrop.
  rewrite encode_cons in *. rewrite length_app in Hf.
  destruct (encode_rune r) as [|b rest] eqn:He; [by apply encode_rune_nonempty in He|].
  destruct fuel as [|fuel]; [simpl in Hf; lia|].
  rewrite <- app_comm_cons in *. cbn [UTF16Len_loop utf16_len foldr].
  fold (utf16_len rs).
  destruct (Z.ltb_spec b 0x80).
  - destruct (encode_rune_head r b rest Hr He) as [-> ->]; [lia|]. simpl in *.
    rewrite IH by lia. unfold utf16_width. destruct (Z.leb_spec 0x10000 b); lia.
  - rewrite Hd, Hdrop, IH by (simpl in Hf; lia). unfold utf16_width.
    destruct (0x10000 <=? r); lia.
Qed.

(** [UTF16Len] counts the UTF-16 codes of a UTF-8 text. *)
Lemma UTF16Len_encode rs : Forall scalar rs → UTF16Len (encode rs) = utf16_len rs.
Proof. intros Hrs. unfold UTF16Len. by rewrite UTF16Len_loop_encode. Qed.

Lemma ascii_utf16_len rs :
  Forall scalar rs → Forall (λ b, b < RuneSelf) (encode rs) →
  zlen (encode rs) = utf16_len rs.
Proof.
  induction 1 as [|r rs Hr _ IH]; [done|]. rewrite encode_cons. intros [Hb Hbs]%Forall_app.
  rewrite zlen_app, IH by done. simpl. f_equal.
  destruct (decide (r < RuneSelf)).
  - rewrite encode_rune_ascii by done. unfold utf16_width, RuneSelf in *.
    destruct (Z.leb_spec 0x10000 r); [lia|done].
  - pose proof (encode_rune_high r Hr ltac:(lia)) as Hh.
    destruct (encode_rune r) eqn:He; [by apply encode_rune_nonempty in He|].
    apply Forall_cons in Hh as [? _]. apply Forall_cons in Hb as [? _]. lia.
Qed.

Lemma col16_of_encode (a l b : list Z) :
  Forall scalar l →
  col16_of (existsb (Z.leb RuneSelf) (a ++ encode l ++ b)) (encode l) = utf16_len l.
Proof.
  intros Hl. unfold col16_of. destruct (existsb _ _) eqn:He; [by apply UTF16Len_encode|].
  apply ascii_utf16_len; [done|]. rewrite Forall_forall. intros x Hx.
  rewrite !existsb_app in He. apply orb_false_iff in He as [_ He].
  apply orb_false_iff in He as [He _].
  destruct (Z.ltb_spec x RuneSelf) as [|Hge]; [done|].
  enough (existsb (Z.leb RuneSelf) (encode l) = true) by congruence.
  apply existsb_exists. exists x. split; [by apply list_elem_of_In|]. by apply Z.leb_le.
Qed.

(** The decoding loop over the runes [l] of a line. *)
Lemma advance_line fuel l rest col16 col8 char :
  Forall scalar l → NL ∉ l → (length (encode l) ≤ fuel)%nat →
  col16 + utf16_len l ≤ char →
  ∃ fuel', (fuel - length (encode l) ≤ fuel')%nat ∧
    advance fuel (encode l ++ rest) col16 col8 char
    = advance fuel' rest (col16 + utf16_len l) (col8 + zlen (encode l)) char.
Proof.
  intros Hl. revert fuel col16 col8.
  induction Hl as [|r l Hr _ IH]; intros fuel col16 col8 Hnl Hf Hch.
  { exists fuel. split; [lia|]. change (encode []) with (@nil Z).
    rewrite app_nil_l. f_equal; unfold zlen; simpl; lia. }
  apply not_elem_of_cons in Hnl as [Hnr Hnl].
  rewrite encode_cons in *. rewrite length_app in Hf. simpl in Hch.
  pose proof (encode_rune_length r). pose proof (utf16_len_nonneg l).
  destruct fuel as [|fuel]; [unfold zlen in *; lia|]. cbn [advance].
  assert (0 < utf16_width r) by (unfold utf16_width; case_match; lia).
  destruct (Z.ltb_spec col16 char); [|lia].
  rewrite <- app_assoc, DecodeRune_encode by done.
  destruct (Z.eqb_spec (zlen (encode_rune r)) 0); [lia|].
  destruct (Z.eqb_spec r NL); [congruence|].
  assert ((zlen (encode_rune r) =? 1) && (r =? RuneError) = false) as ->.
  { destruct (Z.eqb_spec r RuneError) as [->|]; [done|by rewrite andb_false_r]. }
  rewrite drop_encode_rune. cbn [utf16_len foldr]. fold (utf16_len l).
  rewrite length_app, zlen_app.
  unfold utf16_width in *. destruct (0x10000 <=? r) eqn:H10.
  - destruct (Z.eqb_spec (col16 + 1) char); [lia|].
    destruct (IH fuel (col16 + 1 + 1) (col8 + zlen (encode_rune r))) as (f'&Hf'&->);
      [done|unfold zlen in *; lia|lia|].
    exists f'. split; [unfold zlen in *; lia|]. f_equal; lia.
  - destruct (IH fuel (col16 + 1) (col8 + zlen (encode_rune r))) as (f'&Hf'&->);
      [done|unfold zlen in *; lia|lia|].
    exists f'. split; [unfold zlen in *; lia|]. f_equal; lia.
Qed.

(** [PositionOffset] at a line that starts after [a], reduced to its loop. *)
Lemma PositionOffset_line a c char :
  lines_fit (a ++ c) → line_boundary a →
  PositionOffset (mkTextOffsetMapper (a ++ c)) (mkPosition (count_nl a) char)
  = (col8 <-? advance (S (length c)) c 0 0 char;; Ok (zlen a + col8)).
Proof.
  unfold lines_fit, PositionOffset. rewrite initLines_spec. cbn [Content Line Character].
  intros Hfit Ha. rewrite count_nl_app in Hfit.
  pose proof (count_nl_nonneg a). pose proof (count_nl_nonneg c).
  rewrite zlen_lineStarts, count_nl_app, uint32_small by lia.
  destruct (Z.ltb_spec (1 + (count_nl a + count_nl c)) (count_nl a)); [lia|].
  destruct (Z.eqb_spec (count_nl a) (1 + (count_nl a + count_nl c))); [lia|].
  rewrite (go_index_lookup _ _ (zlen a)) by (auto using lineStarts_lookup).
  cbn [rbind]. by rewrite slice_from_app.
Qed.

Lemma advance_done fuel c col16 col8 char :
  fuel ≠ O → char ≤ col16 → advance fuel c col16 col8 char = Ok col8.
Proof.
  destruct fuel; [done|]. intros _ Hc. cbn. by destruct (Z.ltb_spec col16 char); [lia|].
Qed.

Lemma lines_fit_encode c : Forall scalar c → lines_fit c → lines_fit (encode c).
Proof. unfold lines_fit. intros Hc. by rewrite count_nl_encode. Qed.

Section utf8_text.
(** A UTF-8 text split at an offset: the lines before, the runes of the line
    before the offset, and the rest. *)
Context (a l b : list Z).
Context (Hscalar : Forall scalar (a ++ l ++ b)).
Context (Ha : line_boundary a) (Hl : NL ∉ l).

Let Ha_s : Forall scalar a.
Proof. by apply Forall_app in Hscalar as [? _]. Qed.
Let Hl_s : Forall scalar l.
Proof. by apply Forall_app in Hscalar as [_ [? _]%Forall_app]. Qed.
Let Hb_s : Forall scalar b.
Proof. by apply Forall_app in Hscalar as [_ [_ ?]%Forall_app]. Qed.

Lemma OffsetPosition_text :
  zlen (encode (a ++ l ++ b)) < 2 ^ 32 →
  OffsetPosition (NewTextOffsetMapper (encode (a ++ l ++ b))) (zlen (encode (a ++ l)))
  = Ok (mkPosition (count_nl a) (utf16_len l - if at_cr l b then 1 else 0)).
Proof.
  intros Hlen. unfold NewTextOffsetMapper. rewrite !encode_app, zlen_app in *.
  rewrite OffsetPosition_split.
  2: by apply line_boundary_encode.
  2: by rewrite elem_of_encode.
  rewrite col16_of_encode, at_cr_encode, count_nl_encode by done.
  rewrite zlen_app in Hlen. pose proof (count_nl_le (encode a)) as Hna.
  rewrite count_nl_encode in Hna by done.
  pose proof (utf16_len_le l Hl_s). pose proof (count_nl_nonneg a).
  pose proof (zlen_nonneg (encode a)). pose proof (zlen_nonneg (encode l)).
  pose proof (zlen_nonneg (encode b)). pose proof (utf16_len_nonneg l).
  rewrite (uint32_small (count_nl a)) by lia.
  rewrite uint32_small; [done|].
  unfold at_cr. destruct (bool_decide_reflect (last l = Some CR)) as [Hcr|]; simpl; [|lia].
  apply last_Some in Hcr as [l' ->]. rewrite utf16_len_app in *.
  pose proof (utf16_len_nonneg l'). change (utf16_len [CR]) with 1 in *.
  case_match; lia.
Qed.

Context (Hfit : lines_fit (a ++ l ++ b)).

(** The loop over the line [l], in a call that asks for a column after it. *)
Lemma PositionOffset_advance char :
  utf16_len l ≤ char →
  ∃ fuel, fuel ≠ O ∧
    PositionOffset (NewTextOffsetMapper (encode (a ++ l ++ b))) (mkPosition (count_nl a) char)
    = (col8 <-? advance fuel (encode b) (utf16_len l) (zlen (encode l)) char;;
       Ok (zlen (encode a) + col8)).
Proof.
  intros Hc. pose proof (lines_fit_encode _ Hscalar Hfit) as Hfit'.
  unfold NewTextOffsetMapper. rewrite encode_app in *.
  rewrite <- (count_nl_encode a) by done.
  rewrite PositionOffset_line by (auto using line_boundary_encode).
  rewrite encode_app, length_app in *.
  destruct (advance_line (S (length (encode l) + length (encode b))) l (encode b) 0 0 char)
    as (f'&Hf'&->); [done|done|lia|lia|].
  exists f'. split; [lia|done].
Qed.

Lemma PositionOffset_text :
  PositionOffset (NewTextOffsetMapper (encode (a ++ l ++ b)))
    (mkPosition (count_nl a) (utf16_len l)) = Ok (zlen (encode (a ++ l))).
Proof.
  destruct (PositionOffset_advance (utf16_len l)) as (f&Hf&->); [done|].
  rewrite advance_done by done. cbn [rbind]. by rewrite encode_app, zlen_app.
Qed.

Lemma PositionOffset_surrogate r b' :
  b = r :: b' → 0x10000 ≤ r →
  PositionOffset (NewTextOffsetMapper (encode (a ++ l ++ b)))
    (mkPosition (count_nl a) (utf16_len l + 1)) = Ok (zlen (encode (a ++ l))).
Proof.
  intros Hb Hr. pose proof Hb_s as Hbs. rewrite Hb in Hbs.
  apply Forall_cons in Hbs as [Hrs _].
  destruct (PositionOffset_advance (utf16_len l + 1)) as (f&Hf&->); [lia|].
  destruct f; [done|]. rewrite Hb, encode_cons. cbn [advance].
  rewrite DecodeRune_encode by done. pose proof (encode_rune_length r).
  destruct (Z.ltb_spec (utf16_len l) (utf16_len l + 1)); [|lia].
  destruct (Z.eqb_spec (zlen (encode_rune r)) 0); [lia|].
  unfold NL, RuneError. destruct (Z.eqb_spec r 10); [lia|].
  destruct (Z.eqb_spec r 0xFFFD); [lia|]. rewrite andb_false_r.
  destruct (Z.leb_spec 0x10000 r); [|lia]. rewrite Z.eqb_refl. cbn [rbind].
  by rewrite encode_app, zlen_app.
Qed.

Lemma PositionOffset_beyond char :
  head b = None ∨ head b = Some NL → utf16_len l < char →
  ∃ e, PositionOffset (NewTextOffsetMapper (encode (a ++ l ++ b)))
    (mkPosition (count_nl a) char) = Err e.
Proof.
  intros Hb Hc. destruct (PositionOffset_advance char) as (f&Hf&->); [lia|].
  destruct f; [done|]. cbn [advance].
  destruct (Z.ltb_spec (utf16_len l) char); [|lia].
  destruct b as [|r b']; simpl in Hb.
  { change (encode []) with (@nil Z). simpl. eauto. }
  destruct Hb as [|[= ->]]; [done|].
  rewrite encode_cons, DecodeRune_encode by (unfold scalar, NL; lia).
  cbn. eauto.
Qed.
End utf8_text.

Lemma split_line_at_cr a l b :
  line_boundary a → at_cr (a ++ l) b = at_cr l b.
Proof.
  intros Ha. unfold at_cr. f_equal. apply bool_decide_ext. rewrite last_app.
  destruct (last l) eqn:Hl; [done|]. destruct Ha as [->| ->]; [done|]. by split.
Qed.

Lemma utf16_len_snoc_cr l : last l = Some CR → ∃ l', l = l' ++ [CR] ∧ utf16_len l = utf16_len l' + 1.
Proof. intros [l' ->]%last_Some. exists l'. by rewrite utf16_len_app. Qed.

Lemma offset_position_inverse p q :
  Forall scalar (p ++ q) → zlen (encode (p ++ q)) + 1 < 2 ^ 32 →
  let m := NewTextOffsetMapper (encode (p ++ q)) in
  (pos <-? OffsetPosition m (zlen (encode p));; PositionOffset m pos)
  = Ok (zlen (encode p) - if at_cr p q then 1 else 0).
Proof.
  intros Hs Hlen. destruct (split_line p) as (a&l&->&Ha&Hl).
  rewrite <- app_assoc in *. cbn zeta.
  assert (Hfit : lines_fit (a ++ l ++ q)).
  { unfold lines_fit. rewrite <- count_nl_encode by done.
    pose proof (count_nl_le (encode (a ++ l ++ q))). lia. }
  rewrite OffsetPosition_text by (done || lia). cbn [rbind].
  rewrite split_line_at_cr by done. destruct (at_cr l q) eqn:Hcr.
  2:{ rewrite !Z.sub_0_r. by apply PositionOffset_text. }
  apply andb_prop in Hcr as [Hcr _]. apply bool_decide_eq_true in Hcr.
  apply utf16_len_snoc_cr in Hcr as (l'&->&->). rewrite Z.add_simpl_r.
  rewrite <- app_assoc in *.
  rewrite PositionOffset_text.
  - f_equal. rewrite app_assoc, (encode_app (a ++ l')), zlen_app.
    change (encode [CR]) with [CR]. unfold zlen. simpl. lia.
  - done.
  - done.
  - intros Hin. apply Hl. apply elem_of_app. by left.
  - done.
Qed.

(** The position of the end of the text [p]: the line it is on, and the
    UTF-16 column of the runes after the last newline. *)
Definition last_line (p : list Z) : list Z :=
  foldl (λ l r, if r =? NL then [] else l ++ [r]) [] p.
Definition pos_of (p : list Z) : Position :=
  mkPosition (count_nl p) (utf16_len (last_line p)).

Lemma last_line_snoc p r :
  last_line (p ++ [r]) = if r =? NL then [] else last_line p ++ [r].
Proof. unfold last_line. by rewrite foldl_app. Qed.

Lemma last_line_split p :
  ∃ a, p = a ++ last_line p ∧ line_boundary a ∧ (NL ∉ last_line p) ∧ count_nl a = count_nl p.
Proof.
  induction p as [|r p (a&Hp&Ha&Hl&Hc)] using rev_ind.
  { exists []. repeat split; [by left|apply not_elem_of_nil]. }
  rewrite last_line_snoc. destruct (Z.eqb_spec r NL) as [->|Hr].
  - exists (p ++ [NL]). rewrite app_nil_r. repeat split; [|apply not_elem_of_nil].
    right. by rewrite last_snoc.
  - exists a. rewrite app_assoc, <- Hp, count_nl_app, count_nl_cons.
    destruct (Z.eqb_spec r NL); [done|]. change (count_nl []) with 0.
    repeat split; [done| |lia].
    rewrite elem_of_app, list_elem_of_singleton. intros [|]; congruence.
Qed.

Lemma PositionOffset_pos_of p q :
  Forall scalar (p ++ q) → lines_fit (p ++ q) →
  PositionOffset (NewTextOffsetMapper (encode (p ++ q))) (pos_of p) = Ok (zlen (encode p)).
Proof.
  intros Hs Hfit. unfold pos_of. destruct (last_line_split p) as (a&Hp&Ha&Hl&<-).
  set (l := last_line p) in *. rewrite Hp, <- app_assoc in *.
  by apply PositionOffset_text.
Qed.

(** The position the code gives to the boundary between [p] and [q]. *)
Definition code_pos (p q : list Z) : Position :=
  mkPosition (count_nl p) (utf16_len (last_line p) - if at_cr p q then 1 else 0).

Lemma OffsetPosition_code_pos p q :
  Forall scalar (p ++ q) → zlen (encode (p ++ q)) < 2 ^ 32 →
  OffsetPosition (NewTextOffsetMapper (encode (p ++ q))) (zlen (encode p)) = Ok (code_pos p q).
Proof.
  intros Hs Hlen. unfold code_pos. destruct (last_line_split p) as (a&Hp&Ha&Hl&<-).
  set (l := last_line p) in *. rewrite Hp, <- app_assoc, split_line_at_cr in * by done.
  by apply OffsetPosition_text.
Qed.

Lemma lines_fit_length p :
  Forall scalar p → zlen (encode p) + 1 < 2 ^ 32 → lines_fit p.
Proof.
  intros Hs Hlen. unfold lines_fit. rewrite <- count_nl_encode by done.
  pose proof (count_nl_le (encode p)). lia.
Qed.

(** ** The conversions on UTF-8 text *)

(** On UTF-8 text, [OffsetPosition] maps the byte offset of a rune
    boundary to the number of newlines before it and the number of UTF-16
    codes since the start of its line, one less right after a carriage return
    that ends the line. *)
Theorem OffsetPosition_exact a l b :
  Forall scalar (a ++ l ++ b) → line_boundary a → NL ∉ l →
  zlen (encode (a ++ l ++ b)) < 2 ^ 32 →
  OffsetPosition (NewTextOffsetMapper (encode (a ++ l ++ b))) (zlen (encode (a ++ l)))
  = Ok (mkPosition (count_nl a) (utf16_len l - if at_cr l b then 1 else 0)).
Proof. apply OffsetPosition_text. Qed.

(** The text ["a\nx😀é\r\n"], at the offset before the carriage return. *)
Definition sample_before : list Z := [97; 10].
Definition sample_line : list Z := [120; 0x1F600; 0xE9].
Definition sample_rest : list Z := [13; 10].
Definition sample_text : list Z := sample_before ++ sample_line ++ sample_rest.
Lemma sample_scalar : Forall scalar sample_text.
Proof. apply (bool_decide_unpack _). vm_compute. exact I. Defined.
Lemma sample_boundary : line_boundary sample_before.
Proof. by right. Defined.
Lemma sample_no_nl : NL ∉ sample_line.
Proof. apply (bool_decide_unpack _). vm_compute. exact I. Defined.
Lemma sample_fit : lines_fit sample_text.
Proof. unfold lines_fit. vm_compute. reflexivity. Defined.

Lemma OffsetPosition_exact_witness :
  OffsetPosition (NewTextOffsetMapper (encode sample_text)) 9 = Ok (mkPosition 1 4).
Proof.
  exact (OffsetPosition_exact sample_before sample_line sample_rest sample_scalar
    sample_boundary sample_no_nl eq_refl).
Defined.

(** On UTF-8 text, [PositionOffset] maps a column of a line to the byte
    offset of the rune that starts there, a column inside a surrogate pair to
    the start of its rune, and fails on a column beyond the line's end. *)
Theorem PositionOffset_exact a l b :
  Forall scalar (a ++ l ++ b) → line_boundary a → NL ∉ l → lines_fit (a ++ l ++ b) →
  let m := NewTextOffsetMapper (encode (a ++ l ++ b)) in
  PositionOffset m (mkPosition (count_nl a) (utf16_len l)) = Ok (zlen (encode (a ++ l))) ∧
  (∀ r b', b = r :: b' → 0x10000 ≤ r →
    PositionOffset m (mkPosition (count_nl a) (utf16_len l + 1)) = Ok (zlen (encode (a ++ l)))) ∧
  (∀ char, head b = None ∨ head b = Some NL → utf16_len l < char →
    ∃ e, PositionOffset m (mkPosition (count_nl a) char) = Err e).
Proof.
  intros Hs Ha Hl Hfit m. split_and!.
  - by apply PositionOffset_text.
  - intros r b' -> Hr. by eapply PositionOffset_surrogate.
  - intros char Hb Hc. by apply PositionOffset_beyond.
Qed.

Lemma PositionOffset_exact_witness :
  PositionOffset (NewTextOffsetMapper (encode sample_text)) (mkPosition 1 4) = Ok 9.
Proof.
  exact (proj1 (PositionOffset_exact sample_before sample_line sample_rest
    sample_scalar sample_boundary sample_no_nl sample_fit)).
Defined.

(** C34: converting a byte offset at a rune boundary to a position and back
    gives the same offset, except right after a carriage return at a line end,
    where it gives the offset before the carriage return. *)
Theorem offset_position_roundtrip p q :
  Forall scalar (p ++ q) → zlen (encode (p ++ q)) + 1 < 2 ^ 32 →
  let m := NewTextOffsetMapper (encode (p ++ q)) in
  (pos <-? OffsetPosition m (zlen (encode p));; PositionOffset m pos)
  = Ok (zlen (encode p) - if at_cr p q then 1 else 0).
Proof. apply offset_position_inverse. Qed.

Lemma offset_position_roundtrip_witness :
  (let m := NewTextOffsetMapper (encode sample_text) in
   (pos <-? OffsetPosition m 9;; PositionOffset m pos)) = Ok 9 ∧
  (let m := NewTextOffsetMapper (encode sample_text) in
   (pos <-? OffsetPosition m 10;; PositionOffset m pos)) = Ok 9.
Proof.
  split.
  - exact (offset_position_roundtrip (sample_before ++ sample_line) sample_rest
      sample_scalar eq_refl).
  - exact (offset_position_roundtrip (sample_before ++ sample_line ++ [13]) [10]
      sample_scalar eq_refl).
Defined.

(** On every content, also one that is not UTF-8, both conversions end
    without a panic; [OffsetPosition] fails exactly on an offset outside the
    content and [PositionOffset] returns only offsets within the content. *)
Theorem conversions_total m :
  lines_fit (Content m) →
  (∀ offset, (∃ p, OffsetPosition m offset = Ok p) ↔ 0 ≤ offset ≤ zlen (Content m)) ∧
  (∀ offset, ¬ 0 ≤ offset ≤ zlen (Content m) → ∃ e, OffsetPosition m offset = Err e) ∧
  (∀ p, 0 ≤ Line p →
    (∃ o, PositionOffset m p = Ok o ∧ 0 ≤ o ≤ zlen (Content m)) ∨
    (∃ e, PositionOffset m p = Err e)).
Proof.
  intros Hfit. split_and!.
  - intros offset. destruct (OffsetPosition_total m offset) as [Hok Herr].
    split; [|by apply Hok]. intros [p Hp].
    destruct (decide (0 ≤ offset ≤ zlen (Content m))) as [|Hn]; [done|].
    destruct (Herr Hn) as [e He]. congruence.
  - intros offset. apply OffsetPosition_total.
  - intros p. by apply PositionOffset_total.
Qed.

Lemma conversions_total_witness :
  ∃ e, OffsetPosition (NewTextOffsetMapper [0xFF; 10]) 3 = Err e.
Proof.
  apply (conversions_total (NewTextOffsetMapper [0xFF; 10])); [vm_compute; done|].
  vm_compute. intros [_ H]. by apply H.
Defined.
