(* ===== verification/TextEdits.v ===== *)
(** * Content changes and text edits

    Models the text functions of [src/ulsp/mapper/lsp.go]: [ApplyContentChanges]
    (the edits a client sends), and the conversion of diffs to edit offsets and
    to protocol text edits.  A diff is a value of the library
    [diffmatchpatch]; only its data type is used.

    Shown: the edits made from a list of diffs turn the text the diffs start
    from into the text they end in, for offsets on every content and for
    protocol positions on UTF-8 text; [ApplyContentChanges] applies one change,
    and a list of changes ordered from the end of the text to its start, as the
    protocol asks, and does not for changes in other orders. *)

From stdpp Require Import base list strings.
From Stdlib Require Import ZArith Lia.
From S2P Require Import Prelude Utf8 Protocol TextOffset.

Local Open Scope Z_scope.

(** ** [diffmatchpatch.Diff] *)

Inductive Operation := DiffDelete | DiffInsert | DiffEqual.
#[export] Instance Operation_eq_dec : EqDecision Operation.
Proof. solve_decision. Defined.
Record Diff := mkDiff { DiffType : Operation; DiffText : bytes }.
Definition zero_Diff : Diff := mkDiff DiffEqual [].

(** The texts a list of diffs goes between. *)
Definition text1 (ds : list Diff) : bytes :=
  ds ≫= λ d, match DiffType d with DiffInsert => [] | _ => DiffText d end.
Definition text2 (ds : list Diff) : bytes :=
  ds ≫= λ d, match DiffType d with DiffDelete => [] | _ => DiffText d end.

(** ** [ApplyContentChanges]

    One mapper, on the initial text, serves all the changes. *)

(** [buf.Write(content[:start]); buf.Write(text); buf.Write(content[end:])] *)
Definition splice (content : bytes) (start : Z) (text : bytes) (end_ : Z) : gores bytes :=
  a <-? slice_to content start;;
  b <-? slice_from content end_;;
  Ok (a ++ text ++ b).

Definition unable : string := "unable to apply changes".

Fixpoint apply_changes (m : TextOffsetMapper) (content : bytes)
    (changes : list TextDocumentContentChangeEvent) : gores bytes :=
  match changes with
  | [] => Ok content
  | change :: changes' =>
    start <-? wrap_err unable (PositionOffset m (RStart (ChangeRange change)));;
    end_ <-? wrap_err unable (PositionOffset m (REnd (ChangeRange change)));;
    content' <-? splice content start (ChangeText change) end_;;
    apply_changes m content' changes'
  end.

Definition ApplyContentChanges (initialText : bytes)
    (changes : list TextDocumentContentChangeEvent) : gores bytes :=
  apply_changes (NewTextOffsetMapper initialText) initialText changes.

(** ** Diffs to edits *)

Record EditOffset := mkEditOffset { edit_start : Z; edit_end : Z; edit_text : bytes }.

(** The loop of [DiffsToEditOffsets], with the text and the edits so far. *)
Fixpoint DiffsToEditOffsets_loop (diffs : list Diff) (offset : Z)
    (initialText : bytes) (edits : list EditOffset) : bytes * list EditOffset :=
  match diffs with
  | [] => (initialText, edits)
  | d :: diffs' =>
    let start := offset in
    match DiffType d with
    | DiffDelete =>
      let offset := offset + zlen (DiffText d) in
      DiffsToEditOffsets_loop diffs' offset (initialText ++ DiffText d)
        (edits ++ [mkEditOffset start offset []])
    | DiffEqual =>
      DiffsToEditOffsets_loop diffs' (offset + zlen (DiffText d))
        (initialText ++ DiffText d) edits
    | DiffInsert =>
      DiffsToEditOffsets_loop diffs' offset initialText
        (edits ++ [mkEditOffset start start (DiffText d)])
    end
  end.

Definition DiffsToEditOffsets (diffs : list Diff) : bytes * list EditOffset :=
  DiffsToEditOffsets_loop diffs 0 [] [].

Definition PositionsToRange (start end_ : Position) : Range := mkRange start end_.
Definition rangeToTextEdit (r : Range) (text : bytes) : TextEdit := mkTextEdit r text.

Fixpoint EditOffsetsToTextEdits_loop (m : TextOffsetMapper) (edits : list EditOffset)
    (protocolTextEdits : list TextEdit) : gores (list TextEdit) :=
  match edits with
  | [] => Ok protocolTextEdits
  | edit :: edits' =>
    startPosition <-? OffsetPosition m (edit_start edit);;
    endPosition <-? OffsetPosition m (edit_end edit);;
    EditOffsetsToTextEdits_loop m edits' (protocolTextEdits ++
      [rangeToTextEdit (PositionsToRange startPosition endPosition) (edit_text edit)])
  end.

Definition EditOffsetsToTextEdits (initialText : bytes) (edits : list EditOffset)
    : gores (list TextEdit) :=
  EditOffsetsToTextEdits_loop (NewTextOffsetMapper initialText) edits [].

Definition DiffsToTextEdits (diffs : list Diff) : gores (list TextEdit) :=
  let '(foundText, edits) := DiffsToEditOffsets diffs in
  EditOffsetsToTextEdits foundText edits.

(** ** The edits of a list of diffs *)

Fixpoint edits_from (off : Z) (ds : list Diff) : list EditOffset :=
  match ds with
  | [] => []
  | d :: ds =>
    match DiffType d with
    | DiffDelete =>
      mkEditOffset off (off + zlen (DiffText d)) [] :: edits_from (off + zlen (DiffText d)) ds
    | DiffEqual => edits_from (off + zlen (DiffText d)) ds
    | DiffInsert => mkEditOffset off off (DiffText d) :: edits_from off ds
    end
  end.

Lemma text1_cons d ds :
  text1 (d :: ds) = (match DiffType d with DiffInsert => [] | _ => DiffText d end) ++ text1 ds.
Proof. done. Qed.
Lemma text2_cons d ds :
  text2 (d :: ds) = (match DiffType d with DiffDelete => [] | _ => DiffText d end) ++ text2 ds.
Proof. done. Qed.
Lemma text1_app ds1 ds2 : text1 (ds1 ++ ds2) = text1 ds1 ++ text1 ds2.
Proof. unfold text1. by rewrite bind_app. Qed.

Lemma DiffsToEditOffsets_loop_spec ds off txt es :
  DiffsToEditOffsets_loop ds off txt es = (txt ++ text1 ds, es ++ edits_from off ds).
Proof.
  revert off txt es. induction ds as [|d ds IH]; intros off txt es.
  { by rewrite !app_nil_r. }
  cbn [DiffsToEditOffsets_loop edits_from]. rewrite text1_cons.
  destruct (DiffType d); rewrite IH, <- ?app_assoc; done.
Qed.

Lemma DiffsToEditOffsets_spec ds : DiffsToEditOffsets ds = (text1 ds, edits_from 0 ds).
Proof. apply DiffsToEditOffsets_loop_spec. Qed.

(** Applies an edit list to a text, the last edit first. *)
Definition apply_edit (e : EditOffset) (r : gores bytes) : gores bytes :=
  c <-? r;; splice c (edit_start e) (edit_text e) (edit_end e).
Definition apply_edits (es : list EditOffset) (c : bytes) : gores bytes :=
  foldr apply_edit (Ok c) es.

Lemma splice_app a d b t n k :
  n = zlen a → k = zlen (a ++ d) → splice (a ++ d ++ b) n t k = Ok (a ++ t ++ b).
Proof.
  intros Hn Hk. unfold splice. rewrite slice_to_app by done. cbn [rbind].
  rewrite app_assoc, slice_from_app by done. done.
Qed.

Lemma apply_edits_from pre ds :
  apply_edits (edits_from (zlen pre) ds) (pre ++ text1 ds) = Ok (pre ++ text2 ds).
Proof.
  revert pre. induction ds as [|d ds IH]; intros pre; [done|].
  rewrite text1_cons, text2_cons. specialize (IH (pre ++ DiffText d)) as IHd.
  rewrite zlen_app, <- !app_assoc in IHd. unfold apply_edits in *.
  cbn [edits_from]. destruct (DiffType d); cbn [foldr].
  - rewrite IHd. cbn.
    by rewrite (splice_app pre (DiffText d) _ []) by (rewrite ?zlen_app; done).
  - rewrite app_nil_l, IH. cbn.
    apply (splice_app pre [] (text2 ds) (DiffText d)); by rewrite ?app_nil_r.
  - done.
Qed.

(** The offset edits made from a list of diffs, applied to the text the
    diffs start from, give the text they end in; the text returned with the
    edits is the one the diffs start from. *)
Theorem DiffsToEditOffsets_applies diffs :
  let '(initialText, edits) := DiffsToEditOffsets diffs in
  initialText = text1 diffs ∧ apply_edits edits initialText = Ok (text2 diffs).
Proof.
  rewrite DiffsToEditOffsets_spec. split; [done|].
  apply (apply_edits_from []).
Qed.

(** ** From offsets to protocol edits and back *)

Lemma EditOffsetsToTextEdits_loop_spec m es acc edits :
  Forall2 (λ e te,
    OffsetPosition m (edit_start e) = Ok (RStart (EditRange te)) ∧
    OffsetPosition m (edit_end e) = Ok (REnd (EditRange te)) ∧
    NewText te = edit_text e) es edits →
  EditOffsetsToTextEdits_loop m es acc = Ok (acc ++ edits).
Proof.
  intros H. revert acc. induction H as [|e te es edits (Hs&He&Ht) _ IH]; intros acc.
  { by rewrite app_nil_r. }
  cbn. rewrite Hs. cbn. rewrite He. cbn. rewrite IH, <- app_assoc. cbn.
  destruct te as [[] ?]. cbn in *. by subst.
Qed.

(** The protocol's view of a text edit as a content change. *)
Definition change_of (te : TextEdit) : TextDocumentContentChangeEvent :=
  mkChange (EditRange te) (NewText te).

Lemma apply_changes_app m c cs1 cs2 :
  apply_changes m c (cs1 ++ cs2) = (c' <-? apply_changes m c cs1;; apply_changes m c' cs2).
Proof.
  revert c. induction cs1 as [|ch cs1 IH]; intros c; [done|]. cbn.
  destruct (PositionOffset m (RStart (ChangeRange ch))); cbn; try done.
  destruct (PositionOffset m (REnd (ChangeRange ch))); cbn; try done.
  destruct (splice _ _ _ _); cbn; try done.
Qed.

(** Changes whose positions denote the offsets of [es], applied from the last
    to the first. *)
Lemma apply_changes_rev m c es edits :
  Forall2 (λ e te,
    PositionOffset m (RStart (EditRange te)) = Ok (edit_start e) ∧
    PositionOffset m (REnd (EditRange te)) = Ok (edit_end e) ∧
    NewText te = edit_text e) es edits →
  apply_changes m c (reverse (change_of <$> edits)) = apply_edits es c.
Proof.
  induction 1 as [|e te es edits (Hs&He&Ht) _ IH]; [done|].
  rewrite fmap_cons, reverse_cons, apply_changes_app, IH. cbn. fold (apply_edits es c).
  unfold apply_edit. destruct (apply_edits es c); cbn; try done.
  rewrite Hs. cbn. rewrite He. cbn. rewrite Ht.
  by destruct (splice _ _ _ _).
Qed.

(** ** Diffs of UTF-8 text *)

Definition encode_diff (d : Diff) : Diff := mkDiff (DiffType d) (encode (DiffText d)).

Lemma text1_encode ds : text1 (encode_diff <$> ds) = encode (text1 ds).
Proof.
  induction ds as [|d ds IH]; [done|].
  rewrite fmap_cons, !text1_cons, encode_app, IH. f_equal. cbn. by destruct (DiffType d).
Qed.
Lemma text2_encode ds : text2 (encode_diff <$> ds) = encode (text2 ds).
Proof.
  induction ds as [|d ds IH]; [done|].
  rewrite fmap_cons, !text2_cons, encode_app, IH. f_equal. cbn. by destruct (DiffType d).
Qed.

(** Every boundary of a diff is a position the protocol can name: none lies
    right after a carriage return that ends its line. *)
Definition cr_safe (ds : list Diff) : Prop :=
  ∀ ds1 ds2, ds = ds1 ++ ds2 → at_cr (text1 ds1) (text1 ds2) = false.

(** The edits of the diffs lie at boundaries of diffs. *)
Definition boundary (base : Z) (ds : list Diff) (n : Z) : Prop :=
  ∃ ds1 ds2, ds = ds1 ++ ds2 ∧ n = base + zlen (text1 ds1).

Lemma boundary_cons base d ds n :
  boundary (base + zlen (text1 [d])) ds n → boundary base (d :: ds) n.
Proof.
  intros (ds1&ds2&->&->). exists (d :: ds1), ds2. split; [done|].
  rewrite (text1_app [d] ds1 : text1 (d :: ds1) = _), zlen_app. lia.
Qed.
Lemma boundary_start base ds : boundary base ds base.
Proof. exists [], ds. split; [done|]. change (text1 []) with (@nil Z). rewrite zlen_nil. lia. Qed.

Lemma edits_from_boundary base ds :
  Forall (λ e, boundary base ds (edit_start e) ∧ boundary base ds (edit_end e))
    (edits_from base ds).
Proof.
  revert base. induction ds as [|d ds IH]; intros base; [constructor|].
  assert (Hlift : ∀ n, n = base + zlen (text1 [d]) →
    Forall (λ e, boundary base (d :: ds) (edit_start e) ∧
                 boundary base (d :: ds) (edit_end e)) (edits_from n ds)).
  { intros n ->. eapply Forall_impl; [apply IH|]. cbn.
    intros e [Hs He]. split; by apply boundary_cons. }
  assert (Ht1 : text1 [d] = match DiffType d with DiffInsert => [] | _ => DiffText d end).
  { unfold text1. cbn. by rewrite app_nil_r. }
  cbn [edits_from]. destruct (DiffType d) eqn:Hd; rewrite Ht1 in Hlift.
  - constructor; [|by apply Hlift]. cbn [edit_start edit_end].
    split; [apply boundary_start|]. apply boundary_cons. rewrite Ht1. apply boundary_start.
  - constructor; [split; apply boundary_start|]. apply Hlift. rewrite zlen_nil. lia.
  - by apply Hlift.
Qed.

(** A boundary of the diffs is an offset the mapper converts there and back. *)
Lemma boundary_roundtrip ds n :
  Forall scalar (text1 ds) → cr_safe ds → zlen (encode (text1 ds)) + 1 < 2 ^ 32 →
  boundary 0 (encode_diff <$> ds) n →
  ∃ p, OffsetPosition (NewTextOffsetMapper (encode (text1 ds))) n = Ok p ∧
       PositionOffset (NewTextOffsetMapper (encode (text1 ds))) p = Ok n.
Proof.
  intros Hs Hcr Hlen (ds1&ds2&Hds&->).
  apply fmap_app_inv in Hds as (rs1&rs2&->&->&->). rewrite text1_encode, Z.add_0_l.
  specialize (Hcr rs1 rs2 eq_refl). rewrite text1_app in *.
  pose proof (offset_position_inverse (text1 rs1) (text1 rs2) Hs Hlen) as Hinv.
  cbn zeta in Hinv. rewrite Hcr, Z.sub_0_r in Hinv.
  destruct (OffsetPosition _ _) as [p| | |]; try done. by exists p.
Qed.

(** C36: If the text that the diffs start from is valid UTF-8 of less than
    2^32 - 1 bytes, and no diff starts or ends right after a carriage return of it
    that a line feed follows or that ends the text, then [DiffsToTextEdits] succeeds, and applying its edits with
    [ApplyContentChanges], the last one first, turns the text the diffs start
    from into the text they end in. *)
Theorem DiffsToTextEdits_applies ds :
  Forall scalar (text1 ds) → cr_safe ds → zlen (encode (text1 ds)) + 1 < 2 ^ 32 →
  ∃ edits, DiffsToTextEdits (encode_diff <$> ds) = Ok edits ∧
    ApplyContentChanges (encode (text1 ds)) (reverse (change_of <$> edits))
    = Ok (encode (text2 ds)).
Proof.
  intros Hs Hcr Hlen. unfold DiffsToTextEdits, EditOffsetsToTextEdits, ApplyContentChanges.
  rewrite DiffsToEditOffsets_spec, text1_encode.
  set (m := NewTextOffsetMapper (encode (text1 ds))).
  assert (∃ edits, Forall2 (λ e te,
    (OffsetPosition m (edit_start e) = Ok (RStart (EditRange te)) ∧
     OffsetPosition m (edit_end e) = Ok (REnd (EditRange te)) ∧
     NewText te = edit_text e) ∧
    (PositionOffset m (RStart (EditRange te)) = Ok (edit_start e) ∧
     PositionOffset m (REnd (EditRange te)) = Ok (edit_end e) ∧
     NewText te = edit_text e)) (edits_from 0 (encode_diff <$> ds)) edits) as [edits Hed].
  { apply Forall_exists_Forall2_l. eapply Forall_impl; [apply edits_from_boundary|].
    intros e [Hb1 Hb2]. apply boundary_roundtrip in Hb1 as (p1&?&?); [|done..].
    apply boundary_roundtrip in Hb2 as (p2&?&?); [|done..].
    by exists (mkTextEdit (mkRange p1 p2) (edit_text e)). }
  exists edits. split.
  - apply (EditOffsetsToTextEdits_loop_spec m _ []). eapply Forall2_impl; [done|]. by intros ?? [].
  - rewrite (apply_changes_rev m _ (edits_from 0 (encode_diff <$> ds))).
    + rewrite <- text1_encode, <- text2_encode. apply (apply_edits_from []).
    + eapply Forall2_impl; [done|]. by intros ?? [].
Qed.

(** A replacement: ["x"], then ["é😀"] replaced by ["ab"], then ["\r\n"]. *)
Definition sample_diffs : list Diff :=
  [mkDiff DiffEqual [120]; mkDiff DiffDelete [0xE9; 0x1F600]; mkDiff DiffInsert [97; 98];
   mkDiff DiffEqual [13; 10]].

Lemma sample_diffs_cr_safe : cr_safe sample_diffs.
Proof.
  intros ds1 ds2 Hds. do 5 (destruct ds1 as [|? ds1]; [by inversion Hds; subst|]).
  by inversion Hds.
Defined.

Lemma DiffsToTextEdits_applies_witness :
  ∃ edits, DiffsToTextEdits (encode_diff <$> sample_diffs) = Ok edits ∧
    ApplyContentChanges (encode [120; 0xE9; 0x1F600; 13; 10]) (reverse (change_of <$> edits))
    = Ok [120; 97; 98; 13; 10].
Proof.
  apply (DiffsToTextEdits_applies sample_diffs).
  - apply (bool_decide_unpack _). vm_compute. exact I.
  - exact sample_diffs_cr_safe.
  - reflexivity.
Defined.

(** ** Content changes in order

    The protocol applies each change to the text that the changes before it
    produced. *)
Fixpoint apply_sequential (content : bytes)
    (changes : list TextDocumentContentChangeEvent) : gores bytes :=
  match changes with
  | [] => Ok content
  | ch :: changes' =>
    content' <-? ApplyContentChanges content [ch];; apply_sequential content' changes'
  end.

(** Replacements in a text: runes kept, runes replaced, their replacement. *)
Record Segment := mkSegment { kept : list Z; replaced : list Z; replacement : list Z }.

Fixpoint old_text (segs : list Segment) (rest : list Z) : list Z :=
  match segs with
  | [] => rest
  | s :: segs => kept s ++ replaced s ++ old_text segs rest
  end.
Fixpoint new_text (segs : list Segment) (rest : list Z) : list Z :=
  match segs with
  | [] => rest
  | s :: segs => kept s ++ replacement s ++ new_text segs rest
  end.

(** The changes that a client computes on the old text, which starts with
    [before]. *)
Fixpoint seg_changes (before : list Z) (segs : list Segment)
    : list TextDocumentContentChangeEvent :=
  match segs with
  | [] => []
  | s :: segs =>
    mkChange (mkRange (pos_of (before ++ kept s)) (pos_of (before ++ kept s ++ replaced s)))
      (encode (replacement s))
    :: seg_changes (before ++ kept s ++ replaced s) segs
  end.

Lemma apply_one_change m p d b c t :
  m = NewTextOffsetMapper (encode (p ++ d ++ b)) →
  Forall scalar (p ++ d ++ b) → lines_fit (p ++ d ++ b) →
  apply_changes m (encode (p ++ d ++ c)) [mkChange (mkRange (pos_of p) (pos_of (p ++ d))) (encode t)]
  = Ok (encode (p ++ t ++ c)).
Proof.
  intros -> Hs Hfit. cbn [apply_changes ChangeRange RStart REnd ChangeText].
  rewrite PositionOffset_pos_of by done. cbn [wrap_err rbind].
  rewrite (app_assoc p d b), PositionOffset_pos_of by (by rewrite <- app_assoc).
  cbn [wrap_err rbind]. by rewrite !encode_app, splice_app.
Qed.

Lemma apply_seg_changes before segs rest :
  let text := before ++ old_text segs rest in
  Forall scalar text → lines_fit text →
  apply_changes (NewTextOffsetMapper (encode text)) (encode text)
    (reverse (seg_changes before segs)) = Ok (encode (before ++ new_text segs rest)).
Proof.
  revert before. induction segs as [|s segs IH]; intros before text Hs Hfit; [done|].
  specialize (IH (before ++ kept s ++ replaced s)). cbn zeta in IH.
  assert (Htext : text = (before ++ kept s ++ replaced s) ++ old_text segs rest).
  { unfold text. cbn. by rewrite <- !app_assoc. }
  rewrite <- Htext in IH. cbn [seg_changes]. rewrite reverse_cons, apply_changes_app, IH by done.
  cbn [rbind]. cbn [new_text].
  rewrite !app_assoc. rewrite <- !(app_assoc (before ++ kept s)).
  apply (apply_one_change _ (before ++ kept s) _ (old_text segs rest)).
  - by rewrite Htext, <- !app_assoc.
  - rewrite Htext in Hs. by rewrite <- !app_assoc in *.
  - rewrite Htext in Hfit. by rewrite <- !app_assoc in *.
Qed.

Lemma apply_sequential_app c cs1 cs2 :
  apply_sequential c (cs1 ++ cs2)
  = (c' <-? apply_sequential c cs1;; apply_sequential c' cs2).
Proof.
  revert c. induction cs1 as [|ch cs1 IH]; intros c; [done|]. cbn [apply_sequential app].
  destruct (ApplyContentChanges c [ch]); cbn; auto.
Qed.

Lemma new_text_scalar segs rest :
  Forall (λ s, Forall scalar (replacement s)) segs →
  Forall scalar (old_text segs rest) → Forall scalar (new_text segs rest).
Proof.
  induction 1 as [|s segs Hr _ IH]; [done|]. cbn.
  rewrite !Forall_app. intros (?&?&?). auto.
Qed.

Lemma sequential_seg_changes before segs rest :
  Forall scalar (before ++ old_text segs rest) →
  Forall (λ s, Forall scalar (replacement s)) segs →
  1 + count_nl before + count_nl (old_text segs rest) + count_nl (new_text segs rest) < 2 ^ 32 →
  apply_sequential (encode (before ++ old_text segs rest))
    (reverse (seg_changes before segs)) = Ok (encode (before ++ new_text segs rest)).
Proof.
  intros Hs Hr. revert before Hs.
  induction Hr as [|s segs Hrs Hr IH]; intros before Hs Hfit; [done|].
  cbn [old_text new_text seg_changes] in *. rewrite !count_nl_app in Hfit.
  specialize (IH (before ++ kept s ++ replaced s)).
  pose proof (count_nl_nonneg (replacement s)). pose proof (count_nl_nonneg (kept s)).
  pose proof (count_nl_nonneg (old_text segs rest)).
  rewrite <- !app_assoc in IH. rewrite reverse_cons, apply_sequential_app, IH;
    [|done|rewrite !count_nl_app; lia].
  cbn [rbind apply_sequential]. unfold ApplyContentChanges.
  rewrite !(app_assoc before). rewrite !(app_assoc (before ++ kept s)).
  rewrite <- !(app_assoc (before ++ kept s)).
  rewrite (apply_one_change _ _ _ (new_text segs rest)); [done|done| |].
  - rewrite !Forall_app in Hs. rewrite !Forall_app.
    destruct Hs as (?&?&?&?). split_and!; auto using new_text_scalar.
  - unfold lines_fit. rewrite !count_nl_app. lia.
Qed.

(** A list of replacements whose positions refer to the old UTF-8 text,
    sent from the end of the text to its start, is applied by
    [ApplyContentChanges] as the protocol's one-after-the-other reading says,
    and gives the text with every replacement made. *)
Theorem ApplyContentChanges_descending segs rest :
  Forall scalar (old_text segs rest) →
  Forall (λ s, Forall scalar (replacement s)) segs →
  1 + count_nl (old_text segs rest) + count_nl (new_text segs rest) < 2 ^ 32 →
  let changes := reverse (seg_changes [] segs) in
  ApplyContentChanges (encode (old_text segs rest)) changes
  = Ok (encode (new_text segs rest)) ∧
  apply_sequential (encode (old_text segs rest)) changes
  = Ok (encode (new_text segs rest)).
Proof.
  intros Hs Hr Hfit changes. pose proof (count_nl_nonneg (new_text segs rest)). split.
  - apply (apply_seg_changes []); [done|]. unfold lines_fit. cbn. lia.
  - apply (sequential_seg_changes []); [done..|]. change (count_nl []) with 0. lia.
Qed.

Lemma ApplyContentChanges_descending_witness :
  ApplyContentChanges (encode [97; 10; 0x1F600; 98; 10; 99])
    [mkChange (mkRange (mkPosition 2 0) (mkPosition 2 1)) (encode [0xE9]);
     mkChange (mkRange (mkPosition 1 2) (mkPosition 1 3)) []]
  = Ok (encode [97; 10; 0x1F600; 10; 0xE9]).
Proof.
  refine (proj1 (ApplyContentChanges_descending
    [mkSegment [97; 10; 0x1F600] [98] []; mkSegment [10] [99] [0xE9]] [] _ _ _)).
  - apply (bool_decide_unpack _). vm_compute. exact I.
  - apply (bool_decide_unpack _). vm_compute. exact I.
  - reflexivity.
Defined.

(** With two changes of which the first moves the text the second refers
    to, [ApplyContentChanges] and the one-after-the-other reading differ: the
    code looks up every position in the initial text. *)
Theorem ApplyContentChanges_not_sequential :
  let changes := [mkChange (mkRange (mkPosition 0 0) (mkPosition 0 0)) [10];
                  mkChange (mkRange (mkPosition 1 0) (mkPosition 1 0)) [121]] in
  ApplyContentChanges [97; 97; 97; 10; 98] changes = Ok [10; 97; 97; 97; 121; 10; 98] ∧
  apply_sequential [97; 97; 97; 10; 98] changes = Ok [10; 121; 97; 97; 97; 10; 98].
Proof. split; reflexivity. Qed.
