(* ===== verification/PositionMapper.v ===== *)
(** * Mapping of positions between two versions of a document

    Models [src/ulsp/controller/doc-sync/position_mapper.go].  The diff
    algorithm [DiffMain] of the library [diffmatchpatch] is a parameter; the
    code relies on its result going from its first argument to its second.

    Shown: the offset that [diffXIndex] returns lies in the target text, is
    monotone in the given offset, keeps a byte that the diffs keep, and is
    flagged exactly when the byte is in a deleted part; a position that an
    unchanged part of UTF-8 text holds is mapped to the position of the same
    rune in the other version. *)

From stdpp Require Import base list strings.
From Stdlib Require Import ZArith Lia.
From S2P Require Import Prelude Utf8 Protocol TextOffset TextEdits.

Local Open Scope Z_scope.

(** ** [diffXIndex] *)

(** The loop, with [lastChars1], [lastChars2]: the lengths before the diff. *)
Fixpoint diffXIndex_loop (diffs : list Diff) (loc chars1 chars2 : Z)
    : Z * Z * Diff :=
  match diffs with
  | [] => (chars1, chars2, zero_Diff)
  | aDiff :: diffs' =>
    let chars1' := if bool_decide (DiffType aDiff ≠ DiffInsert)
                   then chars1 + zlen (DiffText aDiff) else chars1 in
    let chars2' := if bool_decide (DiffType aDiff ≠ DiffDelete)
                   then chars2 + zlen (DiffText aDiff) else chars2 in
    if loc <? chars1' then (chars1, chars2, aDiff)
    else diffXIndex_loop diffs' loc chars1' chars2'
  end.

Definition diffXIndex (diffs : list Diff) (loc : Z) : Z * bool :=
  let '(lastChars1, lastChars2, lastDiff) := diffXIndex_loop diffs loc 0 0 in
  if bool_decide (DiffType lastDiff = DiffDelete) then (lastChars2, true)
  else (lastChars2 + (loc - lastChars1), false).

(** ** The mapper *)

Record documentPositionMapper := mkMapper {
  modified : bool;
  baseTextOffsetMapper : option TextOffsetMapper;
  updatedTextOffsetMapper : option TextOffsetMapper;
  forwardDiffs : list Diff;
  reverseDiffs : list Diff
}.

Section mapper.
(** [dmp.DiffMain(text1, text2, false)] *)
Context (DiffMain : bytes → bytes → list Diff).

Definition NewPositionMapper (baseText updatedText : bytes) : documentPositionMapper :=
  if bool_decide (baseText = updatedText) then
    mkMapper false None None [] []
  else
    mkMapper true
      (Some (NewTextOffsetMapper baseText)) (Some (NewTextOffsetMapper updatedText))
      (DiffMain baseText updatedText) (DiffMain updatedText baseText).
End mapper.

(** The three results of [mapPosition]: the position, whether it was in a
    deleted part, and the error ([None] for [nil]); a panic is the outcome of
    the [gores]. *)
Definition mapPosition (m : documentPositionMapper) (position : Position)
    (reverse : bool) : gores (Position * bool * option error) :=
  if negb (modified m) then Ok (position, false, None)
  else
    match baseTextOffsetMapper m, updatedTextOffsetMapper m with
    | Some base, Some updated =>
      let '(sourceMapper, targetMapper, diffs) :=
        if reverse then (updated, base, reverseDiffs m)
        else (base, updated, forwardDiffs m) in
      match PositionOffset sourceMapper position with
      | Err err => Ok (position, false, Some err)
      | Panic => Panic | Fuel => Fuel
      | Ok initialOffset =>
        let '(shiftedOffset, deleted) := diffXIndex diffs initialOffset in
        match OffsetPosition targetMapper shiftedOffset with
        | Err err => Ok (position, deleted, Some err)
        | Panic => Panic | Fuel => Fuel
        | Ok result => Ok (result, deleted, None)
        end
      end
    | _, _ => Ok (position, false, Some (EText "position mapper not initialized"))
    end.

Definition MapCurrentPositionToBase (m : documentPositionMapper) (currentPosition : Position)
    : gores (Position * bool * option error) := mapPosition m currentPosition true.

Definition MapBasePositionToCurrent (m : documentPositionMapper) (position : Position)
    : gores (Position * option error) :=
  let? (pos, _, err) := mapPosition m position false in Ok (pos, err).

(** ** What [diffXIndex] computes *)

Lemma zlen_text1_cons d ds :
  zlen (text1 (d :: ds)) =
  (if bool_decide (DiffType d ≠ DiffInsert) then zlen (DiffText d) else 0) + zlen (text1 ds).
Proof. rewrite text1_cons, zlen_app. by destruct (DiffType d). Qed.
Lemma zlen_text2_cons d ds :
  zlen (text2 (d :: ds)) =
  (if bool_decide (DiffType d ≠ DiffDelete) then zlen (DiffText d) else 0) + zlen (text2 ds).
Proof. rewrite text2_cons, zlen_app. by destruct (DiffType d). Qed.

Lemma text2_app ds1 ds2 : text2 (ds1 ++ ds2) = text2 ds1 ++ text2 ds2.
Proof. unfold text2. by rewrite bind_app. Qed.

(** A structural reading of [diffXIndex]: the part of the shift that a list of
    diffs makes, and whether the byte is in a deleted part. *)
Fixpoint shift (ds : list Diff) (loc : Z) : Z * bool :=
  match ds with
  | [] => (loc, false)
  | d :: ds =>
    let n := zlen (DiffText d) in
    match DiffType d with
    | DiffInsert => let '(k, del) := shift ds loc in (n + k, del)
    | DiffDelete => if loc <? n then (0, true) else shift ds (loc - n)
    | DiffEqual =>
      if loc <? n then (loc, false)
      else let '(k, del) := shift ds (loc - n) in (n + k, del)
    end
  end.

(** The result of [diffXIndex] from the state its loop ends in. *)
Definition index_result (loc : Z) (st : Z * Z * Diff) : Z * bool :=
  let '(lastChars1, lastChars2, lastDiff) := st in
  if bool_decide (DiffType lastDiff = DiffDelete) then (lastChars2, true)
  else (lastChars2 + (loc - lastChars1), false).

Lemma diffXIndex_loop_shift ds loc c1 c2 :
  c1 ≤ loc →
  index_result loc (diffXIndex_loop ds loc c1 c2)
  = let '(k, del) := shift ds (loc - c1) in (c2 + k, del).
Proof.
  revert c1 c2. induction ds as [|d ds IH]; intros c1 c2 Hc; [done|].
  cbn [diffXIndex_loop shift]. pose proof (zlen_nonneg (DiffText d)).
  destruct (DiffType d) eqn:HT; repeat (case_bool_decide; [|try congruence]; try congruence).
  - destruct (Z.ltb_spec loc (c1 + zlen (DiffText d))), (Z.ltb_spec (loc - c1) (zlen (DiffText d)));
      try lia; [unfold index_result; rewrite HT; cbn; f_equal; lia|].
    rewrite IH by lia. by replace (loc - (c1 + zlen (DiffText d)))
      with (loc - c1 - zlen (DiffText d)) by lia.
  - destruct (Z.ltb_spec loc c1); [lia|]. rewrite IH by lia.
    destruct (shift ds (loc - c1)). f_equal. lia.
  - destruct (Z.ltb_spec loc (c1 + zlen (DiffText d))), (Z.ltb_spec (loc - c1) (zlen (DiffText d)));
      try lia; [unfold index_result; rewrite HT; cbn; f_equal; lia|].
    rewrite IH by lia. replace (loc - (c1 + zlen (DiffText d)))
      with (loc - c1 - zlen (DiffText d)) by lia.
    destruct (shift ds (loc - c1 - zlen (DiffText d))). f_equal. lia.
Qed.

Lemma diffXIndex_shift ds loc : 0 ≤ loc → diffXIndex ds loc = shift ds loc.
Proof.
  intros Hloc. change (diffXIndex ds loc) with (index_result loc (diffXIndex_loop ds loc 0 0)).
  rewrite diffXIndex_loop_shift, Z.sub_0_r by done. by destruct (shift ds loc).
Qed.

(** Induction over the diffs, one case for each kind and, where a byte is
    consumed, one for the byte in the diff and one for the byte after it. *)
Ltac shift_cases d loc :=
  cbn [shift]; rewrite ?text1_cons, ?text2_cons;
  pose proof (zlen_nonneg (DiffText d));
  destruct (DiffType d) eqn:?;
  [destruct (Z.ltb_spec loc (zlen (DiffText d))) | |
   destruct (Z.ltb_spec loc (zlen (DiffText d)))];
  autorewrite with go in *; rewrite ?app_nil_l in *; rewrite ?Z.add_0_l in *.

Lemma shift_bounds ds loc :
  0 ≤ loc ≤ zlen (text1 ds) → 0 ≤ (shift ds loc).1 ≤ zlen (text2 ds).
Proof.
  revert loc. induction ds as [|d ds IH]; intros loc; [done|].
  pose proof (zlen_nonneg (text2 ds)).
  shift_cases d loc; intros Hloc; cbn; try lia.
  - apply IH. lia.
  - specialize (IH loc ltac:(lia)). destruct (shift ds loc). cbn in *. lia.
  - specialize (IH (loc - zlen (DiffText d)) ltac:(lia)). destruct (shift ds _). cbn in *. lia.
Qed.

Lemma shift_nonneg ds loc : 0 ≤ loc → 0 ≤ (shift ds loc).1.
Proof.
  revert loc. induction ds as [|d ds IH]; intros loc Hloc; [done|].
  shift_cases d loc; cbn; try lia.
  - apply IH. lia.
  - specialize (IH loc Hloc). destruct (shift ds loc). cbn in *. lia.
  - specialize (IH (loc - zlen (DiffText d)) ltac:(lia)). destruct (shift ds _). cbn in *. lia.
Qed.

Lemma shift_mono ds x y : 0 ≤ x ≤ y → (shift ds x).1 ≤ (shift ds y).1.
Proof.
  revert x y. induction ds as [|d ds IH]; intros x y Hxy; [cbn; lia|].
  shift_cases d x.
  - destruct (Z.ltb_spec y (zlen (DiffText d))); cbn; [lia|]. apply shift_nonneg. lia.
  - destruct (Z.ltb_spec y (zlen (DiffText d))); [lia|]. apply IH. lia.
  - specialize (IH x y Hxy). destruct (shift ds x), (shift ds y). cbn in *. lia.
  - destruct (Z.ltb_spec y (zlen (DiffText d))); cbn; [lia|].
    pose proof (shift_nonneg ds (y - zlen (DiffText d)) ltac:(lia)). destruct (shift ds _). cbn in *. lia.
  - destruct (Z.ltb_spec y (zlen (DiffText d))); [lia|].
    specialize (IH (x - zlen (DiffText d)) (y - zlen (DiffText d)) ltac:(lia)).
    destruct (shift ds (x - _)), (shift ds (y - _)). cbn in *. lia.
Qed.

Lemma lookup_app_zlen {A} (a b : list A) n :
  zlen a ≤ n → (a ++ b) !! Z.to_nat n = b !! Z.to_nat (n - zlen a).
Proof.
  intros Hn. unfold zlen in *. rewrite lookup_app_r by lia. f_equal. lia.
Qed.

Lemma shift_keeps ds loc :
  0 ≤ loc → (shift ds loc).2 = false → loc < zlen (text1 ds) →
  text2 ds !! Z.to_nat (shift ds loc).1 = text1 ds !! Z.to_nat loc.
Proof.
  revert loc. induction ds as [|d ds IH]; intros loc Hloc; [done|].
  shift_cases d loc; intros Hdel Hlt; cbn [fst snd] in *.
  - done.
  - rewrite (lookup_app_zlen (DiffText d)) by done. apply IH; [lia|done|lia].
  - specialize (IH loc Hloc). pose proof (shift_nonneg ds loc Hloc).
    destruct (shift ds loc) as [k del]. cbn [fst snd] in *.
    rewrite lookup_app_zlen by lia. rewrite <- IH by done. f_equal. lia.
  - unfold zlen in *. by rewrite !lookup_app_l by lia.
  - specialize (IH (loc - zlen (DiffText d)) ltac:(lia)).
    pose proof (shift_nonneg ds (loc - zlen (DiffText d)) ltac:(lia)).
    destruct (shift ds _) as [k del]. cbn [fst snd] in *.
    rewrite !lookup_app_zlen by lia. rewrite <- IH by (done || lia). f_equal. lia.
Qed.

(** A byte of a deleted part of the source text. *)
Definition in_deleted (ds : list Diff) (loc : Z) : Prop :=
  ∃ ds1 d ds2, ds = ds1 ++ d :: ds2 ∧ DiffType d = DiffDelete ∧
    zlen (text1 ds1) ≤ loc < zlen (text1 ds1) + zlen (DiffText d).

Lemma shift_deleted ds loc : 0 ≤ loc → (shift ds loc).2 = true ↔ in_deleted ds loc.
Proof.
  intros Hloc. split.
  - revert loc Hloc. induction ds as [|d ds IH]; intros loc Hloc; [done|].
    assert (Hlift : in_deleted ds (loc - zlen (text1 [d])) → in_deleted (d :: ds) loc).
    { intros (ds1&d'&ds2&->&Hd&Hb). exists (d :: ds1), d', ds2.
      rewrite (text1_app [d] ds1 : text1 (d :: ds1) = _), zlen_app. split_and!; [done..|lia|lia]. }
    assert (Ht1 : text1 [d] = match DiffType d with DiffInsert => [] | _ => DiffText d end).
    { unfold text1. cbn. by rewrite app_nil_r. }
    rewrite Ht1 in Hlift. shift_cases d loc; intros Hdel.
    + exists [], d, ds. change (zlen (text1 [])) with 0. split_and!; [done..|lia].
    + apply Hlift, IH; [lia|done].
    + apply Hlift. rewrite Z.sub_0_r. apply IH; [lia|]. by destruct (shift ds loc).
    + done.
    + apply Hlift, IH; [lia|]. by destruct (shift ds _).
  - intros (ds1&d&ds2&->&Hd&Hb). revert loc Hloc Hb.
    induction ds1 as [|d' ds1 IH]; intros loc Hloc Hb.
    { change (zlen (text1 [])) with 0 in Hb. cbn [app shift]. rewrite Hd. by destruct (Z.ltb_spec loc (zlen (DiffText d))); [|lia]. }
    cbn [app shift]. rewrite text1_cons in Hb. pose proof (zlen_nonneg (text1 ds1)).
    destruct (DiffType d'); rewrite zlen_app, ?zlen_nil in Hb.
    + destruct (Z.ltb_spec loc (zlen (DiffText d'))); [done|]. apply IH; lia.
    + specialize (IH loc Hloc ltac:(lia)). by destruct (shift _ loc).
    + destruct (Z.ltb_spec loc (zlen (DiffText d'))); [lia|].
      specialize (IH (loc - zlen (DiffText d')) ltac:(lia) ltac:(lia)). by destruct (shift _ _).
Qed.

(** C35: for an offset of the source text, [diffXIndex] flags the offset exactly
    when its byte is in a deleted part, returns an offset within the target
    text, for a byte that is kept returns the offset of the same byte, and
    keeps the order of offsets. *)
Theorem diffXIndex_correct ds loc :
  0 ≤ loc ≤ zlen (text1 ds) →
  let '(loc', deleted) := diffXIndex ds loc in
  0 ≤ loc' ≤ zlen (text2 ds) ∧
  (deleted = true ↔ in_deleted ds loc) ∧
  (deleted = false → loc < zlen (text1 ds) →
    text2 ds !! Z.to_nat loc' = text1 ds !! Z.to_nat loc) ∧
  (∀ loc0, 0 ≤ loc0 ≤ loc → (diffXIndex ds loc0).1 ≤ loc').
Proof.
  intros Hloc. rewrite diffXIndex_shift by lia.
  pose proof (shift_bounds ds loc Hloc). pose proof (shift_deleted ds loc).
  pose proof (shift_keeps ds loc). pose proof (λ x, shift_mono ds x loc) as Hm.
  destruct (shift ds loc) as [k del]. cbn in *. split_and!; [lia|lia|apply H0; lia|intros; apply H1; done || lia|].
  intros loc0 Hl. rewrite diffXIndex_shift by lia. by apply Hm.
Qed.

Lemma diffXIndex_correct_witness :
  diffXIndex [mkDiff DiffEqual [97]; mkDiff DiffDelete [98]; mkDiff DiffInsert [99; 99];
              mkDiff DiffEqual [100]] 2 = (3, false) ∧
  text2 [mkDiff DiffEqual [97]; mkDiff DiffDelete [98]; mkDiff DiffInsert [99; 99];
         mkDiff DiffEqual [100]] !! 3%nat = Some 100.
Proof.
  split; [reflexivity|].
  exact (proj1 (proj2 (proj2 (diffXIndex_correct
    [mkDiff DiffEqual [97]; mkDiff DiffDelete [98]; mkDiff DiffInsert [99; 99];
     mkDiff DiffEqual [100]] 2 (conj (Zle_bool_imp_le 0 2 eq_refl) (Zle_bool_imp_le 2 3 eq_refl)))))
    eq_refl eq_refl).
Defined.

(** ** The mapper *)

Lemma NewPositionMapper_same DiffMain t :
  NewPositionMapper DiffMain t t = mkMapper false None None [] [].
Proof. unfold NewPositionMapper. by rewrite bool_decide_true. Qed.

(** [mapPosition] from a source to a target text by the diffs between them. *)
Definition map_by (source target : bytes) (diffs : list Diff) (p : Position)
    : gores (Position * bool * option error) :=
  match PositionOffset (NewTextOffsetMapper source) p with
  | Err err => Ok (p, false, Some err)
  | Panic => Panic | Fuel => Fuel
  | Ok o =>
    let '(o', deleted) := diffXIndex diffs o in
    match OffsetPosition (NewTextOffsetMapper target) o' with
    | Err err => Ok (p, deleted, Some err)
    | Panic => Panic | Fuel => Fuel
    | Ok result => Ok (result, deleted, None)
    end
  end.

Lemma mapPosition_modified DiffMain base updated p (reverse : bool) :
  base ≠ updated →
  mapPosition (NewPositionMapper DiffMain base updated) p reverse
  = if reverse then map_by updated base (DiffMain updated base) p
    else map_by base updated (DiffMain base updated) p.
Proof.
  intros Hne. unfold NewPositionMapper. rewrite bool_decide_false by done.
  by destruct reverse.
Qed.

Lemma map_by_total source target ds p :
  text1 ds = source → text2 ds = target → lines_fit source → 0 ≤ Line p →
  (∃ q del, map_by source target ds p = Ok (q, del, None)) ∨
  (∃ e, PositionOffset (NewTextOffsetMapper source) p = Err e ∧
        map_by source target ds p = Ok (p, false, Some e)).
Proof.
  intros H1 H2 Hfit Hp. unfold map_by.
  destruct (PositionOffset_total (NewTextOffsetMapper source) p Hfit Hp)
    as [(o&->&Ho)|(e&->)]; [left|right; by exists e].
  rewrite diffXIndex_shift by lia. cbn in Ho.
  pose proof (shift_bounds ds o) as Hb. rewrite H1, H2 in Hb. specialize (Hb Ho).
  destruct (shift ds o) as [o' del]. cbn in Hb.
  destruct (proj1 (OffsetPosition_total (NewTextOffsetMapper target) o') Hb) as [q ->].
  eauto.
Qed.

(** The shift at a boundary inside a diff, after the runes [x] of its text. *)
Lemma shift_app ds1 d ds2 n :
  0 ≤ n < zlen (DiffText d) → DiffType d ≠ DiffInsert →
  shift (ds1 ++ d :: ds2) (zlen (text1 ds1) + n)
  = if bool_decide (DiffType d = DiffDelete) then (zlen (text2 ds1), true)
    else (zlen (text2 ds1) + n, false).
Proof.
  intros Hn Hd. induction ds1 as [|d' ds1 IH].
  { cbn [app shift]. change (zlen (text1 [])) with 0. change (zlen (text2 [])) with 0.
    rewrite !Z.add_0_l.
    destruct (DiffType d); try done; by destruct (Z.ltb_spec n (zlen (DiffText d))); [|lia]. }
  cbn [app shift]. rewrite text1_cons, text2_cons. pose proof (zlen_nonneg (text1 ds1)).
  destruct (DiffType d'); autorewrite with go; rewrite ?Z.add_0_l.
  - destruct (Z.ltb_spec (zlen (DiffText d') + zlen (text1 ds1) + n) (zlen (DiffText d'))); [lia|].
    replace (_ + _ + n - _) with (zlen (text1 ds1) + n) by lia. by rewrite IH.
  - rewrite IH. case_bool_decide; f_equal; lia.
  - destruct (Z.ltb_spec (zlen (DiffText d') + zlen (text1 ds1) + n) (zlen (DiffText d'))); [lia|].
    replace (_ + _ + n - _) with (zlen (text1 ds1) + n) by lia. rewrite IH.
    case_bool_decide; f_equal; lia.
Qed.

Lemma zlen_encode_pos y : y ≠ [] → 0 < zlen (encode y).
Proof.
  destruct y as [|r y]; [done|]. intros _. rewrite encode_cons, zlen_app.
  pose proof (encode_rune_length r). pose proof (zlen_nonneg (encode y)). lia.
Qed.

Lemma text1_cons_in op t ds : op ≠ DiffInsert → text1 (mkDiff op t :: ds) = t ++ text1 ds.
Proof. intros. rewrite text1_cons. by destruct op. Qed.
Lemma text2_cons_in op t ds : op ≠ DiffDelete → text2 (mkDiff op t :: ds) = t ++ text2 ds.
Proof. intros. rewrite text2_cons. by destruct op. Qed.

Section runes.
(** A position inside a diff that is not an insertion: after [x], before [y]. *)
Context (ds1 ds2 : list Diff) (op : Operation) (x y : list Z).
Context (Hop : op ≠ DiffInsert) (Hy : y ≠ []).
Let ds := ds1 ++ mkDiff op (x ++ y) :: ds2.
Context (Hs1 : Forall scalar (text1 ds)) (Hs2 : Forall scalar (text2 ds)).
Context (Hl1 : zlen (encode (text1 ds)) + 1 < 2 ^ 32).
Context (Hl2 : zlen (encode (text2 ds)) + 1 < 2 ^ 32).

Lemma map_by_runes :
  map_by (encode (text1 ds)) (encode (text2 ds)) (encode_diff <$> ds) (pos_of (text1 ds1 ++ x))
  = if bool_decide (op = DiffDelete) then Ok (code_pos (text2 ds1) (text2 ds2), true, None)
    else Ok (code_pos (text2 ds1 ++ x) (y ++ text2 ds2), false, None).
Proof.
  assert (Ht1 : text1 ds = (text1 ds1 ++ x) ++ y ++ text1 ds2).
  { unfold ds. by rewrite text1_app, text1_cons_in, <- !app_assoc. }
  unfold map_by. rewrite Ht1 in *.
  rewrite PositionOffset_pos_of by auto using lines_fit_length.
  pose proof (zlen_encode_pos y Hy). pose proof (zlen_nonneg (encode x)).
  pose proof (zlen_nonneg (encode (text1 ds1 ++ x))).
  rewrite diffXIndex_shift by done. unfold ds at 1.
  rewrite fmap_app, fmap_cons, encode_app, zlen_app, <- text1_encode.
  rewrite shift_app; [|cbn; rewrite encode_app, zlen_app; lia|done].
  cbn [DiffType encode_diff]. rewrite text2_encode. case_bool_decide as Hdel.
  - assert (Ht2 : text2 ds = text2 ds1 ++ text2 ds2).
    { unfold ds. rewrite text2_app, text2_cons. by rewrite Hdel. }
    rewrite Ht2 in *. rewrite OffsetPosition_code_pos by (done || lia). done.
  - assert (Ht2 : text2 ds = (text2 ds1 ++ x) ++ y ++ text2 ds2).
    { unfold ds. by rewrite text2_app, text2_cons_in, <- !app_assoc. }
    rewrite Ht2 in *. rewrite <- zlen_app, <- encode_app.
    rewrite OffsetPosition_code_pos by (done || lia). done.
Qed.
End runes.

(** What the code relies on of [DiffMain]: the diffs lead from the first text
    to the second. *)
Definition DiffMain_law (DiffMain : bytes → bytes → list Diff) : Prop :=
  ∀ a b, text1 (DiffMain a b) = a ∧ text2 (DiffMain a b) = b.

(** The diffs that replace the whole text: they satisfy the law. *)
Definition replace_all (a b : bytes) : list Diff := [mkDiff DiffDelete a; mkDiff DiffInsert b].
Lemma replace_all_law : DiffMain_law replace_all.
Proof. intros a b. unfold text1, text2. cbn. by rewrite !app_nil_r. Qed.

(** With diffs that lead from one version to the other, mapping a position
    in either direction neither panics nor fails to place the shifted offset:
    the only error is that of a position that is not in the source text, which
    is returned with the position unchanged. *)
Lemma mapPosition_cases DiffMain base updated p (reverse : bool) :
  DiffMain_law DiffMain → lines_fit base → lines_fit updated → 0 ≤ Line p →
  let m := NewPositionMapper DiffMain base updated in
  let source := if reverse then updated else base in
  (∃ q del, mapPosition m p reverse = Ok (q, del, None)) ∨
  (∃ e, PositionOffset (NewTextOffsetMapper source) p = Err e ∧
        mapPosition m p reverse = Ok (p, false, Some e)).
Proof.
  intros Hlaw Hb Hu Hp. destruct (decide (base = updated)) as [->|Hne].
  { rewrite NewPositionMapper_same. left. by exists p, false. }
  cbn zeta. rewrite mapPosition_modified by done.
  destruct reverse; apply map_by_total; try done; apply Hlaw.
Qed.

(** Mapping a position of the current text to the base and a position of
    the base text to the current text, when the diffs between the UTF-8 texts
    are whole runes: a position before a kept rune goes to the position of the
    same rune; a position before a deleted rune goes to where the deletion is,
    and is reported as new for the current text. *)
Theorem mapPosition_runes DiffMain ds1 op x y ds2 :
  let ds := ds1 ++ mkDiff op (x ++ y) :: ds2 in
  let source := encode (text1 ds) in
  let target := encode (text2 ds) in
  let pos' := if bool_decide (op = DiffDelete) then code_pos (text2 ds1) (text2 ds2)
              else code_pos (text2 ds1 ++ x) (y ++ text2 ds2) in
  op ≠ DiffInsert → y ≠ [] → Forall scalar (text1 ds) → Forall scalar (text2 ds) →
  zlen source + 1 < 2 ^ 32 → zlen target + 1 < 2 ^ 32 → source ≠ target →
  DiffMain source target = encode_diff <$> ds →
  MapCurrentPositionToBase (NewPositionMapper DiffMain target source)
    (pos_of (text1 ds1 ++ x)) = Ok (pos', bool_decide (op = DiffDelete), None) ∧
  MapBasePositionToCurrent (NewPositionMapper DiffMain source target)
    (pos_of (text1 ds1 ++ x)) = Ok (pos', None).
Proof.
  intros ds source target pos' Hop Hy Hs1 Hs2 Hl1 Hl2 Hne Hdm.
  unfold MapCurrentPositionToBase, MapBasePositionToCurrent.
  rewrite !mapPosition_modified by done. rewrite Hdm.
  unfold source, target, ds in *. rewrite map_by_runes by done.
  subst pos'. by case_bool_decide.
Qed.

(** The texts ["aé"] and ["xé"]: the second rune is kept. *)
Lemma mapPosition_runes_witness :
  let dm := λ a b, if bool_decide (a = [97; 0xC3; 0xA9]) then
      encode_diff <$> [mkDiff DiffDelete [97]; mkDiff DiffInsert [120; 120]; mkDiff DiffEqual [0xE9]]
    else replace_all a b in
  MapCurrentPositionToBase (NewPositionMapper dm [120; 120; 0xC3; 0xA9] [97; 0xC3; 0xA9])
    (mkPosition 0 1) = Ok (mkPosition 0 2, false, None).
Proof.
  intros dm. refine (proj1 (mapPosition_runes dm
    [mkDiff DiffDelete [97]; mkDiff DiffInsert [120; 120]] DiffEqual [] [0xE9] []
    _ _ _ _ _ _ _ _));
    first [discriminate | reflexivity | apply (bool_decide_unpack _); vm_compute; exact I].
Defined.
