(* ===== verification/Session.v ===== *)
(** * The session repository

    Models [src/ulsp/repository/session/session.go] with the session types of
    [entity/ulsp_daemon.go] and [model/ulsp_daemon.go] and their mapper.

    [Repository] is the interface of the same name, [RepositoryLaws] what its
    clients may rely on; the in-memory store is shown to satisfy the laws.
    The order in which Go ranges over a map is unspecified: the laws speak of
    the members of [GetAllFromWorkspaceRoot], never of their order. *)

From stdpp Require Import base gmap list strings.
From Stdlib Require Import ZArith Lia.
From S2P Require Import Prelude.

Local Open Scope Z_scope.

(** ** Sessions *)

Abbreviation MonorepoName := string (only parsing).

Record Session := mkSession {
  UUID : uuid;
  InitializeParams : option N;   (** pointer to the client's parameters *)
  Conn : option N;               (** pointer to the connection *)
  WorkspaceRoot : string;
  Monorepo : MonorepoName;
  Env : list string;
  UlspEnabled : bool
}.

(** [model.Session] *)
Record SessionModel := mkSessionModel {
  mUUID : uuid;
  mInitializeParams : option N;
  mConn : option N;
  mWorkspaceRoot : string;
  mMonorepo : string;
  mEnv : list string;
  mUlspEnabled : bool
}.

#[export] Instance Session_eq_dec : EqDecision Session.
Proof. solve_decision. Defined.

Definition SessionToModel (f : Session) : SessionModel :=
  mkSessionModel (UUID f) (InitializeParams f) (Conn f) (WorkspaceRoot f)
    (Monorepo f) (Env f) (UlspEnabled f).

Definition ModelToSession (f : SessionModel) : gores Session :=
  Ok (mkSession (mUUID f) (mInitializeParams f) (mConn f) (mWorkspaceRoot f)
    (mMonorepo f) (mEnv f) (mUlspEnabled f)).

Definition UUIDToSession (u : uuid) (c : option N) : Session :=
  mkSession u None c "" "" [] true.

(** A context, as far as the sources read it: the session id it carries. *)
Record Context := mkContext { SessionContextKey : option uuid }.

Definition ContextToSessionUUID (c : Context) : gores uuid :=
  match SessionContextKey c with
  | Some s => Ok s
  | None => Err ENoSessionFound
  end.

(** ** The interface *)

Class Repository (R : Type) := {
  repo_Get : R → uuid → gores Session;
  repo_GetFromContext : R → Context → gores Session;
  repo_GetAllFromWorkspaceRoot : R → string → gores (list Session);
  repo_Set : R → option Session → gores R;
  repo_Delete : R → uuid → R;
  repo_SessionCount : R → Z
}.

Class RepositoryLaws (R : Type) `{Repository R} := {
  repo_ok : R → Prop;
  repo_Set_ok r s r' : repo_ok r → repo_Set r s = Ok r' → repo_ok r';
  repo_Delete_ok r u : repo_ok r → repo_ok (repo_Delete r u);
  (** a session is stored under its own id, and a miss names the id *)
  repo_Get_cases r u : repo_ok r →
    (∃ s, repo_Get r u = Ok s ∧ UUID s = u) ∨ repo_Get r u = Err (EUUIDNotFound u);
  repo_Get_Set r s r' u : repo_Set r (Some s) = Ok r' →
    repo_Get r' u = if decide (u = UUID s) then Ok s else repo_Get r u;
  repo_Get_Delete r u v :
    repo_Get (repo_Delete r u) v
    = if decide (v = u) then Err (EUUIDNotFound v) else repo_Get r v;
  repo_Set_total r s : ∃ r', repo_Set r (Some s) = Ok r';
  repo_SessionCount_zero r : repo_ok r →
    repo_SessionCount r = 0 ↔ ∀ u, repo_Get r u = Err (EUUIDNotFound u);
  repo_GetFromContext_spec r ctx :
    repo_GetFromContext r ctx = (u <-? ContextToSessionUUID ctx;; repo_Get r u);
  repo_GetAll_spec r w : repo_ok r →
    ∃ l, repo_GetAllFromWorkspaceRoot r w = Ok l ∧ NoDup (UUID <$> l) ∧
      ∀ s, s ∈ l ↔ repo_Get r (UUID s) = Ok s ∧ WorkspaceRoot s = w
}.

(** ** The in-memory store *)

Record repository := mkRepository {
  memstore : gmap uuid SessionModel;
  active_connections : Z            (** the gauge *)
}.

Definition New : repository := mkRepository ∅ 0.

Definition Get (r : repository) (id : uuid) : gores Session :=
  match memstore r !! id with
  | None => Err (EUUIDNotFound id)
  | Some f => ModelToSession f
  end.

Definition GetFromContext (r : repository) (ctx : Context) : gores Session :=
  uuid <-? ContextToSessionUUID ctx;;
  s <-? Get r uuid;;
  Ok s.

Definition SetSession (r : repository) (f : option Session) : gores repository :=
  match f with
  | None => Err (EText "can't save nil session")
  | Some f =>
    let m := <[UUID f := SessionToModel f]> (memstore r) in
    Ok (mkRepository m (Z.of_nat (size m)))
  end.

Definition Delete (r : repository) (id : uuid) : repository :=
  let m := delete id (memstore r) in
  mkRepository m (Z.of_nat (size m)).

Definition SessionCount (r : repository) : Z := Z.of_nat (size (memstore r)).

(** The loop of [GetAllFromWorkspaceRoot] over the entries of the map. *)
Fixpoint found_in (workspaceRoot : string) (ms : list SessionModel) (found : list Session)
    : list Session :=
  match ms with
  | [] => found
  | s :: ms' =>
    found_in workspaceRoot ms'
      (if bool_decide (mWorkspaceRoot s = workspaceRoot) then
         match ModelToSession s with
         | Ok sess => found ++ [sess]
         | _ => found
         end
       else found)
  end.

Definition GetAllFromWorkspaceRoot (r : repository) (workspaceRoot : string)
    : gores (list Session) :=
  Ok (found_in workspaceRoot (map_to_list (memstore r)).*2 []).

#[export] Instance memory_repository : Repository repository := {
  repo_Get := Get;
  repo_GetFromContext := GetFromContext;
  repo_GetAllFromWorkspaceRoot := GetAllFromWorkspaceRoot;
  repo_Set := SetSession;
  repo_Delete := Delete;
  repo_SessionCount := SessionCount
}.

(** ** The laws *)

(** Every session is stored under its id, and the gauge counts them. *)
Definition repository_ok (r : repository) : Prop :=
  map_Forall (λ u m, mUUID m = u) (memstore r) ∧
  active_connections r = Z.of_nat (size (memstore r)).

Lemma New_ok : repository_ok New.
Proof. split; [apply map_Forall_empty|done]. Qed.

Lemma ModelToSession_inv f s : ModelToSession f = Ok s ↔ f = SessionToModel s.
Proof. destruct f, s. cbn. split; [by intros [= -> -> -> -> -> -> ->]|by intros [= -> -> -> -> -> -> ->]]. Qed.

Lemma found_in_spec w ms acc :
  found_in w ms acc
  = acc ++ (ms ≫= λ m, if bool_decide (mWorkspaceRoot m = w)
                       then match ModelToSession m with Ok s => [s] | _ => [] end else []).
Proof.
  revert acc. induction ms as [|m ms IH]; intros acc; cbn; [by rewrite app_nil_r|].
  rewrite IH. case_bool_decide; [by rewrite <- app_assoc|done].
Qed.

Lemma found_in_elem w ms s :
  s ∈ found_in w ms [] ↔ SessionToModel s ∈ ms ∧ WorkspaceRoot s = w.
Proof.
  rewrite found_in_spec, app_nil_l, list_elem_of_bind. split.
  - intros (m&Hs&Hm). case_bool_decide as Hw; [|by apply not_elem_of_nil in Hs].
    destruct m. cbn in *. apply list_elem_of_singleton in Hs as ->. done.
  - intros [Hm Hw]. exists (SessionToModel s). split; [|done].
    rewrite bool_decide_true by done. destruct s. by apply list_elem_of_singleton.
Qed.

Lemma found_in_uuids w ms :
  UUID <$> found_in w ms [] `sublist_of` mUUID <$> ms.
Proof.
  rewrite found_in_spec, app_nil_l. induction ms as [|m ms IH]; cbn; [done|].
  case_bool_decide; cbn; [by apply sublist_skip|by apply sublist_cons].
Qed.

Lemma map_to_list_uuids (m : gmap uuid SessionModel) :
  map_Forall (λ u s, mUUID s = u) m → mUUID <$> (map_to_list m).*2 = (map_to_list m).*1.
Proof.
  intros Hm. rewrite <- list_fmap_compose. apply list_fmap_ext.
  intros i [u s] Hi. cbn. apply (Hm u s). apply elem_of_map_to_list.
  by eapply list_elem_of_lookup_2.
Qed.

#[export] Instance memory_repository_laws : RepositoryLaws repository.
Proof.
  refine {| repo_ok := repository_ok |}.
  - intros r [s|] r' [Hm Hg]; cbn; intros [= <-]. split; cbn; [|done].
    by apply map_Forall_insert_2.
  - intros r u [Hm Hg]. split; cbn; [|done]. by apply map_Forall_delete.
  - intros r u [Hm _]. cbn. unfold Get. destruct (memstore r !! u) as [f|] eqn:Hf; [left|by right].
    eexists. split; [done|]. by apply Hm.
  - intros r s r' u. cbn. intros [= <-]. unfold Get. cbn. case_decide as Hu.
    + subst. rewrite lookup_insert_eq. by apply ModelToSession_inv.
    + by rewrite lookup_insert_ne by done.
  - intros r u v. cbn. unfold Get. cbn. case_decide as Hv.
    + subst. by rewrite lookup_delete_eq.
    + by rewrite lookup_delete_ne by done.
  - intros r s. by eexists.
  - intros r [_ _]. cbn. unfold SessionCount, Get. split.
    + intros H0 u. rewrite (map_size_empty_inv (memstore r)) by lia. by rewrite lookup_empty.
    + intros H0. assert (memstore r = ∅) as ->; [|done]. apply map_empty. intros u. specialize (H0 u).
      by destruct (memstore r !! u).
  - intros r ctx. cbn. unfold GetFromContext. destruct (ContextToSessionUUID ctx); cbn; [|done..].
    by destruct (Get r a).
  - intros r w [Hm _]. eexists. split; [done|]. split.
    + eapply sublist_NoDup; [|apply found_in_uuids].
      rewrite map_to_list_uuids by done. apply NoDup_fst_map_to_list.
    + intros s. rewrite found_in_elem. cbn. unfold Get.
      apply and_iff_compat_r. rewrite list_elem_of_fmap. split.
      * intros ([u m]&Hs&Hin). cbn in Hs. subst m. apply elem_of_map_to_list in Hin.
        pose proof (Hm _ _ Hin) as Hu. cbn in Hu. subst. rewrite Hin. by apply ModelToSession_inv.
      * destruct (memstore r !! UUID s) as [m|] eqn:Hl; [|done].
        intros ->%ModelToSession_inv. exists (UUID s, SessionToModel s). split; [done|].
        by apply elem_of_map_to_list.
Defined.

(** ** The store against a map of sessions *)

Inductive RepoOp := OpSet (s : Session) | OpDelete (u : uuid).

Definition run_op (r : repository) (op : RepoOp) : repository :=
  match op with
  | OpSet s => match SetSession r (Some s) with Ok r' => r' | _ => r end
  | OpDelete u => Delete r u
  end.
Definition run_ops : list RepoOp → repository := foldl run_op New.

Definition spec_op (m : gmap uuid Session) (op : RepoOp) : gmap uuid Session :=
  match op with OpSet s => <[UUID s := s]> m | OpDelete u => delete u m end.
Definition spec_ops : list RepoOp → gmap uuid Session := foldl spec_op ∅.

Lemma run_ops_memstore ops :
  memstore (run_ops ops) = SessionToModel <$> spec_ops ops ∧ repository_ok (run_ops ops).
Proof.
  unfold run_ops, spec_ops.
  assert (H : ∀ r m, memstore r = SessionToModel <$> m → repository_ok r →
    memstore (foldl run_op r ops) = SessionToModel <$> foldl spec_op m ops ∧
    repository_ok (foldl run_op r ops)).
  { induction ops as [|op ops IH]; intros r m Hr Hok; [done|]. cbn. apply IH.
    - destruct op; cbn; rewrite Hr; [by rewrite fmap_insert|by rewrite fmap_delete].
    - destruct op as [s|u].
      + exact (repo_Set_ok r (Some s) (run_op r (OpSet s)) Hok eq_refl).
      + exact (repo_Delete_ok r u Hok). }
  apply H; [by rewrite fmap_empty|apply New_ok].
Qed.

(** C21: After any sequence of [Set] and [Delete] on a new repository, [Get]
    returns the session last set under an id and not deleted since and an
    error naming the id otherwise, [GetAllFromWorkspaceRoot] returns exactly
    the stored sessions with that root, each once, and the session count and
    the gauge are the number of stored sessions. *)
Theorem repository_trace ops :
  (∀ u, Get (run_ops ops) u
        = match spec_ops ops !! u with Some s => Ok s | None => Err (EUUIDNotFound u) end) ∧
  (∀ w, ∃ l, GetAllFromWorkspaceRoot (run_ops ops) w = Ok l ∧ NoDup (UUID <$> l) ∧
        ∀ s, s ∈ l ↔ spec_ops ops !! UUID s = Some s ∧ WorkspaceRoot s = w) ∧
  SessionCount (run_ops ops) = Z.of_nat (size (spec_ops ops)) ∧
  active_connections (run_ops ops) = SessionCount (run_ops ops).
Proof.
  destruct (run_ops_memstore ops) as [Hm Hok].
  assert (HGet : ∀ u, Get (run_ops ops) u
    = match spec_ops ops !! u with Some s => Ok s | None => Err (EUUIDNotFound u) end).
  { intros u. unfold Get. rewrite Hm, lookup_fmap.
    destruct (spec_ops ops !! u); cbn; [by apply ModelToSession_inv|done]. }
  split_and!; [done| | |by apply Hok].
  - intros w. destruct (repo_GetAll_spec (RepositoryLaws := memory_repository_laws) (run_ops ops) w Hok) as (l&Hl&Hnd&Hin).
    exists l. split_and!; [done..|]. intros s. rewrite Hin. cbn. rewrite HGet.
    by destruct (spec_ops ops !! UUID s); split; intros [? ?]; simplify_eq.
  - unfold SessionCount. by rewrite Hm, map_size_fmap.
Qed.
