(* ===== verification/Plugins.v ===== *)
(** * Plugins and their dispatch

    Models [src/ulsp/entity/ulsp-plugin/ulsp_plugin.go], the ordering of plugin
    methods by priority in [src/ulsp/mapper/ulsp_plugin.go], and in
    [src/ulsp/controller/ulsp-daemon/ulsp_daemon.go] the registration of the
    plugins of a session and the dispatch of a request to them.

    A [Methods] value lists the function fields that are not nil.  The names
    of the protocol's methods are those of the protocol library: a parameter,
    distinct because they are the cases of one [switch]. *)

From stdpp Require Import base gmap list strings fin_maps.
From Stdlib Require Import ZArith Lia.
From S2P Require Import Prelude Session.

Local Open Scope Z_scope.

(** ** [ulsp_plugin.go] *)

(** The function fields of [Methods]. *)
Inductive MethodField :=
  | Initialize | Initialized | Shutdown | Exit
  | DidChange | DidChangeWatchedFiles | DidOpen | DidClose | WillSave | WillSaveWaitUntil
  | DidSave | WillRenameFiles | DidRenameFiles | WillCreateFiles | DidCreateFiles
  | WillDeleteFiles | DidDeleteFiles
  | CodeAction | CodeLens | CodeLensRefresh | CodeLensResolve
  | GotoDeclaration | GotoDefinition | GotoTypeDefinition | GotoImplementation | References
  | Hover | DocumentSymbol
  | ExecuteCommand | WorkDoneProgressCancel | EndSession.

#[export] Instance MethodField_eq_dec : EqDecision MethodField.
Proof. solve_decision. Defined.

Definition all_fields : list MethodField :=
  [Initialize; Initialized; Shutdown; Exit; DidChange; DidChangeWatchedFiles; DidOpen; DidClose;
   WillSave; WillSaveWaitUntil; DidSave; WillRenameFiles; DidRenameFiles; WillCreateFiles;
   DidCreateFiles; WillDeleteFiles; DidDeleteFiles; CodeAction; CodeLens; CodeLensRefresh;
   CodeLensResolve; GotoDeclaration; GotoDefinition; GotoTypeDefinition; GotoImplementation;
   References; Hover; DocumentSymbol; ExecuteCommand; WorkDoneProgressCancel; EndSession].

Definition MethodEndSession : string := "end_session".

(** The name of the method that a field implements. *)
Class ProtocolMethods := {
  MethodName : MethodField → string;
  MethodName_inj : Inj (=) (=) MethodName;
  MethodName_EndSession : MethodName EndSession = MethodEndSession
}.

Record Methods := mkMethods { PluginNameKey : string; non_nil : list MethodField }.

(** [Priority]; the constants are 0, 1 and 2. *)
Definition PriorityHigh : Z := 0.
Definition PriorityRegular : Z := 1.
Definition PriorityAsync : Z := 2.

Record PluginInfo := mkPluginInfo {
  Priorities : gmap string Z;
  PluginMethods : option Methods;
  NameKey : string;
  RelevantRepos : option (gset string)
}.

Record MethodLists := mkMethodLists { Sync : list Methods; Async : list Methods }.
Abbreviation RuntimePrioritizedMethods := (gmap string MethodLists).

(** A plugin is its [StartupInfo]; [None] is a nil plugin. *)
Record Daemon (R : Type) := mkDaemon {
  sessions : R;
  pluginMethods : gmap uuid RuntimePrioritizedMethods;
  pluginConfig : gmap string bool;
  pluginsAll : list (option (Context → gores PluginInfo))
}.
Arguments mkDaemon {R} _ _ _ _.
Arguments sessions {R} _.
Arguments pluginMethods {R} _.
Arguments pluginConfig {R} _.
Arguments pluginsAll {R} _.

(** [methodPriorityBuckets] *)
Abbreviation Buckets := (gmap string (gmap Z (list Methods))).

Section validate.
Context `{ProtocolMethods}.

(** The case of the [switch] that a key takes. *)
Definition switch_field (key : string) : option MethodField :=
  List.find (λ f, bool_decide (MethodName f = key)) all_fields.

(** The loop of [Validate] over the keys of the priorities. *)
Fixpoint validate_keys (keys : list string) (methods : Methods) : gores unit :=
  match keys with
  | [] => Ok tt
  | key :: keys' =>
    match switch_field key with
    | None => Err (EText "included in priority config, but is not a recognized method")
    | Some f =>
      if bool_decide (f ∈ non_nil methods) then validate_keys keys' methods
      else Err (EText "included in the priority configuration, but is nil in Methods")
    end
  end.

Definition Validate (m : PluginInfo) : gores unit :=
  if bool_decide (Priorities m = ∅) then Err (EText "missing Priorities field for this plugin")
  else
    match PluginMethods m with
    | None => Err (EText "missing Methods field for this plugin")
    | Some methods =>
      if bool_decide (NameKey m = "") then Err (EText "missing NameKey field for this plugin")
      else if bool_decide (PluginNameKey methods ≠ NameKey m) then
        Err (EText "missing Methods.SourcePlugin field for this plugin")
      else validate_keys (map_to_list (Priorities m)).*1 methods
    end.

(** ** [PluginInfoToRuntimePrioritizedMethods] *)

Definition add_to_bucket (methods : Methods) (buckets : Buckets) (x : string * Z) : Buckets :=
  let '(method, priority) := x in
  let bucket := default ∅ (buckets !! method) in
  <[method := <[priority := default [] (bucket !! priority) ++ [methods]]> bucket]> buckets.

(** Adds a plugin to its bucket for each method. *)
Definition add_plugin (pluginInfo : PluginInfo) (methods : Methods) (buckets : Buckets) : Buckets :=
  foldl (add_to_bucket methods) buckets (map_to_list (Priorities pluginInfo)).

Fixpoint fill_buckets (allPluginInfo : list PluginInfo) (buckets : Buckets) : gores Buckets :=
  match allPluginInfo with
  | [] => Ok buckets
  | pluginInfo :: rest =>
    _ <-? wrap_err "error validating plugin configuration" (Validate pluginInfo);;
    match PluginMethods pluginInfo with
    | None => Panic
    | Some methods => fill_buckets rest (add_plugin pluginInfo methods buckets)
    end
  end.

(** The two slices of a method, from its buckets in the order of priority. *)
Definition consolidate (buckets : gmap Z (list Methods)) : MethodLists :=
  foldl (λ current priority,
    if priority <? PriorityAsync then
      mkMethodLists (Sync current ++ default [] (buckets !! priority)) (Async current)
    else
      mkMethodLists (Sync current) (Async current ++ default [] (buckets !! priority)))
    (mkMethodLists [] []) [PriorityHigh; PriorityRegular; PriorityAsync].

Definition PluginInfoToRuntimePrioritizedMethods (allPluginInfo : list PluginInfo)
    : gores RuntimePrioritizedMethods :=
  buckets <-? fill_buckets allPluginInfo ∅;;
  Ok (consolidate <$> buckets).

(** ** The dispatch of the daemon *)

Section daemon.
Context {R : Type} `{Repository R}.

(** The plugins that are relevant to the repository of the session and enabled. *)
Fixpoint enabled_plugins (ctx : Context) (s : Session) (config : gmap string bool)
    (plugins : list (option (Context → gores PluginInfo))) : gores (list PluginInfo) :=
  match plugins with
  | [] => Ok []
  | None :: plugins' => enabled_plugins ctx s config plugins'
  | Some startupInfo :: plugins' =>
    info <-? wrap_err "getting plugin startup info" (startupInfo ctx);;
    rest <-? enabled_plugins ctx s config plugins';;
    Ok (if (match RelevantRepos info with
            | Some repos => bool_decide (Monorepo s ∈ repos)
            | None => true
            end) && default false (config !! NameKey info)
        then info :: rest else rest)
  end.

(** A failure to order the methods leaves a nil map for the session. *)
Definition registerSessionPlugins (ctx : Context) : GoM (Daemon R) unit := λ c,
  match wrap_err "getting session from context" (repo_GetFromContext (sessions c) ctx) with
  | Ok s =>
    match enabled_plugins ctx s (pluginConfig c) (pluginsAll c) with
    | Ok enabled =>
      let set methods := mkDaemon (sessions c) (<[UUID s := methods]> (pluginMethods c))
                           (pluginConfig c) (pluginsAll c) in
      match wrap_err "prioritizing plugin methods" (PluginInfoToRuntimePrioritizedMethods enabled) with
      | Ok methods => (Ok tt, set methods)
      | Err e => (Err e, set ∅)
      | Panic => (Panic, c)
      | Fuel => (Fuel, c)
      end
    | Err e => (Err e, c)
    | Panic => (Panic, c)
    | Fuel => (Fuel, c)
    end
  | Err e => (Err e, c)
  | Panic => (Panic, c)
  | Fuel => (Fuel, c)
  end.

(** [executePluginMethods] over a world [W] that the handlers act on: the
    synchronous handlers run in order, the asynchronous ones are left to
    goroutines and returned.  [None] is a nil handler. *)
Definition executePluginMethods {W : Type} (c : Daemon R) (ctx : Context) (method : string)
    (handlerSync handlerAsync : option (Methods → W → W)) (w : W) : gores (list (W → W)) * W :=
  match handlerSync, handlerAsync with
  | Some hs, Some ha =>
    match wrap_err "getting session from context" (ContextToSessionUUID ctx) with
    | Ok id =>
      match pluginMethods c !! id with
      | None => (Ok [], w)
      | Some methods =>
        match methods !! method with
        | None => (Ok [], w)
        | Some methodLists =>
          (Ok (ha <$> Async methodLists), foldl (λ w current, hs current w) w (Sync methodLists))
        end
      end
    | Err e => (Err e, w)
    | Panic => (Panic, w)
    | Fuel => (Fuel, w)
    end
  | _, _ => (Err (EText "handlers cannot be nil"), w)
  end.
End daemon.
End validate.

(** ** Valid plugins *)

Section proofs.
Context `{ProtocolMethods}.

Lemma all_fields_complete f : f ∈ all_fields.
Proof. unfold all_fields. destruct f; repeat (first [by left|right]). Qed.

Lemma switch_field_spec key f : switch_field key = Some f ↔ MethodName f = key.
Proof.
  unfold switch_field. split.
  - intros [_ Hf]%find_some. by apply bool_decide_eq_true in Hf.
  - intros Hf. destruct (List.find _ all_fields) as [g|] eqn:Hg.
    + apply find_some in Hg as [_ Hg]. apply bool_decide_eq_true in Hg. f_equal.
      apply MethodName_inj. congruence.
    + eapply find_none in Hg; [|apply list_elem_of_In, (all_fields_complete f)].
      apply bool_decide_eq_false in Hg. done.
Qed.

Lemma validate_keys_ok keys methods :
  validate_keys keys methods = Ok tt ↔
  ∀ key, key ∈ keys → ∃ f, MethodName f = key ∧ f ∈ non_nil methods.
Proof.
  induction keys as [|key keys IH]; cbn [validate_keys].
  { split; [|done]. intros _ key Hk. by apply elem_of_nil in Hk. }
  destruct (switch_field key) as [f|] eqn:Hf.
  - apply switch_field_spec in Hf. case_bool_decide as Hn.
    + rewrite IH. split.
      * intros Hall k [->|Hk]%elem_of_cons; [by exists f|by apply Hall].
      * intros Hall k Hk. apply Hall. by right.
    + split; [done|]. intros Hall. destruct (Hall key) as (g&Hg&Hin); [by left|].
      destruct Hn. rewrite <- Hf in Hg. by apply MethodName_inj in Hg as ->.
  - split; [done|]. intros Hall. destruct (Hall key) as (g&Hg&_); [by left|].
    apply switch_field_spec in Hg. congruence.
Qed.

(** What [Validate] checks. *)
Definition valid (m : PluginInfo) : Prop :=
  Priorities m ≠ ∅ ∧ NameKey m ≠ "" ∧ ∃ methods, PluginMethods m = Some methods ∧
    PluginNameKey methods = NameKey m ∧
    ∀ key p, Priorities m !! key = Some p → ∃ f, MethodName f = key ∧ f ∈ non_nil methods.

Lemma Validate_valid m : Validate m = Ok tt ↔ valid m.
Proof.
  unfold Validate, valid. case_bool_decide as H1; [split; [done|]; intros [? _]; done|].
  destruct (PluginMethods m) as [methods|].
  2:{ split; [done|]. by intros (_&_&methods&?&_). }
  case_bool_decide as H2; [split; [done|]; intros (_&?&_); done|].
  case_bool_decide as H3.
  { split; [done|]. intros (_&_&methods'&[= ->]&?&_). done. }
  rewrite validate_keys_ok. split.
  - intros Hall. split_and!; [done..|]. exists methods. split_and!; [done..|]. intros key p Hp.
    apply Hall, list_elem_of_fmap. exists (key, p). split; [done|]. by apply elem_of_map_to_list.
  - intros (_&_&methods'&[= <-]&_&Hall) key Hk.
    apply list_elem_of_fmap in Hk as ([k p]&->&Hp). apply elem_of_map_to_list in Hp.
    by apply (Hall k p).
Qed.

(** ** Buckets *)

Definition bucket_at (buckets : Buckets) (method : string) (p : Z) : list Methods :=
  default [] (b ← buckets !! method; b !! p).

Lemma add_to_bucket_at methods buckets method0 p0 method p :
  bucket_at (add_to_bucket methods buckets (method0, p0)) method p =
  if bool_decide (method0 = method ∧ p0 = p) then bucket_at buckets method p ++ [methods]
  else bucket_at buckets method p.
Proof.
  unfold bucket_at, add_to_bucket. cbv beta iota zeta. destruct (decide (method0 = method)) as [->|Hm].
  - rewrite lookup_insert_eq. cbn. destruct (decide (p0 = p)) as [->|Hp].
    + rewrite lookup_insert_eq, bool_decide_true by done. cbn.
      destruct (buckets !! method) as [b|]; cbn; [done|by rewrite lookup_empty].
    + rewrite lookup_insert_ne, bool_decide_false by tauto.
      destruct (buckets !! method) as [b|]; cbn; [done|by rewrite lookup_empty].
  - by rewrite lookup_insert_ne, bool_decide_false by tauto.
Qed.

Lemma add_to_bucket_some methods buckets method0 p0 method :
  is_Some (add_to_bucket methods buckets (method0, p0) !! method) ↔
  method0 = method ∨ is_Some (buckets !! method).
Proof.
  unfold add_to_bucket. cbv beta iota zeta. destruct (decide (method0 = method)) as [->|Hm].
  - rewrite lookup_insert_eq. split; [by left|by eexists].
  - rewrite lookup_insert_ne by done. tauto.
Qed.

Lemma add_list_at methods l method p : NoDup l.*1 → ∀ buckets,
  bucket_at (foldl (add_to_bucket methods) buckets l) method p =
  bucket_at buckets method p ++ (if bool_decide ((method, p) ∈ l) then [methods] else []).
Proof.
  induction l as [|[m0 p0] l IH]; intros Hnd buckets; cbn [foldl].
  { rewrite bool_decide_false by apply not_elem_of_nil. by rewrite app_nil_r. }
  cbn in Hnd. apply NoDup_cons in Hnd as [Hm0 Hnd]. rewrite IH, add_to_bucket_at by done.
  destruct (decide (m0 = method ∧ p0 = p)) as [[-> ->]|Hne].
  - rewrite (bool_decide_true (method = method ∧ p = p)) by done.
    rewrite (bool_decide_true ((method, p) ∈ _ :: l)) by by left.
    rewrite bool_decide_false; [by rewrite app_nil_r|].
    intros Hin. apply Hm0. apply list_elem_of_fmap. by exists (method, p).
  - rewrite (bool_decide_false (m0 = method ∧ p0 = p)) by done. f_equal.
    rewrite (bool_decide_ext ((method, p) ∈ l) ((method, p) ∈ (m0, p0) :: l)); [done|].
    rewrite elem_of_cons. split; [by right|]. intros [[= -> ->]|?]; [by destruct Hne|done].
Qed.

Lemma add_list_some methods l method : ∀ buckets,
  is_Some (foldl (add_to_bucket methods) buckets l !! method) ↔
  method ∈ l.*1 ∨ is_Some (buckets !! method).
Proof.
  induction l as [|[m0 p0] l IH]; intros buckets; cbn [foldl].
  { cbn. split; [by right|]. by intros [?%elem_of_nil|?]. }
  rewrite IH, add_to_bucket_some. cbn. rewrite elem_of_cons.
  split; [intros [?|[?|?]]; auto|intros [[?|?]|?]; auto].
Qed.

(** The methods of the plugins that have the priority [p] for [method]. *)
Definition with_priority (infos : list PluginInfo) (method : string) (p : Z) : list Methods :=
  omap (λ i, if bool_decide (Priorities i !! method = Some p) then PluginMethods i else None) infos.
Definition handles (infos : list PluginInfo) (method : string) : Prop :=
  Exists (λ i, is_Some (Priorities i !! method)) infos.

Lemma fill_buckets_ok infos : Forall valid infos → ∀ buckets,
  ∃ b, fill_buckets infos buckets = Ok b ∧
    (∀ method p, bucket_at b method p = bucket_at buckets method p ++ with_priority infos method p) ∧
    (∀ method, is_Some (b !! method) ↔ is_Some (buckets !! method) ∨ handles infos method).
Proof.
  induction 1 as [|i infos Hi _ IH]; intros buckets; cbn [fill_buckets].
  { exists buckets. split_and!; [done|intros; by rewrite app_nil_r|].
    intros method. split; [by left|]. intros [?|Hn]; [done|by inversion Hn]. }
  pose proof Hi as Hv. apply Validate_valid in Hi as ->. destruct Hv as (_&_&methods&Hms&_).
  cbn [wrap_err rbind]. rewrite Hms.
  destruct (IH (add_plugin i methods buckets)) as (b&Hrun&Hb&Hs). exists b. split_and!; [done|..].
  - intros method p. rewrite Hb. unfold add_plugin.
    rewrite add_list_at by apply NoDup_fst_map_to_list. rewrite <- (assoc_L (++)). f_equal.
    unfold with_priority. cbn [omap list_omap]. rewrite Hms.
    rewrite (bool_decide_ext ((method, p) ∈ map_to_list (Priorities i)) (Priorities i !! method = Some p))
      by apply elem_of_map_to_list.
    by case_bool_decide.
  - intros method. rewrite Hs. unfold add_plugin. rewrite add_list_some. unfold handles.
    rewrite Exists_cons. assert (Hm : method ∈ (map_to_list (Priorities i)).*1 ↔
      is_Some (Priorities i !! method)); [|tauto].
    rewrite list_elem_of_fmap. split.
    + intros ([m p]&->&Hp). apply elem_of_map_to_list in Hp. by eexists.
    + intros [p Hp]. exists (method, p). split; [done|]. by apply elem_of_map_to_list.
Qed.

Lemma consolidate_eq b :
  consolidate b = mkMethodLists (default [] (b !! PriorityHigh) ++ default [] (b !! PriorityRegular))
                    (default [] (b !! PriorityAsync)).
Proof. done. Qed.

(** The lists of a method for the plugins [infos]. *)
Definition lists_of (infos : list PluginInfo) (method : string) : MethodLists :=
  mkMethodLists (with_priority infos method PriorityHigh ++ with_priority infos method PriorityRegular)
    (with_priority infos method PriorityAsync).

Lemma prioritized_ok infos : Forall valid infos →
  ∃ rt, PluginInfoToRuntimePrioritizedMethods infos = Ok rt ∧
    ∀ method, (handles infos method → rt !! method = Some (lists_of infos method)) ∧
              (¬ handles infos method → rt !! method = None).
Proof.
  intros Hv. destruct (fill_buckets_ok infos Hv ∅) as (b&Hrun&Hb&Hs).
  exists (consolidate <$> b). unfold PluginInfoToRuntimePrioritizedMethods. rewrite Hrun.
  split; [done|]. intros method. specialize (Hs method). rewrite lookup_empty in Hs.
  assert (Hat : ∀ p, bucket_at b method p = with_priority infos method p).
  { intros p. rewrite Hb. unfold bucket_at. by rewrite lookup_empty. }
  rewrite lookup_fmap. split; intros Hh.
  - destruct (b !! method) as [bm|] eqn:Hbm.
    2:{ destruct (proj2 Hs (or_intror Hh)) as [? [=]]. }
    cbn [fmap option_fmap option_map]. rewrite consolidate_eq. unfold lists_of. rewrite <- !Hat. unfold bucket_at.
    by rewrite Hbm.
  - destruct (b !! method) as [bm|] eqn:Hbm; [|done].
    destruct (proj1 Hs ltac:(by eexists)) as [[? [=]]|]; done.
Qed.

(** A plugin that is listed for a method implements it. *)
Lemma with_priority_implements infos method p m :
  Forall valid infos → m ∈ with_priority infos method p →
  ∃ f, MethodName f = method ∧ f ∈ non_nil m.
Proof.
  intros Hv Hm. apply list_elem_of_omap in Hm as (i&Hi&Hx). rewrite Forall_forall in Hv.
  destruct (Hv i Hi) as (_&_&methods&Hms&_&Hf). case_bool_decide as Hp; [|done].
  rewrite Hms in Hx. injection Hx as <-. by apply (Hf method p).
Qed.

(** C14: For valid plugins, the plugins run for a method are exactly those that
    give it a priority: synchronously those of high priority before those of
    regular priority, each group in the order of registration, the others
    asynchronously; each of them implements the method.  If a plugin is not
    valid, its error is returned. *)
Theorem PluginInfoToRuntimePrioritizedMethods_orders infos :
  (Forall valid infos → ∃ rt, PluginInfoToRuntimePrioritizedMethods infos = Ok rt ∧
    ∀ method, (handles infos method → rt !! method = Some (lists_of infos method)) ∧
              (¬ handles infos method → rt !! method = None) ∧
              ∀ m, m ∈ Sync (lists_of infos method) ++ Async (lists_of infos method) →
                ∃ f, MethodName f = method ∧ f ∈ non_nil m) ∧
  (∀ pre i post e, infos = pre ++ i :: post → Forall valid pre → Validate i = Err e →
    PluginInfoToRuntimePrioritizedMethods infos
      = Err (EWrap "error validating plugin configuration" e)).
Proof.
  split.
  - intros Hv. destruct (prioritized_ok infos Hv) as (rt&Hrun&Hrt). exists rt. split; [done|].
    intros method. split_and!; [apply Hrt..|]. intros m Hm. cbn in Hm.
    rewrite !elem_of_app in Hm. destruct Hm as [[Hm|Hm]|Hm]; by eapply with_priority_implements.
  - intros pre i post e -> Hv He. unfold PluginInfoToRuntimePrioritizedMethods.
    assert (Hfill : ∀ b, fill_buckets (pre ++ i :: post) b
      = Err (EWrap "error validating plugin configuration" e)); [|by rewrite Hfill].
    induction Hv as [|j pre Hj _ IH]; intros b; cbn [app fill_buckets]; [by rewrite He|].
    pose proof Hj as Hv. apply Validate_valid in Hj as ->. destruct Hv as (_&_&methods&Hms&_).
    cbn [wrap_err rbind]. rewrite Hms. apply IH.
Qed.

(** ** Dispatch *)

Section dispatch.
Context {R : Type} `{RepositoryLaws R}.

(** After the plugins of a session are registered, a request of the session
    runs the synchronous handlers of the enabled plugins of the method in the
    order of priority and leaves the asynchronous ones to run; requests of
    other sessions are handled as before. *)
Theorem registered_plugins_run {W} (c : Daemon R) ctx s enabled method hs ha (w : W) :
  repo_ok (sessions c) → repo_GetFromContext (sessions c) ctx = Ok s →
  enabled_plugins ctx s (pluginConfig c) (pluginsAll c) = Ok enabled → Forall valid enabled →
  ∃ c', registerSessionPlugins ctx c = (Ok tt, c') ∧
    (handles enabled method →
      executePluginMethods c' ctx method (Some hs) (Some ha) w =
      (Ok (ha <$> Async (lists_of enabled method)),
       foldl (λ w m, hs m w) w (Sync (lists_of enabled method)))) ∧
    (¬ handles enabled method → executePluginMethods c' ctx method (Some hs) (Some ha) w = (Ok [], w)) ∧
    ∀ ctx', SessionContextKey ctx' ≠ SessionContextKey ctx →
      executePluginMethods c' ctx' method (Some hs) (Some ha) w =
      executePluginMethods c ctx' method (Some hs) (Some ha) w.
Proof.
  intros Hok Hs He Hv. destruct (prioritized_ok enabled Hv) as (rt&Hrt&Hlists).
  unfold registerSessionPlugins. rewrite Hs. cbn [wrap_err]. rewrite He, Hrt. cbn [wrap_err].
  assert (Hid : SessionContextKey ctx = Some (UUID s)).
  { rewrite repo_GetFromContext_spec in Hs. unfold ContextToSessionUUID in Hs.
    destruct (SessionContextKey ctx) as [u|]; [|done]. cbn in Hs.
    destruct (repo_Get_cases _ u Hok) as [(s'&Hs'&<-)|Hn]; congruence. }
  eexists. split; [reflexivity|]. unfold executePluginMethods, ContextToSessionUUID.
  rewrite Hid. cbn [wrap_err pluginMethods]. rewrite lookup_insert_eq.
  destruct (Hlists method) as [Hyes Hno]. split_and!.
  - intros Hh. by rewrite Hyes.
  - intros Hh. by rewrite Hno.
  - intros ctx' Hne. destruct (SessionContextKey ctx') as [u|]; [|done]. cbn [wrap_err].
    rewrite lookup_insert_ne; [done|]. congruence.
Qed.
End dispatch.
End proofs.

(** ** Instances *)

Definition lsp_name (f : MethodField) : string :=
  match f with
  | Initialize => "initialize" | Initialized => "initialized" | Shutdown => "shutdown"
  | Exit => "exit" | DidChange => "textDocument/didChange"
  | DidChangeWatchedFiles => "workspace/didChangeWatchedFiles"
  | DidOpen => "textDocument/didOpen" | DidClose => "textDocument/didClose"
  | WillSave => "textDocument/willSave" | WillSaveWaitUntil => "textDocument/willSaveWaitUntil"
  | DidSave => "textDocument/didSave" | WillRenameFiles => "workspace/willRenameFiles"
  | DidRenameFiles => "workspace/didRenameFiles" | WillCreateFiles => "workspace/willCreateFiles"
  | DidCreateFiles => "workspace/didCreateFiles" | WillDeleteFiles => "workspace/willDeleteFiles"
  | DidDeleteFiles => "workspace/didDeleteFiles" | CodeAction => "textDocument/codeAction"
  | CodeLens => "textDocument/codeLens" | CodeLensRefresh => "workspace/codeLens/refresh"
  | CodeLensResolve => "codeLens/resolve" | GotoDeclaration => "textDocument/declaration"
  | GotoDefinition => "textDocument/definition" | GotoTypeDefinition => "textDocument/typeDefinition"
  | GotoImplementation => "textDocument/implementation" | References => "textDocument/references"
  | Hover => "textDocument/hover" | DocumentSymbol => "textDocument/documentSymbol"
  | ExecuteCommand => "workspace/executeCommand"
  | WorkDoneProgressCancel => "window/workDoneProgress/cancel" | EndSession => "end_session"
  end.
#[export] Instance lsp_methods : ProtocolMethods.
Proof.
  refine {| MethodName := lsp_name |}; [|done].
  intros x y Hxy. by destruct x, y.
Defined.

Definition sample_methods (name : string) : Methods := mkMethods name [Hover; DidOpen].
Definition sample_plugin (name : string) (p : Z) : PluginInfo :=
  mkPluginInfo {["textDocument/hover" := p]} (Some (sample_methods name)) name None.

Lemma sample_plugin_valid name p : name ≠ "" → valid (sample_plugin name p).
Proof.
  intros Hn. split_and!; [apply insert_non_empty|done|]. exists (sample_methods name).
  split_and!; [done..|]. intros key q Hk. cbn [sample_plugin Priorities] in Hk.
  apply lookup_singleton_Some in Hk as [<- _]. exists Hover. split; [done|by left].
Qed.

Lemma PluginInfoToRuntimePrioritizedMethods_orders_witness :
  ∃ rt, PluginInfoToRuntimePrioritizedMethods
      [sample_plugin "a" PriorityRegular; sample_plugin "b" PriorityHigh; sample_plugin "c" PriorityAsync]
      = Ok rt ∧
    rt !! "textDocument/hover" =
      Some (mkMethodLists [sample_methods "b"; sample_methods "a"] [sample_methods "c"]).
Proof.
  destruct (proj1 (PluginInfoToRuntimePrioritizedMethods_orders [sample_plugin "a" PriorityRegular;
    sample_plugin "b" PriorityHigh; sample_plugin "c" PriorityAsync])) as (rt&Hrun&Hrt).
  - repeat constructor; by apply sample_plugin_valid.
  - exists rt. split; [exact Hrun|]. rewrite (proj1 (Hrt "textDocument/hover")); [done|].
    by apply Exists_cons_hd; eexists.
Defined.

Definition sample_session : Session := UUIDToSession 7 None.
Definition sample_daemon : Daemon repository :=
  mkDaemon (mkRepository {[7%N := SessionToModel sample_session]} 1) ∅
    {["a" := true; "b" := false; "c" := true]}
    [Some (λ _, Ok (sample_plugin "a" PriorityRegular)); None;
     Some (λ _, Ok (sample_plugin "b" PriorityHigh)); Some (λ _, Ok (sample_plugin "c" PriorityHigh))].

Lemma registered_plugins_run_witness :
  ∃ c', registerSessionPlugins (mkContext (Some 7%N)) sample_daemon = (Ok tt, c') ∧
    executePluginMethods c' (mkContext (Some 7%N)) "textDocument/hover"
      (Some (λ m w, w ++ [PluginNameKey m])) (Some (λ m w, w)) [] = (Ok [], ["c"; "a"]).
Proof.
  destruct (registered_plugins_run sample_daemon (mkContext (Some 7%N)) sample_session
    [sample_plugin "a" PriorityRegular; sample_plugin "c" PriorityHigh] "textDocument/hover"
    (λ m w, w ++ [PluginNameKey m]) (λ m w, w) []) as (c'&Hrun&Hyes&_).
  - apply repo_Set_ok with (r := New) (s := Some sample_session); [|reflexivity]. done.
  - reflexivity.
  - reflexivity.
  - repeat constructor; by apply sample_plugin_valid.
  - exists c'. split; [exact Hrun|]. rewrite Hyes; [done|]. by apply Exists_cons_hd; eexists.
Defined.
