(* ===== verification/Dispatch.v ===== *)
(** * The goroutines of a request

    Models the asynchronous part of [executePluginMethods] in
    [src/ulsp/controller/ulsp-daemon/ulsp_daemon.go]: for a request an outer
    goroutine, counted in the wait group of the controller, starts a goroutine
    for each asynchronous handler and waits for them by a wait group of its
    own.  [Plugins] and [Daemon] keep a handler as one function on the world,
    to be run later; here it is a list of atomic actions, and the goroutines of
    any number of requests are interleaved.

    Shown: no counter becomes negative, no state is stuck, every schedule is
    bounded, and if the actions of different handlers commute, the world in the
    end is that of the handlers one after the other, which is what [Daemon]
    runs. *)

From stdpp Require Import base gmap list strings.
From Stdlib Require Import ZArith Lia.
From S2P Require Import Prelude Session Plugins.

Local Open Scope Z_scope.

Module Dispatch.

(** ** Goroutines *)

Section dispatch.
Context {R : Type} `{Repository R} {W : Type} (actions : Methods → list (W → W)).

(** The outer goroutine has handlers left to start, waits, or has returned. *)
Inductive outer_state := Spawning (later : list Methods) | Waiting | Returned.
Inductive goroutine := Running (rest : list (W → W)) | Finished.
Record task := mkTask { outer : outer_state; innerWg : Z; inner : list goroutine }.
Record state := mkState { tasks : list task; wg : Z; world : W }.

Definition run_actions (l : list (W → W)) (w : W) : W := foldl (λ w f, f w) w l.
Definition handlerAsync (m : Methods) (w : W) : W := run_actions (actions m) w.

(** The handlers for which the request starts goroutines; [None] if it returns
    before. *)
Definition async_methods (c : Daemon R) (ctx : Context) (method : string) : option (list Methods) :=
  id ← SessionContextKey ctx;
  methods ← pluginMethods c !! id;
  methodLists ← methods !! method;
  Some (Async methodLists).

(** A request: its synchronous handlers, then [c.wg.Add(1); go func() ...]. *)
Definition request (c : Daemon R) (handlerSync : Methods → W → W) (ctx : Context) (method : string)
    : GoM state unit := λ s,
  let '(r, w) := executePluginMethods c ctx method (Some handlerSync) (Some handlerAsync) (world s) in
  (rbind r (λ _, Ok tt),
   match r, async_methods c ctx method with
   | Ok _, Some l => mkState (tasks s ++ [mkTask (Spawning l) 0 []]) (wg s + 1) w
   | _, _ => mkState (tasks s) (wg s) w
   end).

(** [Done] of a wait group. *)
Definition wg_done (n : Z) : gores Z := if n - 1 <? 0 then Panic else Ok (n - 1).

(** A step of the outer goroutine of a task; [None] if it has to wait. *)
Definition outer_step (t : task) (n : Z) : option (gores (task * Z)) :=
  match outer t with
  | Spawning (current :: later) =>
    Some (Ok (mkTask (Spawning later) (innerWg t + 1) (inner t ++ [Running (actions current)]), n))
  | Spawning [] => Some (Ok (mkTask Waiting (innerWg t) (inner t), n))
  | Waiting =>
    if innerWg t =? 0
    then Some (n' <-? wg_done n;; Ok (mkTask Returned (innerWg t) (inner t), n'))
    else None
  | Returned => None
  end.

(** A step of the goroutine of a handler. *)
Definition inner_step (j : nat) (t : task) (w : W) : option (gores (task * W)) :=
  match inner t !! j with
  | Some (Running (f :: rest)) => Some (Ok (mkTask (outer t) (innerWg t) (<[j := Running rest]> (inner t)), f w))
  | Some (Running []) =>
    Some (n <-? wg_done (innerWg t);; Ok (mkTask (outer t) n (<[j := Finished]> (inner t)), w))
  | _ => None
  end.

Inductive label := Outer (i : nat) | Inner (i j : nat).

Definition step (l : label) (s : state) : option (gores state) :=
  match l with
  | Outer i =>
    t ← tasks s !! i;
    r ← outer_step t (wg s);
    Some (x <-? r;; Ok (mkState (<[i := x.1]> (tasks s)) x.2 (world s)))
  | Inner i j =>
    t ← tasks s !! i;
    r ← inner_step j t (world s);
    Some (x <-? r;; Ok (mkState (<[i := x.1]> (tasks s)) (wg s) x.2))
  end.

(** A schedule; [None] if one of its steps is not possible. *)
Fixpoint run (sch : list label) (s : state) : option (gores state) :=
  match sch with
  | [] => Some (Ok s)
  | l :: sch' =>
    match step l s with
    | Some (Ok s') => run sch' s'
    | r => r
    end
  end.

(** ** Requests one after the other *)

Fixpoint requests (c : Daemon R) (hs : Methods → W → W) (reqs : list (Context * string)) (s : state) : state :=
  match reqs with
  | [] => s
  | (ctx, method) :: reqs' => requests c hs reqs' (request c hs ctx method s).2
  end.

(** The same with handlers that are left to run as functions on the world. *)
Fixpoint requests_left (c : Daemon R) (hs : Methods → W → W) (reqs : list (Context * string)) (w : W)
    : list (W → W) * W :=
  match reqs with
  | [] => ([], w)
  | (ctx, method) :: reqs' =>
    match executePluginMethods c ctx method (Some hs) (Some handlerAsync) w with
    | (Ok gs, w1) => let '(gs', w2) := requests_left c hs reqs' w1 in (gs ++ gs', w2)
    | (_, w1) => requests_left c hs reqs' w1
    end
  end.

(** What is left to do. *)
Definition left_of (o : outer_state) : list Methods := match o with Spawning l => l | _ => [] end.
Definition rest_of (g : goroutine) : list (W → W) := match g with Running l => l | Finished => [] end.
Definition task_progs (t : task) : list (list (W → W)) := (rest_of <$> inner t) ++ (actions <$> left_of (outer t)).
Definition progs (s : state) : list (list (W → W)) := tasks s ≫= task_progs.

(** Actions of different handlers commute. *)
Definition commuting (ps : list (list (W → W))) : Prop :=
  ∀ i j p q f g w, i ≠ j → ps !! i = Some p → ps !! j = Some q → f ∈ p → g ∈ q → f (g w) = g (f w).

(** ** Invariant *)

Definition running (g : goroutine) : nat := match g with Running _ => 1 | Finished => 0 end.
Definition live (t : task) : nat := match outer t with Returned => 0 | _ => 1 end.
Definition task_ok (t : task) : Prop :=
  innerWg t = Z.of_nat (sum_list_with running (inner t)) ∧
  (outer t = Returned → sum_list_with running (inner t) = 0%nat).
Definition inv (s : state) : Prop :=
  Forall task_ok (tasks s) ∧ wg s = Z.of_nat (sum_list_with live (tasks s)).

(** The steps that are left. *)
Definition outer_cost (o : outer_state) : nat :=
  (match o with
  | Spawning l => 2 + sum_list_with (λ m, 2 + length (actions m))%nat l
  | Waiting => 1
  | Returned => 0
  end)%nat.
Definition inner_cost (g : goroutine) : nat := match g with Running l => S (length l) | Finished => 0 end.
Definition cost (t : task) : nat := (outer_cost (outer t) + sum_list_with inner_cost (inner t))%nat.
Definition steps_left (s : state) : nat := sum_list_with cost (tasks s).

Lemma insert_middle {A} (l : list A) i x : l !! i = Some x →
  ∃ l1 l2, l = l1 ++ x :: l2 ∧ ∀ y, <[i := y]> l = l1 ++ y :: l2.
Proof.
  intros Hi. exists (take i l), (drop (S i) l). split; [by rewrite take_drop_middle|].
  intros y. apply insert_take_drop. by eapply lookup_lt_Some.
Qed.

Lemma outer_step_ok t n : task_ok t → (1 ≤ n ∨ live t = 0%nat) →
  match outer_step t n with
  | None => live t = 0%nat ∨ (outer t = Waiting ∧ (0 < sum_list_with running (inner t))%nat)
  | Some r => ∃ t' n', r = Ok (t', n') ∧ task_ok t' ∧ n' - Z.of_nat (live t') = n - Z.of_nat (live t) ∧
      S (cost t') = cost t ∧ task_progs t' = task_progs t
  end.
Proof.
  intros [Hw Hret] Hn. destruct t as [o k l]. unfold outer_step, live, cost, task_progs in *. cbn in *. subst k.
  destruct o as [[|m later]| |].
  - eexists _, _. split_and!; [reflexivity|done|cbn; lia|cbn; lia|done].
  - eexists _, _. split_and!; [reflexivity| |cbn; lia| |]; cbn.
    + split; cbn; [rewrite sum_list_with_app; cbn; lia|done].
    + rewrite sum_list_with_app. cbn. lia.
    + rewrite fmap_app. cbn. by rewrite <- (assoc_L (++)).
  - destruct (Z.eqb_spec (Z.of_nat (sum_list_with running l)) 0) as [H0|H0]; [|right; split; [done|lia]].
    unfold wg_done. destruct (Z.ltb_spec (n - 1) 0) as [Hlt|Hge]; [lia|]. eexists _, _.
    split_and!; [reflexivity| |cbn; lia|cbn; lia|done]. split; [done|cbn; lia].
  - by left.
Qed.

Lemma inner_step_ok j t w : task_ok t →
  match inner_step j t w with
  | None => inner t !! j = None ∨ inner t !! j = Some Finished
  | Some r => ∃ t' w', r = Ok (t', w') ∧ task_ok t' ∧ live t' = live t ∧ S (cost t') = cost t ∧
      ((task_progs t' = task_progs t ∧ w' = w) ∨
       ∃ l1 f fs l2, task_progs t = l1 ++ (f :: fs) :: l2 ∧ task_progs t' = l1 ++ fs :: l2 ∧ w' = f w)
  end.
Proof.
  intros [Hw Hret]. destruct t as [o k l]. unfold inner_step, live, cost, task_progs in *. cbn in *. subst k.
  destruct (l !! j) as [[[|f fs]|]|] eqn:Hj; [..|by right|by left].
  - apply insert_middle in Hj as (l1&l2&->&Hins). unfold wg_done.
    rewrite sum_list_with_app in *. cbn in *.
    destruct (Z.ltb_spec (Z.of_nat (sum_list_with running l1 + S (sum_list_with running l2)) - 1) 0); [lia|].
    eexists _, _. rewrite Hins. split_and!; [reflexivity| |done| |left; split; [|done]]; cbn.
    + split; cbn; rewrite sum_list_with_app; cbn; [lia|]. intros Ho. specialize (Hret Ho). lia.
    + rewrite !sum_list_with_app. cbn. lia.
    + by rewrite !fmap_app.
  - apply insert_middle in Hj as (l1&l2&->&Hins).
    eexists _, _. rewrite Hins. split_and!; [reflexivity| |done| |right]; cbn.
    + split; cbn; rewrite !sum_list_with_app in *; cbn in *; [lia|done].
    + rewrite !sum_list_with_app. cbn. lia.
    + exists (rest_of <$> l1), f, fs, ((rest_of <$> l2) ++ (actions <$> left_of o)).
      rewrite !fmap_app. cbn. by rewrite <- !(assoc_L (++)).
Qed.

Lemma live_le t (l1 l2 : list task) :
  Z.of_nat (sum_list_with live (l1 ++ t :: l2)) =
  Z.of_nat (sum_list_with live l1) + Z.of_nat (live t) + Z.of_nat (sum_list_with live l2).
Proof. rewrite sum_list_with_app. cbn. lia. Qed.

(** A step keeps the invariant, is one of the steps left, and does an action of
    one handler or none. *)
Lemma goroutine_step_ok l s r : inv s → step l s = Some r →
  ∃ s', r = Ok s' ∧ inv s' ∧ S (steps_left s') = steps_left s ∧
    ((progs s' = progs s ∧ world s' = world s) ∨
     ∃ l1 f fs l2, progs s = l1 ++ (f :: fs) :: l2 ∧ progs s' = l1 ++ fs :: l2 ∧ world s' = f (world s)).
Proof.
  intros [Hok Hwg] Hstep. destruct s as [ts n w]. cbn in *. unfold inv, steps_left, progs in *.
  destruct l as [i|i j]; cbn in Hstep; destruct (ts !! i) as [t|] eqn:Ht; try done; cbn in Hstep;
    apply insert_middle in Ht as (l1&l2&->&Hins); apply Forall_app in Hok as [Hl1 [Ht Hl2]%Forall_cons];
    rewrite live_le in Hwg.
  - pose proof (outer_step_ok t n Ht) as Hs. destruct (outer_step t n) as [r'|] eqn:Hr; [|done]. cbn in Hstep.
    destruct Hs as (t'&n'&->&Ht'&Hn&Hc&Hp); [lia|]. cbn in Hstep. injection Hstep as <-. rewrite Hins.
    eexists. split_and!; [reflexivity|..]; cbn.
    + apply Forall_app. split; [done|]. by constructor.
    + rewrite live_le. lia.
    + rewrite !sum_list_with_app. cbn. lia.
    + left. split; [|done]. rewrite !bind_app. cbn. by rewrite Hp.
  - pose proof (inner_step_ok j t w Ht) as Hs. destruct (inner_step j t w) as [r'|] eqn:Hr; [|done]. cbn in Hstep.
    destruct Hs as (t'&w'&->&Ht'&Hn&Hc&Hp). cbn in Hstep. injection Hstep as <-. rewrite Hins.
    eexists. split_and!; [reflexivity|..]; cbn.
    + apply Forall_app. split; [done|]. by constructor.
    + rewrite live_le. lia.
    + rewrite !sum_list_with_app. cbn. lia.
    + rewrite !bind_app. cbn. destruct Hp as [[Hp ->]|(p1&f&fs&p2&Hp1&Hp2&->)]; [left|right].
      * by rewrite Hp.
      * exists ((l1 ≫= task_progs) ++ p1), f, fs, (p2 ++ (l2 ≫= task_progs)).
        rewrite Hp1, Hp2. rewrite <- !(assoc_L (++)). by cbn.
Qed.

(** While a task is live there is a step. *)
Lemma step_progress s : inv s → wg s ≠ 0 → ∃ l s', step l s = Some (Ok s').
Proof.
  intros Hinv Hwg. destruct (Hinv) as [Hok Hn].
  assert (Hlive : ∃ i t, tasks s !! i = Some t ∧ live t ≠ 0%nat).
  { rewrite Hn in Hwg. clear -Hwg. induction (tasks s) as [|t l IH]; cbn in *; [done|].
    destruct (decide (live t = 0%nat)) as [H0|H0]; [|by exists 0%nat, t].
    destruct IH as (i&t'&Hi&Ht'); [lia|]. by exists (S i), t'. }
  destruct Hlive as (i&t&Hi&Ht). rewrite Forall_lookup in Hok. pose proof (Hok i t Hi) as Htok.
  assert (Hcan : ∃ l r, step l s = Some r).
  { destruct (outer_step t (wg s)) as [r|] eqn:Hr.
    { exists (Outer i). cbn. rewrite Hi. cbn. rewrite Hr. cbn. eauto. }
    assert (1 ≤ wg s) as Hpos by lia.
    pose proof (outer_step_ok t (wg s) Htok (or_introl Hpos)) as Ho. rewrite Hr in Ho.
    destruct Ho as [Ho|[_ Hrun]]; [done|].
    assert (Hg : ∃ j p, inner t !! j = Some (Running p)).
    { clear -Hrun. induction (inner t) as [|[p|] l IH]; cbn in *; [lia|by exists 0%nat, p|].
      destruct IH as (j&p&Hj); [lia|]. by exists (S j), p. }
    destruct Hg as (j&p&Hj). exists (Inner i j). cbn. rewrite Hi. cbn. unfold inner_step. rewrite Hj.
    destruct p; cbn; eauto. }
  destruct Hcan as (l&r&Hl). destruct (goroutine_step_ok l s r Hinv Hl) as (s'&->&_). eauto.
Qed.

(** ** The world in the end *)

Definition finish (s : state) : W := foldl (λ w p, run_actions p w) (world s) (progs s).

Lemma run_actions_commute f p w :
  (∀ g w, g ∈ p → f (g w) = g (f w)) → run_actions p (f w) = f (run_actions p w).
Proof.
  unfold run_actions. revert w. induction p as [|g p IH]; intros w Hf; cbn; [done|].
  rewrite <- Hf by left. apply IH. intros g' w' Hg'. apply Hf. by right.
Qed.

Lemma finish_early l1 f fs l2 w : commuting (l1 ++ (f :: fs) :: l2) →
  foldl (λ w p, run_actions p w) (f w) (l1 ++ fs :: l2) =
  foldl (λ w p, run_actions p w) w (l1 ++ (f :: fs) :: l2).
Proof.
  intros Hc. rewrite !foldl_app. cbn. f_equal.
  assert (Hl1 : ∀ w, foldl (λ w p, run_actions p w) (f w) l1 = f (foldl (λ w p, run_actions p w) w l1)).
  { assert (Hf : ∀ p g w, p ∈ l1 → g ∈ p → f (g w) = g (f w)).
    { intros p g w' [i Hi]%list_elem_of_lookup Hg. pose proof (lookup_lt_Some _ _ _ Hi).
      apply (Hc (length l1) i (f :: fs) p); [lia|by rewrite list_lookup_middle| |by left|done].
      by rewrite lookup_app_l. }
    clear Hc. induction l1 as [|p l1 IH]; intros w'; cbn; [done|].
    rewrite run_actions_commute by (intros; apply (Hf p); [by left|done]). apply IH.
    intros q g w'' Hq. apply Hf. by right. }
  by rewrite Hl1.
Qed.

Lemma commuting_early l1 f fs l2 : commuting (l1 ++ (f :: fs) :: l2) → commuting (l1 ++ fs :: l2).
Proof.
  assert (Hsub : ∀ i p, (l1 ++ fs :: l2) !! i = Some p →
    ∃ q, (l1 ++ (f :: fs) :: l2) !! i = Some q ∧ ∀ g, g ∈ p → g ∈ q).
  { intros i p. destruct (decide (i < length l1)%nat); [rewrite !lookup_app_l by done; eauto|].
    rewrite !lookup_app_r by lia. destruct (i - length l1)%nat; cbn; [|eauto].
    intros [= <-]. exists (f :: fs). split; [done|]. intros. by right. }
  intros Hc i j p q g h w Hij (p'&Hp&Hp')%Hsub (q'&Hq&Hq')%Hsub Hg Hh. by eapply Hc; eauto.
Qed.

Lemma step_finish l s s' : inv s → step l s = Some (Ok s') → commuting (progs s) →
  commuting (progs s') ∧ finish s' = finish s.
Proof.
  intros Hinv Hstep Hc. destruct (goroutine_step_ok l s _ Hinv Hstep) as (s''&[= <-]&_&_&Hp). unfold finish.
  destruct Hp as [[-> ->]|(l1&f&fs&l2&Hp&Hp'&Hw)]; [done|]. rewrite Hp in Hc |- *. rewrite Hp', Hw.
  split; [by eapply commuting_early|by apply finish_early].
Qed.

Lemma schedule_ok sch : ∀ s r, inv s → run sch s = Some r →
  ∃ s', r = Ok s' ∧ inv s' ∧ (length sch + steps_left s')%nat = steps_left s ∧
    (commuting (progs s) → finish s' = finish s).
Proof.
  induction sch as [|l sch IH]; intros s r Hinv Hrun; cbn in Hrun.
  { injection Hrun as <-. eauto. }
  destruct (step l s) as [r'|] eqn:Hs; [|done].
  destruct (goroutine_step_ok l s r' Hinv Hs) as (s1&->&Hinv1&Hleft&_).
  destruct (IH s1 r Hinv1 Hrun) as (s'&->&Hinv'&Hl'&Hf'). exists s'. split_and!; [done..|cbn; lia|].
  intros Hc. destruct (step_finish l s s1 Hinv Hs Hc) as [Hc1 <-]. by apply Hf'.
Qed.

Lemma step_wg l s s' : inv s → step l s = Some (Ok s') → wg s' ≤ wg s.
Proof.
  intros Hinv Hs. destruct l as [i|i j]; cbn in Hs; destruct (tasks s !! i) as [t|]; try done; cbn in Hs.
  - unfold outer_step, wg_done in Hs. destruct (outer t) as [[]| |]; cbn in Hs; try (injection Hs as <-; cbn; lia); [|done].
    destruct (innerWg t =? 0); [|done]. cbn in Hs. destruct (wg s - 1 <? 0); [done|].
    injection Hs as <-. cbn. lia.
  - destruct (inner_step j t (world s)) as [[]|]; cbn in Hs; [|done..]. injection Hs as <-. cbn. lia.
Qed.
Lemma run_wg sch : ∀ s s', inv s → run sch s = Some (Ok s') → wg s' ≤ wg s.
Proof.
  induction sch as [|l sch IH]; intros s s' Hinv Hrun; cbn in Hrun.
  { injection Hrun as <-. lia. }
  destruct (step l s) as [r|] eqn:Hs; [|done].
  destruct (goroutine_step_ok l s r Hinv Hs) as (s1&->&Hinv1&_). pose proof (step_wg l s s1 Hinv Hs).
  specialize (IH s1 s' Hinv1 Hrun). lia.
Qed.

Lemma finished_progs s : inv s → wg s = 0 → Forall (λ p, p = []) (progs s).
Proof.
  intros [Hok Hn] H0. unfold progs. rewrite Hn in H0. clear Hn.
  induction Hok as [|t l [Ht1 Ht2] _ IH]; cbn in *; [done|].
  apply Forall_app. split; [|apply IH; lia]. unfold task_progs, live in *.
  destruct (outer t); try lia. cbn. rewrite app_nil_r. specialize (Ht2 eq_refl).
  clear -Ht2. induction (inner t) as [|[p|] k IHk]; cbn in *; [done|lia|]. by constructor; [|apply IHk].
Qed.
Lemma finished_world s : inv s → wg s = 0 → finish s = world s.
Proof.
  intros Hinv H0. unfold finish. generalize (world s).
  induction (finished_progs s Hinv H0) as [|p l -> _ IH]; intros w; cbn; [done|]. apply IH.
Qed.

(** ** Requests *)

Lemma async_methods_ok c ctx method hs ha (w : W) :
  match executePluginMethods c ctx method (Some hs) (Some ha) w with
  | (Ok gs, w') => gs = from_option (fmap ha) [] (async_methods c ctx method)
  | _ => True
  end.
Proof.
  unfold executePluginMethods, async_methods, ContextToSessionUUID.
  destruct (SessionContextKey ctx) as [id|]; cbn; [|done].
  destruct (pluginMethods c !! id) as [ms|]; cbn; [|done]. by destruct (ms !! method).
Qed.

Lemma progs_app ts ts' n w n' w' : progs (mkState (ts ++ ts') n w) = progs (mkState ts n' w') ++ progs (mkState ts' n w).
Proof. unfold progs. cbn. by rewrite bind_app. Qed.

(** The functions that are left are the programs of the goroutines. *)
Lemma requests_ok c hs reqs : ∀ s, inv s →
  let s' := requests c hs reqs s in
  inv s' ∧ wg s ≤ wg s' ≤ wg s + Z.of_nat (length reqs) ∧
  (∃ ts, progs s' = progs s ++ (actions <$> ts) ∧ (requests_left c hs reqs (world s)).1 = handlerAsync <$> ts) ∧
  world s' = (requests_left c hs reqs (world s)).2.
Proof.
  induction reqs as [|[ctx method] reqs IH]; intros s Hinv; cbn [requests requests_left].
  { cbn. split_and!; [done|lia|lia| |done]. exists []. by rewrite app_nil_r. }
  unfold request. pose proof (async_methods_ok c ctx method hs handlerAsync (world s)) as Ha.
  destruct (executePluginMethods c ctx method (Some hs) (Some handlerAsync) (world s)) as [r w'].
  set (s1 := (rbind r (λ _, Ok tt), _).2).
  assert (Hs1 : inv s1 ∧ wg s ≤ wg s1 ≤ wg s + 1 ∧ world s1 = w' ∧
    ∃ ts, progs s1 = progs s ++ (actions <$> ts) ∧ match r with Ok gs => gs = handlerAsync <$> ts | _ => ts = [] end).
  { destruct Hinv as [Hok Hn].
    assert (Hsame : progs (mkState (tasks s) (wg s) w') = progs s ++ (actions <$> [])) by (by rewrite app_nil_r).
    subst s1. cbn [snd].
    destruct r as [gs|e| |]; [destruct (async_methods c ctx method) as [l|]; cbn in Ha; subst gs|..];
      try (split; [done|]; split; [cbn; lia|]; split; [done|]; exists []; by split).
    split_and!; [split|cbn; lia|cbn; lia|done|].
    - cbn. apply Forall_app. split; [done|]. by repeat constructor.
    - cbn. rewrite sum_list_with_app. cbn. lia.
    - exists l. split; [|done]. rewrite (progs_app _ _ _ _ (wg s) (world s)). destruct s. f_equal.
      unfold progs, task_progs. cbn. by rewrite app_nil_r. }
  clearbody s1. clear Ha. destruct Hs1 as (Hinv1&Hn1&Hw1&ts&Hp&Hr). cbv zeta in IH.
  destruct (IH s1 Hinv1) as (IH1&IH2&(ts'&IH3&IH4)&IH5). rewrite Hw1 in IH4, IH5.
  split; [done|]. split; [cbn [length]; lia|].
  rewrite Hp, <- (assoc_L (++)), <- fmap_app in IH3.
  destruct r as [gs|e| |]; [subst gs|subst ts..];
    (destruct (requests_left c hs reqs w') as [gs' w2]; cbn in IH4, IH5; subst gs';
     split; [eexists; split; [exact IH3|]|exact IH5]; cbn [fst app]; by rewrite ?fmap_app).
Qed.
(** C11: After any requests, under every schedule of their goroutines: no wait
    group becomes negative, the number of steps is bounded, as long as the wait
    group of the controller is not zero a goroutine can run, and when it is
    zero all asynchronous handlers have run to their end; if actions of
    different handlers commute, the world is then that of the handlers run one
    after the other in the order of the requests and of their registration. *)
Theorem async_handlers_complete c hs reqs w sch r :
  let s0 := requests c hs reqs (mkState [] 0 w) in
  let left := requests_left c hs reqs w in
  run sch s0 = Some r →
  ∃ s, r = Ok s ∧ 0 ≤ wg s ≤ Z.of_nat (length reqs) ∧ (length sch ≤ steps_left s0)%nat ∧
    (wg s ≠ 0 → ∃ l s', step l s = Some (Ok s')) ∧
    (wg s = 0 → Forall (λ p, p = []) (progs s) ∧
      (commuting (progs s0) → world s = foldl (λ w g, g w) left.2 left.1)).
Proof.
  intros s0 left Hrun. assert (Hstart : inv (mkState [] 0 w)) by (by split).
  destruct (requests_ok c hs reqs _ Hstart) as (Hinv&Hwg&(ts&Hp&Hl)&Hw). fold s0 in Hinv, Hwg, Hp, Hw.
  destruct (schedule_ok sch s0 r Hinv Hrun) as (s&->&Hs&Hsteps&Hf). exists s. split_and!;
    [done|destruct Hs as [_ ->]; lia|apply (run_wg sch) in Hrun; [|done]; cbn in Hwg; lia|lia|by apply step_progress|].
  intros H0. split; [by apply finished_progs|]. intros Hc.
  rewrite <- (finished_world s Hs H0), Hf by done. unfold finish. rewrite Hp, Hw.
  unfold left. cbn [world] in *. rewrite Hl. cbn. generalize (requests_left c hs reqs w).2.
  clear. induction ts as [|m ts IH]; intros w; cbn; [done|]. apply IH.
Qed.
End dispatch.

(** ** Instance *)

(** Two requests for a method with two asynchronous handlers of two actions. *)
Definition sample_rt : RuntimePrioritizedMethods :=
  {["initialized" := mkMethodLists [mkMethods "s" []] [mkMethods "a" []; mkMethods "b" []]]}.
Definition sample_daemon : Daemon repository :=
  mkDaemon Session.New {[7%N := sample_rt]} ∅ [].
Definition sample_actions (m : Methods) : list (Z → Z) :=
  if bool_decide (PluginNameKey m = "a") then [Z.add 1; Z.add 2] else [Z.add 10].
Definition sample_reqs : list (Context * string) :=
  [(mkContext (Some 7%N), "initialized"); (mkContext (Some 7%N), "hover"); (mkContext (Some 7%N), "initialized")].
Definition sample_schedule : list label :=
  [Outer 1; Outer 0; Outer 1; Inner 1 1; Outer 0; Inner 0 0; Inner 1 0; Inner 0 0; Inner 1 0; Inner 0 1;
   Inner 0 0; Outer 0; Inner 0 1; Outer 0; Inner 1 1; Inner 1 0; Outer 1; Outer 1].

Lemma sample_adds i p f :
  progs sample_actions (requests sample_actions sample_daemon (λ _, Z.add 1000) sample_reqs (mkState [] 0 0)) !! i
    = Some p → f ∈ p → ∃ n, f = Z.add n.
Proof.
  change (progs _ _) with [[Z.add 1; Z.add 2]; [Z.add 10]; [Z.add 1; Z.add 2]; [Z.add 10]]. intros Hp Hf.
  do 4 (destruct i as [|i]; [cbn in Hp; injection Hp as <-;
    repeat (apply elem_of_cons in Hf as [->|Hf]; [by eexists|]); by apply elem_of_nil in Hf|]). by destruct i.
Qed.

Lemma async_handlers_complete_witness :
  ∃ s, run sample_actions sample_schedule
      (requests sample_actions sample_daemon (λ _, Z.add 1000) sample_reqs (mkState [] 0 0)) = Some (Ok s) ∧
    wg s = 0 ∧ world s = 2026.
Proof.
  destruct (async_handlers_complete sample_actions sample_daemon (λ _, Z.add 1000) sample_reqs 0 sample_schedule
    (Ok (mkState [mkTask Returned 0 [Finished; Finished]; mkTask Returned 0 [Finished; Finished]] 0 2026)))
    as (s&Hs&_&_&_&Hw); [vm_compute; reflexivity|].
  exists s. injection Hs as <-. split; [vm_compute; reflexivity|]. split; [reflexivity|].
  destruct Hw as [_ Hw]; [reflexivity|]. rewrite Hw; [vm_compute; reflexivity|].
  intros i j p q f g w _ Hp Hq Hf Hg.
  destruct (sample_adds i p f Hp Hf) as [n ->]. destruct (sample_adds j q g Hq Hg) as [k ->]. lia.
Defined.
End Dispatch.
