(* ===== verification/DocSync.v ===== *)
(** * The document store

    Models [src/ulsp/controller/doc-sync/doc_sync.go]: the documents that the
    sessions have open, their pending edits, and the base version of each
    document against which positions are mapped.  An entry holds a pointer to
    the entry of its base version, so the entries live in a heap and the
    documents of a session are a map to pointers.

    The session repository is the interface of [Session]; the diff algorithm,
    the file system and the IDE gateway are parameters: what a read returns,
    which error a progress notification has.  The calls to the gateway are
    recorded in the state. *)

From stdpp Require Import base gmap list strings fin_maps.
From Stdlib Require Import ZArith Lia.
From S2P Require Import Prelude Utf8 Protocol TextOffset TextEdits PositionMapper Session.

Local Open Scope Z_scope.

Inductive DocumentState := DocumentStateOpenClean | DocumentStateOpenDirty | DocumentStateClosed.

Abbreviation ptr := N.

Record documentStoreEntry := mkEntry {
  Document : TextDocumentItem;
  Edits : list TextEdit;
  EditedSinceLastSave : bool;
  ProgressToken : option string;
  Base : option ptr;
  positionMapper : option documentPositionMapper
}.

Inductive GatewayCall :=
  | WorkDoneProgressCreate (token : string)
  | ProgressBegin (token : string) (fileName : string)
  | ProgressEnd (token : string).

Record DocState := mkDocState {
  heap : gmap ptr documentStoreEntry;
  next : ptr;
  documents : gmap uuid (gmap URI ptr);
  tokens : N;                       (** progress tokens made so far *)
  calls : list GatewayCall;
  open_docs : Z;                    (** the gauges *)
  open_bytes : Z
}.

Definition set_heap h st := mkDocState h (next st) (documents st) (tokens st)
  (calls st) (open_docs st) (open_bytes st).
Definition set_documents d st := mkDocState (heap st) (next st) d (tokens st)
  (calls st) (open_docs st) (open_bytes st).

(** The zero state that [New] makes. *)
Definition init_state : DocState := mkDocState ∅ 0 ∅ 0 [] 0 0.

(** Access to the heap; a pointer that is not allocated cannot be reached. *)
Definition load (p : ptr) : GoM DocState documentStoreEntry := λ st,
  (match heap st !! p with Some e => Ok e | None => Panic end, st).
Definition store (p : ptr) (e : documentStoreEntry) : GoM DocState unit :=
  modify_st (λ st, set_heap (<[p := e]> (heap st)) st).
Definition alloc (e : documentStoreEntry) : GoM DocState ptr := λ st,
  (Ok (next st), mkDocState (<[next st := e]> (heap st)) (N.succ (next st))
    (documents st) (tokens st) (calls st) (open_docs st) (open_bytes st)).

(** [c.documents[u][doc]], also for a session that has no map. *)
Definition doc_ptr (u : uuid) (doc : URI) (st : DocState) : option ptr :=
  documents st !! u ≫= λ m, m !! doc.
(** [c.documents[u][doc] = p], for a session that has a map: Go panics on a
    store to a nil map. *)
Definition set_doc (u : uuid) (doc : URI) (p : ptr) : GoM DocState unit := λ st,
  match documents st !! u with
  | Some m => (Ok tt, set_documents (<[u := <[doc := p]> m]> (documents st)) st)
  | None => (Panic, st)
  end.

Definition newDocumentStoreEntry (doc : TextDocumentItem) (base : option ptr)
    : documentStoreEntry := mkEntry doc [] false None base None.

Definition set_text (d : TextDocumentItem) (t : bytes) : TextDocumentItem :=
  mkTextDocumentItem (DocURI d) (LanguageID d) (Version d) t.
Definition set_version (d : TextDocumentItem) (v : Z) : TextDocumentItem :=
  mkTextDocumentItem (DocURI d) (LanguageID d) v (Text d).

(** [defer f()] *)
Definition defer {A} (fin : GoM DocState unit) (m : GoM DocState A) : GoM DocState A := λ st,
  let '(r, st') := m st in (r, (fin st').2).

(** [updateMetrics]: the number and total size of the open documents. *)
Definition docs_of (st : DocState) : list ptr :=
  (map_to_list (documents st)).*2 ≫= λ m, (map_to_list m).*2.
Definition entry_size (st : DocState) (p : ptr) : Z :=
  match heap st !! p with Some e => zlen (Text (Document e)) | None => 0 end.
Definition updateMetrics : GoM DocState unit := λ st,
  (Ok tt, mkDocState (heap st) (next st) (documents st) (tokens st) (calls st)
    (foldl (λ n m, n + Z.of_nat (size m)) 0 (map_to_list (documents st)).*2)
    (foldl (λ n p, n + entry_size st p) 0 (docs_of st))).

(** [New], from the configured maximum size: it panics when there is none. *)
Definition NewController (maxFileSizeBytes : gores Z) : gores DocState :=
  match maxFileSizeBytes with
  | Ok n => if n =? 0 then Panic else Ok (updateMetrics init_state).2
  | _ => Panic
  end.

(** [errors.As(err, &docNotFound)] looks through the wrapped errors. *)
Fixpoint is_document_not_found (e : error) : bool :=
  match e with
  | EDocumentNotFound _ => true
  | EWrap _ e | EJoin _ e => is_document_not_found e
  | _ => false
  end.

(** The file of [path.Split]: what comes after the last slash. *)
Fixpoint after_slash (s found : string) : string :=
  match s with
  | "" => found
  | String c s' => after_slash s' (if bool_decide (c = Ascii.ascii_of_nat 47) then s' else found)
  end.
Definition Split_file (p : string) : string := after_slash p p.
Example Split_file_ex : (Split_file "/w/a/b.go", Split_file "b.go", Split_file "/w/") = ("b.go", "b.go", "").
Proof. reflexivity. Qed.

Definition clearBase (e : documentStoreEntry) : documentStoreEntry :=
  mkEntry (Document e) (Edits e) (EditedSinceLastSave e) (ProgressToken e) None None.

Section docsync.
Context {R : Type} `{Repository R}.
(** [dmp.DiffMain] *)
Context (DiffMain : bytes → bytes → list Diff).
(** [doc.URI.Filename()] and [fs.ReadFile] *)
Context (Filename : URI → string) (ReadFile : string → gores bytes).
(** the error of a call to the gateway, and the token of the n-th [NewV4] *)
Context (gateway_error : GatewayCall → option error) (NewToken : N → string).
Context (maxFileSizeBytes : Z).
(** the sessions at the time of the call *)
Context (sessions : R).

Definition gateway (c : GatewayCall) : GoM DocState unit := λ st,
  (match gateway_error c with Some e => Err e | None => Ok tt end,
   mkDocState (heap st) (next st) (documents st) (tokens st) (calls st ++ [c])
     (open_docs st) (open_bytes st)).

Definition validateSize (text : bytes) : gores unit :=
  if maxFileSizeBytes =? 0 then Err (EText "max file size is not set")
  else if maxFileSizeBytes <? zlen text then Err (EDocumentSizeLimit (zlen text))
  else Ok tt.

Definition from_context (ctx : Context) : GoM DocState Session :=
  lift_res (repo_GetFromContext sessions ctx).

Definition getDocumentStoreEntry (ctx : Context) (doc : URI) : GoM DocState ptr :=
  s <- from_context ctx;;
  st <- get_st;;
  match documents st !! UUID s with
  | None => throw (EUUIDNotFound (UUID s))
  | Some m =>
    match m !! doc with
    | None => throw (EDocumentNotFound doc)
    | Some p => sret p
    end
  end.

Definition GetTextDocument (ctx : Context) (doc : URI) : GoM DocState TextDocumentItem :=
  p <- getDocumentStoreEntry ctx doc;;
  entry <- load p;;
  sret (Document entry).

Definition GetDocumentState (ctx : Context) (doc : URI) : GoM DocState DocumentState :=
  s <- from_context ctx;;
  st <- get_st;;
  match documents st !! UUID s with
  | None => throw (EUUIDNotFound (UUID s))
  | Some m =>
    match m !! doc with
    | None => sret DocumentStateClosed
    | Some p =>
      entry <- load p;;
      if EditedSinceLastSave entry then
        contentOnDisk <- lift_res (wrap_err "unable to open file" (ReadFile (Filename doc)));;
        if bool_decide (contentOnDisk ≠ Text (Document entry)) then sret DocumentStateOpenDirty
        else sret DocumentStateOpenClean
      else sret DocumentStateOpenClean
    end
  end.

Definition addEdits (ctx : Context) (doc : TextDocumentItem) (edits : list TextEdit)
    : GoM DocState ptr :=
  s <- from_context ctx;;
  st <- get_st;;
  match documents st !! UUID s with
  | None => throw (EUUIDNotFound (UUID s))
  | Some m =>
    match m !! DocURI doc with
    | None => throw (EDocumentNotFound (DocURI doc))
    | Some p =>
      entry <- load p;;
      if bool_decide (Version (Document entry) ≠ Version doc) then
        throw (EDocumentOutdated (Version (Document entry)) (Version doc))
      else
        store p (mkEntry (Document entry) (Edits entry ++ edits)
          (EditedSinceLastSave entry) (ProgressToken entry) (Base entry)
          (positionMapper entry)) ;;;
        set_doc (UUID s) (DocURI doc) p ;;;
        sret p
    end
  end.

Definition setProgressToken (ctx : Context) (doc : URI) : GoM DocState ptr :=
  s <- from_context ctx;;
  st <- get_st;;
  match documents st !! UUID s with
  | None => throw (EUUIDNotFound (UUID s))
  | Some m =>
    match m !! doc with
    | None => throw (EDocumentNotFound doc)
    | Some p =>
      entry <- load p;;
      modify_st (λ st, mkDocState (heap st) (next st) (documents st) (N.succ (tokens st))
        (calls st) (open_docs st) (open_bytes st)) ;;;
      store p (mkEntry (Document entry) (Edits entry) (EditedSinceLastSave entry)
        (Some (NewToken (tokens st))) (Base entry) (positionMapper entry)) ;;;
      set_doc (UUID s) doc p ;;;
      sret p
    end
  end.

(** [AddPendingEdits] takes the lock twice; [env] is what other goroutines do
    between.  The error of [setProgressToken] is not looked at: the entry is
    then nil. *)
Definition AddPendingEdits_with (env : GoM DocState unit) (ctx : Context)
    (doc : TextDocumentItem) (edits : list TextEdit) : GoM DocState bool :=
  if bool_decide (edits = []) then sret false
  else
    _p <- addEdits ctx doc edits;;
    env ;;;
    r <- try_ (setProgressToken ctx (DocURI doc));;
    match r with
    | inl _ => lift_res Panic
    | inr p =>
      entry <- load p;;
      match ProgressToken entry with
      | None => lift_res Panic
      | Some token =>
        _ <- try_ (gateway (WorkDoneProgressCreate token));;
        _ <- try_ (gateway (ProgressBegin token (Split_file (Filename (DocURI doc)))));;
        sret true
      end
    end.
Definition AddPendingEdits := AddPendingEdits_with (sret tt).

Definition GetPositionMapper (ctx : Context) (doc : URI)
    : GoM DocState (option documentPositionMapper) :=
  r <- try_ (getDocumentStoreEntry ctx doc);;
  match r with
  | inl err =>
    if is_document_not_found err then sret None
    else throw (EWrap "getting document" err)
  | inr p =>
    d <- load p;;
    match positionMapper d with
    | Some m => sret (Some m)
    | None =>
      baseText <- (match Base d with
                   | Some b => base <- load b;; sret (Text (Document base))
                   | None => sret (Text (Document d))
                   end);;
      let m := NewPositionMapper DiffMain baseText (Text (Document d)) in
      store p (mkEntry (Document d) (Edits d) (EditedSinceLastSave d) (ProgressToken d)
        (Base d) (Some m)) ;;;
      sret (Some m)
    end
  end.

Definition ResetBase (workspaceRoot : string) (doc : URI) : GoM DocState unit :=
  ss <- lift_res (repo_GetAllFromWorkspaceRoot sessions workspaceRoot);;
  forM_ ss (λ s,
    st <- get_st;;
    match doc_ptr (UUID s) doc st with
    | None => sret tt
    | Some p => e <- load p;; store p (clearBase e)
    end).

Definition initialize (ctx : Context) : GoM DocState unit :=
  defer updateMetrics (
    s <- from_context ctx;;
    modify_st (λ st, set_documents (<[UUID s := ∅]> (documents st)) st)).

Definition disposeSession (u : uuid) : GoM DocState unit :=
  modify_st (λ st, set_documents (delete u (documents st)) st).

Definition shutdown (ctx : Context) : GoM DocState unit :=
  defer updateMetrics (s <- from_context ctx;; disposeSession (UUID s)).

Definition endSession (u : uuid) : GoM DocState unit :=
  defer updateMetrics (disposeSession u).

Definition didOpen (ctx : Context) (d : TextDocumentItem) : GoM DocState unit :=
  defer updateMetrics (
    s <- from_context ctx;;
    st <- get_st;;
    match documents st !! UUID s with
    | None => throw (EUUIDNotFound (UUID s))
    | Some _ =>
      match validateSize (Text d) with
      | Err _ => sret tt
      | _ =>
        p <- alloc (newDocumentStoreEntry d None);;
        set_doc (UUID s) (DocURI d) p
      end
    end).

Definition deleteDocument (ctx : Context) (doc : URI) : GoM DocState (option ptr) :=
  s <- from_context ctx;;
  st <- get_st;;
  match documents st !! UUID s ≫= λ m, m !! doc with
  | Some p =>
    modify_st (λ st, set_documents (alter (delete doc) (UUID s) (documents st)) st) ;;;
    sret (Some p)
  | None => sret None
  end.

Definition didClose (ctx : Context) (doc : URI) : GoM DocState unit :=
  defer updateMetrics (
    deletedEntry <- deleteDocument ctx doc;;
    match deletedEntry with
    | None => sret tt
    | Some p =>
      entry <- load p;;
      match ProgressToken entry with
      | Some token => gateway (ProgressEnd token)
      | None => sret tt
      end
    end).

(** The parameters of [didChange]: the document, its new version, the changes. *)
Definition updateDocumentText (ctx : Context) (doc : URI) (version : Z)
    (changes : list TextDocumentContentChangeEvent) : GoM DocState (ptr * ptr) :=
  s <- from_context ctx;;
  st <- get_st;;
  match doc_ptr (UUID s) doc st with
  | None => throw (EDocumentNotFound doc)
  | Some p =>
    initialEntry <- load p;;
    text <- lift_res (ApplyContentChanges (Text (Document initialEntry)) changes);;
    lift_res (wrap_err "unable to add changes to document" (validateSize text)) ;;;
    let d := set_version (set_text (Document initialEntry) text) version in
    let base := match Base initialEntry with Some b => b | None => p end in
    result <- alloc (mkEntry d [] true None (Some base) None);;
    set_doc (UUID s) doc result ;;;
    sret (p, result)
  end.

Definition didChange (ctx : Context) (doc : URI) (version : Z)
    (changes : list TextDocumentContentChangeEvent) : GoM DocState unit :=
  let* (old, _) := wrapM "adding changes to document" (updateDocumentText ctx doc version changes) in
  oldEntry <- load old;;
  match ProgressToken oldEntry with
  | Some token => _ <- try_ (gateway (ProgressEnd token));; sret tt
  | None => sret tt
  end.

Definition didSave (ctx : Context) (doc : URI) (text : bytes) : GoM DocState unit :=
  defer updateMetrics (
    s <- from_context ctx;;
    st <- get_st;;
    match doc_ptr (UUID s) doc st with
    | None => throw (EDocumentNotFound doc)
    | Some p =>
      docEntry <- load p;;
      newEntry <- alloc (newDocumentStoreEntry (set_text (Document docEntry) text) (Base docEntry));;
      set_doc (UUID s) doc newEntry
    end).

Definition willSaveWaitUntil (ctx : Context) (doc : URI) (result : list TextEdit)
    : GoM DocState (list TextEdit) :=
  s <- from_context ctx;;
  st <- get_st;;
  match doc_ptr (UUID s) doc st with
  | None => throw (EDocumentNotFound doc)
  | Some p => entry <- load p;; sret (result ++ Edits entry)
  end.

End docsync.
