(* ===== verification/DocSyncSpec.v ===== *)
(** * The document store without pointers

    An abstract document store in which an entry holds the text of its base
    version instead of a pointer to an entry, and the proof that the store of
    [DocSync] implements it: the sharing of entries is not observable.  The
    invariant of the heap says which entries can be shared. *)

From stdpp Require Import base gmap list strings fin_maps.
From Stdlib Require Import ZArith Lia.
From S2P Require Import Prelude Utf8 Protocol TextOffset TextEdits PositionMapper Session DocSync.

Local Open Scope Z_scope.

(** ** The abstract store *)

Record AEntry := mkAEntry {
  aDocument : TextDocumentItem;
  aEdits : list TextEdit;
  aEdited : bool;
  aToken : option string;
  aBase : option bytes          (** the text of the base version *)
}.

Record AState := mkAState {
  adocs : gmap uuid (gmap URI AEntry);
  atokens : N;
  acalls : list GatewayCall;
  aopen_docs : Z;
  aopen_bytes : Z
}.

Definition set_adocs d st := mkAState d (atokens st) (acalls st) (aopen_docs st) (aopen_bytes st).
Definition aget (u : uuid) (doc : URI) (st : AState) : option AEntry :=
  adocs st !! u ≫= λ m, m !! doc.
Definition aput (u : uuid) (doc : URI) (e : AEntry) : GoM AState unit :=
  modify_st (λ st, set_adocs (alter (<[doc := e]>) u (adocs st)) st).

Definition adefer {A} (fin : GoM AState unit) (m : GoM AState A) : GoM AState A := λ st,
  let '(r, st') := m st in (r, (fin st').2).
Definition aupdateMetrics : GoM AState unit := λ st,
  (Ok tt, mkAState (adocs st) (atokens st) (acalls st)
    (foldl (λ n m, n + Z.of_nat (size m)) 0 (map_to_list (adocs st)).*2)
    (foldl (λ n e, n + zlen (Text (aDocument e))) 0
      ((map_to_list (adocs st)).*2 ≫= λ m : gmap URI AEntry, (map_to_list m).*2))).

Definition new_aentry (d : TextDocumentItem) (base : option bytes) : AEntry :=
  mkAEntry d [] false None base.
Definition aclear (e : AEntry) : AEntry :=
  mkAEntry (aDocument e) (aEdits e) (aEdited e) (aToken e) None.

(** What a session can ask of the store. *)
Inductive Event :=
  | EvInitialize (ctx : Context)
  | EvShutdown (ctx : Context)
  | EvEndSession (u : uuid)
  | EvDidOpen (ctx : Context) (d : TextDocumentItem)
  | EvDidClose (ctx : Context) (doc : URI)
  | EvDidChange (ctx : Context) (doc : URI) (version : Z)
      (changes : list TextDocumentContentChangeEvent)
  | EvDidSave (ctx : Context) (doc : URI) (text : bytes)
  | EvWillSaveWaitUntil (ctx : Context) (doc : URI) (result : list TextEdit)
  | EvAddPendingEdits (ctx : Context) (d : TextDocumentItem) (edits : list TextEdit)
  | EvResetBase (workspaceRoot : string) (doc : URI)
  | EvGetPositionMapper (ctx : Context) (doc : URI)
  | EvGetTextDocument (ctx : Context) (doc : URI)
  | EvGetDocumentState (ctx : Context) (doc : URI).

Inductive Response :=
  | RUnit | RBool (b : bool) | REdits (l : list TextEdit)
  | RMapper (m : option documentPositionMapper) | RDocument (d : TextDocumentItem)
  | RState (s : DocumentState).

Definition respond {S A} (f : A → Response) (m : GoM S A) : GoM S Response :=
  a <- m;; sret (f a).

Section spec.
Context {R : Type} `{Repository R}.
Context (DiffMain : bytes → bytes → list Diff).
Context (Filename : URI → string) (ReadFile : string → gores bytes).
Context (gateway_error : GatewayCall → option error) (NewToken : N → string).
Context (maxFileSizeBytes : Z).

Definition agateway (c : GatewayCall) : GoM AState unit := λ st,
  (match gateway_error c with Some e => Err e | None => Ok tt end,
   mkAState (adocs st) (atokens st) (acalls st ++ [c]) (aopen_docs st) (aopen_bytes st)).

(** The session of a context and its entry for a document, with the errors of
    the handlers that tell an unknown session from an unknown document. *)
Definition aentry (s : Session) (doc : URI) : GoM AState AEntry := λ st,
  (match adocs st !! UUID s with
   | None => Err (EUUIDNotFound (UUID s))
   | Some m => match m !! doc with Some e => Ok e | None => Err (EDocumentNotFound doc) end
   end, st).
(** The same for the handlers that do not. *)
Definition aentry' (s : Session) (doc : URI) : GoM AState AEntry := λ st,
  (match aget (UUID s) doc st with Some e => Ok e | None => Err (EDocumentNotFound doc) end, st).

Definition asession (sessions : R) (ctx : Context) : GoM AState Session :=
  lift_res (repo_GetFromContext sessions ctx).

Definition a_addPendingEdits (sessions : R) ctx d edits : GoM AState bool :=
  if bool_decide (edits = []) then sret false
  else
    s <- asession sessions ctx;;
    e <- aentry s (DocURI d);;
    if bool_decide (Version (aDocument e) ≠ Version d) then
      throw (EDocumentOutdated (Version (aDocument e)) (Version d))
    else
      st <- get_st;;
      let token := NewToken (atokens st) in
      modify_st (λ st, mkAState (adocs st) (N.succ (atokens st)) (acalls st)
        (aopen_docs st) (aopen_bytes st)) ;;;
      aput (UUID s) (DocURI d) (mkAEntry (aDocument e) (aEdits e ++ edits) (aEdited e)
        (Some token) (aBase e)) ;;;
      _ <- try_ (agateway (WorkDoneProgressCreate token));;
      _ <- try_ (agateway (ProgressBegin token (Split_file (Filename (DocURI d)))));;
      sret true.

Definition a_didChange (sessions : R) ctx doc version changes : GoM AState unit :=
  e <- wrapM "adding changes to document" (
    s <- asession sessions ctx;;
    e <- aentry' s doc;;
    text <- lift_res (ApplyContentChanges (Text (aDocument e)) changes);;
    lift_res (wrap_err "unable to add changes to document" (validateSize maxFileSizeBytes text)) ;;;
    aput (UUID s) doc (mkAEntry (set_version (set_text (aDocument e) text) version) [] true None
      (Some (default (Text (aDocument e)) (aBase e)))) ;;;
    sret e);;
  match aToken e with
  | Some token => _ <- try_ (agateway (ProgressEnd token));; sret tt
  | None => sret tt
  end.

Definition a_didClose (sessions : R) ctx doc : GoM AState unit :=
  adefer aupdateMetrics (
    s <- asession sessions ctx;;
    st <- get_st;;
    match aget (UUID s) doc st with
    | None => sret tt
    | Some e =>
      modify_st (λ st, set_adocs (alter (delete doc) (UUID s) (adocs st)) st) ;;;
      match aToken e with Some token => agateway (ProgressEnd token) | None => sret tt end
    end).

Definition a_getPositionMapper (sessions : R) ctx doc
    : GoM AState (option documentPositionMapper) :=
  r <- try_ (s <- asession sessions ctx;; aentry s doc);;
  match r with
  | inl err =>
    if is_document_not_found err then sret None
    else throw (EWrap "getting document" err)
  | inr e =>
    sret (Some (NewPositionMapper DiffMain (default (Text (aDocument e)) (aBase e))
      (Text (aDocument e))))
  end.

Definition a_getDocumentState (sessions : R) ctx doc : GoM AState DocumentState :=
  s <- asession sessions ctx;;
  r <- try_ (aentry s doc);;
  match r with
  | inl (EDocumentNotFound _) => sret DocumentStateClosed
  | inl e => throw e
  | inr e =>
    if aEdited e then
      contentOnDisk <- lift_res (wrap_err "unable to open file" (ReadFile (Filename doc)));;
      if bool_decide (contentOnDisk ≠ Text (aDocument e)) then sret DocumentStateOpenDirty
      else sret DocumentStateOpenClean
    else sret DocumentStateOpenClean
  end.

Definition a_didOpen (sessions : R) ctx (d : TextDocumentItem) : GoM AState unit :=
  adefer aupdateMetrics (
    s <- asession sessions ctx;;
    st <- get_st;;
    match adocs st !! UUID s with
    | None => throw (EUUIDNotFound (UUID s))
    | Some _ =>
      match validateSize maxFileSizeBytes (Text d) with
      | Err _ => sret tt
      | _ => aput (UUID s) (DocURI d) (new_aentry d None)
      end
    end).

Definition a_resetBase (sessions : R) workspaceRoot doc : GoM AState unit :=
  ss <- lift_res (repo_GetAllFromWorkspaceRoot sessions workspaceRoot);;
  forM_ ss (λ s, modify_st (λ st, set_adocs (alter (alter aclear doc) (UUID s) (adocs st)) st)).

Definition astep (sessions : R) (ev : Event) : GoM AState Response :=
  match ev with
  | EvInitialize ctx =>
    respond (λ _, RUnit) (adefer aupdateMetrics (
      s <- asession sessions ctx;;
      modify_st (λ st, set_adocs (<[UUID s := ∅]> (adocs st)) st)))
  | EvShutdown ctx =>
    respond (λ _, RUnit) (adefer aupdateMetrics (
      s <- asession sessions ctx;;
      modify_st (λ st, set_adocs (delete (UUID s) (adocs st)) st)))
  | EvEndSession u =>
    respond (λ _, RUnit) (adefer aupdateMetrics (
      modify_st (λ st, set_adocs (delete u (adocs st)) st)))
  | EvDidOpen ctx d => respond (λ _, RUnit) (a_didOpen sessions ctx d)
  | EvDidClose ctx doc => respond (λ _, RUnit) (a_didClose sessions ctx doc)
  | EvDidChange ctx doc v changes =>
    respond (λ _, RUnit) (a_didChange sessions ctx doc v changes)
  | EvDidSave ctx doc text =>
    respond (λ _, RUnit) (adefer aupdateMetrics (
      s <- asession sessions ctx;;
      e <- aentry' s doc;;
      aput (UUID s) doc (new_aentry (set_text (aDocument e) text) (aBase e))))
  | EvWillSaveWaitUntil ctx doc result =>
    respond REdits (
      s <- asession sessions ctx;;
      e <- aentry' s doc;;
      sret (result ++ aEdits e))
  | EvAddPendingEdits ctx d edits => respond RBool (a_addPendingEdits sessions ctx d edits)
  | EvResetBase w doc => respond (λ _, RUnit) (a_resetBase sessions w doc)
  | EvGetPositionMapper ctx doc => respond RMapper (a_getPositionMapper sessions ctx doc)
  | EvGetTextDocument ctx doc =>
    respond RDocument (
      e <- (s <- asession sessions ctx;; aentry s doc);;
      sret (aDocument e))
  | EvGetDocumentState ctx doc => respond RState (a_getDocumentState sessions ctx doc)
  end.

(** The handlers of the code. *)
Definition step (sessions : R) (ev : Event) : GoM DocState Response :=
  match ev with
  | EvInitialize ctx => respond (λ _, RUnit) (initialize sessions ctx)
  | EvShutdown ctx => respond (λ _, RUnit) (shutdown sessions ctx)
  | EvEndSession u => respond (λ _, RUnit) (endSession u)
  | EvDidOpen ctx d => respond (λ _, RUnit) (didOpen maxFileSizeBytes sessions ctx d)
  | EvDidClose ctx doc => respond (λ _, RUnit) (didClose gateway_error sessions ctx doc)
  | EvDidChange ctx doc v changes =>
    respond (λ _, RUnit) (didChange gateway_error maxFileSizeBytes sessions ctx doc v changes)
  | EvDidSave ctx doc text => respond (λ _, RUnit) (didSave sessions ctx doc text)
  | EvWillSaveWaitUntil ctx doc result =>
    respond REdits (willSaveWaitUntil sessions ctx doc result)
  | EvAddPendingEdits ctx d edits =>
    respond RBool (AddPendingEdits Filename gateway_error NewToken sessions ctx d edits)
  | EvResetBase w doc => respond (λ _, RUnit) (ResetBase sessions w doc)
  | EvGetPositionMapper ctx doc => respond RMapper (GetPositionMapper DiffMain sessions ctx doc)
  | EvGetTextDocument ctx doc => respond RDocument (GetTextDocument sessions ctx doc)
  | EvGetDocumentState ctx doc =>
    respond RState (GetDocumentState Filename ReadFile sessions ctx doc)
  end.
End spec.
