(* ===== verification/DocSyncProof.v ===== *)
(** * The document store implements the abstract one

    The invariant of the heap of [DocSync] and the refinement theorem: from a
    state that satisfies the invariant, each handler returns what the abstract
    store returns, leaves the state the abstract store leaves, and keeps the
    invariant.  The properties of sequences of handlers follow from the
    abstract store. *)

From stdpp Require Import base gmap list strings fin_maps.
From Stdlib Require Import ZArith Lia.
From S2P Require Import Prelude Utf8 Protocol TextOffset TextEdits PositionMapper Session DocSync DocSyncSpec.

Local Open Scope Z_scope.

(** ** Abstraction *)

Abbreviation Heap := (gmap ptr documentStoreEntry).

Definition text_of (h : Heap) (p : ptr) : bytes :=
  match h !! p with Some e => Text (Document e) | None => [] end.
Definition abs_entry (h : Heap) (e : documentStoreEntry) : AEntry :=
  mkAEntry (Document e) (Edits e) (EditedSinceLastSave e) (ProgressToken e)
    (text_of h <$> Base e).
Definition no_entry : documentStoreEntry :=
  newDocumentStoreEntry (mkTextDocumentItem "" "" 0 []) None.
Definition abs_ptr (h : Heap) (p : ptr) : AEntry := abs_entry h (default no_entry (h !! p)).
Definition abs_docs (h : Heap) (docs : gmap uuid (gmap URI ptr)) : gmap uuid (gmap URI AEntry) :=
  fmap (M := gmap uuid) (fmap (M := gmap URI) (abs_ptr h)) docs.
#[global] Arguments abs_docs : simpl never.
Definition abs (st : DocState) : AState :=
  mkAState (abs_docs (heap st) (documents st)) (tokens st) (calls st)
    (open_docs st) (open_bytes st).

(** The text against which the positions of an entry are mapped. *)
Definition base_text (h : Heap) (e : documentStoreEntry) : bytes :=
  match Base e with Some b => text_of h b | None => Text (Document e) end.

Definition live (docs : gmap uuid (gmap URI ptr)) (u : uuid) (doc : URI) (p : ptr) : Prop :=
  ∃ m, docs !! u = Some m ∧ m !! doc = Some p.

(** ** The invariant *)

Section invariant.
Context (DiffMain : bytes → bytes → list Diff).

Record wf_entry (h : Heap) (docs : gmap uuid (gmap URI ptr)) (e : documentStoreEntry) : Prop := {
  (** the base is an entry without a base, which no session has open *)
  wf_base b : Base e = Some b →
    (∃ eb, h !! b = Some eb ∧ Base eb = None) ∧ ∀ u doc, ¬ live docs u doc b;
  (** a mapper that is kept is the mapper of the entry *)
  wf_mapper m : positionMapper e = Some m →
    m = NewPositionMapper DiffMain (base_text h e) (Text (Document e))
}.

Record wf (st : DocState) : Prop := {
  wf_live u doc p : live (documents st) u doc p → ∃ e, heap st !! p = Some e;
  wf_inj u doc u' doc' p : live (documents st) u doc p → live (documents st) u' doc' p →
    u = u' ∧ doc = doc';
  wf_fresh p : (next st ≤ p)%N → heap st !! p = None;
  wf_entries p e : heap st !! p = Some e → wf_entry (heap st) (documents st) e
}.

Lemma wf_init : wf init_state.
Proof.
  split; cbn.
  - intros u doc p (m&Hm&_). by rewrite lookup_empty in Hm.
  - intros u doc u' doc' p (m&Hm&_). by rewrite lookup_empty in Hm.
  - intros p _. apply lookup_empty.
  - intros p e. by rewrite lookup_empty.
Qed.
End invariant.

(** ** Frame lemmas *)

Lemma live_doc_ptr u doc p st : doc_ptr u doc st = Some p ↔ live (documents st) u doc p.
Proof. unfold doc_ptr, live. apply bind_Some. Qed.

Lemma abs_lookup h docs u : abs_docs h docs !! u = fmap (M := gmap URI) (abs_ptr h) <$> docs !! u.
Proof. unfold abs_docs. by rewrite lookup_fmap. Qed.

Lemma abs_ptr_some h p e : h !! p = Some e → abs_ptr h p = abs_entry h e.
Proof. intros Hp. unfold abs_ptr. by rewrite Hp. Qed.

Lemma abs_aget st u doc : aget u doc (abs st) = abs_ptr (heap st) <$> doc_ptr u doc st.
Proof.
  unfold aget, doc_ptr. cbn. rewrite abs_lookup.
  destruct (documents st !! u); cbn; [by rewrite lookup_fmap|done].
Qed.

(** A write that keeps the document of its entry changes no base text. *)
Lemma text_of_same_doc h p e e' b :
  h !! p = Some e → Document e' = Document e → text_of (<[p := e']> h) b = text_of h b.
Proof.
  intros Hp Hd. unfold text_of. destruct (decide (b = p)) as [->|Hb].
  - by rewrite lookup_insert_eq, Hp, Hd.
  - by rewrite lookup_insert_ne by done.
Qed.
Lemma abs_entry_text h h' e :
  (∀ b, Base e = Some b → text_of h' b = text_of h b) → abs_entry h' e = abs_entry h e.
Proof.
  intros Hb. unfold abs_entry. f_equal. destruct (Base e) as [b|]; [|done].
  cbn. by rewrite Hb.
Qed.

(** A write to the entry of an open document is a write to its abstraction. *)
Lemma abs_docs_store h docs u doc p e e' m :
  h !! p = Some e → Document e' = Document e →
  docs !! u = Some m → m !! doc = Some p →
  (∀ u' doc', live docs u' doc' p → u' = u ∧ doc' = doc) →
  abs_docs (<[p := e']> h) docs = alter (<[doc := abs_entry h e']>) u (abs_docs h docs).
Proof.
  intros Hp Hd Hu Hm Hinj. apply map_eq. intros u'. rewrite abs_lookup.
  assert (Htext : ∀ e0, abs_entry (<[p := e']> h) e0 = abs_entry h e0).
  { intros e0. apply abs_entry_text. intros b _. by apply (text_of_same_doc h p e). }
  destruct (decide (u' = u)) as [->|Hne].
  - rewrite lookup_alter_eq, abs_lookup, Hu. cbn. f_equal. apply map_eq. intros doc'.
    rewrite lookup_fmap. destruct (decide (doc' = doc)) as [->|Hdne].
    + rewrite lookup_insert_eq, Hm. cbn. unfold abs_ptr. by rewrite lookup_insert_eq, <- Htext.
    + rewrite lookup_insert_ne, lookup_fmap by done. destruct (m !! doc') as [q|] eqn:Hq; [|done].
      cbn. unfold abs_ptr. rewrite Htext, lookup_insert_ne; [done|].
      intros <-. destruct (Hinj u doc'); [by exists m|done].
  - rewrite lookup_alter_ne, abs_lookup by done. destruct (docs !! u') as [m'|] eqn:Hu'; [|done].
    cbn. f_equal. apply map_eq. intros doc'. rewrite !lookup_fmap.
    destruct (m' !! doc') as [q|] eqn:Hq; [|done]. cbn. unfold abs_ptr.
    rewrite Htext, lookup_insert_ne; [done|].
    intros <-. destruct (Hinj u' doc'); [by exists m'|done].
Qed.

(** An allocation changes no abstraction of an entry that was there. *)
Lemma abs_ptr_alloc h n e' p e :
  h !! n = None → h !! p = Some e → (∀ b, Base e = Some b → ∃ eb, h !! b = Some eb) →
  abs_ptr (<[n := e']> h) p = abs_ptr h p.
Proof.
  intros Hn Hp Hb. unfold abs_ptr. rewrite lookup_insert_ne by congruence. rewrite Hp. cbn.
  apply abs_entry_text. intros b Hbe. destruct (Hb b Hbe) as [eb Heb].
  unfold text_of. by rewrite lookup_insert_ne by congruence.
Qed.

Definition closed (h : Heap) : Prop :=
  ∀ p e b, h !! p = Some e → Base e = Some b → ∃ eb, h !! b = Some eb.

Lemma wf_closed DiffMain st : wf DiffMain st → closed (heap st).
Proof.
  intros Hwf p e b Hp Hb. destruct (wf_base _ _ _ _ (wf_entries _ _ Hwf p e Hp) b Hb)
    as [(eb&?&_) _]. by exists eb.
Qed.

Lemma abs_docs_alloc h docs u doc n e' m :
  h !! n = None → closed h → (∀ u doc p, live docs u doc p → ∃ e, h !! p = Some e) →
  (∀ b, Base e' = Some b → ∃ eb, h !! b = Some eb) → docs !! u = Some m →
  abs_docs (<[n := e']> h) (<[u := <[doc := n]> m]> docs)
  = alter (<[doc := abs_entry h e']>) u (abs_docs h docs).
Proof.
  intros Hn Hcl Hlive Hb Hu. apply map_eq. intros u'. rewrite abs_lookup.
  assert (Hold : ∀ u' m' doc' q, docs !! u' = Some m' → m' !! doc' = Some q →
    abs_ptr (<[n := e']> h) q = abs_ptr h q).
  { intros u1 m1 doc1 q Hu1 Hq. destruct (Hlive u1 doc1 q) as [e He]; [by exists m1|].
    eapply abs_ptr_alloc; eauto. }
  destruct (decide (u' = u)) as [->|Hne].
  - rewrite lookup_insert_eq, lookup_alter_eq, abs_lookup, Hu. cbn. f_equal.
    rewrite fmap_insert. f_equal.
    + unfold abs_ptr. rewrite lookup_insert_eq. cbn. apply abs_entry_text.
      intros b Hbe. destruct (Hb b Hbe) as [eb Heb]. unfold text_of.
      by rewrite lookup_insert_ne by congruence.
    + apply map_fmap_ext. intros doc' q Hq. eauto.
  - rewrite lookup_insert_ne, lookup_alter_ne, abs_lookup by done.
    destruct (docs !! u') as [m'|] eqn:Hu'; [|done]. cbn. f_equal.
    apply map_fmap_ext. intros doc' q Hq. eauto.
Qed.

(** ** Preservation of the invariant *)

Section preservation.
Context (DiffMain : bytes → bytes → list Diff).
Implicit Types st : DocState.

Lemma wf_shrink st st' :
  wf DiffMain st → heap st' = heap st → next st' = next st →
  (∀ u doc p, live (documents st') u doc p → live (documents st) u doc p) →
  wf DiffMain st'.
Proof.
  intros Hwf Hh Hn Hl. split; rewrite ?Hh, ?Hn.
  - intros u doc p Hp. by eapply wf_live, Hl.
  - intros u doc u' doc' p Hp Hp'. eapply wf_inj; eauto.
  - apply (wf_fresh _ _ Hwf).
  - intros p e Hp. destruct (wf_entries _ _ Hwf p e Hp) as [Hb Hm]. split; [|done].
    intros b Hbe. destruct (Hb b Hbe) as [? Hnl]. split; [done|].
    intros u doc Hlive. by eapply Hnl, Hl.
Qed.

Lemma wf_store st u doc p e e' :
  wf DiffMain st → live (documents st) u doc p → heap st !! p = Some e →
  Document e' = Document e → (∀ b, Base e' = Some b → Base e = Some b) →
  (∀ m, positionMapper e' = Some m →
    m = NewPositionMapper DiffMain (base_text (heap st) e') (Text (Document e'))) →
  wf DiffMain (set_heap (<[p := e']> (heap st)) st).
Proof.
  intros Hwf Hlive Hp Hd Hb Hm.
  assert (Hbt : ∀ e0, base_text (<[p := e']> (heap st)) e0 = base_text (heap st) e0).
  { intros e0. unfold base_text. destruct (Base e0) as [b|]; [|done].
    by apply (text_of_same_doc _ _ e). }
  assert (Hbase : ∀ q e0, heap st !! q = Some e0 → ∀ b, Base e0 = Some b →
    (∃ eb, <[p := e']> (heap st) !! b = Some eb ∧ Base eb = None) ∧
    ∀ u doc, ¬ live (documents st) u doc b).
  { intros q e0 Hq b Hbe. destruct (wf_base _ _ _ _ (wf_entries _ _ Hwf q e0 Hq) b Hbe)
      as [(eb&Heb&Hnone) Hnl]. split; [|done].
    exists eb. rewrite lookup_insert_ne; [done|]. intros <-. by eapply Hnl. }
  split; cbn.
  - intros u' doc' q Hq. destruct (decide (q = p)) as [->|].
    + exists e'. apply lookup_insert_eq.
    + rewrite lookup_insert_ne by done. by eapply wf_live.
  - apply (wf_inj _ _ Hwf).
  - intros q Hq. rewrite lookup_insert_ne; [by apply (wf_fresh _ _ Hwf)|].
    intros <-. rewrite (wf_fresh _ _ Hwf p Hq) in Hp. done.
  - intros q e0 Hq. destruct (decide (q = p)) as [->|].
    + rewrite lookup_insert_eq in Hq. injection Hq as <-. split.
      * intros b Hbe. eapply Hbase; eauto.
      * intros m Hm'. rewrite Hbt. by apply Hm.
    + rewrite lookup_insert_ne in Hq by done. split.
      * intros b Hbe. eapply Hbase; eauto.
      * intros m Hm'. rewrite Hbt. by apply (wf_mapper _ _ _ _ (wf_entries _ _ Hwf q e0 Hq)).
Qed.

(** The state after an entry is allocated and made the entry of a document. *)
Definition opened st (u : uuid) (doc : URI) (m : gmap URI ptr) (e' : documentStoreEntry) : DocState :=
  mkDocState (<[next st := e']> (heap st)) (N.succ (next st))
    (<[u := <[doc := next st]> m]> (documents st)) (tokens st) (calls st)
    (open_docs st) (open_bytes st).

Lemma live_opened st u doc m e' u' doc' p :
  documents st !! u = Some m → live (documents (opened st u doc m e')) u' doc' p →
  (u' = u ∧ doc' = doc ∧ p = next st) ∨ ((u' ≠ u ∨ doc' ≠ doc) ∧ live (documents st) u' doc' p).
Proof.
  intros Hu (m'&Hm'&Hp). cbn in Hm'. destruct (decide (u' = u)) as [->|].
  - rewrite lookup_insert_eq in Hm'. injection Hm' as <-.
    destruct (decide (doc' = doc)) as [->|].
    + rewrite lookup_insert_eq in Hp. injection Hp as <-. by left.
    + rewrite lookup_insert_ne in Hp by done. right. split; [by right|]. by exists m.
  - rewrite lookup_insert_ne in Hm' by done. right. split; [by left|]. by exists m'.
Qed.

Lemma wf_opened st u doc m e' :
  wf DiffMain st → documents st !! u = Some m → positionMapper e' = None →
  (∀ b, Base e' = Some b → (∃ eb, heap st !! b = Some eb ∧ Base eb = None) ∧
    ∀ u' doc', live (documents st) u' doc' b → u' = u ∧ doc' = doc) →
  wf DiffMain (opened st u doc m e').
Proof.
  intros Hwf Hu Hpm Hb.
  assert (Hn : heap st !! next st = None) by (apply (wf_fresh _ _ Hwf); lia).
  assert (Hnl : ∀ u' doc', ¬ live (documents st) u' doc' (next st)).
  { intros u' doc' Hl. destruct (wf_live _ _ Hwf _ _ _ Hl). congruence. }
  split.
  - intros u' doc' p Hl. cbn. destruct (live_opened _ _ _ _ _ _ _ _ Hu Hl)
      as [(_&_&->)|[_ Hl']]; [exists e'; apply lookup_insert_eq|].
    destruct (wf_live _ _ Hwf _ _ _ Hl') as [e He]. exists e.
    rewrite lookup_insert_ne by congruence. done.
  - intros u1 d1 u2 d2 p Hl1 Hl2.
    destruct (live_opened _ _ _ _ _ _ _ _ Hu Hl1) as [(->&->&->)|[_ Hl1']],
             (live_opened _ _ _ _ _ _ _ _ Hu Hl2) as [(->&->&Hp)|[_ Hl2']]; subst.
    + done.
    + by apply Hnl in Hl2'.
    + by apply Hnl in Hl1'.
    + by eapply wf_inj.
  - cbn. intros p Hp. rewrite lookup_insert_ne by lia. apply (wf_fresh _ _ Hwf). lia.
  - intros p e. cbn [heap opened]. intros Hp.
    assert (Hold : ∀ b eb, heap st !! b = Some eb → <[next st := e']> (heap st) !! b = Some eb).
    { intros b eb Heb. rewrite lookup_insert_ne by congruence. done. }
    destruct (decide (p = next st)) as [->|Hne].
    + rewrite lookup_insert_eq in Hp. injection Hp as <-. split; [|by rewrite Hpm].
      intros b Hbe. destruct (Hb b Hbe) as [(eb&Heb&?) Honly]. split; [by eauto|].
      intros u' doc' Hl. destruct (live_opened _ _ _ _ _ _ _ _ Hu Hl)
        as [(_&_&->)|[Hne Hl']]; [congruence|].
      destruct (Honly _ _ Hl') as [-> ->]. by destruct Hne.
    + rewrite lookup_insert_ne in Hp by done.
      destruct (wf_entries _ _ Hwf p e Hp) as [Hbe Hme]. split.
      * intros b Hb'. destruct (Hbe b Hb') as [(eb&Heb&?) Hnb]. split; [by eauto|].
        intros u' doc' Hl. destruct (live_opened _ _ _ _ _ _ _ _ Hu Hl)
          as [(_&_&->)|[_ Hl']]; [congruence|]. by eapply Hnb.
      * intros mp Hmp. rewrite (Hme mp Hmp). f_equal. unfold base_text.
        destruct (Base e) as [b|] eqn:Hb'; [|done].
        destruct (Hbe b eq_refl) as [(eb&Heb&?) _]. unfold text_of.
        by rewrite (Hold b eb Heb), Heb.
Qed.

Lemma abs_opened st u doc m e' :
  wf DiffMain st → documents st !! u = Some m →
  (∀ b, Base e' = Some b → ∃ eb, heap st !! b = Some eb) →
  abs (opened st u doc m e')
  = set_adocs (alter (<[doc := abs_entry (heap st) e']>) u (adocs (abs st))) (abs st).
Proof.
  intros Hwf Hu Hb. unfold abs, set_adocs. cbn. f_equal.
  apply abs_docs_alloc; [|by eapply wf_closed| |done..].
  - apply (wf_fresh _ _ Hwf). lia.
  - intros u' doc' p Hl. by eapply wf_live.
Qed.

Lemma abs_store st u doc p e e' :
  wf DiffMain st → live (documents st) u doc p → heap st !! p = Some e →
  Document e' = Document e →
  abs (set_heap (<[p := e']> (heap st)) st)
  = set_adocs (alter (<[doc := abs_entry (heap st) e']>) u (adocs (abs st))) (abs st).
Proof.
  intros Hwf Hl Hp Hd. pose proof Hl as (m&Hu&Hm). unfold abs, set_adocs. cbn. f_equal.
  eapply abs_docs_store; eauto.
  intros u' doc' Hl'. by destruct (wf_inj _ _ Hwf _ _ _ _ _ Hl' Hl).
Qed.
End preservation.

(** ** Simulation *)

Section simulation.
Context {R : Type} `{Repository R}.
Context (DiffMain : bytes → bytes → list Diff).
Context (Filename : URI → string) (ReadFile : string → gores bytes).
Context (gateway_error : GatewayCall → option error) (NewToken : N → string).
Context (maxFileSizeBytes : Z) (sessions : R).

(** [m] keeps the invariant, returns what [am] returns and leaves the state
    that [am] leaves. *)
Definition simulates {A} (m : GoM DocState A) (am : GoM AState A) : Prop :=
  ∀ st, wf DiffMain st →
    let '(r, st') := m st in wf DiffMain st' ∧ am (abs st) = (r, abs st').

Lemma sim_lift {A} (r : gores A) : simulates (lift_res r) (lift_res r).
Proof. intros st Hwf. done. Qed.
Lemma sim_sret {A} (a : A) : simulates (sret a) (sret a).
Proof. intros st Hwf. done. Qed.
Lemma sim_throw {A} e : simulates (A := A) (throw e) (throw e).
Proof. intros st Hwf. done. Qed.

Lemma sim_bind {A B} (m : GoM DocState A) am (k : A → GoM DocState B) ak :
  simulates m am → (∀ a, simulates (k a) (ak a)) → simulates (sbind m k) (sbind am ak).
Proof.
  intros Hm Hk st Hwf. unfold sbind. specialize (Hm st Hwf).
  destruct (m st) as [[a|e| |] st1]; destruct Hm as [Hwf1 ->]; try done.
  by apply Hk.
Qed.

Lemma sim_try {A} (m : GoM DocState A) am : simulates m am → simulates (try_ m) (try_ am).
Proof.
  intros Hm st Hwf. unfold try_. specialize (Hm st Hwf).
  by destruct (m st) as [[a|e| |] st1]; destruct Hm as [Hwf1 ->].
Qed.

Lemma sim_respond {A} f (m : GoM DocState A) am :
  simulates m am → simulates (respond f m) (respond f am).
Proof. intros Hm. apply sim_bind; [done|]. intros a. apply sim_sret. Qed.

Lemma sim_gateway c :
  simulates (gateway gateway_error c) (agateway gateway_error c).
Proof.
  intros st Hwf. unfold gateway. split; [|done].
  by apply (wf_shrink DiffMain st).
Qed.

Lemma sim_updateMetrics : simulates updateMetrics aupdateMetrics.
Proof.
  intros st Hwf. unfold updateMetrics. split; [by apply (wf_shrink DiffMain st)|].
  unfold aupdateMetrics, abs. cbn. do 2 f_equal.
  - unfold abs_docs. rewrite map_to_list_fmap. generalize 0.
    induction (map_to_list (documents st)) as [|[u m] l IH]; intros n; cbn; [done|].
    rewrite IH. by rewrite map_size_fmap.
  - unfold docs_of, abs_docs. rewrite map_to_list_fmap. generalize 0.
    induction (map_to_list (documents st)) as [|[u m] l IH]; intros n; cbn; [done|].
    rewrite !foldl_app, map_to_list_fmap, IH. f_equal. clear IH. revert n.
    induction (map_to_list m) as [|[d p] l' IH]; intros n; cbn; [done|].
    rewrite IH. f_equal. unfold entry_size, abs_ptr. by destruct (heap st !! p).
Qed.

Lemma sim_defer {A} (m : GoM DocState A) am :
  simulates m am → simulates (defer updateMetrics m) (adefer aupdateMetrics am).
Proof.
  intros Hm st Hwf. unfold defer, adefer. specialize (Hm st Hwf).
  destruct (m st) as [r st1]; destruct Hm as [Hwf1 ->].
  pose proof (sim_updateMetrics st1 Hwf1) as Hu.
  destruct (updateMetrics st1) as [r2 st2]. by destruct Hu as [Hwf2 ->].
Qed.

Lemma sim_session ctx : simulates (from_context sessions ctx) (asession sessions ctx).
Proof. apply sim_lift. Qed.

(** The states in which a handler finds its document. *)
Lemma find_doc st u doc :
  wf DiffMain st →
  (documents st !! u = None ∧ adocs (abs st) !! u = None) ∨
  (∃ m, documents st !! u = Some m ∧ m !! doc = None ∧
        adocs (abs st) !! u = Some (abs_ptr (heap st) <$> m) ∧
        (abs_ptr (heap st) <$> m) !! doc = None) ∨
  (∃ m p e, documents st !! u = Some m ∧ m !! doc = Some p ∧ heap st !! p = Some e ∧
        live (documents st) u doc p ∧
        adocs (abs st) !! u = Some (abs_ptr (heap st) <$> m) ∧
        (abs_ptr (heap st) <$> m) !! doc = Some (abs_entry (heap st) e)).
Proof.
  intros Hwf. cbn. rewrite abs_lookup.
  destruct (documents st !! u) as [m|] eqn:Hu; [right|by left].
  destruct (m !! doc) as [p|] eqn:Hm; [right|left].
  - assert (Hl : live (documents st) u doc p) by (by exists m).
    destruct (wf_live _ _ Hwf _ _ _ Hl) as [e He].
    exists m, p, e. split_and!; try done. rewrite lookup_fmap, Hm. cbn.
    by rewrite (abs_ptr_some _ _ e).
  - exists m. split_and!; try done. by rewrite lookup_fmap, Hm.
Qed.

Ltac find_doc_cases st u doc Hwf :=
  let m := fresh "m" in let p := fresh "p" in let e := fresh "e" in
  destruct (find_doc st u doc Hwf)
    as [(Hu&Hau)|[(m&Hu&Hm&Hau&Ham)|(m&p&e&Hu&Hm&Hp&Hlive&Hau&Ham)]].

(** The same for the handlers that read [c.documents[s.UUID][doc]]. *)
Lemma find_doc' st s doc :
  wf DiffMain st →
  (doc_ptr (UUID s) doc st = None ∧
   aentry' s doc (abs st) = (Err (EDocumentNotFound doc), abs st)) ∨
  (∃ m p e, documents st !! UUID s = Some m ∧ doc_ptr (UUID s) doc st = Some p ∧
     heap st !! p = Some e ∧ live (documents st) (UUID s) doc p ∧ load p st = (Ok e, st) ∧
     aentry' s doc (abs st) = (Ok (abs_entry (heap st) e), abs st)).
Proof.
  intros Hwf. unfold doc_ptr, aentry', aget, load.
  find_doc_cases st (UUID s) doc Hwf; rewrite Hu, Hau; [by left|left|right]; cbn;
    rewrite Hm, Ham; [done|].
  exists m, p, e. rewrite Hp. done.
Qed.

(** [getDocumentStoreEntry] against the abstract lookup. *)
Lemma find_entry st ctx doc :
  wf DiffMain st →
  let m := getDocumentStoreEntry sessions ctx doc st in
  let am := (s <- asession sessions ctx;; aentry s doc) (abs st) in
  (∃ x, m = (Err x, st) ∧ am = (Err x, abs st)) ∨
  (∃ s p e, live (documents st) (UUID s) doc p ∧ heap st !! p = Some e ∧
     m = (Ok p, st) ∧ am = (Ok (abs_entry (heap st) e), abs st)) ∨
  (m = (Panic, st) ∧ am = (Panic, abs st)) ∨ (m = (Fuel, st) ∧ am = (Fuel, abs st)).
Proof.
  intros Hwf. unfold getDocumentStoreEntry, from_context, asession.
  destruct (repo_GetFromContext sessions ctx) as [s|err| |]; [|left; by exists err|auto..].
  rewrite !(sbind_ok (lift_res (Ok s)) _ _ s _ eq_refl), sbind_get. unfold aentry. cbn zeta.
  find_doc_cases st (UUID s) doc Hwf; rewrite Hu, Hau; [left; by eexists|..]; rewrite Hm, Ham;
    [left; by eexists|].
  right. left. by exists s, p, e.
Qed.

Lemma sim_GetTextDocument ctx doc :
  simulates (GetTextDocument sessions ctx doc)
    (e <- (s <- asession sessions ctx;; aentry s doc);; sret (aDocument e)).
Proof.
  intros st Hwf. unfold GetTextDocument.
  destruct (find_entry st ctx doc Hwf) as [(x&Hc&Ha)|[(s&p&e&Hl&Hp&Hc&Ha)|[[Hc Ha]|[Hc Ha]]]].
  - by rewrite (sbind_err _ _ _ _ _ Hc), (sbind_err _ _ _ _ _ Ha).
  - rewrite (sbind_ok _ _ _ _ _ Hc), (sbind_ok _ _ _ _ _ Ha).
    by rewrite (sbind_ok (load p) _ st e st) by (unfold load; by rewrite Hp).
  - by rewrite (sbind_panic _ _ _ _ Hc), (sbind_panic _ _ _ _ Ha).
  - by rewrite (sbind_fuel _ _ _ _ Hc), (sbind_fuel _ _ _ _ Ha).
Qed.

Lemma sim_GetDocumentState ctx doc :
  simulates (GetDocumentState Filename ReadFile sessions ctx doc)
    (a_getDocumentState Filename ReadFile sessions ctx doc).
Proof.
  apply sim_bind; [apply sim_session|]. intros s st Hwf. unfold sbind, get_st, try_, aentry.
  find_doc_cases st (UUID s) doc Hwf; rewrite Hu, Hau; [done|..]; rewrite Hm, Ham; [done|].
  unfold load. rewrite Hp. cbn. destruct (EditedSinceLastSave e); [|done].
  unfold lift_res. destruct (wrap_err _ _); try done. by case_bool_decide.
Qed.

Lemma sim_willSaveWaitUntil ctx doc result :
  simulates (willSaveWaitUntil sessions ctx doc result)
    (s <- asession sessions ctx;; e <- aentry' s doc;; sret (result ++ aEdits e)).
Proof.
  apply sim_bind; [apply sim_session|]. intros s st Hwf. rewrite sbind_get.
  destruct (find_doc' st s doc Hwf) as [[-> Ha]|(m&p&e&Hu&->&Hp&Hl&Hload&Ha)].
  - by rewrite (sbind_err _ _ _ _ _ Ha).
  - by rewrite (sbind_ok _ _ _ _ _ Ha), (sbind_ok _ _ _ _ _ Hload).
Qed.

(** Removal of a session or a document only shrinks the live pointers. *)
Lemma sim_set_documents f g :
  (∀ docs u doc p, live (f docs) u doc p → live docs u doc p) →
  (∀ h docs, abs_docs h (f docs) = g (abs_docs h docs)) →
  simulates (modify_st (λ st, set_documents (f (documents st)) st))
    (modify_st (λ st, set_adocs (g (adocs st)) st)).
Proof.
  intros Hl Hg st Hwf. cbn. split.
  - apply (wf_shrink DiffMain st); try done. intros u doc p. apply Hl.
  - unfold modify_st, set_adocs, abs, set_documents. cbn. by rewrite Hg.
Qed.

Lemma live_delete_session v docs u doc p :
  live (delete v docs) u doc p → live docs u doc p.
Proof. intros (m&Hm&Hp). exists m. split; [|done]. by apply lookup_delete_Some in Hm as [_ ?]. Qed.

Lemma live_new_session v docs u doc p :
  live (<[v := ∅]> docs) u doc p → live docs u doc p.
Proof.
  intros (m&Hm&Hp). apply lookup_insert_Some in Hm as [[_ <-]|[_ Hm]].
  - by rewrite lookup_empty in Hp.
  - by exists m.
Qed.

Lemma live_delete_doc v d docs u doc p :
  live (alter (delete d) v docs) u doc p → live docs u doc p.
Proof.
  intros (m&Hm&Hp). apply lookup_alter_Some in Hm as [(->&m'&Hm'&->)|[_ Hm]].
  - apply lookup_delete_Some in Hp as [_ Hp]. by exists m'.
  - by exists m.
Qed.

Lemma sim_initialize ctx :
  simulates (initialize sessions ctx) (adefer aupdateMetrics (
    s <- asession sessions ctx;;
    modify_st (λ st, set_adocs (<[UUID s := ∅]> (adocs st)) st))).
Proof.
  apply sim_defer, sim_bind; [apply sim_session|]. intros s.
  apply (sim_set_documents (λ docs, <[UUID s := ∅]> docs) (λ docs, <[UUID s := ∅]> docs)).
  - intros docs. apply live_new_session.
  - intros h docs. unfold abs_docs. by rewrite fmap_insert, fmap_empty.
Qed.

Lemma sim_disposeSession u :
  simulates (disposeSession u) (modify_st (λ st, set_adocs (delete u (adocs st)) st)).
Proof.
  apply (sim_set_documents (λ docs, delete u docs) (λ docs, delete u docs)).
  - intros docs. apply live_delete_session.
  - intros h docs. unfold abs_docs. by rewrite fmap_delete.
Qed.

Lemma sim_shutdown ctx :
  simulates (shutdown sessions ctx) (adefer aupdateMetrics (
    s <- asession sessions ctx;;
    modify_st (λ st, set_adocs (delete (UUID s) (adocs st)) st))).
Proof.
  apply sim_defer, sim_bind; [apply sim_session|]. intros s. apply sim_disposeSession.
Qed.

Lemma sim_endSession u :
  simulates (endSession u) (adefer aupdateMetrics (
    modify_st (λ st, set_adocs (delete u (adocs st)) st))).
Proof. apply sim_defer, sim_disposeSession. Qed.

(** Allocation of a new entry for a document that the session has a map for. *)
Lemma alloc_set_doc st u doc m e' :
  documents st !! u = Some m →
  (p <- alloc e';; set_doc u doc p) st = (Ok tt, opened st u doc m e').
Proof. intros Hu. unfold sbind, alloc, set_doc. cbn. by rewrite Hu. Qed.

Lemma sim_didOpen ctx d :
  simulates (didOpen maxFileSizeBytes sessions ctx d) (a_didOpen maxFileSizeBytes sessions ctx d).
Proof.
  apply sim_defer, sim_bind; [apply sim_session|]. intros s st Hwf.
  rewrite !sbind_get.
  find_doc_cases st (UUID s) (DocURI d) Hwf; rewrite Hu, Hau; [done|..];
    (destruct (validateSize maxFileSizeBytes (Text d)); [|done|..];
     erewrite alloc_set_doc by done;
     (split; [by apply wf_opened|]);
     unfold aput, modify_st; by erewrite abs_opened).
Qed.

Lemma sim_didSave ctx doc text :
  simulates (didSave sessions ctx doc text) (adefer aupdateMetrics (
    s <- asession sessions ctx;;
    e <- aentry' s doc;;
    aput (UUID s) doc (new_aentry (set_text (aDocument e) text) (aBase e)))).
Proof.
  apply sim_defer, sim_bind; [apply sim_session|]. intros s st Hwf.
  rewrite sbind_get.
  destruct (find_doc' st s doc Hwf) as [[-> Ha]|(m&p&e&Hu&->&Hp&Hl&Hload&Ha)].
  { by rewrite (sbind_err _ _ _ _ _ Ha). }
  rewrite (sbind_ok _ _ _ _ _ Ha), (sbind_ok _ _ _ _ _ Hload).
  erewrite alloc_set_doc by done.
  assert (Hb : ∀ b, Base e = Some b → (∃ eb, heap st !! b = Some eb ∧ Base eb = None) ∧
    ∀ u' doc', live (documents st) u' doc' b → u' = UUID s ∧ doc' = doc).
  { intros b Hb. destruct (wf_base _ _ _ _ (wf_entries _ _ Hwf p e Hp) b Hb) as [? Hnl].
    split; [done|]. intros u' doc' Hl'. by apply Hnl in Hl'. }
  split; [by apply wf_opened|].
  unfold aput, modify_st. erewrite abs_opened; [done..|].
  intros b Hbe. destruct (Hb b Hbe) as [(eb&?&_) _]. by exists eb.
Qed.

(** The inner part of the abstract [didChange]. *)
Definition a_updateText (ctx : Context) doc version changes : GoM AState AEntry :=
  s <- asession sessions ctx;;
  e <- aentry' s doc;;
  text <- lift_res (ApplyContentChanges (Text (aDocument e)) changes);;
  lift_res (wrap_err "unable to add changes to document" (validateSize maxFileSizeBytes text)) ;;;
  aput (UUID s) doc (mkAEntry (set_version (set_text (aDocument e) text) version) [] true None
    (Some (default (Text (aDocument e)) (aBase e)))) ;;;
  sret e.

(** [updateDocumentText] against it: the old entry is still in the heap. *)
Lemma sim_updateDocumentText ctx doc version changes st :
  wf DiffMain st →
  let '(r, st') := updateDocumentText maxFileSizeBytes sessions ctx doc version changes st in
  let '(ar, ast') := a_updateText ctx doc version changes (abs st) in
  wf DiffMain st' ∧ ast' = abs st' ∧
  match r, ar with
  | Ok (old, _), Ok ae => ∃ e, heap st' !! old = Some e ∧ aToken ae = ProgressToken e
  | Err x, Err y => x = y
  | Panic, Panic | Fuel, Fuel => True
  | _, _ => False
  end.
Proof.
  intros Hwf. unfold updateDocumentText, a_updateText, from_context, asession.
  destruct (repo_GetFromContext sessions ctx) as [s|err| |]; try done.
  rewrite !(sbind_ok (lift_res (Ok s)) _ _ s _ eq_refl), sbind_get.
  destruct (find_doc' st s doc Hwf) as [[-> Ha]|(m&p&e&Hu&->&Hp&Hl&Hload&Ha)].
  { by rewrite (sbind_err _ _ _ _ _ Ha). }
  rewrite (sbind_ok _ _ _ _ _ Ha), (sbind_ok _ _ _ _ _ Hload). cbn [aDocument abs_entry].
  destruct (ApplyContentChanges _ changes) as [text|err| |]; try done.
  rewrite !(sbind_ok (lift_res (Ok text)) _ _ text _ eq_refl).
  destruct (wrap_err _ (validateSize maxFileSizeBytes text)) as [[]|err| |]; try done.
  rewrite !(sbind_ok (lift_res (Ok tt)) _ _ tt _ eq_refl).
  set (b := match Base e with Some b => b | None => p end).
  set (d := set_version (set_text (Document e) text) version).
  set (e' := mkEntry d [] true None (Some b) None).
  assert (Hst : (result <- alloc e';; set_doc (UUID s) doc result;;; sret (p, result)) st
    = (Ok (p, next st), opened st (UUID s) doc m e')).
  { unfold sbind, alloc, set_doc. cbn. by rewrite Hu. }
  rewrite Hst. unfold aput. rewrite sbind_modify. cbn.
  assert (Hb : (∃ eb, heap st !! b = Some eb ∧ Base eb = None) ∧
    (∀ u' doc', live (documents st) u' doc' b → u' = UUID s ∧ doc' = doc) ∧
    text_of (heap st) b = default (Text (Document e)) (text_of (heap st) <$> Base e)).
  { unfold b. destruct (Base e) as [b0|] eqn:Hbe.
    - destruct (wf_base _ _ _ _ (wf_entries _ _ Hwf p e Hp) b0 Hbe) as [? Hnl].
      split_and!; [done| |done]. intros u' doc' Hl'. by apply Hnl in Hl'.
    - split_and!; [by exists e| |unfold text_of; by rewrite Hp].
      intros u' doc' Hl'. by apply (wf_inj _ _ Hwf _ _ _ _ _ Hl' Hl). }
  destruct Hb as (Hb1&Hb2&Hb3). split_and!.
  - apply wf_opened; [done..|]. intros ? [= <-]. done.
  - erewrite abs_opened; [|done..|].
    { change (abs_entry (heap st) e') with (mkAEntry d [] true None (Some (text_of (heap st) b))).
      by rewrite Hb3. }
    intros ? [= <-]. destruct Hb1 as (eb&?&_). by exists eb.
  - exists e. rewrite lookup_insert_ne; [done|].
    intros <-. rewrite (wf_fresh _ _ Hwf (next st)) in Hp; [done|lia].
Qed.

Lemma sim_didChange ctx doc version changes :
  simulates (didChange gateway_error maxFileSizeBytes sessions ctx doc version changes)
    (a_didChange gateway_error maxFileSizeBytes sessions ctx doc version changes).
Proof.
  intros st Hwf. unfold didChange, a_didChange. fold (a_updateText ctx doc version changes).
  pose proof (sim_updateDocumentText ctx doc version changes st Hwf) as Hsim.
  unfold wrapM. unfold sbind at 1 4.
  destruct (updateDocumentText _ _ _ _ _ _ st) as [r st'].
  destruct (a_updateText _ _ _ _ (abs st)) as [ar ast']. destruct Hsim as (Hwf'&->&Hr).
  destruct r as [[old new]|x| |], ar as [ae|y| |]; try done; cbn; [|by subst].
  destruct Hr as (e&He&Htok). unfold sbind at 1, load. rewrite He, Htok.
  destruct (ProgressToken e) as [token|]; [|done].
  apply (sim_bind _ _ _ _ (sim_try _ _ (sim_gateway (ProgressEnd token)))); [|done].
  intros a. apply sim_sret.
Qed.

Lemma sim_didClose ctx doc :
  simulates (didClose gateway_error sessions ctx doc) (a_didClose gateway_error sessions ctx doc).
Proof.
  apply sim_defer. intros st Hwf. unfold deleteDocument, from_context, asession.
  destruct (repo_GetFromContext sessions ctx) as [s|err| |]; try done.
  rewrite (sbind_ok (lift_res (Ok s)) _ (abs st) s _ eq_refl), sbind_get.
  unfold sbind at 1. rewrite (sbind_ok (lift_res (Ok s)) _ _ s _ eq_refl), sbind_get.
  fold (doc_ptr (UUID s) doc st). rewrite abs_aget.
  destruct (doc_ptr (UUID s) doc st) as [p|] eqn:Hp; [|done].
  apply live_doc_ptr in Hp. destruct (wf_live _ _ Hwf _ _ _ Hp) as [e He].
  cbn [fmap option_fmap option_map]. rewrite !sbind_modify. cbn [sret].
  set (st1 := set_documents (alter (delete doc) (UUID s) (documents st)) st).
  assert (Hst1 : wf DiffMain st1 ∧
    abs st1 = set_adocs (alter (delete doc) (UUID s) (adocs (abs st))) (abs st)).
  { destruct (sim_set_documents (alter (delete doc) (UUID s)) (alter (delete doc) (UUID s))
      (λ docs, live_delete_doc _ _ docs)) with st as [? Heq]; [|done|].
    - intros h docs. apply map_eq. intros u'. rewrite abs_lookup.
      destruct (decide (u' = UUID s)) as [->|].
      + rewrite !lookup_alter_eq, abs_lookup. destruct (docs !! UUID s); [|done].
        cbn. by rewrite fmap_delete.
      + by rewrite !lookup_alter_ne, abs_lookup by done.
    - split; [done|]. symmetry. exact (f_equal snd Heq). }
  destruct Hst1 as [Hwf1 <-].
  rewrite (sbind_ok (load p) _ st1 e st1) by (unfold load; cbn; by rewrite He).
  rewrite (abs_ptr_some _ _ e He). cbn [aToken abs_entry].
  destruct (ProgressToken e); [by apply sim_gateway|done].
Qed.

(** A write to the entry of an open document that keeps its document. *)
Lemma sim_store st u doc p e e' :
  wf DiffMain st → live (documents st) u doc p → heap st !! p = Some e →
  Document e' = Document e → (∀ b, Base e' = Some b → Base e = Some b) →
  (∀ m, positionMapper e' = Some m →
    m = NewPositionMapper DiffMain (base_text (heap st) e') (Text (Document e'))) →
  ∃ st', store p e' st = (Ok tt, st') ∧ st' = set_heap (<[p := e']> (heap st)) st ∧
    wf DiffMain st' ∧
    abs st' = set_adocs (alter (<[doc := abs_entry (heap st) e']>) u (adocs (abs st))) (abs st).
Proof.
  intros Hwf Hl Hp Hd Hb Hm. eexists. split_and!; [done..| |].
  - by eapply wf_store.
  - by eapply abs_store.
Qed.

(** Writing back the abstraction of the entry that is there changes nothing. *)
Lemma alter_same st u doc p e :
  live (documents st) u doc p → heap st !! p = Some e →
  set_adocs (alter (<[doc := abs_entry (heap st) e]>) u (adocs (abs st))) (abs st) = abs st.
Proof.
  intros (m&Hu&Hm) Hp. unfold set_adocs, abs. cbn. f_equal. apply map_eq. intros u'.
  destruct (decide (u' = u)) as [->|]; [|by rewrite lookup_alter_ne by done].
  rewrite lookup_alter_eq, abs_lookup, Hu. cbn. f_equal. apply insert_id.
  rewrite lookup_fmap, Hm. cbn. by rewrite (abs_ptr_some _ _ e).
Qed.

Lemma GetPositionMapper_entry st u doc p d :
  wf DiffMain st → live (documents st) u doc p → heap st !! p = Some d →
  ∃ st', (d <- load p;;
    match positionMapper d with
    | Some m => sret (Some m)
    | None =>
      baseText <- (match Base d with
                   | Some b => base <- load b;; sret (Text (Document base))
                   | None => sret (Text (Document d))
                   end);;
      store p (mkEntry (Document d) (Edits d) (EditedSinceLastSave d) (ProgressToken d)
        (Base d) (Some (NewPositionMapper DiffMain baseText (Text (Document d))))) ;;;
      sret (Some (NewPositionMapper DiffMain baseText (Text (Document d))))
    end) st
    = (Ok (Some (NewPositionMapper DiffMain (base_text (heap st) d) (Text (Document d)))), st') ∧
    wf DiffMain st' ∧ abs st' = abs st.
Proof.
  intros Hwf Hl Hp. rewrite (sbind_ok (load p) _ st d st) by (unfold load; by rewrite Hp).
  destruct (wf_entries _ _ Hwf p d Hp) as [Hb Hm].
  destruct (positionMapper d) as [m|] eqn:Hpm.
  { exists st. split; [|done]. by rewrite (Hm m eq_refl). }
  assert (Hbt : (match Base d with
     | Some b => base <- load b;; sret (Text (Document base))
     | None => sret (Text (Document d))
     end) st = (Ok (base_text (heap st) d), st)).
  { unfold base_text. destruct (Base d) as [b|]; [|done].
    destruct (Hb b eq_refl) as [(eb&Heb&_) _]. unfold sbind, load, text_of. by rewrite Heb. }
  rewrite (sbind_ok _ _ _ _ _ Hbt).
  destruct (sim_store st u doc p d (mkEntry (Document d) (Edits d) (EditedSinceLastSave d)
    (ProgressToken d) (Base d)
    (Some (NewPositionMapper DiffMain (base_text (heap st) d) (Text (Document d))))))
    as (st'&Hst'&_&Hwf'&Habs); [done..|by intros ? [= <-]|].
  rewrite (sbind_ok _ _ _ _ _ Hst'). exists st'. split; [done|]. split; [done|].
  rewrite Habs. by apply (alter_same st u doc p d).
Qed.

Lemma sim_GetPositionMapper ctx doc :
  simulates (GetPositionMapper DiffMain sessions ctx doc)
    (a_getPositionMapper DiffMain sessions ctx doc).
Proof.
  intros st Hwf. unfold GetPositionMapper, a_getPositionMapper.
  destruct (find_entry st ctx doc Hwf) as [(x&Hc&Ha)|[(s&p&e&Hl&Hp&Hc&Ha)|[[Hc Ha]|[Hc Ha]]]].
  - rewrite (sbind_try_err _ _ _ _ _ Hc), (sbind_try_err _ _ _ _ _ Ha).
    by destruct (is_document_not_found x).
  - rewrite (sbind_try_ok _ _ _ _ _ Hc), (sbind_try_ok _ _ _ _ _ Ha).
    destruct (GetPositionMapper_entry st (UUID s) doc p e Hwf Hl Hp) as (st'&Heq&Hwf'&Habs).
    cbn zeta in Heq |- *. rewrite Heq, Habs. split; [done|].
    unfold base_text. cbn. by destruct (Base e).
  - by rewrite (sbind_panic _ _ _ _ (try_panic _ _ _ Hc)), (sbind_panic _ _ _ _ (try_panic _ _ _ Ha)).
  - by rewrite (sbind_fuel _ _ _ _ (try_fuel _ _ _ Hc)), (sbind_fuel _ _ _ _ (try_fuel _ _ _ Ha)).
Qed.

Lemma sim_clearBase u doc :
  simulates (st <- get_st;;
    match doc_ptr u doc st with
    | None => sret tt
    | Some p => e <- load p;; store p (clearBase e)
    end)
    (modify_st (λ st, set_adocs (alter (alter aclear doc) u (adocs st)) st)).
Proof.
  intros st Hwf. rewrite sbind_get.
  destruct (doc_ptr u doc st) as [p|] eqn:Hp.
  - pose proof Hp as Hl. apply live_doc_ptr in Hl.
    destruct (wf_live _ _ Hwf _ _ _ Hl) as [e He].
    rewrite (sbind_ok (load p) _ st e st) by (unfold load; by rewrite He).
    destruct (sim_store st u doc p e (clearBase e) Hwf Hl He) as (st'&->&_&Hwf'&Habs);
      [done..|]. split; [done|]. unfold modify_st. rewrite Habs. do 2 f_equal.
    destruct Hl as (m&Hu&Hm). apply map_eq. intros u'. cbn.
    destruct (decide (u' = u)) as [->|]; [|by rewrite !lookup_alter_ne by done].
    rewrite !lookup_alter_eq, abs_lookup, Hu. cbn. f_equal. apply map_eq. intros doc'.
    destruct (decide (doc' = doc)) as [->|].
    + rewrite lookup_alter_eq, lookup_insert_eq, lookup_fmap, Hm. cbn.
      by rewrite (abs_ptr_some _ _ e).
    + by rewrite lookup_alter_ne, lookup_insert_ne by done.
  - split; [done|]. unfold modify_st. cbn. f_equal. unfold set_adocs, abs. cbn. f_equal.
    apply map_eq. intros u'. destruct (decide (u' = u)) as [->|]; [|by rewrite !lookup_alter_ne by done].
    rewrite lookup_alter_eq, abs_lookup. unfold doc_ptr in Hp.
    destruct (documents st !! u) as [m|]; [|done]. cbn in *. f_equal.
    apply map_eq. intros doc'. destruct (decide (doc' = doc)) as [->|];
      [|by rewrite lookup_alter_ne by done].
    by rewrite lookup_alter_eq, lookup_fmap, Hp.
Qed.

Lemma sim_forM {A} (l : list A) (body : A → GoM DocState unit) abody :
  (∀ x, simulates (body x) (abody x)) → simulates (forM_ l body) (forM_ l abody).
Proof.
  intros Hb. induction l as [|x l IH]; cbn; [apply sim_sret|].
  by apply sim_bind.
Qed.

Lemma sim_ResetBase w doc :
  simulates (ResetBase sessions w doc) (a_resetBase sessions w doc).
Proof.
  apply sim_bind; [apply sim_lift|]. intros ss. apply sim_forM. intros s. apply sim_clearBase.
Qed.

Lemma set_doc_same u doc p st :
  live (documents st) u doc p → set_doc u doc p st = (Ok tt, st).
Proof.
  intros (m&Hu&Hm). unfold set_doc. rewrite Hu. rewrite (insert_id m) by done.
  rewrite insert_id by done. by destruct st.
Qed.

Definition with_edits (e : documentStoreEntry) (edits : list TextEdit) : documentStoreEntry :=
  mkEntry (Document e) (Edits e ++ edits) (EditedSinceLastSave e) (ProgressToken e) (Base e)
    (positionMapper e).
Definition with_token (e : documentStoreEntry) (t : string) : documentStoreEntry :=
  mkEntry (Document e) (Edits e) (EditedSinceLastSave e) (Some t) (Base e) (positionMapper e).
Definition bump_tokens (st : DocState) : DocState :=
  mkDocState (heap st) (next st) (documents st) (N.succ (tokens st)) (calls st)
    (open_docs st) (open_bytes st).

(** [addEdits] and [setProgressToken] on an open document. *)
Lemma addEdits_live st s ctx d p e edits :
  wf DiffMain st → repo_GetFromContext sessions ctx = Ok s →
  live (documents st) (UUID s) (DocURI d) p → heap st !! p = Some e →
  Version (Document e) = Version d →
  addEdits sessions ctx d edits st = (Ok p, set_heap (<[p := with_edits e edits]> (heap st)) st).
Proof.
  intros Hwf Hs Hl Hp Hv. pose proof Hl as (m&Hu&Hm).
  unfold addEdits, from_context. rewrite Hs.
  rewrite (sbind_ok (lift_res (Ok s)) _ _ s _ eq_refl), sbind_get, Hu, Hm.
  rewrite (sbind_ok (load p) _ st e st) by (unfold load; by rewrite Hp).
  rewrite bool_decide_false by (by intros []).
  unfold store. rewrite sbind_modify. erewrite sbind_ok; [done|].
  by apply set_doc_same.
Qed.

Lemma setProgressToken_live st s ctx doc p e :
  repo_GetFromContext sessions ctx = Ok s →
  live (documents st) (UUID s) doc p → heap st !! p = Some e →
  setProgressToken NewToken sessions ctx doc st
  = (Ok p, set_heap (<[p := with_token e (NewToken (tokens st))]> (heap st)) (bump_tokens st)).
Proof.
  intros Hs Hl Hp. pose proof Hl as (m&Hu&Hm).
  unfold setProgressToken, from_context. rewrite Hs.
  rewrite (sbind_ok (lift_res (Ok s)) _ _ s _ eq_refl), sbind_get, Hu, Hm.
  rewrite (sbind_ok (load p) _ st e st) by (unfold load; by rewrite Hp).
  unfold store. rewrite !sbind_modify. erewrite sbind_ok; [done|].
  by apply set_doc_same.
Qed.

Lemma alter_insert_twice (m : gmap uuid (gmap URI AEntry)) u doc x y :
  alter (<[doc := y]>) u (alter (<[doc := x]>) u m) = alter (<[doc := y]>) u m.
Proof.
  apply map_eq. intros u'. destruct (decide (u' = u)) as [->|].
  - rewrite !lookup_alter_eq. destruct (m !! u); [|done]. cbn. by rewrite insert_insert_eq.
  - by rewrite !lookup_alter_ne by done.
Qed.

Lemma with_wf_mapper st p e e' :
  wf DiffMain st → heap st !! p = Some e → Document e' = Document e → Base e' = Base e →
  positionMapper e' = positionMapper e → ∀ m, positionMapper e' = Some m →
  m = NewPositionMapper DiffMain (base_text (heap st) e') (Text (Document e')).
Proof.
  intros Hwf Hp Hd Hb Hpm m Hm. unfold base_text. rewrite Hd, Hb.
  apply (wf_mapper _ _ _ _ (wf_entries _ _ Hwf p e Hp)). congruence.
Qed.

Lemma sim_AddPendingEdits ctx d edits :
  simulates (AddPendingEdits Filename gateway_error NewToken sessions ctx d edits)
    (a_addPendingEdits Filename gateway_error NewToken sessions ctx d edits).
Proof.
  intros st Hwf. unfold AddPendingEdits, AddPendingEdits_with, a_addPendingEdits.
  case_bool_decide as Hed; [done|].
  destruct (repo_GetFromContext sessions ctx) as [s|err| |] eqn:Hs;
    [|unfold addEdits, asession, from_context; by rewrite Hs..].
  unfold asession. rewrite Hs, (sbind_ok (lift_res (Ok s)) _ (abs st) s _ eq_refl).
  find_doc_cases st (UUID s) (DocURI d) Hwf;
    [unfold addEdits, from_context, sbind, aentry; rewrite Hs; cbn [lift_res get_st]; by rewrite Hu, Hau
    |unfold addEdits, from_context, sbind, aentry; rewrite Hs; cbn [lift_res get_st];
     by rewrite Hu, Hau, Hm, Ham|].
  rewrite (sbind_ok (aentry s (DocURI d)) _ _ (abs_entry (heap st) e) (abs st))
    by (unfold aentry; by rewrite Hau, Ham). cbn [aDocument abs_entry].
  case_bool_decide as Hv.
  { unfold addEdits, from_context, sbind at 1. rewrite Hs.
    rewrite (sbind_ok (lift_res (Ok s)) _ _ s _ eq_refl), sbind_get, Hu, Hm.
    rewrite (sbind_ok (load p) _ st e st) by (unfold load; by rewrite Hp).
    by rewrite bool_decide_true by done. }
  rewrite (sbind_ok _ _ _ _ _ (addEdits_live st s ctx d p e edits Hwf Hs Hlive Hp Hv)).
  destruct (sim_store st (UUID s) (DocURI d) p e (with_edits e edits) Hwf Hlive Hp)
    as (st1&_&Hst1&Hwf1&Habs1); [done|done|by apply (with_wf_mapper st p e)|].
  rewrite <- Hst1, sbind_ret.
  assert (Hp1 : heap st1 !! p = Some (with_edits e edits)) by (subst st1; apply lookup_insert_eq).
  assert (Hl1 : live (documents st1) (UUID s) (DocURI d) p) by (by subst st1).
  set (token := NewToken (tokens st1)).
  destruct (sim_store (bump_tokens st1) (UUID s) (DocURI d) p _
    (with_token (with_edits e edits) token) ltac:(by apply (wf_shrink DiffMain st1)) Hl1 Hp1)
    as (st2&_&Hst2&Hwf2&Habs2); [done|done|by apply (with_wf_mapper st1 p (with_edits e edits))|].
  rewrite (sbind_try_ok _ _ _ _ _ (setProgressToken_live st1 s ctx (DocURI d) p _ Hs Hl1 Hp1)).
  change (heap (bump_tokens st1)) with (heap st1) in Hst2. fold token. rewrite <- Hst2.
  rewrite (sbind_ok (load p) _ st2 (with_token (with_edits e edits) token) st2)
    by (unfold load; subst st2; cbn; by rewrite lookup_insert_eq).
  cbn [ProgressToken with_token]. unfold aput. rewrite sbind_get, !sbind_modify.
  replace (NewToken (atokens (abs st))) with token by (by subst token st1).
  assert (Hst : abs st2 = set_adocs (alter (<[DocURI d := mkAEntry (Document e) (Edits e ++ edits)
      (EditedSinceLastSave e) (Some token) (aBase (abs_entry (heap st) e))]>) (UUID s)
      (adocs (abs st)))
    (mkAState (adocs (abs st)) (N.succ (atokens (abs st))) (acalls (abs st))
       (aopen_docs (abs st)) (aopen_bytes (abs st)))).
  { rewrite Habs2. change (abs (bump_tokens st1)) with (mkAState (adocs (abs st1))
      (N.succ (tokens st1)) (calls st1) (open_docs st1) (open_bytes st1)).
    rewrite Habs1. cbn [adocs set_adocs]. rewrite alter_insert_twice.
    unfold set_adocs. subst st1. cbn. do 3 f_equal.
    apply (abs_entry_text (heap st)). intros b _. by apply (text_of_same_doc _ _ e). }
  cbn [aDocument aEdits aEdited abs_entry]. cbn [adocs] in Hst |- *. rewrite <- Hst.
  apply (sim_bind _ _ _ _ (sim_try _ _ (sim_gateway (WorkDoneProgressCreate token)))); [|done].
  intros a. apply (sim_bind _ _ _ _ (sim_try _ _ (sim_gateway (ProgressBegin token _)))).
  intros b. apply sim_sret.
Qed.

(** Each handler implements its abstract counterpart. *)
Lemma step_simulates ev :
  simulates (step DiffMain Filename ReadFile gateway_error NewToken maxFileSizeBytes sessions ev)
    (astep DiffMain Filename ReadFile gateway_error NewToken maxFileSizeBytes sessions ev).
Proof.
  destruct ev; apply sim_respond.
  - apply sim_initialize.
  - apply sim_shutdown.
  - apply sim_endSession.
  - apply sim_didOpen.
  - apply sim_didClose.
  - apply sim_didChange.
  - apply sim_didSave.
  - apply sim_willSaveWaitUntil.
  - apply sim_AddPendingEdits.
  - apply sim_ResetBase.
  - apply sim_GetPositionMapper.
  - apply sim_GetTextDocument.
  - apply sim_GetDocumentState.
Qed.
End simulation.

(** ** Sequences of handlers

    The handlers take the locks one after another; each event of a trace comes
    with the sessions at its time. *)

Section traces.
Context {R : Type} `{Repository R}.
Context (DiffMain : bytes → bytes → list Diff).
Context (Filename : URI → string) (ReadFile : string → gores bytes).
Context (gateway_error : GatewayCall → option error) (NewToken : N → string).
Context (maxFileSizeBytes : Z).

Abbreviation step' := (step DiffMain Filename ReadFile gateway_error NewToken maxFileSizeBytes).
Abbreviation astep' := (astep DiffMain Filename ReadFile gateway_error NewToken maxFileSizeBytes).

Fixpoint run_trace (tr : list (R * Event)) (st : DocState) : list (gores Response) * DocState :=
  match tr with
  | [] => ([], st)
  | (ss, ev) :: tr' =>
    let '(r, st1) := step' ss ev st in
    let '(rs, st2) := run_trace tr' st1 in (r :: rs, st2)
  end.
Fixpoint arun_trace (tr : list (R * Event)) (st : AState) : list (gores Response) * AState :=
  match tr with
  | [] => ([], st)
  | (ss, ev) :: tr' =>
    let '(r, st1) := astep' ss ev st in
    let '(rs, st2) := arun_trace tr' st1 in (r :: rs, st2)
  end.

Lemma run_trace_simulates tr st :
  wf DiffMain st →
  let '(rs, st') := run_trace tr st in
  wf DiffMain st' ∧ arun_trace tr (abs st) = (rs, abs st').
Proof.
  revert st. induction tr as [|[ss ev] tr IH]; intros st Hwf; [done|]. cbn.
  pose proof (step_simulates DiffMain Filename ReadFile gateway_error NewToken
    maxFileSizeBytes ss ev st Hwf) as Hstep.
  destruct (step' ss ev st) as [r st1]. destruct Hstep as [Hwf1 ->].
  specialize (IH st1 Hwf1). destruct (run_trace tr st1) as [rs st2]. by destruct IH as [? ->].
Qed.

(** The empty abstract store. *)
Definition ainit : AState := mkAState ∅ 0 [] 0 0.

(** C1: the document store with its entries on a heap, which point to the
    entries of their base versions and keep position mappers, implements the
    store without pointers: over every sequence of handlers, from the state
    the constructor makes, it gives the same responses, errors and panics and
    ends in a state with the same documents, calls to the IDE and gauges. *)
Theorem docsync_refines tr :
  let '(rs, st) := run_trace tr init_state in
  arun_trace tr ainit = (rs, abs st).
Proof.
  pose proof (run_trace_simulates tr init_state (wf_init DiffMain)) as Hsim.
  destruct (run_trace tr init_state) as [rs st]. by destruct Hsim as [_ <-].
Qed.

(** C2: in every state that handlers reach, no two documents share an entry,
    an entry that is the base of another is open in no session and has no base
    itself, and a position mapper that is kept maps between the text of the
    base and the text of its entry. *)
Theorem docsync_invariant tr :
  let st := (run_trace tr init_state).2 in
  (∀ u doc u' doc' p, doc_ptr u doc st = Some p → doc_ptr u' doc' st = Some p →
     u = u' ∧ doc = doc') ∧
  (∀ u doc p, doc_ptr u doc st = Some p → is_Some (heap st !! p)) ∧
  (∀ p e b, heap st !! p = Some e → Base e = Some b →
     (∃ eb, heap st !! b = Some eb ∧ Base eb = None) ∧ ∀ u doc, doc_ptr u doc st ≠ Some b) ∧
  (∀ p e m, heap st !! p = Some e → positionMapper e = Some m →
     m = NewPositionMapper DiffMain (base_text (heap st) e) (Text (Document e))).
Proof.
  pose proof (run_trace_simulates tr init_state (wf_init DiffMain)) as Hsim.
  destruct (run_trace tr init_state) as [rs st]. destruct Hsim as [Hwf _]. cbn.
  setoid_rewrite live_doc_ptr. split_and!.
  - apply (wf_inj _ _ Hwf).
  - intros u doc p Hl. by apply (wf_live _ _ Hwf) in Hl.
  - intros p e b Hp Hb.
    destruct (wf_base _ _ _ _ (wf_entries _ _ Hwf p e Hp) b Hb) as [? Hnl].
    split; [done|]. intros u doc. apply Hnl.
  - intros p e m Hp. apply (wf_mapper _ _ _ _ (wf_entries _ _ Hwf p e Hp)).
Qed.
End traces.

(** ** What a session sees *)

Section sessions_view.
Context {R : Type} `{Repository R}.
Context (DiffMain : bytes → bytes → list Diff).
Context (Filename : URI → string) (ReadFile : string → gores bytes).
Context (gateway_error : GatewayCall → option error) (NewToken : N → string).
Context (maxFileSizeBytes : Z) (sessions : R).

Abbreviation step' := (step DiffMain Filename ReadFile gateway_error NewToken maxFileSizeBytes sessions).
Abbreviation astep' := (astep DiffMain Filename ReadFile gateway_error NewToken maxFileSizeBytes sessions).

(** The session on whose documents an event acts, if it is one. *)
Definition acts_on (ev : Event) (u : uuid) : Prop :=
  match ev with
  | EvEndSession v => v = u
  | EvResetBase w _ => ∃ l s, repo_GetAllFromWorkspaceRoot sessions w = Ok l ∧ s ∈ l ∧ UUID s = u
  | EvInitialize ctx | EvShutdown ctx | EvDidOpen ctx _ | EvDidClose ctx _
  | EvDidChange ctx _ _ _ | EvDidSave ctx _ _ | EvWillSaveWaitUntil ctx _ _
  | EvAddPendingEdits ctx _ _ | EvGetPositionMapper ctx _ | EvGetTextDocument ctx _
  | EvGetDocumentState ctx _ => ∃ s, repo_GetFromContext sessions ctx = Ok s ∧ UUID s = u
  end.

(** [m] leaves the documents of the session [u] as they are. *)
Definition keeps {A} (u : uuid) (m : GoM AState A) : Prop :=
  ∀ st, adocs (m st).2 !! u = adocs st !! u.

Lemma keeps_bind {A B} u (m : GoM AState A) (k : A → GoM AState B) :
  keeps u m → (∀ a, keeps u (k a)) → keeps u (sbind m k).
Proof.
  intros Hm Hk st. unfold sbind. specialize (Hm st). destruct (m st) as [[a|e| |] st1]; try done.
  cbn in *. by rewrite Hk.
Qed.
Lemma keeps_try {A} u (m : GoM AState A) : keeps u m → keeps u (try_ m).
Proof. intros Hm st. unfold try_. specialize (Hm st). by destruct (m st) as [[]]. Qed.
Lemma keeps_wrap {A} u s (m : GoM AState A) : keeps u m → keeps u (wrapM s m).
Proof. intros Hm st. unfold wrapM. specialize (Hm st). by destruct (m st). Qed.
Lemma keeps_same {A} u (m : GoM AState A) : (∀ st, adocs (m st).2 = adocs st) → keeps u m.
Proof. intros Hm st. by rewrite Hm. Qed.
Lemma keeps_modify u (f : AState → AState) :
  (∀ st, adocs (f st) !! u = adocs st !! u) → keeps u (modify_st f).
Proof. intros Hf st. apply Hf. Qed.
Lemma keeps_defer {A} u (m : GoM AState A) : keeps u m → keeps u (adefer aupdateMetrics m).
Proof. intros Hm st. unfold adefer. specialize (Hm st). by destruct (m st). Qed.
Lemma keeps_lift {A B} u (r : gores A) (k : A → GoM AState B) :
  (∀ a, r = Ok a → keeps u (k a)) → keeps u (sbind (lift_res r) k).
Proof. intros Hk st. unfold sbind, lift_res. destruct r; try done. by apply Hk. Qed.
Lemma keeps_aput u v doc e : v ≠ u → keeps u (aput v doc e).
Proof. intros Hv. apply keeps_modify. intros st. cbn. by rewrite lookup_alter_ne. Qed.
Lemma keeps_forM {A} u (l : list A) body :
  (∀ x, x ∈ l → keeps u (body x)) → keeps u (forM_ l body).
Proof.
  induction l as [|x l IH]; intros Hb; cbn; [by apply keeps_same|].
  apply keeps_bind; [apply Hb; left|]. intros _. apply IH. intros y Hy. apply Hb. by right.
Qed.

(** Goes through the code of an abstract handler. *)
Ltac keeps_tac Hno :=
  repeat first
    [ apply keeps_defer | apply keeps_wrap | apply keeps_try
    | apply keeps_lift; let s := fresh "s" in let Hs := fresh "Hs" in intros s Hs
    | apply keeps_aput; let Heq := fresh in intros Heq; apply Hno; eexists; by split
    | apply keeps_same; intros; reflexivity
    | apply keeps_bind; [|intros] | case_match | progress intros ].

Lemma astep_keeps u ev : ¬ acts_on ev u → keeps u (astep' ev).
Proof.
  intros Hno. destruct ev; cbn [astep]; unfold respond, a_didOpen, a_didClose, a_didChange,
    a_addPendingEdits, a_resetBase, a_getPositionMapper, a_getDocumentState, asession;
    cbn [acts_on] in Hno; keeps_tac Hno.
  - apply keeps_modify. intros st. cbn. rewrite lookup_insert_ne; [done|].
    intros Heq. apply Hno. by exists s.
  - apply keeps_modify. intros st. cbn. rewrite lookup_delete_ne; [done|].
    intros Heq. apply Hno. by exists s.
  - apply keeps_modify. intros st. cbn. by rewrite lookup_delete_ne.
  - apply keeps_modify. intros st. cbn. rewrite lookup_alter_ne; [done|].
    intros Heq. apply Hno. by exists s.
  - apply keeps_forM. intros s' Hs'. apply keeps_modify. intros st. cbn.
    rewrite lookup_alter_ne; [done|]. intros Heq. apply Hno. by exists s, s'.
Qed.

(** C3: a handler changes no document, pending edit or base of a session other
    than the one it acts on; [ResetBase] acts on the sessions of its workspace
    root. *)
Theorem docsync_isolation st ev u :
  wf DiffMain st → ¬ acts_on ev u →
  adocs (abs (step' ev st).2) !! u = adocs (abs st) !! u.
Proof.
  intros Hwf Hno. pose proof (step_simulates DiffMain Filename ReadFile gateway_error NewToken
    maxFileSizeBytes sessions ev st Hwf) as Hsim.
  pose proof (astep_keeps u ev Hno (abs st)) as Hk.
  destruct (step' ev st) as [r st']. destruct Hsim as [_ Ha]. rewrite Ha in Hk. done.
Qed.

(** The state and the responses after a change of an open document. *)
Lemma didChange_open st ctx s doc ae version changes text :
  wf DiffMain st → repo_GetFromContext sessions ctx = Ok s →
  aget (UUID s) doc (abs st) = Some ae →
  ApplyContentChanges (Text (aDocument ae)) changes = Ok text →
  validateSize maxFileSizeBytes text = Ok tt →
  let '(r, st') := step' (EvDidChange ctx doc version changes) st in
  r = Ok RUnit ∧ wf DiffMain st' ∧
  aget (UUID s) doc (abs st') = Some (mkAEntry
    (set_version (set_text (aDocument ae) text) version) [] true None
    (Some (default (Text (aDocument ae)) (aBase ae)))).
Proof.
  intros Hwf Hs Hget Htext Hsize.
  pose proof (step_simulates DiffMain Filename ReadFile gateway_error NewToken maxFileSizeBytes
    sessions (EvDidChange ctx doc version changes) st Hwf) as Hsim.
  destruct (step' _ st) as [r st']. destruct Hsim as [Hwf' Ha].
  revert Ha Hget. generalize (abs st) (abs st'). intros ast ast' Ha Hget.
  unfold aget in Hget. destruct (adocs ast !! UUID s) as [m|] eqn:Hm; [|done]. cbn in Hget.
  revert Ha. cbn [astep]. unfold respond, a_didChange, wrapM, sbind, asession, lift_res, aentry', aget.
  rewrite Hs, Hm. cbn. rewrite Hget. cbn. rewrite Htext. cbn. rewrite Hsize. cbn.
  destruct (aToken ae) as [token|].
  - unfold try_, agateway. destruct (gateway_error (ProgressEnd token)); cbn;
      intros [= <- <-]; cbn; rewrite lookup_alter_eq, Hm; cbn; by rewrite lookup_insert_eq.
  - intros [= <- <-]. cbn. rewrite lookup_alter_eq, Hm. cbn. by rewrite lookup_insert_eq.
Qed.

Lemma aget_adocs st u doc ae :
  aget u doc st = Some ae → ∃ m, adocs st !! u = Some m ∧ m !! doc = Some ae.
Proof. unfold aget. apply bind_Some. Qed.

Lemma read_open st ctx s doc ae :
  wf DiffMain st → repo_GetFromContext sessions ctx = Ok s → aget (UUID s) doc (abs st) = Some ae →
  (step' (EvGetTextDocument ctx doc) st).1 = Ok (RDocument (aDocument ae)) ∧
  (step' (EvGetPositionMapper ctx doc) st).1 = Ok (RMapper (Some (NewPositionMapper DiffMain
     (default (Text (aDocument ae)) (aBase ae)) (Text (aDocument ae))))) ∧
  (∀ result, (step' (EvWillSaveWaitUntil ctx doc result) st).1 = Ok (REdits (result ++ aEdits ae))).
Proof.
  intros Hwf Hs Hget. destruct (aget_adocs _ _ _ _ Hget) as (m&Hm&Hd).
  assert (Hsim : ∀ ev, (step' ev st).1 = (astep' ev (abs st)).1).
  { intros ev. pose proof (step_simulates DiffMain Filename ReadFile gateway_error NewToken
      maxFileSizeBytes sessions ev st Hwf) as Hsim.
    destruct (step' ev st). by destruct Hsim as [_ ->]. }
  split_and!; [| |intros result]; rewrite Hsim; cbn [astep];
    unfold respond, a_getPositionMapper, try_, sbind, asession, lift_res, aentry, aentry';
    rewrite Hs; rewrite ?Hget, ?Hm, ?Hd; done.
Qed.

(** C4: a change of an open document that applies and is within the size limit
    leaves the document with the changed text and the new version, drops its
    pending edits, and keeps the base: positions are mapped from the text the
    document had when it was opened, or when its base was last reset, to the
    changed text. *)
Theorem didChange_tracks_base st ctx s doc ae version changes text :
  wf DiffMain st → repo_GetFromContext sessions ctx = Ok s →
  aget (UUID s) doc (abs st) = Some ae →
  ApplyContentChanges (Text (aDocument ae)) changes = Ok text →
  validateSize maxFileSizeBytes text = Ok tt →
  let '(r, st') := step' (EvDidChange ctx doc version changes) st in
  r = Ok RUnit ∧
  (step' (EvGetTextDocument ctx doc) st').1
    = Ok (RDocument (mkTextDocumentItem (DocURI (aDocument ae)) (LanguageID (aDocument ae)) version text)) ∧
  (step' (EvGetPositionMapper ctx doc) st').1
    = Ok (RMapper (Some (NewPositionMapper DiffMain (default (Text (aDocument ae)) (aBase ae)) text))) ∧
  (step' (EvWillSaveWaitUntil ctx doc []) st').1 = Ok (REdits []).
Proof.
  intros Hwf Hs Hget Htext Hsize.
  pose proof (didChange_open st ctx s doc ae version changes text Hwf Hs Hget Htext Hsize) as Hch.
  destruct (step' _ st) as [r st']. destruct Hch as (->&Hwf'&Hget').
  destruct (read_open st' ctx s doc _ Hwf' Hs Hget') as (Ht&Hp&He).
  split_and!; [done|by rewrite Ht|by rewrite Hp|by rewrite He].
Qed.
End sessions_view.

(** ** Concrete runs *)

Definition sample_session (u : uuid) : Session := mkSession u None None "/repo" "" [] true.
Definition sample_sessions : repository :=
  run_ops [OpSet (sample_session 1); OpSet (sample_session 2)].
Definition sample_ctx : Context := mkContext (Some 1%N).
Definition sample_doc : TextDocumentItem := mkTextDocumentItem "file:///a.go" "go" 1 [97; 10].
Definition run_sample : list (repository * Event) → list (gores Response) * DocState :=
  λ tr, run_trace replace_all id (λ _, Ok []) (λ _, None) (λ _, "token") 100 tr init_state.
Definition sample_state : DocState :=
  (run_sample [(sample_sessions, EvInitialize sample_ctx);
               (sample_sessions, EvDidOpen sample_ctx sample_doc)]).2.

Lemma sample_state_wf : wf replace_all sample_state.
Proof.
  pose proof (run_trace_simulates replace_all id (λ _, Ok []) (λ _, None) (λ _, "token") 100
    [(sample_sessions, EvInitialize sample_ctx); (sample_sessions, EvDidOpen sample_ctx sample_doc)]
    init_state (wf_init replace_all)) as Hsim.
  unfold sample_state, run_sample. destruct (run_trace _ _ _ _ _ _ _ _). apply Hsim.
Qed.

Lemma docsync_isolation_witness :
  adocs (abs (step replace_all id (λ _, Ok []) (λ _, None) (λ _, "token") 100 sample_sessions
    (EvShutdown (mkContext (Some 2%N))) sample_state).2) !! 1%N = adocs (abs sample_state) !! 1%N.
Proof.
  apply (docsync_isolation replace_all id (λ _, Ok []) (λ _, None) (λ _, "token") 100
    sample_sessions sample_state (EvShutdown (mkContext (Some 2%N))) 1 sample_state_wf).
  intros (s&[= <-]&[=]).
Defined.

Lemma didChange_tracks_base_witness :
  (step replace_all id (λ _, Ok []) (λ _, None) (λ _, "token") 100 sample_sessions
    (EvDidChange sample_ctx "file:///a.go" 2
      [mkChange (mkRange (mkPosition 0 1) (mkPosition 0 1)) [98]]) sample_state).1 = Ok RUnit.
Proof.
  pose proof (didChange_tracks_base replace_all id (λ _, Ok []) (λ _, None) (λ _, "token") 100
    sample_sessions sample_state sample_ctx (sample_session 1) "file:///a.go"
    (new_aentry sample_doc None) 2 [mkChange (mkRange (mkPosition 0 1) (mkPosition 0 1)) [98]]
    [97; 98; 10] sample_state_wf eq_refl eq_refl eq_refl eq_refl) as Hch.
  destruct (step _ _ _ _ _ _ _ _ _). apply Hch.
Defined.

(** Between the two critical sections of [AddPendingEdits] another handler
    can close the document; the error of the second is then ignored and the
    handler dereferences a nil entry. *)
Theorem AddPendingEdits_race :
  (AddPendingEdits_with id (λ _, None) (λ _, "token") sample_sessions
    (didClose (λ _, None) sample_sessions sample_ctx "file:///a.go")
    sample_ctx sample_doc [mkTextEdit zero_Range [98]] sample_state).1 = Panic ∧
  (AddPendingEdits id (λ _, None) (λ _, "token") sample_sessions
    sample_ctx sample_doc [mkTextEdit zero_Range [98]] sample_state).1 = Ok true.
Proof. split; reflexivity. Qed.
