(* ===== verification/Scip.v ===== *)
(** * SCIP data and its mapping to the model

    Models [src/scip-lib/model/scip.go], [mapper/scip_types.go] and
    [mapper/scip_lsp.go].  [Scip] has the message types of the SCIP bindings
    that the sources read, [Model] the types of the model package.

    The functions of the bindings are a class of parameters ([Bindings]), with
    what their documentation states as laws ([BindingsLaws]).

    In [model.Document] the map [SymbolMap] and the list [Symbols] share their
    values: the map holds indices into the list. *)

From stdpp Require Import base gmap list strings.
From Stdlib Require Import ZArith Lia.
From S2P Require Import Prelude Protocol.

Local Open Scope Z_scope.

Module Scip.

Record Package := mkPackage { Manager : string; Name : string; Version : string }.
Record Descriptor := mkDescriptor { DName : string; Suffix : Z; Disambiguator : string }.
(** The kinds of the bindings that the sources name, and the others. *)
Inductive SymbolInformation_Kind :=
  | Kind_Function | Kind_File | Kind_Module | Kind_Namespace | Kind_Package |
  Kind_PackageObject | Kind_Class | Kind_TypeClass | Kind_Method |
  Kind_MethodReceiver | Kind_Property | Kind_Field | Kind_Constructor | Kind_Enum |
  Kind_EnumMember | Kind_Interface | Kind_Variable | Kind_Constant | Kind_String |
  Kind_Number | Kind_Boolean | Kind_Array | Kind_Object | Kind_Key | Kind_Null |
  Kind_Struct | Kind_Event | Kind_Operator | Kind_Type
  | Kind_other (n : Z).

(** [scip.Descriptor_Namespace] *)
Definition Descriptor_Namespace : Z := 1.
Record Symbol := mkSymbol {
  Scheme : string; SPackage : option Package; Descriptors : list Descriptor
}.
Record Diagnostic := mkDiagnostic {
  Severity : Z; Code : string; Message : string; Source : string; Tags : list Z
}.
Record Occurrence := mkOccurrence {
  ORange : list Z; OSymbol : string; SymbolRoles : Z; OverrideDocumentation : list string;
  SyntaxKind : Z; ODiagnostics : list Diagnostic; EnclosingRange : list Z
}.
Record Relationship := mkRelationship {
  RSymbol : string; IsReference : bool; IsImplementation : bool;
  IsTypeDefinition : bool; IsDefinition : bool
}.
Inductive Document := mkDocument {
  Language : string; RelativePath : string; Occurrences : list Occurrence;
  Symbols : list SymbolInformation; DText : string
}
with SymbolInformation := mkSymbolInformation {
  ISymbol : string; Documentation : list string; Relationships : list Relationship;
  Kind : SymbolInformation_Kind; DisplayName : string; SignatureDocumentation : option Document;
  EnclosingSymbol : string
}.

Definition SymbolRole_Definition : Z := 1.

(** A position and a range of the bindings. *)
Record SRange := mkSRange { Start : Position; End : Position }.

End Scip.

Module Model.

Record ScipPackage := mkScipPackage { Manager : string; Name : string; Version : string }.
Record Descriptor := mkDescriptor { Name_ : string; Suffix : Z; Disambiguator : string }.
Record Occurrence := mkOccurrence {
  ORange : list Z; OSymbol : string; SymbolRoles : Z; OverrideDocumentation : list string;
  SyntaxKind : Z; EnclosingRange : list Z
}.
Record Relationship := mkRelationship {
  RSymbol : string; IsReference : bool; IsImplementation : bool;
  IsTypeDefinition : bool; IsDefinition : bool
}.
(** [protocol.Diagnostic] as the mapper fills it. *)
Record Diagnostic := mkDiagnostic {
  DRange : Range; Severity : Z; Code : string; Message : string; Source : string;
  Tags : option (list Z)
}.
Inductive Document := mkDocument {
  Language : string; RelativePath : string; Occurrences : list Occurrence;
  Symbols : list SymbolInformation; SymbolMap : list (string * nat);
  DText : string; Diagnostics : list Diagnostic
}
with SymbolInformation := mkSymbolInformation {
  ISymbol : string; Documentation : list string; Relationships : list Relationship;
  Kind : Scip.SymbolInformation_Kind; DisplayName : string; SignatureDocumentation : option Document;
  EnclosingSymbol : string
}.

#[global] Instance Descriptor_eq_dec : EqDecision Descriptor.
Proof. solve_decision. Defined.
#[global] Instance Descriptor_countable : Countable Descriptor.
Proof.
  apply (inj_countable' (λ d, (Name_ d, Suffix d, Disambiguator d))
    (λ q, mkDescriptor q.1.1 q.1.2 q.2)).
  by intros [].
Defined.

(** [ScipPackage.ID] *)
Definition ID (x : ScipPackage) : string :=
  String.append (Manager x) (String.append " " (String.append (Name x)
    (String.append " " (Version x)))).

Record SymbolOccurrence := mkSymbolOccurrence {
  SLocation : URI; SOccurrence : option Occurrence; SInfo : option SymbolInformation
}.

End Model.

(** ** The bindings *)

Class Bindings := {
  NewRange : list Z → gores Scip.SRange;
  IsSingleLine : Scip.SRange → bool;
  ParseSymbol : string → gores Scip.Symbol;
  IsLocalSymbol : string → bool;
  IsGlobalSymbol : string → bool;
  Package_ID : Scip.Package → string
}.

Definition range3 (l c1 c2 : Z) : Scip.SRange :=
  Scip.mkSRange (mkPosition l c1) (mkPosition l c2).
Definition range4 (l1 c1 l2 c2 : Z) : Scip.SRange :=
  Scip.mkSRange (mkPosition l1 c1) (mkPosition l2 c2).

Class BindingsLaws `{Bindings} := {
  NewRange_3 l c1 c2 : 0 ≤ l → 0 ≤ c1 ≤ c2 → NewRange [l; c1; c2] = Ok (range3 l c1 c2);
  NewRange_4 l1 c1 l2 c2 : 0 ≤ l1 → 0 ≤ c1 → 0 ≤ l2 → 0 ≤ c2 →
    pos_le (mkPosition l1 c1) (mkPosition l2 c2) →
    NewRange [l1; c1; l2; c2] = Ok (range4 l1 c1 l2 c2);
  NewRange_length r : length r ≠ 3%nat → length r ≠ 4%nat → ∃ e, NewRange r = Err e;
  IsSingleLine_spec r :
    IsSingleLine r = bool_decide (Line (Scip.Start r) = Line (Scip.End r));
  IsGlobalSymbol_spec s : IsGlobalSymbol s = negb (IsLocalSymbol s);
  ParseSymbol_package s sy :
    ParseSymbol s = Ok sy → IsLocalSymbol s = false → is_Some (Scip.SPackage sy)
}.

(** ** [model/scip.go] *)

Section model.
Context `{Bindings}.

Fixpoint join (sep : string) (l : list string) : string :=
  match l with
  | [] => ""
  | [x] => x
  | x :: l' => String.append x (String.append sep (join sep l'))
  end.

(** The loop that collects the names of the namespace descriptors. *)
Fixpoint namespace_parts (ds : list Scip.Descriptor) (parts : list string) : list string :=
  match ds with
  | [] => parts
  | d :: ds' =>
    namespace_parts ds'
      (if Scip.Suffix d =? Scip.Descriptor_Namespace then parts ++ [Scip.DName d] else parts)
  end.

Definition set_package (sy : Scip.Symbol) (p : Scip.Package) : Scip.Symbol :=
  Scip.mkSymbol (Scip.Scheme sy) (Some p) (Scip.Descriptors sy).

Definition ParseScipSymbol (sy : string) : gores Scip.Symbol :=
  parsed <-? ParseSymbol sy;;
  let parsed :=
    match Scip.SPackage parsed with
    | Some p =>
      if bool_decide (Scip.Name p = "") then
        set_package parsed (Scip.mkPackage (Scip.Manager p)
          (join "/" (namespace_parts (Scip.Descriptors parsed) [])) (Scip.Version p))
      else parsed
    | None => parsed
    end in
  Ok (match Scip.SPackage parsed with
      | Some p =>
        if bool_decide (Scip.Version p = "") then
          set_package parsed (Scip.mkPackage (Scip.Manager p) (Scip.Name p) ".")
        else parsed
      | None => parsed
      end).

Definition ParseScipSymbolToDisplayName (symbolStr : string) : string :=
  match ParseSymbol symbolStr with
  | Ok symbol =>
    match last (Scip.Descriptors symbol) with
    | None => symbolStr
    | Some lastDescriptor => Scip.DName lastDescriptor
    end
  | _ => symbolStr
  end.
End model.

(** ** [mapper/scip_types.go] *)

Definition ScipPackageToModelScipPackage (pkg : option Scip.Package) : option Model.ScipPackage :=
  match pkg with
  | None => None
  | Some p => Some (Model.mkScipPackage (Scip.Manager p) (Scip.Name p) (Scip.Version p))
  end.

Definition ScipOccurrenceToModelOccurrence (occ : Scip.Occurrence) : Model.Occurrence :=
  Model.mkOccurrence (Scip.ORange occ) (Scip.OSymbol occ) (Scip.SymbolRoles occ)
    (Scip.OverrideDocumentation occ) (Scip.SyntaxKind occ) (Scip.EnclosingRange occ).

(** [len(tags) == 0] gives a nil slice. *)
Definition convertDiagnosticTags (tags : list Z) : option (list Z) :=
  match tags with [] => None | _ => Some tags end.

(** The positions of an occurrence for its diagnostics: the zero range when it
    has less than three numbers. *)
Definition diagnostic_range (rng : list Z) : Range :=
  match rng with
  | r0 :: r1 :: r2 :: r3 :: _ =>
    mkRange (mkPosition (uint32 r0) (uint32 r1)) (mkPosition (uint32 r2) (uint32 r3))
  | r0 :: r1 :: r2 :: _ =>
    mkRange (mkPosition (uint32 r0) (uint32 r1)) (mkPosition (uint32 r0) (uint32 r2))
  | _ => zero_Range
  end.

Definition ScipDiagnosticToModelDiagnostic (occ : Scip.Occurrence) : list Model.Diagnostic :=
  (λ d, Model.mkDiagnostic (diagnostic_range (Scip.ORange occ)) (Scip.Severity d)
    (Scip.Code d) (Scip.Message d) (Scip.Source d) (convertDiagnosticTags (Scip.Tags d)))
  <$> Scip.ODiagnostics occ.

Definition ScipOccurrenceToModelOccurrenceWithDiagnostics (occ : Scip.Occurrence)
    : Model.Occurrence * list Model.Diagnostic :=
  (ScipOccurrenceToModelOccurrence occ, ScipDiagnosticToModelDiagnostic occ).

Definition ScipRelationshipToModelRelationship (rel : Scip.Relationship) : Model.Relationship :=
  Model.mkRelationship (Scip.RSymbol rel) (Scip.IsReference rel) (Scip.IsImplementation rel)
    (Scip.IsTypeDefinition rel) (Scip.IsDefinition rel).

Definition localDiagnosticsPrefix : string := "local diagnostic_".

(** The occurrences that are kept, and the diagnostics of all of them. *)
Fixpoint map_occurrences (occs : list Scip.Occurrence) (occurrences : list Model.Occurrence)
    (allDiagnostics : list Model.Diagnostic) : list Model.Occurrence * list Model.Diagnostic :=
  match occs with
  | [] => (occurrences, allDiagnostics)
  | occ :: occs' =>
    let '(occurrence, diagnostics) := ScipOccurrenceToModelOccurrenceWithDiagnostics occ in
    let allDiagnostics := allDiagnostics ++ diagnostics in
    if bool_decide (Scip.OSymbol occ = "") || String.prefix localDiagnosticsPrefix (Scip.OSymbol occ)
    then map_occurrences occs' occurrences allDiagnostics
    else map_occurrences occs' (occurrences ++ [occurrence]) allDiagnostics
  end.

(** [symbolMap[info.Symbol] = info], for the [i]-th symbol. *)
Definition map_put (m : list (string * nat)) (k : string) (i : nat) : list (string * nat) :=
  (k, i) :: m.
Fixpoint map_get (m : list (string * nat)) (k : string) : option nat :=
  match m with
  | [] => None
  | (k', i) :: m' => if bool_decide (k' = k) then Some i else map_get m' k
  end.

Fixpoint index_symbols (symbols : list Model.SymbolInformation) (i : nat)
    (m : list (string * nat)) : list (string * nat) :=
  match symbols with
  | [] => m
  | info :: symbols' => index_symbols symbols' (S i) (map_put m (Model.ISymbol info) i)
  end.

Fixpoint ScipDocumentToModelDocument (doc : Scip.Document) : Model.Document :=
  match doc with
  | Scip.mkDocument lang path occs syms text =>
    let '(occurrences, allDiagnostics) := map_occurrences occs [] [] in
    let symbols :=
      (fix go (l : list Scip.SymbolInformation) : list Model.SymbolInformation :=
         match l with
         | [] => []
         | sym :: l' => ScipSymbolInformationToModelSymbolInformation sym :: go l'
         end) syms in
    Model.mkDocument lang path occurrences symbols (index_symbols symbols 0 []) text allDiagnostics
  end
with ScipSymbolInformationToModelSymbolInformation (sym : Scip.SymbolInformation)
    : Model.SymbolInformation :=
  match sym with
  | Scip.mkSymbolInformation s docs rels kind dn sig enc =>
    Model.mkSymbolInformation s docs (ScipRelationshipToModelRelationship <$> rels) kind dn
      (match sig with Some d => Some (ScipDocumentToModelDocument d) | None => None end) enc
  end.

Definition ScipDescriptorToModelDescriptor (desc : Scip.Descriptor) : Model.Descriptor :=
  Model.mkDescriptor (Scip.DName desc) (Scip.Suffix desc) (Scip.Disambiguator desc).

Definition ScipDescriptorsToModelDescriptors (descriptors : list Scip.Descriptor)
    : list Model.Descriptor := ScipDescriptorToModelDescriptor <$> descriptors.

(** ** [mapper/scip_lsp.go] *)

(** [protocol.SymbolKind] *)
Inductive SymbolKind :=
  | SymbolKindFunction | SymbolKindFile | SymbolKindModule | SymbolKindNamespace |
  SymbolKindPackage | SymbolKindClass | SymbolKindMethod | SymbolKindProperty |
  SymbolKindField | SymbolKindConstructor | SymbolKindEnum | SymbolKindEnumMember |
  SymbolKindInterface | SymbolKindVariable | SymbolKindConstant | SymbolKindString |
  SymbolKindNumber | SymbolKindBoolean | SymbolKindArray | SymbolKindObject |
  SymbolKindKey | SymbolKindNull | SymbolKindStruct | SymbolKindEvent |
  SymbolKindOperator | SymbolKindTypeParameter.

Definition ScipSymbolKindToDocumentSymbolKind (symbolKind : Scip.SymbolInformation_Kind)
    : SymbolKind :=
  match symbolKind with
  | Scip.Kind_Function => SymbolKindFunction
  | Scip.Kind_File => SymbolKindFile
  | Scip.Kind_Module => SymbolKindModule
  | Scip.Kind_Namespace => SymbolKindNamespace
  | Scip.Kind_Package => SymbolKindPackage
  | Scip.Kind_PackageObject => SymbolKindPackage
  | Scip.Kind_Class => SymbolKindClass
  | Scip.Kind_TypeClass => SymbolKindClass
  | Scip.Kind_Method => SymbolKindMethod
  | Scip.Kind_MethodReceiver => SymbolKindMethod
  | Scip.Kind_Property => SymbolKindProperty
  | Scip.Kind_Field => SymbolKindField
  | Scip.Kind_Constructor => SymbolKindConstructor
  | Scip.Kind_Enum => SymbolKindEnum
  | Scip.Kind_EnumMember => SymbolKindEnumMember
  | Scip.Kind_Interface => SymbolKindInterface
  | Scip.Kind_Variable => SymbolKindVariable
  | Scip.Kind_Constant => SymbolKindConstant
  | Scip.Kind_String => SymbolKindString
  | Scip.Kind_Number => SymbolKindNumber
  | Scip.Kind_Boolean => SymbolKindBoolean
  | Scip.Kind_Array => SymbolKindArray
  | Scip.Kind_Object => SymbolKindObject
  | Scip.Kind_Key => SymbolKindKey
  | Scip.Kind_Null => SymbolKindNull
  | Scip.Kind_Struct => SymbolKindStruct
  | Scip.Kind_Event => SymbolKindEvent
  | Scip.Kind_Operator => SymbolKindOperator
  | Scip.Kind_Type => SymbolKindTypeParameter
  | Scip.Kind_other _ => SymbolKindNull
  end.

Record LocationLink := mkLocationLink {
  OriginSelectionRange : option Range; TargetURI : URI;
  TargetRange : Range; TargetSelectionRange : Range
}.
Record DocumentSymbol := mkDocumentSymbol {
  SymName : string; Detail : string; SymKind : SymbolKind;
  SymRange : Range; SelectionRange : Range
}.

Definition ulspDocumentSymbolPrefix : string := "[uLSP]".

Section scip_lsp.
Context `{Bindings}.

Definition ScipToProtocolPosition (pos : Position) : Position :=
  mkPosition (uint32 (Line pos)) (uint32 (Character pos)).

Definition ScipToProtocolRange (rng : list Z) : Range :=
  match NewRange rng with
  | Ok parsed =>
    mkRange (ScipToProtocolPosition (Scip.Start parsed)) (ScipToProtocolPosition (Scip.End parsed))
  | _ => zero_Range
  end.

Definition ScipOccurrenceToLocation (uri : URI) (occ : Model.Occurrence) : Location :=
  mkLocation uri (ScipToProtocolRange (Model.ORange occ)).

Definition ScipOccurrenceToLocationLink (uri : URI) (occ : Model.Occurrence)
    (origSelection : option Range) : LocationLink :=
  mkLocationLink origSelection uri (ScipToProtocolRange (Model.ORange occ))
    (ScipToProtocolRange (Model.ORange occ)).

Definition ScipSymbolInformationToDocumentSymbol (symbolInfo : Model.SymbolInformation)
    (occ : Model.Occurrence) : DocumentSymbol :=
  mkDocumentSymbol (Model.DisplayName symbolInfo)
    (String.append ulspDocumentSymbolPrefix (Model.DisplayName symbolInfo))
    (ScipSymbolKindToDocumentSymbolKind (Model.Kind symbolInfo))
    (ScipToProtocolRange (Model.ORange occ)) (ScipToProtocolRange (Model.ORange occ)).
End scip_lsp.

(** ** What the mapping keeps *)

(** An occurrence that the model keeps. *)
Definition kept_occurrence (occ : Scip.Occurrence) : bool :=
  negb (bool_decide (Scip.OSymbol occ = "") ||
        String.prefix localDiagnosticsPrefix (Scip.OSymbol occ)).

Lemma map_occurrences_spec occs acc diags :
  map_occurrences occs acc diags
  = (acc ++ (ScipOccurrenceToModelOccurrence <$> List.filter kept_occurrence occs),
     diags ++ (occs ≫= ScipDiagnosticToModelDiagnostic)).
Proof.
  revert acc diags. induction occs as [|occ occs IH]; intros acc diags; cbn.
  { by rewrite !app_nil_r. }
  unfold kept_occurrence at 1. destruct (_ || _); cbn; rewrite IH, <- ?app_assoc; done.
Qed.

(** The last symbol of the list with a given name. *)
Definition last_index (symbols : list Model.SymbolInformation) (s : string) (k : nat) : Prop :=
  ∃ info, symbols !! k = Some info ∧ Model.ISymbol info = s ∧
    ∀ j info', (k < j)%nat → symbols !! j = Some info' → Model.ISymbol info' ≠ s.
Definition no_symbol (symbols : list Model.SymbolInformation) (s : string) : Prop :=
  ∀ j info, symbols !! j = Some info → Model.ISymbol info ≠ s.

Lemma no_symbol_cons x l s :
  Model.ISymbol x ≠ s → no_symbol l s → no_symbol (x :: l) s.
Proof. intros Hx Hl [|j] info; cbn; [by intros [= <-]|apply Hl]. Qed.

Lemma index_symbols_get symbols i m s :
  match map_get (index_symbols symbols i m) s with
  | Some k => (∃ k', k = (i + k')%nat ∧ last_index symbols s k') ∨
              (no_symbol symbols s ∧ map_get m s = Some k)
  | None => no_symbol symbols s ∧ map_get m s = None
  end.
Proof.
  revert i m. induction symbols as [|x l IH]; intros i m; cbn.
  { destruct (map_get m s); [right|]; split; done || (by intros ??). }
  specialize (IH (S i) (map_put m (Model.ISymbol x) i)).
  destruct (map_get _ s) as [k|]; [|].
  - destruct IH as [(k'&->&info&Hk&Hs&Hlater)|[Hno Hm]].
    + left. exists (S k'). split; [lia|]. exists info. split_and!; [done..|].
      intros [|j] info' Hj; [lia|]. apply Hlater. lia.
    + cbn in Hm. case_bool_decide as Hx.
      * injection Hm as <-. left. exists 0%nat. split; [lia|]. exists x. split_and!; [done..|].
        intros [|j] info' Hj; [lia|]. apply Hno.
      * right. split; [by apply no_symbol_cons|done].
  - destruct IH as [Hno Hm]. cbn in Hm. case_bool_decide; [done|].
    split; [by apply no_symbol_cons|done].
Qed.

Lemma model_symbols syms :
  (fix go (l : list Scip.SymbolInformation) : list Model.SymbolInformation :=
     match l with
     | [] => []
     | sym :: l' => ScipSymbolInformationToModelSymbolInformation sym :: go l'
     end) syms = ScipSymbolInformationToModelSymbolInformation <$> syms.
Proof. induction syms as [|x l IH]; [done|]. cbn. by rewrite IH. Qed.

(** The model of a document has its symbols in order, the occurrences
    whose symbol is neither empty nor a local diagnostic, the diagnostics of
    all occurrences, and a symbol map that finds the last symbol of a name and
    nothing else. *)
Theorem ScipDocumentToModelDocument_spec doc :
  let d := ScipDocumentToModelDocument doc in
  Model.Symbols d = ScipSymbolInformationToModelSymbolInformation <$> Scip.Symbols doc ∧
  Model.Occurrences d
    = ScipOccurrenceToModelOccurrence <$> List.filter kept_occurrence (Scip.Occurrences doc) ∧
  Model.Diagnostics d = (Scip.Occurrences doc ≫= ScipDiagnosticToModelDiagnostic) ∧
  Model.RelativePath d = Scip.RelativePath doc ∧
  ∀ s, match map_get (Model.SymbolMap d) s with
       | Some k => last_index (Model.Symbols d) s k
       | None => no_symbol (Model.Symbols d) s
       end.
Proof.
  destruct doc as [lang path occs syms text]. cbn.
  rewrite map_occurrences_spec, model_symbols. cbn. split_and!; try done.
  intros s. pose proof (index_symbols_get
    (ScipSymbolInformationToModelSymbolInformation <$> syms) 0 [] s) as Hs.
  destruct (map_get _ s) as [k|].
  - destruct Hs as [(k'&->&?)|[_ ?]]; done.
  - by destruct Hs.
Qed.
