(* ===== verification/Occurrences.v ===== *)
(** * Lookup of occurrences in a document

    Models [src/scip-lib/utils/utils.go] and the same functions of
    [src/ulsp/controller/scip/consume.go]: filters over the occurrences and
    symbols of a document and the binary search for the occurrence at a
    position.

    Shown: on occurrences in document order that do not overlap, the search
    ends and finds an occurrence at the position if there is one, and none
    otherwise. *)

From stdpp Require Import base list strings.
From Stdlib Require Import ZArith Lia.
From S2P Require Import Prelude Protocol Scip.

Local Open Scope Z_scope.

(** [role == -1] matches every role. *)
Definition role_matches (role roles : Z) : bool :=
  (role =? -1) || (0 <? Z.land roles role).

Definition GetOccurrencesForSymbol (occurrences : list Model.Occurrence) (symbol : string)
    (role : Z) : list Model.Occurrence :=
  List.filter (λ occ, bool_decide (Model.OSymbol occ = symbol) &&
                      role_matches role (Model.SymbolRoles occ)) occurrences.

Fixpoint GetLocalSymbolInformation (symbols : list Model.SymbolInformation) (symbol : string)
    : option Model.SymbolInformation :=
  match symbols with
  | [] => None
  | sym :: symbols' =>
    if bool_decide (Model.ISymbol sym = symbol) then Some sym
    else GetLocalSymbolInformation symbols' symbol
  end.

(** The end of a range as [IsRangeBefore] reads it: 0:0 for a malformed one. *)
Definition range_end (r : list Z) : Z * Z :=
  match r with
  | [r0; _; r2] => (r0, r2)
  | [_; _; r2; r3] => (r2, r3)
  | _ => (0, 0)
  end.

Definition IsRangeBefore (r : list Z) (pos : Position) : bool :=
  let '(endLine, endChar) := range_end r in
  (endLine <? int32 (Line pos)) ||
  ((endLine =? int32 (Line pos)) && (endChar <? int32 (Character pos))).

Section search.
Context `{Bindings}.

Definition IsMatchingPosition (occ : Model.Occurrence) (pos : Position) : bool :=
  match NewRange (Model.ORange occ) with
  | Ok rng =>
    let s := Scip.Start rng in
    let e := Scip.End rng in
    let line := int32 (Line pos) in
    let char := int32 (Character pos) in
    if IsSingleLine rng then
      (Line s =? line) && (Character s <=? char) && (char <=? Character e)
    else
      ((Line s <? line) && (line <? Line e)) ||
      ((Line s =? line) && (Character s <=? char)) ||
      ((Line e =? line) && (char <=? Character e))
  | _ => false
  end.

(** The loop of [GetOccurrenceForPosition]; each round drops an element, so
    the number of occurrences is fuel enough ([search_occurrence_ok]). *)
Fixpoint search_occurrence (fuel : nat) (occurrences : list Model.Occurrence) (pos : Position)
    (low high : Z) : gores (option Model.Occurrence) :=
  match fuel with
  | O => Fuel
  | S fuel' =>
    if low <=? high then
      let mid := (low + high) / 2 in
      occ <-? go_index occurrences mid;;
      if IsMatchingPosition occ pos then Ok (Some occ)
      else if IsRangeBefore (Model.ORange occ) pos
      then search_occurrence fuel' occurrences pos (mid + 1) high
      else search_occurrence fuel' occurrences pos low (mid - 1)
    else Ok None
  end.

Definition GetOccurrenceForPosition (occurrences : list Model.Occurrence) (pos : Position)
    : gores (option Model.Occurrence) :=
  search_occurrence (S (length occurrences)) occurrences pos 0 (zlen occurrences - 1).

(** ** Well-formed occurrences *)

(** The start and end of a range of three or four numbers. *)
Definition range_bounds (r : list Z) : option (Position * Position) :=
  match r with
  | [l; c1; c2] => Some (mkPosition l c1, mkPosition l c2)
  | [l1; c1; l2; c2] => Some (mkPosition l1 c1, mkPosition l2 c2)
  | _ => None
  end.

(** A position that fits the 32 bits of a SCIP range. *)
Definition pos_ok (p : Position) : Prop := 0 ≤ Line p < 2 ^ 31 ∧ 0 ≤ Character p < 2 ^ 31.

Definition occ_bounds (occ : Model.Occurrence) (s e : Position) : Prop :=
  range_bounds (Model.ORange occ) = Some (s, e) ∧ pos_ok s ∧ pos_ok e ∧ pos_le s e.

(** Occurrences in document order: each well formed, and ending before or
    where the next one starts. *)
Definition in_order (occs : list Model.Occurrence) : Prop :=
  (∀ i occ, occs !! i = Some occ → ∃ s e, occ_bounds occ s e) ∧
  (∀ i j o1 o2 s1 e1 s2 e2, (i < j)%nat → occs !! i = Some o1 → occs !! j = Some o2 →
     occ_bounds o1 s1 e1 → occ_bounds o2 s2 e2 → pos_le e1 s2).

(** The position is in the range, its end included. *)
Definition occ_at (occ : Model.Occurrence) (pos : Position) : Prop :=
  ∃ s e, occ_bounds occ s e ∧ pos_le s pos ∧ pos_le pos e.

Context `{!BindingsLaws}.

Lemma int32_pos_ok p : pos_ok p → int32 (Line p) = Line p ∧ int32 (Character p) = Character p.
Proof. intros [? ?]. rewrite !int32_small by lia. done. Qed.

Lemma NewRange_bounds occ s e :
  occ_bounds occ s e → NewRange (Model.ORange occ) = Ok (Scip.mkSRange s e).
Proof.
  intros (Hr&Hs&He&Hle). unfold range_bounds, pos_ok, pos_le in *.
  destruct (Model.ORange occ) as [|l1 [|c1 [|x [|y [|]]]]]; try done; simplify_eq; cbn in *.
  - rewrite NewRange_3 by lia. done.
  - rewrite NewRange_4 by (unfold pos_le; cbn; lia). done.
Qed.

Lemma IsMatchingPosition_iff occ s e pos :
  occ_bounds occ s e → pos_ok pos →
  IsMatchingPosition occ pos = true ↔ pos_le s pos ∧ pos_le pos e.
Proof.
  intros Hb Hpos. unfold IsMatchingPosition. rewrite (NewRange_bounds _ _ _ Hb).
  destruct (int32_pos_ok _ Hpos) as [-> ->]. rewrite IsSingleLine_spec. cbn.
  destruct Hb as (_&_&_&Hle). unfold pos_le in *. case_bool_decide; 
    rewrite ?orb_true_iff, !andb_true_iff, ?Z.leb_le, ?Z.ltb_lt, ?Z.eqb_eq; lia.
Qed.

Lemma IsRangeBefore_iff occ s e pos :
  occ_bounds occ s e → pos_ok pos →
  IsRangeBefore (Model.ORange occ) pos = true ↔ ¬ pos_le pos e.
Proof.
  intros Hb Hpos. unfold IsRangeBefore. destruct (int32_pos_ok _ Hpos) as [-> ->].
  destruct Hb as (Hr&_). unfold range_end, range_bounds, pos_le in *.
  destruct (Model.ORange occ) as [|l1 [|c1 [|x [|y [|]]]]]; try done; simplify_eq; cbn;
    rewrite orb_true_iff, andb_true_iff, !Z.ltb_lt, Z.eqb_eq; lia.
Qed.

Lemma occ_bounds_unique occ s e s' e' :
  occ_bounds occ s e → occ_bounds occ s' e' → s = s' ∧ e = e'.
Proof. intros (H1&_) (H2&_). rewrite H1 in H2. by injection H2. Qed.

Lemma pos_le_trans p q r : pos_le p q → pos_le q r → pos_le p r.
Proof. unfold pos_le. lia. Qed.

(** No occurrence outside the bounds of the search holds the position. *)
Definition outside (occs : list Model.Occurrence) (pos : Position) (low high : Z) : Prop :=
  ∀ i occ, occs !! i = Some occ → occ_at occ pos → low ≤ Z.of_nat i ≤ high.

Lemma outside_right occs pos low high i occ s e :
  in_order occs → outside occs pos low high → occs !! i = Some occ → occ_bounds occ s e →
  ¬ pos_le pos e → outside occs pos (Z.of_nat i + 1) high.
Proof.
  intros [_ Hord] Hout Hi Hb Hlt j o Hj Hat. destruct (Hout j o Hj Hat).
  destruct Hat as (s'&e'&Hb'&Hs'&He'). split; [|done].
  destruct (decide (j ≤ i)%nat); [exfalso|lia]. apply Hlt.
  destruct (decide (j = i)) as [->|].
  - rewrite Hi in Hj. injection Hj as <-. by destruct (occ_bounds_unique _ _ _ _ _ Hb Hb') as [-> ->].
  - eapply pos_le_trans; [done|]. eapply pos_le_trans; [|apply Hb].
    eapply (Hord j i); eauto. lia.
Qed.

Lemma outside_left occs pos low high i occ s e :
  in_order occs → outside occs pos low high → occs !! i = Some occ → occ_bounds occ s e →
  ¬ pos_le s pos → outside occs pos low (Z.of_nat i - 1).
Proof.
  intros [_ Hord] Hout Hi Hb Hlt j o Hj Hat. destruct (Hout j o Hj Hat).
  destruct Hat as (s'&e'&Hb'&Hs'&He'). split; [done|].
  destruct (decide (i ≤ j)%nat); [exfalso|lia]. apply Hlt.
  destruct (decide (j = i)) as [->|].
  - rewrite Hi in Hj. injection Hj as <-. by destruct (occ_bounds_unique _ _ _ _ _ Hb Hb') as [-> ->].
  - eapply pos_le_trans; [apply Hb|]. eapply pos_le_trans; [|done].
    eapply (Hord i j); eauto. lia.
Qed.

Lemma search_occurrence_ok occs pos fuel low high :
  in_order occs → pos_ok pos → 0 ≤ low ≤ high + 1 → high < zlen occs →
  high - low + 1 < Z.of_nat fuel → outside occs pos low high →
  ∃ res, search_occurrence fuel occs pos low high = Ok res ∧
    match res with
    | Some occ => occ ∈ occs ∧ occ_at occ pos
    | None => ∀ occ, occ ∈ occs → ¬ occ_at occ pos
    end.
Proof.
  intros Hin Hpos. revert low high.
  induction fuel as [|fuel IH]; intros low high Hlow Hhigh Hfuel Hout; [lia|].
  cbn. destruct (Z.leb_spec low high) as [Hle|Hgt].
  2:{ exists None. split; [done|]. intros occ Hocc Hat.
      apply list_elem_of_lookup in Hocc as [i Hi]. specialize (Hout i occ Hi Hat). lia. }
  assert (Hmid : low ≤ (low + high) / 2 ≤ high) by (Z.div_mod_to_equations; lia).
  set (mid := (low + high) / 2) in *.
  destruct (lookup_lt_is_Some_2 occs (Z.to_nat mid)) as [occ Hocc]; [unfold zlen in *; lia|].
  unfold go_index. rewrite bool_decide_true, Hocc by lia. cbn [rbind].
  destruct (proj1 Hin _ _ Hocc) as (s&e&Hb).
  pose proof (IsMatchingPosition_iff occ s e pos Hb Hpos) as Hmatch.
  pose proof (IsRangeBefore_iff occ s e pos Hb Hpos) as Hbefore.
  destruct (IsMatchingPosition occ pos).
  { exists (Some occ). split; [done|]. split; [by eapply list_elem_of_lookup_2|].
    exists s, e. split; [done|]. by apply Hmatch. }
  destruct (IsRangeBefore (Model.ORange occ) pos).
  - apply IH; [lia|lia|lia|]. replace mid with (Z.of_nat (Z.to_nat mid)) by lia.
    eapply outside_right; eauto. by apply Hbefore.
  - apply IH; [lia|lia|lia|]. replace mid with (Z.of_nat (Z.to_nat mid)) by lia.
    eapply outside_left; eauto. intros Hs.
    enough (false = true) by done. apply Hmatch. split; [done|].
    destruct (decide (pos_le pos e)) as [|Hn]; [done|]. by apply Hbefore in Hn.
Qed.

(** C38: on occurrences in document order that do not overlap and a position
    that fits 32 bits, [GetOccurrenceForPosition] ends without a panic; it
    returns an occurrence of the document whose range, its end included, holds
    the position if there is one, and nothing if there is none. *)
Theorem GetOccurrenceForPosition_correct occs pos :
  in_order occs → pos_ok pos →
  ∃ res, GetOccurrenceForPosition occs pos = Ok res ∧
    match res with
    | Some occ => occ ∈ occs ∧ occ_at occ pos
    | None => ∀ occ, occ ∈ occs → ¬ occ_at occ pos
    end.
Proof.
  intros Hin Hpos. apply search_occurrence_ok; try done.
  - pose proof (zlen_nonneg occs). lia.
  - lia.
  - unfold zlen. lia.
  - intros i occ Hi _. apply lookup_lt_Some in Hi. unfold zlen. lia.
Qed.
End search.

(** ** An instance of the bindings

    A reading of symbols that suffices for concrete runs: a local symbol
    starts with ["local "], any other is a namespace descriptor of its own
    name; ranges are as the laws say. *)

Definition simple_NewRange (r : list Z) : gores Scip.SRange :=
  match range_bounds r with
  | Some (s, e) => Ok (Scip.mkSRange s e)
  | None => Err (EText "range length")
  end.
Definition simple_local (s : string) : bool := String.prefix "local " s.
Definition simple_ParseSymbol (s : string) : gores Scip.Symbol :=
  Ok (Scip.mkSymbol "scip" (if simple_local s then None else Some (Scip.mkPackage "m" "p" "1"))
    [Scip.mkDescriptor s 1 ""]).

#[export] Instance simple_bindings : Bindings := {
  NewRange := simple_NewRange;
  IsSingleLine r := bool_decide (Line (Scip.Start r) = Line (Scip.End r));
  ParseSymbol := simple_ParseSymbol;
  IsLocalSymbol := simple_local;
  IsGlobalSymbol s := negb (simple_local s);
  Package_ID p := Scip.Name p
}.

#[export] Instance simple_bindings_laws : BindingsLaws.
Proof.
  split; try done.
  - intros [|? [|? [|? [|? [|]]]]] H3 H4; cbn in *; try done; eexists; reflexivity.
  - intros s sy [= <-] Hl. cbn in *. rewrite Hl. by eexists.
Qed.

Definition sample_occ (r : list Z) (s : string) : Model.Occurrence :=
  Model.mkOccurrence r s 0 [] 0 [].
Definition sample_occs : list Model.Occurrence :=
  [sample_occ [0; 0; 3] "a"; sample_occ [1; 4; 6] "b"; sample_occ [1; 6; 2; 1] "c"].

Lemma sample_occs_in_order : in_order sample_occs.
Proof.
  assert (Hb : ∀ i occ, sample_occs !! i = Some occ → ∃ s e, occ_bounds occ s e).
  { intros [|[|[|i]]] occ [= <-]; cbn; eexists _, _;
      (split; [reflexivity|unfold pos_ok, pos_le; cbn; lia]). }
  split; [done|]. intros i j o1 o2 s1 e1 s2 e2 Hij H1 H2 (Hb1&_) (Hb2&_).
  destruct i as [|[|[|i]]], j as [|[|[|j]]]; cbn in H1, H2; simplify_eq; try lia;
    cbn in Hb1, Hb2; simplify_eq; unfold pos_le; cbn; lia.
Qed.

Lemma GetOccurrenceForPosition_correct_witness :
  ∃ res, GetOccurrenceForPosition sample_occs (mkPosition 1 7) = Ok res ∧
    match res with
    | Some occ => occ ∈ sample_occs ∧ occ_at occ (mkPosition 1 7)
    | None => ∀ occ, occ ∈ sample_occs → ¬ occ_at occ (mkPosition 1 7)
    end.
Proof.
  apply (GetOccurrenceForPosition_correct sample_occs (mkPosition 1 7) sample_occs_in_order).
  unfold pos_ok. cbn. lia.
Defined.
