(* ===== verification/Paths.v ===== *)
(** * File paths

    The functions of Go's [path/filepath] on Unix that the sources use on the
    paths of documents and indices: [Clean], [Join], [Ext], [Rel], [Base] and [Dir].  A path
    is split into its elements at slashes.  Shown: [Clean] is idempotent, and
    [Rel] inverts [Join] of an absolute root and a clean relative path. *)

From stdpp Require Import base list strings.
From Stdlib Require Import Ascii Lia.
From S2P Require Import Prelude.

Local Open Scope string_scope.

Definition slash : ascii := "/"%char.

Definition rooted (s : string) : bool :=
  match s with String c _ => bool_decide (c = slash) | _ => false end.

(** The elements between slashes; one more than there are slashes. *)
Fixpoint split (s : string) : list string :=
  match s with
  | "" => [""]
  | String c s' =>
    if bool_decide (c = slash) then "" :: split s'
    else match split s' with
         | x :: xs => String c x :: xs
         | [] => [String c ""]
         end
  end.

Fixpoint join_slash (l : list string) : string :=
  match l with
  | [] => ""
  | [x] => x
  | x :: l' => x +:+ String slash (join_slash l')
  end.

(** [out] holds the elements kept, the last one first. *)
Definition clean_elem (root : bool) (out : list string) (x : string) : list string :=
  if bool_decide (x = "" ∨ x = ".") then out
  else if bool_decide (x = "..") then
    match out with
    | y :: out' => if bool_decide (y = "..") then ".." :: out else out'
    | [] => if root then [] else [".."]
    end
  else x :: out.

Definition clean_elems (root : bool) (xs : list string) : list string :=
  reverse (foldl (clean_elem root) [] xs).

Definition render (root : bool) (xs : list string) : string :=
  if root then String slash (join_slash xs)
  else match xs with [] => "." | _ => join_slash xs end.

(** [filepath.Clean] *)
Definition Clean (p : string) : string := render (rooted p) (clean_elems (rooted p) (split p)).

(** [filepath.Join] of two elements: empty ones are ignored. *)
Definition Join (a b : string) : string :=
  match a, b with
  | "", "" => ""
  | "", _ => Clean b
  | _, "" => Clean a
  | _, _ => Clean (a +:+ String slash b)
  end.

(** [path.Join] of any number of elements *)
Definition path_Join (elems : list string) : string :=
  match filter (.≠ "") elems with [] => "" | l => Clean (join_slash l) end.

(** [filepath.Ext]: the suffix from the last dot of the last element. *)
Fixpoint ext_loop (s : string) (found : string) : string :=
  match s with
  | "" => found
  | String c s' =>
    ext_loop s' (if bool_decide (c = slash) then ""
                 else if bool_decide (c = "."%char) then s else found)
  end.
Definition Ext (p : string) : string := ext_loop p "".

(** The elements after the longest common prefix. *)
Fixpoint strip_common (b t : list string) : list string * list string :=
  match b, t with
  | x :: b', y :: t' => if bool_decide (x = y) then strip_common b' t' else (b, t)
  | _, _ => (b, t)
  end.

(** The elements of a cleaned path that [Rel] compares; the base [.] has
    none, and the root of an absolute path is common to both. *)
Definition rel_elems (p : string) : list string :=
  List.filter (λ x, bool_decide (x ≠ "")) (split p).

(** [filepath.Rel]; the error says that the target cannot be made relative. *)
Definition Rel (base targ : string) : gores string :=
  let base := Clean base in
  let targ := Clean targ in
  if bool_decide (base = targ) then Ok "."
  else
    let base := if bool_decide (base = ".") then "" else base in
    if bool_decide (rooted base ≠ rooted targ) then Err (EText "can't make relative")
    else
      let '(b, t) := strip_common (rel_elems base) (rel_elems targ) in
      match b with
      | ".." :: _ => Err (EText "can't make relative")
      | _ => Ok (join_slash (((λ _, "..") <$> b) ++ t))
      end.

Local Open Scope list_scope.

(** ** Cleaned paths *)

(** An element that [Clean] keeps. *)
Definition normal (x : string) : Prop := x ≠ "" ∧ x ≠ "." ∧ x ≠ "..".
Definition no_slash (x : string) : Prop := split x = [x].

Lemma split_ne s : split s ≠ [].
Proof. destruct s as [|c s]; cbn; [done|]. case_bool_decide; [done|]. by destruct (split s). Qed.

Lemma split_no_slash s : Forall no_slash (split s).
Proof.
  induction s as [|c s IH]; cbn; [by repeat constructor|].
  case_bool_decide as Hc; [by constructor|].
  destruct (split s) as [|x xs] eqn:Hs; [by destruct (split_ne s)|].
  inversion_clear IH as [|?? Hx Hxs]. constructor; [|done]. unfold no_slash in *. cbn.
  rewrite bool_decide_false by done. by rewrite Hx.
Qed.

Lemma split_app x s : no_slash x → split (x +:+ String slash s) = x :: split s.
Proof.
  unfold no_slash. induction x as [|c x IH]; intros Hx; [done|].
  change (split (String c (x +:+ String slash s)) = String c x :: split s). cbn in Hx |- *.
  case_bool_decide as Hc; [by destruct (split x) as [|??] eqn:Hs; [destruct (split_ne x)|]|].
  destruct (split x) as [|y ys] eqn:Hs; [by destruct (split_ne x)|]. injection Hx as -> ->.
  by rewrite IH.
Qed.

Lemma split_join xs : xs ≠ [] → Forall no_slash xs → split (join_slash xs) = xs.
Proof.
  intros Hne Hf. induction Hf as [|x xs Hx Hf IH]; [done|].
  destruct xs as [|y xs]; [exact Hx|]. change (join_slash (x :: y :: xs)) with
    (x +:+ String slash (join_slash (y :: xs))). by rewrite split_app, IH.
Qed.

(** What [clean_elems] leaves: leading [..] of a relative path, then normal
    elements.  [out] is reversed. *)
Inductive cleaned (root : bool) : list string → Prop :=
  | cleaned_up n : (root = true → n = O) → cleaned root (replicate n "..")
  | cleaned_normal x out : normal x → no_slash x → cleaned root out → cleaned root (x :: out).

Lemma cleaned_elem root out x : no_slash x → cleaned root out → cleaned root (clean_elem root out x).
Proof.
  intros Hx Ho. unfold clean_elem. case_bool_decide as H1; [done|].
  case_bool_decide as H2; [|constructor; [unfold normal; tauto|done..]].
  destruct Ho as [n Hn|y out Hy Hs Ho].
  - destruct n as [|n]; cbn.
    + destruct root; [by apply (cleaned_up true 0)|by apply (cleaned_up false 1)].
    + destruct root; [by specialize (Hn eq_refl)|]. by apply (cleaned_up false (S (S n))).
  - rewrite bool_decide_false by apply Hy. done.
Qed.

Lemma cleaned_elems root xs out :
  Forall no_slash xs → cleaned root out → cleaned root (foldl (clean_elem root) out xs).
Proof.
  intros Hf. revert out. induction Hf as [|x xs Hx Hf IH]; intros out Ho; [done|]. cbn.
  by apply IH, cleaned_elem.
Qed.

(** Cleaning keeps a cleaned list. *)
Lemma clean_cleaned root out : cleaned root out → foldl (clean_elem root) [] (reverse out) = out.
Proof.
  induction 1 as [n Hn|x out Hx Hs Ho IH].
  - rewrite reverse_replicate. destruct root; [by rewrite Hn|]. clear Hn.
    induction n as [|n IH]; [done|].
    trans (foldl (clean_elem false) [] (replicate n ".." ++ [".."])); [by rewrite <- replicate_S_end|].
    rewrite foldl_app, IH. by destruct n.
  - rewrite reverse_cons, foldl_app, IH. cbn. unfold clean_elem, normal in *.
    rewrite !bool_decide_false by tauto. done.
Qed.

Lemma cleaned_no_slash root out : cleaned root out → Forall no_slash out.
Proof. induction 1; [by apply Forall_replicate|by constructor]. Qed.

Lemma cleaned_ne root out : cleaned root out → Forall (λ x, x ≠ "" ∧ x ≠ ".") out.
Proof.
  induction 1 as [n Hn|x out Hx Hs Ho IH]; [by apply Forall_replicate|].
  constructor; [unfold normal in Hx; tauto|done].
Qed.

Lemma rooted_join x xs : x ≠ "" → no_slash x → rooted (join_slash (x :: xs)) = false.
Proof.
  intros Hx Hs. destruct x as [|c x]; [done|].
  assert (Hc : c ≠ slash).
  { intros ->. unfold no_slash in Hs. cbn in Hs. injection Hs as _ Hs. by destruct (split_ne x). }
  by destruct xs; cbn; apply bool_decide_false.
Qed.

Lemma render_clean root out :
  cleaned root out → Clean (render root (reverse out)) = render root (reverse out).
Proof.
  intros Ho. unfold Clean, render, clean_elems.
  pose proof (proj2 (Forall_reverse _ _) (cleaned_no_slash _ _ Ho)) as Hs.
  pose proof (proj2 (Forall_reverse _ _) (cleaned_ne _ _ Ho)) as Hne.
  pose proof (clean_cleaned _ _ Ho) as Hc.
  destruct root.
  - change (rooted (String slash (join_slash (reverse out)))) with true.
    change (split (String slash (join_slash (reverse out)))) with ("" :: split (join_slash (reverse out))).
    destruct (reverse out) as [|x xs] eqn:Hr; [done|].
    rewrite split_join by done.
    change (foldl (clean_elem true) [] ("" :: x :: xs)) with (foldl (clean_elem true) [] (x :: xs)).
    by rewrite Hc, Hr.
  - destruct (reverse out) as [|x xs] eqn:Hr; [done|].
    inversion_clear Hs as [|?? Hsx Hsxs]. inversion_clear Hne as [|?? [Hx _] _].
    rewrite rooted_join, split_join, Hc, Hr by (done || by constructor). done.
Qed.

Lemma Clean_cleaned p : ∃ out, cleaned (rooted p) out ∧ Clean p = render (rooted p) (reverse out).
Proof.
  exists (foldl (clean_elem (rooted p)) [] (split p)). split; [|done].
  apply cleaned_elems; [apply split_no_slash|]. by apply (cleaned_up _ 0).
Qed.

Lemma Clean_idempotent p : Clean (Clean p) = Clean p.
Proof. destruct (Clean_cleaned p) as (out&Ho&->). by apply render_clean. Qed.

(** ** Relative paths *)

(** A relative path of normal elements. *)
Definition plain (p : string) : Prop :=
  ∃ ys, ys ≠ [] ∧ Forall normal ys ∧ Forall no_slash ys ∧ p = join_slash ys.

Lemma split_app_slash s r : split (s +:+ String slash r) = split s ++ split r.
Proof.
  induction s as [|c s IH]; [done|].
  change (split (String c (s +:+ String slash r)) = split (String c s) ++ split r). cbn.
  case_bool_decide; [by rewrite IH|]. rewrite IH.
  by destruct (split s) as [|x xs] eqn:Hs; [destruct (split_ne s)|].
Qed.

Lemma foldl_normal root out ys :
  Forall normal ys → foldl (clean_elem root) out ys = reverse ys ++ out.
Proof.
  intros Hf. revert out. induction Hf as [|y ys Hy Hf IH]; intros out; [done|]. cbn [foldl].
  rewrite IH, reverse_cons, <- (assoc_L (++)). f_equal. unfold clean_elem, normal in *.
  by rewrite !bool_decide_false by tauto.
Qed.

Lemma rooted_cleaned out : cleaned true out → Forall normal out.
Proof.
  induction 1 as [n Hn|x out Hx Hs Ho IH]; [by rewrite Hn|by constructor].
Qed.

Lemma strip_common_app xs ys : strip_common xs (xs ++ ys) = ([], ys).
Proof.
  induction xs as [|x xs IH]; [by destruct ys|]. cbn. by rewrite bool_decide_true.
Qed.

Lemma rel_elems_rooted xs :
  Forall normal xs → Forall no_slash xs → rel_elems (String slash (join_slash xs)) = xs.
Proof.
  intros Hn Hs. unfold rel_elems. destruct xs as [|x xs]; [done|].
  change (split (String slash (join_slash (x :: xs)))) with ("" :: split (join_slash (x :: xs))).
  rewrite split_join by done. generalize dependent (x :: xs). clear x xs. intros xs Hn _.
  cbn [List.filter]. rewrite bool_decide_false by tauto.
  induction Hn as [|x xs Hx Hn IH]; [done|]. cbn.
  rewrite bool_decide_true by apply Hx. by rewrite IH.
Qed.

Lemma Join_rooted root ys out :
  rooted root = true → ys ≠ [] → Forall normal ys → Forall no_slash ys →
  foldl (clean_elem true) [] (split root) = out →
  Join root (join_slash ys) = String slash (join_slash (reverse out ++ ys)).
Proof.
  intros Hr Hne Hn Hs <-. destruct root as [|c root]; [done|].
  assert (Hj : ∃ c' s', join_slash ys = String c' s').
  { destruct ys as [|y ys]; [done|]. inversion_clear Hn as [|?? [Hy _] _].
    destruct y as [|c' y]; [done|]. destruct ys; cbn; eauto. }
  destruct Hj as (c'&s'&Hj). unfold Join. rewrite Hj, <- Hj. unfold Clean.
  change (rooted (String c root +:+ String slash (join_slash ys))) with (rooted (String c root)).
  rewrite Hr. unfold clean_elems, render. rewrite split_app_slash, foldl_app, split_join by done.
  by rewrite foldl_normal, reverse_app, reverse_involutive by done.
Qed.

Lemma cleaned_app root ys out :
  Forall normal ys → Forall no_slash ys → cleaned root out → cleaned root (reverse ys ++ out).
Proof.
  intros Hn. revert out. induction Hn as [|y ys Hy Hn IH]; intros out Hs Ho; [done|].
  inversion_clear Hs. rewrite reverse_cons, <- (assoc_L (++)). apply IH; [done|by constructor].
Qed.

(** The path of a document below an absolute root is found again. *)
Lemma Rel_Join root rel : rooted root = true → plain rel → Rel root (Join root rel) = Ok rel.
Proof.
  intros Hr (ys&Hne&Hn&Hs&->).
  set (out := foldl (clean_elem true) [] (split root)).
  assert (Ho : cleaned true out).
  { apply cleaned_elems; [apply split_no_slash|]. by apply (cleaned_up true 0). }
  assert (Hc : Clean root = String slash (join_slash (reverse out)))
    by (unfold Clean; by rewrite Hr).
  rewrite (Join_rooted root ys out) by done.
  pose proof (proj2 (Forall_reverse _ _) (rooted_cleaned _ Ho)) as Hno.
  pose proof (proj2 (Forall_reverse _ _) (cleaned_no_slash _ _ Ho)) as Hso.
  set (xs := reverse out) in *.
  assert (Hxy : rel_elems (String slash (join_slash (xs ++ ys))) = xs ++ ys)
    by (apply rel_elems_rooted; by apply Forall_app).
  assert (Hx : rel_elems (String slash (join_slash xs)) = xs) by (by apply rel_elems_rooted).
  assert (Ht : Clean (String slash (join_slash (xs ++ ys))) = String slash (join_slash (xs ++ ys))).
  { assert (Hcl : cleaned true (reverse ys ++ out)).
    { by apply cleaned_app. }
    apply render_clean in Hcl. cbn in Hcl. by rewrite reverse_app, reverse_involutive in Hcl. }
  unfold Rel. cbv zeta. rewrite Ht, Hc. rewrite bool_decide_false.
  2:{ intros Heq. rewrite Heq, Hxy in Hx. apply (f_equal length) in Hx. rewrite length_app in Hx.
      destruct ys; [done|cbn in Hx; lia]. }
  rewrite (bool_decide_false (String slash _ = ".")) by done. cbv iota.
  rewrite bool_decide_false by (intros Hx'; by apply Hx').
  by rewrite Hx, Hxy, strip_common_app.
Qed.

(** ** [filepath.Base] *)

Fixpoint trim_slashes (l : list string) : list string :=
  match l with
  | "" :: l' => trim_slashes l'
  | _ => l
  end.

(** The last element; trailing slashes are removed first. *)
Definition FileBase (p : string) : string :=
  match p with
  | "" => "."
  | _ => match trim_slashes (reverse (split p)) with [] => "/" | x :: _ => x end
  end.

(** ** [filepath.Dir] *)

(** All but the last element, cleaned. *)
Definition Dir (p : string) : string :=
  match reverse (split p) with
  | _ :: y :: l => Clean (join_slash (reverse (y :: l)) +:+ "/")
  | _ => Clean ""
  end.

(** The absolute path of elements. *)
Definition abs_path (xs : list string) : string := String slash (join_slash xs).
Definition path_elems (xs : list string) : Prop := Forall normal xs ∧ Forall no_slash xs.

Lemma path_elems_app xs ys : path_elems (xs ++ ys) ↔ path_elems xs ∧ path_elems ys.
Proof. unfold path_elems. rewrite !Forall_app. tauto. Qed.

Lemma split_abs xs : path_elems xs → xs ≠ [] → split (abs_path xs) = "" :: xs.
Proof. intros [_ Hs] Hne. unfold abs_path. cbn. by rewrite split_join. Qed.

Lemma Clean_abs_slash xs : path_elems xs → Clean (abs_path xs +:+ "/") = abs_path xs.
Proof.
  intros [Hn Hs]. unfold Clean. change (rooted (abs_path xs +:+ "/")) with true.
  unfold clean_elems, render, abs_path. change "/" with (String slash ""). rewrite split_app_slash.
  change (split (String slash (join_slash xs))) with ("" :: split (join_slash xs)).
  rewrite foldl_app. destruct xs as [|x xs]; [by vm_compute|]. rewrite split_join by done.
  change (foldl (clean_elem true) [] ("" :: x :: xs)) with (foldl (clean_elem true) [] (x :: xs)).
  rewrite (foldl_normal true [] (x :: xs)) by done. cbn [split foldl]. unfold clean_elem at 1.
  rewrite bool_decide_true by tauto. by rewrite app_nil_r, reverse_involutive.
Qed.

Lemma join_slash_rooted xs : xs ≠ [] → join_slash ("" :: xs) = abs_path xs.
Proof. by destruct xs. Qed.

Lemma Dir_snoc xs x : path_elems (xs ++ [x]) → Dir (abs_path (xs ++ [x])) = abs_path xs.
Proof.
  intros Hp. unfold Dir. rewrite split_abs; [|done|by destruct xs].
  pose proof (proj1 (proj1 (path_elems_app _ _) Hp)) as Hx.
  rewrite reverse_cons, reverse_snoc. destruct xs as [|y xs] using rev_ind; [done|].
  rewrite reverse_snoc. cbn [app]. rewrite reverse_cons, reverse_app, reverse_involutive. cbn [reverse].
  change ((reverse [""] ++ xs) ++ [y]) with ("" :: (xs ++ [y])).
  rewrite join_slash_rooted by by destruct xs. by apply Clean_abs_slash.
Qed.

Lemma Dir_root : Dir (abs_path []) = abs_path [].
Proof. done. Qed.
