(* ===== verification/Scanner.v ===== *)
(** * The index scanner

    Models [src/scip-lib/scanner/bufferpool.go] and [scan.go]: a scanner that
    reads a serialised SCIP index field by field through pooled buffers and
    calls its client for the documents, symbols and occurrences that match.

    A buffer is its backing array and its length.  [sync.Pool] may return a
    buffer that was put back, with what it held, or make a new one: [reuse]
    decides for each [Get].  The client is a state with the callbacks as
    functions over it.  The wire format ([protowire]) and the decoding of
    messages ([proto.Unmarshal]) are parameters. *)

From stdpp Require Import base list strings.
From Stdlib Require Import ZArith Lia.
From S2P Require Import Prelude Scip Paths.

Local Open Scope Z_scope.

(** ** Buffers and the pool *)

Record Buf := mkBuf { arr : bytes; blen : Z }.
Definition cap (b : Buf) : Z := zlen (arr b).
(** The bytes of the slice. *)
Definition data (b : Buf) : bytes := take (Z.to_nat (blen b)) (arr b).
Definition nil_buf : Buf := mkBuf [] 0.

Record BufferPool := mkBufferPool {
  sizes : list Z;
  pools : list (list bytes);     (** the arrays put back, by bucket *)
  maxSize : Z;
  reuse : N → bool;              (** whether the n-th [Get] of a pool reuses *)
  gets : N
}.

(** [sizes[i] = startSize << i] for the buckets below [sizeCnt]. *)
Fixpoint bucket_sizes (startSize : Z) (i : Z) (cnt : nat) : list Z :=
  match cnt with
  | O => []
  | S cnt' => Z.shiftl startSize i :: bucket_sizes startSize (i + 1) cnt'
  end.

Definition NewBufferPool (reuse : N → bool) (startSize : Z) (sizeCnt : nat) : gores BufferPool :=
  let sizes := bucket_sizes startSize 0 sizeCnt in
  maxSize <-? go_index sizes (Z.of_nat sizeCnt - 1);;
  Ok (mkBufferPool sizes (replicate sizeCnt []) maxSize reuse 0).

(** The most that [make] allocates on a 64 bit machine. *)
Definition maxAlloc : Z := 2 ^ 48.
Definition makeslice (size : Z) : gores Buf :=
  if (0 <=? size) && (size <=? maxAlloc) then
    Ok (mkBuf (replicate (Z.to_nat size) 0) size)
  else Panic.

(** [b[:n]] *)
Definition reslice (a : bytes) (n : Z) : gores Buf :=
  if (0 <=? n) && (n <=? zlen a) then Ok (mkBuf a n) else Panic.

(** The first bucket, from [i] on, that can hold [size]. *)
Fixpoint find_bucket (size : Z) (ss : list Z) (i : nat) : option (nat * Z) :=
  match ss with
  | [] => None
  | bucketSize :: ss' =>
    if size <=? bucketSize then Some (i, bucketSize) else find_bucket size ss' (S i)
  end.

Definition Get (bp : BufferPool) (size : Z) : gores Buf * BufferPool :=
  match find_bucket size (sizes bp) 0 with
  | Some (i, bucketSize) =>
    match pools bp !! i with
    | Some (a :: free) =>
      if reuse bp (gets bp) then
        (reslice a size, mkBufferPool (sizes bp) (<[i := free]> (pools bp)) (maxSize bp)
           (reuse bp) (N.succ (gets bp)))
      else
        (reslice (replicate (Z.to_nat bucketSize) 0) size,
         mkBufferPool (sizes bp) (pools bp) (maxSize bp) (reuse bp) (N.succ (gets bp)))
    | _ =>
      (reslice (replicate (Z.to_nat bucketSize) 0) size,
       mkBufferPool (sizes bp) (pools bp) (maxSize bp) (reuse bp) (N.succ (gets bp)))
    end
  | None => (makeslice size, bp)
  end.

(** The bucket whose size is the capacity. *)
Fixpoint exact_bucket (c : Z) (ss : list Z) (i : nat) : option nat :=
  match ss with
  | [] => None
  | bucketSize :: ss' => if c =? bucketSize then Some i else exact_bucket c ss' (S i)
  end.

Definition Put (bp : BufferPool) (buf : Buf) : BufferPool :=
  match exact_bucket (cap buf) (sizes bp) 0 with
  | Some i =>
    mkBufferPool (sizes bp) (alter (cons (arr buf)) i (pools bp)) (maxSize bp)
      (reuse bp) (gets bp)
  | None => bp
  end.

(** ** The reader

    A [bytes.Reader]; reads and seeks of a file behave the same. *)

Record Reader := mkReader { src : bytes; off : Z }.
Definition NewReader (b : bytes) : Reader := mkReader b 0.

(** [copy(buf, s)] *)
Definition copy_to (b : Buf) (s : bytes) : Buf * Z :=
  let n := Z.min (blen b) (zlen s) in
  (mkBuf (take (Z.to_nat n) s ++ drop (Z.to_nat n) (arr b)) (blen b), n).

Definition Read (r : Reader) (b : Buf) : gores (Buf * Z) * Reader :=
  if zlen (src r) <=? off r then (Err EEOF, r)
  else
    let '(b', n) := copy_to b (drop (Z.to_nat (off r)) (src r)) in
    (Ok (b', n), mkReader (src r) (off r + n)).

(** [Seek(offset, io.SeekCurrent)] *)
Definition Seek (r : Reader) (offset : Z) : gores Z * Reader :=
  let abs := int64 (off r + offset) in
  if abs <? 0 then (Err (EText "negative position"), r)
  else (Ok abs, mkReader (src r) abs).

(** ** The wire format and the messages *)

Definition BytesType : Z := 2.

Class Wire := {
  (** field number, type, and the bytes used or a negative error code *)
  ConsumeTag : bytes → Z * Z * Z;
  ConsumeVarint : bytes → Z * Z;
  UnmarshalDocument : bytes → gores Scip.Document;
  UnmarshalSymbol : bytes → gores Scip.SymbolInformation;
  UnmarshalOccurrence : bytes → gores Scip.Occurrence
}.

(** [string(b)] *)
Definition string_of_bytes (b : bytes) : string :=
  foldr (λ x s, String (Ascii.ascii_of_N (Z.to_N x)) s) "" b.

Definition indexDocumentsFieldNumber : Z := 2.
Definition documentRelativePathFieldNumber : Z := 1.
Definition documentOccurrencesFieldNumber : Z := 2.
Definition documentSymbolsFieldNumber : Z := 3.
Definition symbolInformationSymbolField : Z := 1.
Definition occurrenceSymbolField : Z := 2.
Definition maxVarintBytes : Z := 10.

(** The operating system: the content of a file, and the names of the entries
    of a directory with whether they are directories. *)
Class FileSystem := {
  Open : string → gores bytes;
  ReadDir : string → gores (list (string * bool))
}.

Definition newline : string := String (Ascii.ascii_of_nat 10) "".
Definition option_list {A} (o : option A) : list A := match o with Some a => [a] | None => [] end.

(** ** The scanner *)

(** The callbacks of [IndexScannerImpl] over the state of the client; [None]
    is a nil function. *)
Record Callbacks (C : Type) := mkCallbacks {
  MatchDocumentPath : option (string → GoM C bool);
  MatchSymbol : option (bytes → GoM C bool);
  MatchOccurrence : option (bytes → GoM C bool);
  VisitDocument : option (Scip.Document → GoM C unit);
  VisitSymbol : option (string → Scip.SymbolInformation → GoM C unit);
  VisitOccurrence : option (string → Scip.Occurrence → GoM C unit)
}.
Arguments MatchDocumentPath {C} _.
Arguments MatchSymbol {C} _.
Arguments MatchOccurrence {C} _.
Arguments VisitDocument {C} _.
Arguments VisitSymbol {C} _.
Arguments VisitOccurrence {C} _.

Record ScanState (C : Type) := mkScanState { rd : Reader; pool : BufferPool; client : C }.
Arguments mkScanState {C} _ _ _.
Arguments rd {C} _.
Arguments pool {C} _.
Arguments client {C} _.

Section scanner.
Context {C : Type} `{Wire} (cb : Callbacks C).

Definition ScanM := GoM (ScanState C).

Definition pool_get (size : Z) : ScanM Buf := λ st,
  let '(r, bp) := Get (pool st) size in (r, mkScanState (rd st) bp (client st)).
Definition pool_put (b : Buf) : ScanM unit := λ st,
  (Ok tt, mkScanState (rd st) (Put (pool st) b) (client st)).
Definition read (b : Buf) : ScanM (Buf * Z) := λ st,
  let '(r, rd') := Read (rd st) b in (r, mkScanState rd' (pool st) (client st)).
Definition seek (o : Z) : ScanM Z := λ st,
  let '(r, rd') := Seek (rd st) o in (r, mkScanState rd' (pool st) (client st)).
Definition call {A} (m : GoM C A) : ScanM A := λ st,
  let '(r, c) := m (client st) in (r, mkScanState (rd st) (pool st) c).
(** Runs [m] on a new reader over [b]. *)
Definition with_reader {A} (b : bytes) (m : ScanM A) : ScanM A := λ st,
  let '(r, st') := m (mkScanState (NewReader b) (pool st) (client st)) in
  (r, mkScanState (rd st) (pool st') (client st')).
(** [defer is.Pool.Put(b)] and [is.Pool.Put(b); return err]. *)
Definition then_put {A} (b : Buf) (m : ScanM A) : ScanM A := λ st,
  let '(r, st') := m st in (r, mkScanState (rd st') (Put (pool st') b) (client st')).
(** [if err != nil { is.Pool.Put(b); return errors.Join(...) }] *)
Definition or_put {A} (b : Buf) (m : ScanM A) : ScanM A := λ st,
  match m st with
  | (Err e, st') => (Err e, mkScanState (rd st') (Put (pool st') b) (client st'))
  | r => r
  end.

Definition consumeBytesFieldMeta : ScanM (Z * Z) :=
  tagBuf <- pool_get 1;;
  then_put tagBuf (
    r <- try_ (read tagBuf);;
    match r with
    | inl EEOF => throw EEOF
    | inl err => throw (EJoin "failed to read from index reader" err)
    | inr (tagBuf', numRead) =>
      if numRead =? 0 then throw (EText "read 0 bytes from index")
      else
        let '(fieldNumber, fieldType, errCode) := ConsumeTag (data tagBuf') in
        if errCode <? 0 then throw (EJoin "failed to consume tag" (EExternal errCode))
        else if negb (fieldType =? BytesType) then throw (EText "expected bytes type for field")
        else sret (fieldNumber, fieldType)
    end).

(** The loop of [readVarint], for the rounds left. *)
Fixpoint readVarint_loop (rounds : nat) (scratchBuf : Buf) : ScanM Buf :=
  match rounds with
  | O => sret scratchBuf
  | S rounds' =>
    let* (nextByteBuf, numRead) := joinM "failed to read byte of Varint" (read (mkBuf [0] 1)) in
    if numRead =? 0 then throw (EText "failed to read byte of Varint")
    else
      nextByte <- lift_res (go_index (data nextByteBuf) 0);;
      let scratchBuf' := mkBuf (<[Z.to_nat (blen scratchBuf) := nextByte]> (arr scratchBuf))
                           (blen scratchBuf + 1) in
      if nextByte <=? 127 then sret scratchBuf'
      else readVarint_loop rounds' scratchBuf'
  end.

(** [readVarint] with the buffer it leaves; the buffer also is there when an
    error is returned. *)
Definition readVarint (scratchBuf : Buf) : ScanM (Buf * Z) :=
  buf <- readVarint_loop (Z.to_nat (cap scratchBuf)) scratchBuf;;
  let '(value, errCode) := ConsumeVarint (data buf) in
  if errCode <? 0 then throw (EExternal errCode) else sret (buf, value).

(** [lenBuf := is.Pool.Get(maxVarintBytes)[:0]; readVarint(r, &lenBuf);
    is.Pool.Put(lenBuf)]: the array goes back to the pool in any case. *)
Definition read_length : ScanM Z :=
  lenBuf <- pool_get maxVarintBytes;;
  joinM "failed to read length" (
    r <- try_ (readVarint (mkBuf (arr lenBuf) 0));;
    match r with
    | inl err => pool_put lenBuf ;;; throw err
    | inr (lenBuf', dataLen) => pool_put lenBuf' ;;; sret dataLen
    end).

Definition skipField : ScanM unit :=
  dataLen <- read_length;;
  _ <- joinM "failed to skip field" (seek (int64 dataLen));;
  sret tt.

Definition consumeLen (fieldType : Z) : ScanM Z :=
  if negb (fieldType =? BytesType) then throw (EText "expected LEN type tag")
  else dataLen <- read_length;; sret (int64 dataLen).

(** The buffer with the data of the field. *)
Definition consumeFieldData (dataLen : Z) (dataBuf : Buf) : ScanM Buf :=
  if 0 <? dataLen then
    let* (dataBuf', numRead) := joinM "failed to read data" (read dataBuf) in
    if negb (numRead =? dataLen) then throw (EText "expected to read bytes based on LEN")
    else sret dataBuf'
  else sret dataBuf.

Definition shouldParseDocumentField (fieldNumber : Z) : bool :=
  if fieldNumber =? documentSymbolsFieldNumber then bool_decide (is_Some (MatchSymbol cb))
  else if fieldNumber =? documentOccurrencesFieldNumber then
    bool_decide (is_Some (MatchOccurrence cb))
  else false.

(** The loop that the three parse functions share: skip fields up to the first
    field [want], and read its data; [None] at the end of the input.  The
    buffer is returned with its data, or, on a read error, lost as in the
    parsers of symbols, or put back ([put_on_error]) as in the parser of
    paths. *)
Fixpoint find_field (fuel : nat) (want : Z) (put_on_error : bool) : ScanM (option Buf) :=
  match fuel with
  | O => lift_res Fuel
  | S fuel' =>
    m <- try_ consumeBytesFieldMeta;;
    match m with
    | inl EEOF => sret None
    | inl err => throw (EJoin "failed to consume field" err)
    | inr (fieldNumber, fieldType) =>
      if negb (fieldNumber =? want) then
        joinM "failed to skip" skipField ;;;
        find_field fuel' want put_on_error
      else
        dataLen <- joinM "failed to consume length" (consumeLen fieldType);;
        dataBuf <- pool_get dataLen;;
        dataBuf' <- joinM "failed to consume data"
          ((if put_on_error then or_put dataBuf else id) (consumeFieldData dataLen dataBuf));;
        sret (Some dataBuf')
    end
  end.

Definition parseDocumentPath (fuel : nat) (docData : bytes) : ScanM string :=
  with_reader docData (
    r <- find_field fuel documentRelativePathFieldNumber true;;
    match r with
    | None => sret ""
    | Some dataBuf =>
      let dataStr := string_of_bytes (data dataBuf) in
      pool_put dataBuf ;;; sret dataStr
    end).

Definition parseSymbolMoniker (fuel : nat) (symbolData : bytes) : ScanM Buf :=
  with_reader symbolData (
    r <- find_field fuel symbolInformationSymbolField false;;
    sret (default nil_buf r)).

Definition parseOccurrenceSymbol (fuel : nat) (occData : bytes) : ScanM Buf :=
  with_reader occData (
    r <- find_field fuel occurrenceSymbolField false;;
    sret (default nil_buf r)).

(** One symbol or occurrence of a document, whose data is in [dataBuf]. *)
Definition scan_symbol (fuel : nat) (docPath : string) (dataBuf : Buf) : ScanM unit :=
  match MatchSymbol cb with
  | None => lift_res Panic
  | Some matchSymbol =>
    syByte <- or_put dataBuf (joinM "failed to parse symbol moniker"
      (parseSymbolMoniker fuel (data dataBuf)));;
    match_ <- call (matchSymbol (data syByte));;
    pool_put syByte ;;;
    match match_, VisitSymbol cb with
    | true, Some visit =>
      symbolInfo <- or_put dataBuf (joinM "failed to read"
        (lift_res (UnmarshalSymbol (data dataBuf))));;
      call (visit docPath symbolInfo)
    | _, _ => sret tt
    end
  end.

Definition scan_occurrence (fuel : nat) (docPath : string) (dataBuf : Buf) : ScanM unit :=
  match MatchOccurrence cb with
  | None => lift_res Panic
  | Some matchOccurrence =>
    syByte <- or_put dataBuf (joinM "failed to parse symbol moniker"
      (parseOccurrenceSymbol fuel (data dataBuf)));;
    match_ <- call (matchOccurrence (data syByte));;
    pool_put syByte ;;;
    match match_, VisitOccurrence cb with
    | true, Some visit =>
      occurrence <- or_put dataBuf (joinM "failed to read"
        (lift_res (UnmarshalOccurrence (data dataBuf))));;
      call (visit docPath occurrence)
    | _, _ => sret tt
    end
  end.

Fixpoint ScanDocumentReader (fuel : nat) (docPath : string) : ScanM unit :=
  match fuel with
  | O => lift_res Fuel
  | S fuel' =>
    m <- try_ consumeBytesFieldMeta;;
    match m with
    | inl EEOF => sret tt
    | inl err => throw (EJoin "failed to consume field" err)
    | inr (fieldNumber, fieldType) =>
      if negb (shouldParseDocumentField fieldNumber) then
        joinM "failed to skip" skipField ;;;
        ScanDocumentReader fuel' docPath
      else
        dataLen <- joinM "failed to consume length" (consumeLen fieldType);;
        dataBuf <- pool_get dataLen;;
        dataBuf' <- or_put dataBuf (joinM "failed to consume data" (consumeFieldData dataLen dataBuf));;
        (if fieldNumber =? documentSymbolsFieldNumber then scan_symbol fuel' docPath dataBuf'
         else if fieldNumber =? documentOccurrencesFieldNumber then
           scan_occurrence fuel' docPath dataBuf'
         else sret tt) ;;;
        pool_put dataBuf' ;;;
        ScanDocumentReader fuel' docPath
    end
  end.

(** One document of the index, whose data is in [dataBuf]. *)
Definition scan_document (fuel : nat) (dataBuf : Buf) : ScanM unit :=
  docPath <- or_put dataBuf (joinM "failed to parse document path"
    (parseDocumentPath fuel (data dataBuf)));;
  match_ <- (match MatchDocumentPath cb with
             | Some matchPath => call (matchPath docPath)
             | None => sret false
             end);;
  (match match_, VisitDocument cb with
   | true, Some visit =>
     document <- or_put dataBuf (joinM "failed to read document"
       (lift_res (UnmarshalDocument (data dataBuf))));;
     call (visit document)
   | _, _ => sret tt
   end) ;;;
  or_put dataBuf (joinM "failed to scan document"
    (with_reader (data dataBuf) (ScanDocumentReader fuel docPath))).

Fixpoint ScanIndexReader (fuel : nat) : ScanM unit :=
  match fuel with
  | O => lift_res Fuel
  | S fuel' =>
    m <- try_ consumeBytesFieldMeta;;
    match m with
    | inl EEOF => sret tt
    | inl err => throw (EJoin "failed to consume field" err)
    | inr (fieldNumber, fieldType) =>
      if negb (fieldNumber =? indexDocumentsFieldNumber) then
        joinM "failed to skip" skipField ;;;
        ScanIndexReader fuel'
      else
        dataLen <- joinM "failed to consume length" (consumeLen fieldType);;
        dataBuf <- pool_get dataLen;;
        dataBuf' <- or_put dataBuf (joinM "failed to consume data" (consumeFieldData dataLen dataBuf));;
        scan_document fuel' dataBuf' ;;;
        pool_put dataBuf' ;;;
        ScanIndexReader fuel'
    end
  end.

(** ** Files and folders

    The files are those of one state of the file system; [errText] is the text
    of an error.  With [parallel] one goroutine scans each file: the model lets
    [schedule] choose the order in which the files are scanned. *)
Section files.
Context `{FileSystem} (fuel : nat) (errText : error → string)
  (schedule : list string → list string).

Definition ScanIndexFile (path : string) : ScanM unit :=
  content <- lift_res (join_err "failed to open file" (Open path));;
  with_reader content (ScanIndexReader fuel).

(** The error that [processFile] sends, if any. *)
Definition processFile (filePath : string) : ScanM (option error) :=
  if bool_decide (Ext filePath ≠ ".scip") then sret None
  else
    r <- try_ (ScanIndexFile filePath);;
    match r with
    | inl err => sret (Some err)
    | inr _ => sret None
    end.

Fixpoint process_files (paths : list string) : ScanM (list error) :=
  match paths with
  | [] => sret []
  | path :: paths' =>
    e <- processFile path;;
    errs <- process_files paths';;
    sret (option_list e ++ errs)
  end.

Definition ScanIndexFolder (path : string) (parallel : bool) : ScanM unit :=
  entries <- lift_res (join_err "failed to read directory" (ReadDir path));;
  let paths := (λ entry, Join path entry.1) <$> List.filter (λ entry, negb entry.2) entries in
  errs <- process_files (if parallel then schedule paths else paths);;
  match errs with
  | [] => sret tt
  | _ => throw (EText (join newline (errText <$> errs)))
  end.
End files.

End scanner.
