(* ===== verification/ScannerProof.v ===== *)
(** * Correctness of the index scanner

    The pool gives buffers of the size asked for whatever it holds; on a
    serialised message the scanner reads field after field; on a serialised
    index it makes the calls to its client that the index asks for, whatever
    the pool holds and returns, up to the first field that is not
    length-delimited, at which it returns an error. *)

From stdpp Require Import base list strings.
From Stdlib Require Import ZArith Lia.
From S2P Require Import Prelude Scip Scanner.

Local Open Scope Z_scope.

(** ** The wire format *)

(** The varint of an unsigned 64 bit number: at most ten bytes. *)
Fixpoint varint_loop (n : nat) (v : Z) : bytes :=
  match n with
  | O => [v]
  | S n' => if v <? 128 then [v] else v mod 128 + 128 :: varint_loop n' (v / 128)
  end.
Definition varint (v : Z) : bytes := varint_loop 9 v.
Definition tag (num : Z) : Z := num * 8 + BytesType.
(** A field of the type that has a length. *)
Definition enc_field (num : Z) (p : bytes) : bytes := tag num :: varint (zlen p) ++ p.
Definition enc_fields (fs : list (Z * bytes)) : bytes := fs ≫= λ f, enc_field f.1 f.2.

Class WireLaws `{Wire} := {
  (** a one byte tag: the number and, in its last three bits, the type *)
  ConsumeTag_byte t : 8 ≤ t < 128 → ConsumeTag [t] = (t / 8, t mod 8, 1);
  ConsumeVarint_varint v : 0 ≤ v < 2 ^ 64 → ConsumeVarint (varint v) = (v, zlen (varint v))
}.

Lemma ConsumeTag_bytes `{WireLaws} num :
  1 ≤ num ≤ 15 → ConsumeTag [tag num] = (num, BytesType, 1).
Proof.
  intros Hn. unfold tag, BytesType. rewrite ConsumeTag_byte by lia. do 2 f_equal; symmetry.
  - apply Z.div_unique with 2; lia.
  - apply Z.mod_unique with num; lia.
Qed.

Lemma varint_loop_ends n v :
  0 ≤ v < 2 ^ (7 * (Z.of_nat n + 1)) →
  ∃ init b, varint_loop n v = init ++ [b] ∧ 0 ≤ b ≤ 127 ∧
    Forall (λ x, 128 ≤ x ≤ 255) init ∧ (length init ≤ n)%nat.
Proof.
  revert v. induction n as [|n IH]; intros v Hv.
  { exists [], v. split_and!; [done|cbn in *; lia|cbn in *; lia|constructor|done]. }
  cbn [varint_loop]. destruct (Z.ltb_spec v 128).
  { exists [], v. split_and!; [done|lia|lia|constructor|cbn; lia]. }
  destruct (IH (v / 128)) as (init&b&->&Hb&Hinit&Hlen).
  { replace (7 * (Z.of_nat (S n) + 1)) with (7 * (Z.of_nat n + 1) + 7) in Hv by lia.
    rewrite Z.pow_add_r in Hv by lia. change (2 ^ 7) with 128 in Hv.
    split; [apply Z.div_pos; lia|]. apply Z.div_lt_upper_bound; lia. }
  exists (v mod 128 + 128 :: init), b. split_and!; [done|lia|lia| |cbn; lia].
  constructor; [|done]. pose proof (Z.mod_pos_bound v 128). lia.
Qed.

Lemma varint_ends v :
  0 ≤ v < 2 ^ 64 →
  ∃ init b, varint v = init ++ [b] ∧ 0 ≤ b ≤ 127 ∧
    Forall (λ x, 128 ≤ x ≤ 255) init ∧ (length init ≤ 9)%nat.
Proof. intros Hv. apply varint_loop_ends. cbn. lia. Qed.

(** ** The pool *)

Definition pool_ok (bp : BufferPool) : Prop :=
  length (pools bp) = length (sizes bp) ∧
  ∀ i free s, pools bp !! i = Some free → sizes bp !! i = Some s →
    Forall (λ a, zlen a = s) free.

Lemma find_bucket_some size ss i j s :
  find_bucket size ss i = Some (j, s) →
  (i ≤ j)%nat ∧ ss !! (j - i)%nat = Some s ∧ size ≤ s.
Proof.
  revert i. induction ss as [|x ss IH]; intros i; cbn; [done|].
  destruct (Z.leb_spec size x).
  - intros [= <- <-]. rewrite Nat.sub_diag. split; [lia|done].
  - intros Hf. destruct (IH _ Hf) as (?&Hl&?). split_and!; [lia| |done].
    by replace (j - i)%nat with (S (j - S i)) by lia.
Qed.

Lemma exact_bucket_some c ss i j :
  exact_bucket c ss i = Some j → (i ≤ j)%nat ∧ ss !! (j - i)%nat = Some c.
Proof.
  revert i. induction ss as [|x ss IH]; intros i; cbn; [done|].
  destruct (Z.eqb_spec c x) as [->|].
  - intros [= <-]. rewrite Nat.sub_diag. split; [lia|done].
  - intros Hf. destruct (IH _ Hf) as (?&Hl). split; [lia|].
    by replace (j - i)%nat with (S (j - S i)) by lia.
Qed.

Lemma reslice_ok a n : 0 ≤ n ≤ zlen a → reslice a n = Ok (mkBuf a n).
Proof.
  intros Hn. unfold reslice. destruct (Z.leb_spec 0 n), (Z.leb_spec n (zlen a)); try lia. done.
Qed.

Lemma zlen_replicate {A} (x : A) n : 0 ≤ n → zlen (replicate (Z.to_nat n) x) = n.
Proof. intros Hn. unfold zlen. rewrite length_replicate. lia. Qed.

(** [Get] returns a buffer of the size asked for, with room for it. *)
Lemma Get_ok bp size :
  pool_ok bp → 0 ≤ size ≤ maxAlloc →
  ∃ b bp', Get bp size = (Ok b, bp') ∧ blen b = size ∧ size ≤ cap b ∧ pool_ok bp'.
Proof.
  intros [Hlen Hbp] Hsize. unfold Get.
  destruct (find_bucket size (sizes bp) 0) as [[i s]|] eqn:Hf.
  - apply find_bucket_some in Hf as (_&Hs&Hle). rewrite Nat.sub_0_r in Hs.
    set (bp' := mkBufferPool (sizes bp) (pools bp) (maxSize bp) (reuse bp) (N.succ (gets bp))).
    assert (Hnew : ∃ b, reslice (replicate (Z.to_nat s) 0) size = Ok b ∧ blen b = size ∧
      size ≤ cap b ∧ pool_ok bp').
    { rewrite reslice_ok by (rewrite zlen_replicate; lia). eexists. split; [done|].
      split; [done|]. unfold cap. cbn. rewrite zlen_replicate by lia. by repeat split. }
    destruct Hnew as (b&Hnew&Hb).
    destruct (pools bp !! i) as [[|a free]|] eqn:Hi; [| |].
    + rewrite Hnew. by exists b, bp'.
    + destruct (reuse bp (gets bp)); [|rewrite Hnew; by exists b, bp'].
      pose proof (Hbp i (a :: free) s Hi Hs) as [Ha Hfree]%Forall_cons.
      rewrite reslice_ok by lia. eexists _, _. split; [done|]. split; [done|].
      split; [unfold cap; cbn; lia|]. split; cbn; [by rewrite length_insert|].
      intros j fr t. destruct (decide (j = i)) as [->|].
      * rewrite list_lookup_insert_eq by (by eapply lookup_lt_Some).
        intros [= <-] Ht. by simplify_eq.
      * rewrite list_lookup_insert_ne by done. apply Hbp.
    + apply lookup_ge_None in Hi. apply lookup_lt_Some in Hs. lia.
  - unfold makeslice. destruct (Z.leb_spec 0 size), (Z.leb_spec size maxAlloc); try lia. cbn.
    eexists _, _. split; [done|]. split; [done|]. unfold cap. cbn.
    rewrite zlen_replicate by lia. by split; [|split].
Qed.

Lemma Put_ok bp b : pool_ok bp → pool_ok (Put bp b).
Proof.
  intros [Hlen Hbp]. unfold Put. destruct (exact_bucket _ _ _) as [i|] eqn:Hi; [|done].
  apply exact_bucket_some in Hi as [_ Hs]. rewrite Nat.sub_0_r in Hs. split; cbn.
  - by rewrite length_alter.
  - intros j free s Hj Hsj. destruct (decide (j = i)) as [->|].
    + rewrite list_lookup_alter_eq in Hj. destruct (pools bp !! i) as [fr|] eqn:Hfr; [|done].
      cbn in Hj. simplify_eq. constructor; [done|]. by eapply Hbp.
    + rewrite list_lookup_alter_ne in Hj by done. by eapply Hbp.
Qed.

Lemma NewBufferPool_ok reuse startSize cnt bp :
  NewBufferPool reuse startSize cnt = Ok bp → pool_ok bp.
Proof.
  unfold NewBufferPool. destruct (go_index _ _); try done. intros [= <-].
  assert (Hlen : ∀ i, length (bucket_sizes startSize i cnt) = cnt).
  { induction cnt as [|n IH]; intros i; cbn; [done|]. by rewrite IH. }
  split; cbn.
  - by rewrite length_replicate, Hlen.
  - intros i free s Hi _. apply lookup_replicate in Hi as [-> _]. constructor.
Qed.

Lemma Get_negative bp s ss n : sizes bp = s :: ss → n < 0 → n ≤ s → (Get bp n).1 = Panic.
Proof.
  intros Hss Hn Hns. unfold Get. rewrite Hss. cbn. destruct (Z.leb_spec n s); [|lia].
  assert (Hneg : ∀ a, reslice a n = Panic).
  { intros a. unfold reslice. by destruct (Z.leb_spec 0 n); [lia|]. }
  destruct (pools bp !! 0%nat) as [[|a free]|]; [by rewrite Hneg| |by rewrite Hneg].
  destruct (reuse bp (gets bp)); by rewrite Hneg.
Qed.

(** For every state of the pool and whatever buffers it hands out again,
    [Get] returns a buffer of the size asked for, [Get] and [Put] keep the
    arrays of a bucket at the size of the bucket, and [Get] panics on a
    negative size when the pool has a bucket. *)
Theorem BufferPool_correct bp size b :
  pool_ok bp → 0 ≤ size ≤ maxAlloc →
  (∃ r bp', Get bp size = (Ok r, bp') ∧ blen r = size ∧ zlen (data r) = size ∧ pool_ok bp') ∧
  pool_ok (Put bp b) ∧
  (∀ s ss n, sizes bp = s :: ss → n < 0 → n ≤ s → (Get bp n).1 = Panic).
Proof.
  intros Hbp Hsize. split_and!.
  - destruct (Get_ok bp size Hbp Hsize) as (r&bp'&Hg&Hl&Hc&Hok).
    exists r, bp'. split_and!; [done..| |done]. unfold data, zlen, cap in *.
    rewrite length_take. unfold zlen in Hc. lia.
  - by apply Put_ok.
  - intros s ss n. apply Get_negative.
Qed.

(** ** Reading fields *)

(** The reader is at [rest], the last part of its source. *)
Definition at_rest (r : Reader) (rest : bytes) : Prop :=
  0 ≤ off r ≤ zlen (src r) ∧ zlen (src r) < 2 ^ 62 ∧ drop (Z.to_nat (off r)) (src r) = rest.

Lemma at_rest_start b : zlen b < 2 ^ 62 → at_rest (NewReader b) b.
Proof.
  intros Hb. unfold at_rest. cbn. pose proof (zlen_nonneg b). split_and!; try lia. done.
Qed.

Lemma at_rest_app r a rest :
  at_rest r (a ++ rest) → at_rest (mkReader (src r) (off r + zlen a)) rest.
Proof.
  intros (Ho&Hl&Hd). unfold at_rest. cbn. pose proof (zlen_nonneg a).
  assert (Hlen : zlen (drop (Z.to_nat (off r)) (src r)) = zlen a + zlen rest)
    by (by rewrite Hd, zlen_app).
  unfold zlen in Hlen at 1. rewrite length_drop in Hlen.
  pose proof (zlen_nonneg rest). split_and!; [lia|unfold zlen in *; lia|done|].
  replace (Z.to_nat (off r + zlen a)) with (Z.to_nat (off r) + length a)%nat
    by (unfold zlen; lia).
  rewrite <- drop_drop, Hd, drop_app_length. done.
Qed.

Lemma at_rest_length r rest : at_rest r rest → off r + zlen rest = zlen (src r).
Proof.
  intros (Ho&_&<-). unfold zlen in *. rewrite length_drop. lia.
Qed.

Lemma Read_some r b a rest :
  at_rest r (a ++ rest) → a ≠ [] → blen b = zlen a → zlen a ≤ cap b →
  ∃ b' r', Read r b = (Ok (b', zlen a), r') ∧ data b' = a ∧ at_rest r' rest.
Proof.
  intros Hr Hne Hb Hc. pose proof (at_rest_app _ _ _ Hr) as Hr'.
  pose proof (at_rest_length _ _ Hr) as Hlen. destruct Hr as (_&_&Hd).
  rewrite zlen_app in Hlen. pose proof (zlen_nonneg rest).
  assert (0 < zlen a) by (destruct a; [done|rewrite zlen_cons; pose proof (zlen_nonneg a); lia]).
  unfold Read. destruct (Z.leb_spec (zlen (src r)) (off r)); [lia|]. rewrite Hd.
  unfold copy_to. rewrite Hb, zlen_app, Z.min_l by lia.
  eexists _, _. split; [done|]. split; [|done]. unfold data. cbn.
  replace (Z.to_nat (blen b)) with (length a) by (unfold zlen in *; lia).
  replace (Z.to_nat (zlen a)) with (length a) by (unfold zlen; lia).
  by rewrite take_app_length, take_app_length.
Qed.

Lemma Read_eof r b : at_rest r [] → Read r b = (Err EEOF, r).
Proof.
  intros Hr. pose proof (at_rest_length _ _ Hr) as Hlen. rewrite zlen_nil in Hlen.
  unfold Read. by destruct (Z.leb_spec (zlen (src r)) (off r)); [|lia].
Qed.

Section fields.
Context {C : Type} `{WireLaws}.
Implicit Types st : ScanState C.

(** [st'] is [st] with the reader at [rest]; the client has not been called. *)
Definition now_at st st' (rest : bytes) : Prop :=
  at_rest (rd st') rest ∧ pool_ok (pool st') ∧ client st' = client st.

(** [m] returns [a] and leaves the reader at [rest]. *)
Definition yields {A} (m : ScanM A) st (r : gores A) (rest : bytes) : Prop :=
  ∃ st', m st = (r, st') ∧ now_at st st' rest.

Lemma yields_bind {A B} (m : ScanM A) (k : A → ScanM B) st a rest r rest' :
  yields m st (Ok a) rest →
  (∀ st', now_at st st' rest → yields (k a) st' r rest') →
  yields (sbind m k) st r rest'.
Proof.
  intros (st1&Hm&Hst1) Hk. destruct (Hk st1 Hst1) as (st2&Hst2&Ha&Hp&Hc).
  exists st2. unfold sbind. rewrite Hm. split; [done|]. split_and!; [done..|].
  destruct Hst1 as (_&_&?). congruence.
Qed.

Lemma yields_ret {A} (a : A) st rest :
  at_rest (rd st) rest → pool_ok (pool st) → yields (sret a) st (Ok a) rest.
Proof. intros. exists st. by split. Qed.

Lemma yields_join {A} s (m : ScanM A) st a rest :
  yields m st (Ok a) rest → yields (joinM s m) st (Ok a) rest.
Proof. intros (st'&Hm&?). exists st'. unfold joinM. by rewrite Hm. Qed.

Lemma yields_try {A} (m : ScanM A) st a rest :
  yields m st (Ok a) rest → yields (try_ m) st (Ok (inr a)) rest.
Proof. intros (st'&Hm&?). exists st'. unfold try_. by rewrite Hm. Qed.

Lemma yields_get st size rest :
  at_rest (rd st) rest → pool_ok (pool st) → 0 ≤ size ≤ maxAlloc →
  ∃ b, blen b = size ∧ size ≤ cap b ∧ yields (pool_get size) st (Ok b) rest.
Proof.
  intros Hr Hp Hs. destruct (Get_ok (pool st) size Hp Hs) as (b&bp&Hg&Hl&Hc&Hok).
  exists b. split_and!; [done..|]. exists (mkScanState (rd st) bp (client st)).
  unfold pool_get. by rewrite Hg.
Qed.

Lemma yields_put b st rest :
  at_rest (rd st) rest → pool_ok (pool st) → yields (pool_put b) st (Ok tt) rest.
Proof.
  intros Hr Hp. eexists. split; [done|]. split_and!; [done|by apply Put_ok|done].
Qed.

Lemma yields_then_put {A} b (m : ScanM A) st r rest :
  yields m st r rest → yields (then_put b m) st r rest.
Proof.
  intros (st'&Hm&Ha&Hp&Hc). unfold yields, then_put. rewrite Hm. eexists. split; [done|].
  split_and!; [done|by apply Put_ok|done].
Qed.

Lemma yields_or_put {A} b (m : ScanM A) st (a : A) rest :
  yields m st (Ok a) rest → yields (or_put b m) st (Ok a) rest.
Proof. intros (st'&Hm&?). exists st'. unfold or_put. by rewrite Hm. Qed.

Lemma yields_read b st a rest :
  at_rest (rd st) (a ++ rest) → pool_ok (pool st) → a ≠ [] → blen b = zlen a → zlen a ≤ cap b →
  ∃ b', data b' = a ∧ yields (read b) st (Ok (b', zlen a)) rest.
Proof.
  intros Hr Hp Hne Hb Hc. destruct (Read_some (rd st) b a rest Hr Hne Hb Hc) as (b'&r'&Hrd&Hd&Hr').
  exists b'. split; [done|]. exists (mkScanState r' (pool st) (client st)).
  unfold read. by rewrite Hrd.
Qed.

(** A tag of a field with a length. *)
Lemma yields_meta st num rest :
  at_rest (rd st) (tag num :: rest) → pool_ok (pool st) → 1 ≤ num ≤ 15 →
  yields consumeBytesFieldMeta st (Ok (num, BytesType)) rest.
Proof.
  intros Hr Hp Hnum. destruct (yields_get st 1 _ Hr Hp) as (b&Hb&Hc&Hg); [unfold maxAlloc; lia|].
  eapply yields_bind; [done|]. intros st1 (Hr1&Hp1&_). apply yields_then_put.
  destruct (yields_read b st1 [tag num] rest Hr1 Hp1) as (b'&Hd&Hread); [done..|].
  eapply yields_bind; [by apply yields_try|]. intros st2 (Hr2&Hp2&_). cbn.
  rewrite Hd, ConsumeTag_bytes by done. cbn. by apply yields_ret.
Qed.

Lemma meta_eof st :
  at_rest (rd st) [] → pool_ok (pool st) → yields consumeBytesFieldMeta st (Err EEOF) [].
Proof.
  intros Hr Hp. destruct (yields_get st 1 _ Hr Hp) as (b&Hb&Hc&Hg); [unfold maxAlloc; lia|].
  eapply yields_bind; [done|]. intros st1 (Hr1&Hp1&_). apply yields_then_put.
  exists st1. unfold sbind, try_, read. rewrite Read_eof by done. by destruct st1.
Qed.

Definition push (buf : Buf) (x : Z) : Buf :=
  mkBuf (<[Z.to_nat (blen buf) := x]> (arr buf)) (blen buf + 1).

Lemma data_push buf x :
  0 ≤ blen buf < cap buf → data (push buf x) = data buf ++ [x] ∧ cap (push buf x) = cap buf.
Proof.
  intros Hb. unfold data, push, cap in *. cbn. unfold zlen in *. split.
  - replace (Z.to_nat (blen buf + 1)) with (S (Z.to_nat (blen buf))) by lia.
    rewrite (take_S_r _ _ x) by (apply list_lookup_insert_eq; lia).
    by rewrite take_insert_ge by lia.
  - by rewrite length_insert.
Qed.

(** One round of the loop that reads the byte [x]. *)
Lemma readVarint_round st x rest n buf r rest' :
  at_rest (rd st) (x :: rest) → pool_ok (pool st) →
  (∀ st', now_at st st' rest →
    yields (if x <=? 127 then sret (push buf x) else readVarint_loop n (push buf x)) st' r rest') →
  yields (readVarint_loop (S n) buf) st r rest'.
Proof.
  intros Hr Hp Hk. cbn [readVarint_loop].
  destruct (yields_read (mkBuf [0] 1) st [x] rest Hr Hp) as (b'&Hd&Hread); [done..|].
  eapply yields_bind; [by apply yields_join|]. intros st1 Hst1. cbn.
  rewrite Hd. cbn. unfold sbind, lift_res. by apply Hk.
Qed.

Lemma data_pushes buf l :
  0 ≤ blen buf → blen buf + zlen l ≤ cap buf → data (foldl push buf l) = data buf ++ l.
Proof.
  revert buf. induction l as [|x l IH]; intros buf Hb Hc; cbn; [by rewrite app_nil_r|].
  rewrite zlen_cons in Hc. pose proof (zlen_nonneg l).
  destruct (data_push buf x) as [Hd Hcap]; [lia|].
  rewrite IH; [by rewrite Hd, <- app_assoc|cbn; lia|rewrite Hcap; cbn; lia].
Qed.

Lemma readVarint_loop_spec st init b rest n buf :
  at_rest (rd st) (init ++ b :: rest) → pool_ok (pool st) →
  Forall (λ x, 128 ≤ x ≤ 255) init → 0 ≤ b ≤ 127 → (length init < n)%nat →
  yields (readVarint_loop n buf) st (Ok (foldl push buf (init ++ [b]))) rest.
Proof.
  intros Hr Hp Hinit. revert st n buf Hr Hp.
  induction Hinit as [|x init Hx _ IH]; intros st n buf Hr Hp Hb Hn;
    destruct n as [|n]; cbn in Hn; try lia.
  - apply (readVarint_round st b rest); [done..|]. intros st1 (Hr1&Hp1&_).
    destruct (Z.leb_spec b 127); [|lia]. by apply yields_ret.
  - apply (readVarint_round st x (init ++ b :: rest)); [done..|]. intros st1 (Hr1&Hp1&_).
    destruct (Z.leb_spec x 127); [lia|]. apply (IH st1 n (push buf x)); [done..|lia].
Qed.

(** A length, in a buffer of the pool. *)
Lemma yields_length st v rest :
  at_rest (rd st) (varint v ++ rest) → pool_ok (pool st) → 0 ≤ v < 2 ^ 64 →
  yields read_length st (Ok v) rest.
Proof.
  intros Hr Hp Hv.
  destruct (yields_get st maxVarintBytes _ Hr Hp) as (b&Hb&Hc&Hg);
    [unfold maxAlloc, maxVarintBytes; lia|].
  eapply yields_bind; [done|]. intros st1 (Hr1&Hp1&_). apply yields_join.
  destruct (varint_ends v Hv) as (init&x&Hvar&Hx&Hinit&Hlen).
  set (buf := foldl push (mkBuf (arr b) 0) (init ++ [x])).
  assert (Hbuf : data buf = varint v).
  { unfold buf. rewrite data_pushes; [by rewrite Hvar|cbn; lia|].
    unfold maxVarintBytes, cap, zlen in *. cbn. rewrite length_app. cbn. lia. }
  assert (Hrv : yields (readVarint (mkBuf (arr b) 0)) st1 (Ok (buf, v)) rest).
  { unfold readVarint. eapply yields_bind.
    - apply (readVarint_loop_spec st1 init x rest); [|done..|].
      + by rewrite Hvar, <- app_assoc in Hr1.
      + unfold cap, maxVarintBytes, zlen in *. cbn in *. lia.
    - intros st2 (Hr2&Hp2&_). fold buf. rewrite Hbuf, ConsumeVarint_varint by done.
      pose proof (zlen_nonneg (varint v)). destruct (Z.ltb_spec (zlen (varint v)) 0); [lia|].
      by apply yields_ret. }
  eapply yields_bind; [by apply yields_try|]. intros st2 (Hr2&Hp2&_). cbn.
  eapply yields_bind; [by apply yields_put|]. intros st3 (Hr3&Hp3&_). by apply yields_ret.
Qed.

Lemma yields_skip st p rest :
  at_rest (rd st) (varint (zlen p) ++ p ++ rest) → pool_ok (pool st) →
  yields skipField st (Ok tt) rest.
Proof.
  intros Hr Hp. pose proof (zlen_nonneg p).
  assert (Hlen : zlen p < 2 ^ 62).
  { pose proof (at_rest_length _ _ Hr) as Hl. rewrite !zlen_app in Hl.
    destruct Hr as (?&?&_). pose proof (zlen_nonneg (varint (zlen p))).
    pose proof (zlen_nonneg rest). lia. }
  eapply yields_bind; [apply yields_length; [done..|lia]|]. intros st1 (Hr1&Hp1&_).
  eapply yields_bind; [|intros st2 (Hr2&Hp2&_); by apply yields_ret].
  apply yields_join. pose proof (at_rest_app _ _ _ Hr1) as Hr2.
  pose proof (at_rest_length _ _ Hr1) as Hl. rewrite zlen_app in Hl.
  destruct Hr1 as (Ho&Hs&_). pose proof (zlen_nonneg rest).
  unfold yields, seek, Seek. rewrite (int64_small (zlen p)) by lia. rewrite int64_small by lia.
  destruct (Z.ltb_spec (off (rd st1) + zlen p) 0); [lia|].
  eexists. split; [done|]. by split.
Qed.

(** The data of a field, in a buffer of the pool. *)
Lemma yields_data st p rest :
  at_rest (rd st) (varint (zlen p) ++ p ++ rest) → pool_ok (pool st) → zlen p ≤ maxAlloc →
  ∃ st1 st2 b b', consumeLen BytesType st = (Ok (zlen p), st1) ∧
    pool_get (zlen p) st1 = (Ok b, st2) ∧
    data b' = p ∧ yields (consumeFieldData (zlen p) b) st2 (Ok b') rest ∧
    client st2 = client st.
Proof.
  intros Hr Hp Hlen. pose proof (zlen_nonneg p).
  assert (Hc : yields (consumeLen BytesType) st (Ok (zlen p)) (p ++ rest)).
  { unfold consumeLen. cbn.
    eapply yields_bind; [apply yields_length; [done..|unfold maxAlloc in *; lia]|].
    intros st1 (Hr1&Hp1&_). rewrite int64_small by (unfold maxAlloc in *; lia).
    by apply yields_ret. }
  destruct Hc as (st1&Hc&Hr1&Hp1&Hcl1).
  destruct (yields_get st1 (zlen p) _ Hr1 Hp1) as (b&Hb&Hcap&st2&Hg&Hr2&Hp2&Hcl2); [lia|].
  exists st1, st2, b. unfold consumeFieldData.
  destruct (Z.ltb_spec 0 (zlen p)) as [Hpos|Hneg].
  - destruct (yields_read b st2 p rest Hr2 Hp2) as (b'&Hd&Hread); [|done..|].
    { intros ->. unfold zlen in Hpos; cbn in Hpos; lia. }
    exists b'. split_and!; [done..| |congruence].
    eapply yields_bind; [by apply yields_join|]. intros st3 (Hr3&Hp3&_). cbn.
    rewrite Z.eqb_refl. by apply yields_ret.
  - assert (p = []) as -> by (destruct p; [done|rewrite zlen_cons in *; pose proof (zlen_nonneg p); lia]).
    exists b. split_and!; [done..| | |congruence].
    + unfold data. by rewrite Hb.
    + by apply yields_ret.
Qed.

(** ** The first field of a number *)

Definition skippable (want : Z) (f : Z * bytes) : Prop := 1 ≤ f.1 ≤ 15 ∧ f.1 ≠ want.

(** What the parsers of paths and symbols look for in a message: the data of
    the first field [want].  Before it only fields with a length; what comes
    after it does not matter. *)
Inductive first_field (want : Z) : bytes → option bytes → Prop :=
  | first_field_found pre p rest :
    Forall (skippable want) pre →
    first_field want (enc_fields pre ++ enc_field want p ++ rest) (Some p)
  | first_field_none pre :
    Forall (skippable want) pre → first_field want (enc_fields pre) None.

Lemma zlen_varint_pos v : 1 ≤ zlen (varint v).
Proof.
  unfold varint. cbn [varint_loop]. destruct (v <? 128); rewrite zlen_cons;
    pose proof (zlen_nonneg (@nil Z)); [lia|]. unfold zlen. lia.
Qed.

Lemma zlen_enc_field num p : 2 + zlen p ≤ zlen (enc_field num p).
Proof.
  unfold enc_field. rewrite zlen_cons, zlen_app. pose proof (zlen_varint_pos (zlen p)). lia.
Qed.

Lemma enc_fields_cons f fs : enc_fields (f :: fs) = enc_field f.1 f.2 ++ enc_fields fs.
Proof. done. Qed.

(** Skips one field of the loop. *)
Lemma find_field_skip fuel want flag st f rest :
  at_rest (rd st) (enc_field f.1 f.2 ++ rest) → pool_ok (pool st) → skippable want f →
  ∃ st', now_at st st' rest ∧ find_field (S fuel) want flag st = find_field fuel want flag st'.
Proof.
  intros Hr Hp [Hnum Hne]. destruct f as [num p]. cbn in *.
  destruct (yields_meta st num (varint (zlen p) ++ p ++ rest)) as (st1&Hm&Hr1&Hp1&Hc1);
    [by rewrite <- app_assoc in Hr|done..|].
  destruct (yields_join "failed to skip" _ _ _ _ (yields_skip st1 p rest Hr1 Hp1))
    as (st2&Hs&Hr2&Hp2&Hc2).
  exists st2. split; [split_and!; [done..|congruence]|].
  rewrite (sbind_try_ok _ _ _ _ _ Hm). cbn.
  destruct (Z.eqb_spec num want); [done|]. cbn. by rewrite (sbind_ok _ _ _ _ _ Hs).
Qed.

Lemma find_field_pre fuel want flag st pre rest :
  at_rest (rd st) (enc_fields pre ++ rest) → pool_ok (pool st) → Forall (skippable want) pre →
  zlen (enc_fields pre ++ rest) < Z.of_nat fuel →
  ∃ fuel' st', now_at st st' rest ∧ zlen rest < Z.of_nat fuel' ∧
    find_field fuel want flag st = find_field fuel' want flag st'.
Proof.
  intros Hr Hp Hpre. revert fuel st Hr Hp.
  induction Hpre as [|f pre Hf _ IH]; intros fuel st Hr Hp Hfuel.
  { by exists fuel, st. }
  rewrite enc_fields_cons, <- app_assoc in *. rewrite zlen_app in Hfuel.
  pose proof (zlen_enc_field f.1 f.2). pose proof (zlen_nonneg f.2).
  pose proof (zlen_nonneg (enc_fields pre ++ rest)).
  destruct fuel as [|fuel]; [lia|].
  destruct (find_field_skip fuel want flag st f _ Hr Hp Hf) as (st1&(Hr1&Hp1&Hc1)&->).
  destruct (IH fuel st1 Hr1 Hp1) as (fuel'&st'&(Hr'&Hp'&Hc')&Hfuel'&->); [lia|].
  exists fuel', st'. split_and!; [|done|done]. split_and!; [done..|congruence].
Qed.

Lemma find_field_spec fuel want flag st payload r :
  1 ≤ want ≤ 15 → first_field want payload r → at_rest (rd st) payload → pool_ok (pool st) →
  zlen payload < Z.of_nat fuel → zlen payload ≤ maxAlloc →
  ∃ st' ob, find_field fuel want flag st = (Ok ob, st') ∧ data <$> ob = r ∧
    pool_ok (pool st') ∧ client st' = client st.
Proof.
  intros Hw Hff Hr Hp Hfuel Hmax. destruct Hff as [pre p rest Hpre|pre Hpre].
  - destruct (find_field_pre fuel want flag st pre _ Hr Hp Hpre Hfuel)
      as (fuel'&st1&(Hr1&Hp1&Hc1)&Hfuel'&->).
    rewrite !zlen_app in *. pose proof (zlen_enc_field want p). pose proof (zlen_nonneg p).
    pose proof (zlen_nonneg rest). pose proof (zlen_nonneg (enc_fields pre)).
    destruct fuel' as [|fuel']; [lia|]. unfold enc_field in Hr1. cbn [app] in Hr1.
    rewrite <- app_assoc in Hr1.
    destruct (yields_meta st1 want _ Hr1 Hp1 Hw) as (st2&Hm&Hr2&Hp2&Hc2).
    destruct (yields_data st2 p rest Hr2 Hp2) as (st3&st4&b&b'&Hl&Hg&Hd&Hy&Hc4); [lia|].
    assert (Hy' : yields ((if flag then or_put b else id) (consumeFieldData (zlen p) b)) st4 (Ok b') rest).
    { destruct flag; [by apply yields_or_put|done]. }
    destruct (yields_join "failed to consume data" _ _ _ _ Hy') as (st5&Hcd&Hr5&Hp5&Hc5).
    exists st5, (Some b'). split_and!; [|by rewrite <- Hd|done|congruence].
    cbn [find_field]. rewrite (sbind_try_ok _ _ _ _ _ Hm). cbv beta iota.
    rewrite Z.eqb_refl. cbn [negb]. erewrite sbind_ok; [|unfold joinM; by rewrite Hl].
    rewrite (sbind_ok _ _ _ _ _ Hg). by rewrite (sbind_ok _ _ _ _ _ Hcd).
  - rewrite <- (app_nil_r (enc_fields pre)) in Hr, Hfuel.
    destruct (find_field_pre fuel want flag st pre [] Hr Hp Hpre Hfuel)
      as (fuel'&st1&(Hr1&Hp1&Hc1)&Hfuel'&->).
    destruct fuel' as [|fuel']; [unfold zlen in Hfuel'; cbn in Hfuel'; lia|].
    destruct (meta_eof st1 Hr1 Hp1) as (st2&Hm&_&Hp2&Hc2).
    exists st2, None. cbn [find_field]. rewrite (sbind_try_err _ _ _ _ _ Hm).
    split_and!; [done..|congruence].
Qed.
End fields.

(** ** The calls that an index asks for *)

(** A field of a document: a symbol or an occurrence with the name that its
    message holds, or another field. *)
Inductive doc_item :=
  | ItemSymbol (payload : bytes) (symbol : option bytes)
  | ItemOccurrence (payload : bytes) (symbol : option bytes)
  | ItemOther (num : Z) (payload : bytes).

Definition item_field (it : doc_item) : Z * bytes :=
  match it with
  | ItemSymbol p _ => (documentSymbolsFieldNumber, p)
  | ItemOccurrence p _ => (documentOccurrencesFieldNumber, p)
  | ItemOther num p => (num, p)
  end.

Definition item_ok (it : doc_item) : Prop :=
  match it with
  | ItemSymbol p s => first_field symbolInformationSymbolField p s
  | ItemOccurrence p s => first_field occurrenceSymbolField p s
  | ItemOther num _ => 1 ≤ num ≤ 15 ∧ num ≠ documentSymbolsFieldNumber ∧
                       num ≠ documentOccurrencesFieldNumber
  end.

(** A field of the index: a document with its path and its fields, or another
    field. *)
Inductive index_item :=
  | IndexDocument (path : option bytes) (items : list doc_item)
  | IndexOther (num : Z) (payload : bytes).

Definition doc_payload (items : list doc_item) : bytes := enc_fields (item_field <$> items).
Definition index_field (it : index_item) : Z * bytes :=
  match it with
  | IndexDocument _ items => (indexDocumentsFieldNumber, doc_payload items)
  | IndexOther num p => (num, p)
  end.
Definition index_ok (it : index_item) : Prop :=
  match it with
  | IndexDocument path items =>
    first_field documentRelativePathFieldNumber (doc_payload items) path ∧ Forall item_ok items
  | IndexOther num _ => 1 ≤ num ≤ 15 ∧ num ≠ indexDocumentsFieldNumber
  end.
(** The serialised index. *)
Definition enc_index (idx : list index_item) : bytes := enc_fields (index_field <$> idx).

Section calls.
Context {C : Type} `{Wire} (cb : Callbacks C).

Definition visit_if {A} (m : bool) (visit : option (A → GoM C unit)) (r : GoM C A) : GoM C unit :=
  match m, visit with
  | true, Some v => a <- r;; v a
  | _, _ => sret tt
  end.

Definition item_calls (path : string) (it : doc_item) : GoM C unit :=
  match it with
  | ItemSymbol p s =>
    match MatchSymbol cb with
    | None => sret tt
    | Some f =>
      m <- f (default [] s);;
      visit_if m (VisitSymbol cb ≫= λ v, Some (v path))
        (joinM "failed to read" (lift_res (UnmarshalSymbol p)))
    end
  | ItemOccurrence p s =>
    match MatchOccurrence cb with
    | None => sret tt
    | Some f =>
      m <- f (default [] s);;
      visit_if m (VisitOccurrence cb ≫= λ v, Some (v path))
        (joinM "failed to read" (lift_res (UnmarshalOccurrence p)))
    end
  | ItemOther _ _ => sret tt
  end.

Definition index_calls (it : index_item) : GoM C unit :=
  match it with
  | IndexOther _ _ => sret tt
  | IndexDocument path items =>
    let docPath := string_of_bytes (default [] path) in
    m <- (match MatchDocumentPath cb with Some f => f docPath | None => sret false end);;
    visit_if m (VisitDocument cb)
      (joinM "failed to read document" (lift_res (UnmarshalDocument (doc_payload items)))) ;;;
    joinM "failed to scan document" (forM_ items (item_calls docPath))
  end.

(** A field whose one-byte tag [t] says that it is not length-delimited: its tag
    and all that comes after it. *)
Definition foreign (t : Z) : Prop := 8 ≤ t < 128 ∧ t mod 8 ≠ BytesType.
Definition not_bytes : error := EJoin "failed to consume field" (EText "expected bytes type for field").

(** The end of a message: nothing, or such a field. *)
Definition tail_bytes (tl : option (Z * bytes)) : bytes :=
  match tl with None => [] | Some (t, rest) => t :: rest end.
Definition tail_ok (tl : option (Z * bytes)) : Prop :=
  match tl with None => True | Some (t, _) => foreign t end.
Definition tail_calls (tl : option (Z * bytes)) : GoM C unit :=
  match tl with None => sret tt | Some _ => throw not_bytes end.

(** A document with its fields and its end. *)
Definition document_calls (path : option bytes) (items : list doc_item) (tl : option (Z * bytes)) : GoM C unit :=
  let docPath := string_of_bytes (default [] path) in
  m <- (match MatchDocumentPath cb with Some f => f docPath | None => sret false end);;
  visit_if m (VisitDocument cb)
    (joinM "failed to read document" (lift_res (UnmarshalDocument (doc_payload items ++ tail_bytes tl)))) ;;;
  joinM "failed to scan document" (forM_ items (item_calls docPath) ;;; tail_calls tl).

(** The end of an index: nothing, a field that is not length-delimited, or a
    document that has one, with whatever follows. *)
Inductive ending :=
  | EndIndex
  | EndForeign (t : Z) (rest : bytes)
  | EndDocument (path : option bytes) (items : list doc_item) (t : Z) (rest more : bytes).
Definition ending_bytes (e : ending) : bytes :=
  match e with
  | EndIndex => []
  | EndForeign t rest => t :: rest
  | EndDocument _ items t rest more =>
    enc_field indexDocumentsFieldNumber (doc_payload items ++ t :: rest) ++ more
  end.
Definition ending_ok (e : ending) : Prop :=
  match e with
  | EndIndex => True
  | EndForeign t _ => foreign t
  | EndDocument path items t rest _ =>
    first_field documentRelativePathFieldNumber (doc_payload items ++ t :: rest) path ∧
    Forall item_ok items ∧ foreign t
  end.
Definition ending_calls (e : ending) : GoM C unit :=
  match e with
  | EndIndex => sret tt
  | EndForeign _ _ => throw not_bytes
  | EndDocument path items t rest _ => document_calls path items (Some (t, rest))
  end.
End calls.

(** ** The scanner makes those calls *)

Section scan.
Context {C : Type} `{WireLaws} (cb : Callbacks C).
Implicit Types st : ScanState C.

(** [m] returns what [am] returns on the client, leaves the client that [am]
    leaves, and, when it returns without an error, the reader at [rest]. *)
Definition follows {A} (m : ScanM A) st (am : GoM C A) (rest : bytes) : Prop :=
  ∃ st', m st = ((am (client st)).1, st') ∧ client st' = (am (client st)).2 ∧
    ∀ a, (am (client st)).1 = Ok a → at_rest (rd st') rest ∧ pool_ok (pool st').

Lemma follows_bind {A B} (m : ScanM A) (k : A → ScanM B) st am ak rest rest' :
  follows m st am rest →
  (∀ a st', at_rest (rd st') rest → pool_ok (pool st') → follows (k a) st' (ak a) rest') →
  follows (sbind m k) st (sbind am ak) rest'.
Proof.
  intros (st1&Hm&Hc1&Hok) Hk. unfold follows, sbind. rewrite Hm.
  destruct (am (client st)) as [[a|e| |] c]; cbn in *; [|by exists st1..].
  destruct (Hok a eq_refl) as [Hr Hp]. destruct (Hk a st1 Hr Hp) as (st2&Hst2&Hc2&Hok2).
  rewrite Hc1 in *. by exists st2.
Qed.

Lemma follows_yields {A B} (m : ScanM A) (k : A → ScanM B) st a am rest rest' :
  yields m st (Ok a) rest →
  (∀ st', at_rest (rd st') rest → pool_ok (pool st') → follows (k a) st' am rest') →
  follows (sbind m k) st am rest'.
Proof.
  intros (st1&Hm&Hr&Hp&Hc) Hk. destruct (Hk st1 Hr Hp) as (st2&Hst2&Hc2&Hok2).
  unfold follows, sbind. rewrite Hm. rewrite Hc in *. by exists st2.
Qed.

Lemma follows_ext {A} (m : ScanM A) st am am' rest :
  (∀ c, am c = am' c) → follows m st am rest → follows m st am' rest.
Proof. intros He. unfold follows. by rewrite He. Qed.

Lemma follows_throw {A} e st rest : follows (A := A) (throw e) st (throw e) rest.
Proof. by exists st. Qed.

Lemma follows_ret {A} (a : A) st rest :
  at_rest (rd st) rest → pool_ok (pool st) → follows (sret a) st (sret a) rest.
Proof. intros. by exists st. Qed.

Lemma follows_call {A} (m : GoM C A) st rest :
  at_rest (rd st) rest → pool_ok (pool st) → follows (call m) st m rest.
Proof.
  intros Hr Hp. unfold follows, call. destruct (m (client st)) as [r c].
  eexists. split; [done|]. by split.
Qed.

Lemma follows_lift {A} (r : gores A) st rest :
  at_rest (rd st) rest → pool_ok (pool st) → follows (lift_res r) st (lift_res r) rest.
Proof. intros Hr Hp. exists st. by split_and!. Qed.

Lemma follows_join {A} s (m : ScanM A) st am rest :
  follows m st am rest → follows (joinM s m) st (joinM s am) rest.
Proof.
  intros (st1&Hm&Hc&Hok). unfold follows, joinM. rewrite Hm.
  destruct (am (client st)) as [r c]. cbn in *. exists st1. split_and!; [done..|].
  intros a Ha. apply (Hok a). by destruct r.
Qed.

Lemma follows_or_put {A} b (m : ScanM A) st am rest :
  follows m st am rest → follows (or_put b m) st am rest.
Proof.
  intros (st1&Hm&Hc&Hok). unfold follows, or_put. rewrite Hm.
  destruct (am (client st)) as [[a|e| |] c]; cbn in *; by eexists.
Qed.

(** [m] on a reader of its own. *)
Lemma follows_with_reader {A} b (m : ScanM A) st am rest :
  at_rest (rd st) rest → pool_ok (pool st) → zlen b < 2 ^ 62 →
  (∀ st', at_rest (rd st') b → pool_ok (pool st') → follows m st' am []) →
  follows (with_reader b m) st am rest.
Proof.
  intros Hr Hp Hb Hm.
  destruct (Hm (mkScanState (NewReader b) (pool st) (client st))) as (st1&Hst1&Hc1&Hok1);
    [by apply at_rest_start|done|].
  unfold follows, with_reader. cbn [client] in *. rewrite Hst1. eexists. split; [done|].
  split; [done|]. intros a Ha. split; [done|]. by apply (Hok1 a).
Qed.

(** The parsers of symbols and of paths on a message with its own reader. *)
Lemma yields_parse fuel want flag payload r st rest :
  at_rest (rd st) rest → pool_ok (pool st) → 1 ≤ want ≤ 15 → first_field want payload r →
  zlen payload < Z.of_nat fuel → zlen payload ≤ maxAlloc →
  ∃ ob, data <$> ob = r ∧ yields (with_reader payload (find_field fuel want flag)) st (Ok ob) rest.
Proof.
  intros Hr Hp Hw Hff Hfuel Hmax.
  destruct (find_field_spec fuel want flag (mkScanState (NewReader payload) (pool st) (client st))
    payload r) as (st1&ob&Hf&Hd&Hp1&Hc1); [done..| |done|done|done|].
  { apply at_rest_start. unfold maxAlloc in Hmax. lia. }
  exists ob. split; [done|]. unfold yields, with_reader. rewrite Hf. eexists. split; [done|].
  by split_and!.
Qed.

Lemma yields_symbol fuel want payload r st rest :
  at_rest (rd st) rest → pool_ok (pool st) → 1 ≤ want ≤ 15 → first_field want payload r →
  zlen payload < Z.of_nat fuel → zlen payload ≤ maxAlloc →
  ∃ b, data b = default [] r ∧
    yields (with_reader payload (r <- find_field fuel want false;; sret (default nil_buf r)))
      st (Ok b) rest.
Proof.
  intros Hr Hp Hw Hff Hfuel Hmax.
  destruct (yields_parse fuel want false payload r st rest Hr Hp Hw Hff Hfuel Hmax)
    as (ob&Hd&st1&Hst1&Hnow).
  exists (default nil_buf ob). split; [by subst r; destruct ob|].
  exists st1. split; [|done]. revert Hst1. unfold with_reader, sbind.
  destruct (find_field _ _ _ _) as [[o| | |] st2]; intros [= <- <-]; done.
Qed.

Lemma yields_path fuel payload r st rest :
  at_rest (rd st) rest → pool_ok (pool st) → first_field documentRelativePathFieldNumber payload r →
  zlen payload < Z.of_nat fuel → zlen payload ≤ maxAlloc →
  yields (parseDocumentPath fuel payload) st (Ok (string_of_bytes (default [] r))) rest.
Proof.
  intros Hr Hp Hff Hfuel Hmax.
  destruct (yields_parse fuel documentRelativePathFieldNumber true payload r st rest Hr Hp)
    as (ob&Hd&st1&Hst1&Hnow); [by unfold documentRelativePathFieldNumber|done..|].
  revert Hst1. unfold parseDocumentPath, with_reader, yields, sbind.
  destruct (find_field _ _ _ _) as [[o| | |] st2]; intros [= -> <-].
  destruct Hnow as (Hr1&Hp1&Hc1). subst r. destruct ob as [dataBuf|]; cbn; eexists;
    (split; [done|split_and!; [done|by try apply Put_ok|done]]).
Qed.

(** A symbol and an occurrence of a document. *)
Lemma follows_scan_symbol fuel path b s st rest f :
  at_rest (rd st) rest → pool_ok (pool st) → MatchSymbol cb = Some f →
  first_field symbolInformationSymbolField (data b) s →
  zlen (data b) < Z.of_nat fuel → zlen (data b) ≤ maxAlloc →
  follows (scan_symbol cb fuel path b) st (item_calls cb path (ItemSymbol (data b) s)) rest.
Proof.
  intros Hr Hp Hf Hff Hfuel Hmax. unfold scan_symbol. cbn [item_calls]. rewrite Hf.
  destruct (yields_symbol fuel symbolInformationSymbolField (data b) s st rest Hr Hp)
    as (sy&Hsy&Hy); [by unfold symbolInformationSymbolField|done..|].
  eapply follows_yields; [apply yields_or_put, yields_join, Hy|]. intros st1 Hr1 Hp1.
  rewrite Hsy. eapply follows_bind; [by apply follows_call|]. intros m st2 Hr2 Hp2.
  eapply follows_yields; [by apply yields_put|]. intros st3 Hr3 Hp3.
  unfold visit_if. destruct m; [|by apply follows_ret].
  destruct (VisitSymbol cb) as [v|]; [|by apply follows_ret]. cbn.
  eapply follows_bind; [by apply follows_or_put, follows_join, follows_lift|].
  intros info st4 Hr4 Hp4. by apply follows_call.
Qed.

Lemma follows_scan_occurrence fuel path b s st rest f :
  at_rest (rd st) rest → pool_ok (pool st) → MatchOccurrence cb = Some f →
  first_field occurrenceSymbolField (data b) s →
  zlen (data b) < Z.of_nat fuel → zlen (data b) ≤ maxAlloc →
  follows (scan_occurrence cb fuel path b) st (item_calls cb path (ItemOccurrence (data b) s)) rest.
Proof.
  intros Hr Hp Hf Hff Hfuel Hmax. unfold scan_occurrence. cbn [item_calls]. rewrite Hf.
  destruct (yields_symbol fuel occurrenceSymbolField (data b) s st rest Hr Hp)
    as (sy&Hsy&Hy); [by unfold occurrenceSymbolField|done..|].
  eapply follows_yields; [apply yields_or_put, yields_join, Hy|]. intros st1 Hr1 Hp1.
  rewrite Hsy. eapply follows_bind; [by apply follows_call|]. intros m st2 Hr2 Hp2.
  eapply follows_yields; [by apply yields_put|]. intros st3 Hr3 Hp3.
  unfold visit_if. destruct m; [|by apply follows_ret].
  destruct (VisitOccurrence cb) as [v|]; [|by apply follows_ret]. cbn.
  eapply follows_bind; [by apply follows_or_put, follows_join, follows_lift|].
  intros info st4 Hr4 Hp4. by apply follows_call.
Qed.

(** Reading the data of a field, in the loops over documents and indices. *)
Lemma follows_field {B} (k : Buf → ScanM B) p st am rest rest' :
  at_rest (rd st) (varint (zlen p) ++ p ++ rest) → pool_ok (pool st) → zlen p ≤ maxAlloc →
  (∀ b st', data b = p → at_rest (rd st') rest → pool_ok (pool st') → follows (k b) st' am rest') →
  follows (dataLen <- joinM "failed to consume length" (consumeLen BytesType);;
           dataBuf <- pool_get dataLen;;
           dataBuf' <- or_put dataBuf (joinM "failed to consume data"
             (consumeFieldData dataLen dataBuf));;
           k dataBuf') st am rest'.
Proof.
  intros Hr Hp Hmax Hk.
  destruct (yields_data st p rest Hr Hp Hmax) as (st1&st2&b&b'&Hl&Hg&Hd&Hy&Hc).
  destruct (yields_or_put b _ _ _ _ (yields_join "failed to consume data" _ _ _ _ Hy))
    as (st3&Hst3&Hr3&Hp3&Hc3).
  destruct (Hk b' st3 Hd Hr3 Hp3) as (st4&Hst4&Hc4&Hok4). unfold follows.
  erewrite sbind_ok; [|unfold joinM; by rewrite Hl].
  rewrite (sbind_ok _ _ _ _ _ Hg), (sbind_ok _ _ _ _ _ Hst3).
  replace (client st) with (client st3) by congruence. by exists st4.
Qed.

(** The tag of a field, and a field that is skipped. *)
Lemma follows_meta {B} (k : error + (Z * Z) → ScanM B) num st am rest rest' :
  at_rest (rd st) (tag num :: rest) → pool_ok (pool st) → 1 ≤ num ≤ 15 →
  (∀ st', at_rest (rd st') rest → pool_ok (pool st') → follows (k (inr (num, BytesType))) st' am rest') →
  follows (m <- try_ consumeBytesFieldMeta;; k m) st am rest'.
Proof.
  intros Hr Hp Hnum Hk. eapply follows_yields; [|done]. by apply yields_try, yields_meta.
Qed.

Lemma follows_skip {B} (k : ScanM B) p st am rest rest' :
  at_rest (rd st) (varint (zlen p) ++ p ++ rest) → pool_ok (pool st) →
  (∀ st', at_rest (rd st') rest → pool_ok (pool st') → follows k st' am rest') →
  follows (joinM "failed to skip" skipField ;;; k) st am rest'.
Proof.
  intros Hr Hp Hk. eapply follows_yields; [by apply yields_join, (yields_skip st p rest)|done].
Qed.

Lemma follows_eof {B} (k : error + (Z * Z) → ScanM B) st am :
  at_rest (rd st) [] → pool_ok (pool st) →
  (∀ st', at_rest (rd st') [] → pool_ok (pool st') → follows (k (inl EEOF)) st' am []) →
  follows (m <- try_ consumeBytesFieldMeta;; k m) st am [].
Proof.
  intros Hr Hp Hk. destruct (meta_eof st Hr Hp) as (st1&Hm&Hr1&Hp1&Hc1).
  destruct (Hk st1 Hr1 Hp1) as (st2&?&?&?). unfold follows.
  rewrite (sbind_try_err _ _ _ _ _ Hm). rewrite Hc1 in *. by exists st2.
Qed.

Lemma item_num it : item_ok it → 1 ≤ (item_field it).1 ≤ 15.
Proof.
  destruct it; cbn; unfold documentSymbolsFieldNumber, documentOccurrencesFieldNumber; lia.
Qed.

(** A field is skipped exactly when it asks for no call. *)
Lemma item_skipped path it :
  item_ok it → shouldParseDocumentField cb (item_field it).1 = false →
  item_calls cb path it = sret tt.
Proof.
  unfold shouldParseDocumentField, documentSymbolsFieldNumber, documentOccurrencesFieldNumber.
  destruct it; cbn; intros Hok Hs; [| |done].
  - destruct (MatchSymbol cb); [|done]. by rewrite bool_decide_true in Hs by eauto.
  - destruct (MatchOccurrence cb); [|done]. by rewrite bool_decide_true in Hs by eauto.
Qed.

Lemma follows_item fuel path it b st rest :
  item_ok it → shouldParseDocumentField cb (item_field it).1 = true → data b = (item_field it).2 →
  at_rest (rd st) rest → pool_ok (pool st) →
  zlen (data b) < Z.of_nat fuel → zlen (data b) ≤ maxAlloc →
  follows (if (item_field it).1 =? documentSymbolsFieldNumber then scan_symbol cb fuel path b
           else if (item_field it).1 =? documentOccurrencesFieldNumber then
             scan_occurrence cb fuel path b
           else sret tt) st (item_calls cb path it) rest.
Proof.
  intros Hok Hs Hd Hr Hp Hfuel Hmax. destruct it as [p s|p s|num p]; cbn in Hd; subst.
  - unfold shouldParseDocumentField in Hs. cbn in Hs. apply bool_decide_eq_true in Hs as [f Hf].
    by eapply follows_scan_symbol.
  - unfold shouldParseDocumentField in Hs. cbn in Hs. apply bool_decide_eq_true in Hs as [f Hf].
    by eapply follows_scan_occurrence.
  - unfold shouldParseDocumentField in Hs. cbn in Hok, Hs |- *. destruct Hok as (_&H1&H2).
    destruct (Z.eqb_spec num documentSymbolsFieldNumber); [done|].
    by destruct (Z.eqb_spec num documentOccurrencesFieldNumber).
Qed.

(** A field that is not length-delimited. *)
Lemma meta_foreign st t rest :
  at_rest (rd st) (t :: rest) → pool_ok (pool st) → foreign t →
  yields consumeBytesFieldMeta st (Err (EText "expected bytes type for field")) rest.
Proof.
  intros Hr Hp [Ht Hty]. destruct (yields_get st 1 _ Hr Hp) as (b&Hb&Hc&Hg); [unfold maxAlloc; lia|].
  eapply yields_bind; [done|]. intros st1 (Hr1&Hp1&_). apply yields_then_put.
  destruct (yields_read b st1 [t] rest Hr1 Hp1) as (b'&Hd&Hread); [done..|].
  eapply yields_bind; [by apply yields_try|]. intros st2 (Hr2&Hp2&_). cbn.
  rewrite Hd, ConsumeTag_byte by done. cbn. destruct (Z.eqb_spec (t mod 8) BytesType); [done|].
  by exists st2.
Qed.

Lemma follows_foreign {B} (k : error + (Z * Z) → ScanM B) t rest st rest' :
  at_rest (rd st) (t :: rest) → pool_ok (pool st) → foreign t →
  k (inl (EText "expected bytes type for field")) = throw not_bytes →
  follows (m <- try_ consumeBytesFieldMeta;; k m) st (throw not_bytes) rest'.
Proof.
  intros Hr Hp Ht Hk. destruct (meta_foreign st t rest Hr Hp Ht) as (st1&Hm&_&_&Hc1).
  unfold follows. rewrite (sbind_try_err _ _ _ _ _ Hm), Hk. by exists st1.
Qed.

Lemma follows_document_end tl fuel path st :
  at_rest (rd st) (tail_bytes tl) → pool_ok (pool st) → tail_ok tl →
  follows (ScanDocumentReader cb (S fuel) path) st (tail_calls tl) [].
Proof.
  intros Hr Hp Hok. cbn [ScanDocumentReader]. destruct tl as [[t rest]|]; cbn [tail_bytes tail_calls] in *.
  - by eapply follows_foreign.
  - apply follows_eof; [done..|]. intros st1 Hr1 Hp1. by apply follows_ret.
Qed.

Lemma then_assoc {A} (m m' : GoM C unit) (k : GoM C A) c :
  (m ;;; (m' ;;; k)) c = ((m ;;; m') ;;; k) c.
Proof. unfold sbind. by destruct (m c) as [[]]. Qed.
Lemma then_ret (m : GoM C unit) c : (m ;;; sret tt) c = m c.
Proof. unfold sbind. by destruct (m c) as [[[]| | |]]. Qed.

Lemma bind_ext {A B} (m : GoM C A) (k k' : A → GoM C B) c :
  (∀ a c', k a c' = k' a c') → sbind m k c = sbind m k' c.
Proof. intros He. unfold sbind. by destruct (m c) as [[]]. Qed.

Lemma follows_ScanDocumentReader items tl fuel path st :
  Forall item_ok items → tail_ok tl → at_rest (rd st) (doc_payload items ++ tail_bytes tl) → pool_ok (pool st) →
  zlen (doc_payload items ++ tail_bytes tl) < Z.of_nat fuel → zlen (doc_payload items ++ tail_bytes tl) ≤ maxAlloc →
  follows (ScanDocumentReader cb fuel path) st (forM_ items (item_calls cb path) ;;; tail_calls tl) [].
Proof.
  intros Hok Htl. revert fuel st. induction Hok as [|it items Hit _ IH];
    intros fuel st Hr Hp Hfuel Hmax.
  { pose proof (zlen_nonneg (doc_payload [] ++ tail_bytes tl)). destruct fuel as [|fuel]; [lia|].
    by apply follows_document_end. }
  unfold doc_payload in *. rewrite fmap_cons, enc_fields_cons, <- app_assoc in *.
  fold (doc_payload items) in *. set (rest := doc_payload items ++ tail_bytes tl) in *. rewrite zlen_app in *.
  pose proof (zlen_enc_field (item_field it).1 (item_field it).2) as Hlen.
  pose proof (zlen_nonneg (item_field it).2). pose proof (zlen_nonneg rest).
  destruct fuel as [|fuel]; [lia|]. cbn [ScanDocumentReader forM_].
  unfold enc_field in Hr. cbn [app] in Hr. rewrite <- app_assoc in Hr.
  eapply follows_ext; [intros c; apply then_assoc|].
  eapply follows_meta; [done..|by apply item_num|]. intros st1 Hr1 Hp1. cbv beta iota.
  destruct (shouldParseDocumentField cb (item_field it).1) eqn:Hs; cbn [negb].
  - eapply follows_field; [done..|lia|]. intros b st2 Hd Hr2 Hp2.
    eapply follows_bind; [apply follows_item; [done..|rewrite Hd; lia|rewrite Hd; lia]|].
    intros [] st3 Hr3 Hp3. eapply follows_yields; [by apply yields_put|]. intros st4 Hr4 Hp4.
    apply IH; [done..|lia|lia].
  - rewrite (item_skipped path it Hit Hs). eapply follows_skip; [done..|]. intros st2 Hr2 Hp2.
    change (follows (ScanDocumentReader cb fuel path) st2
      (forM_ items (item_calls cb path) ;;; tail_calls tl) []). apply IH; [done..|lia|lia].
Qed.

Lemma follows_scan_document fuel b path items tl st rest :
  at_rest (rd st) rest → pool_ok (pool st) → data b = doc_payload items ++ tail_bytes tl →
  first_field documentRelativePathFieldNumber (data b) path → Forall item_ok items → tail_ok tl →
  zlen (data b) < Z.of_nat fuel → zlen (data b) ≤ maxAlloc →
  follows (scan_document cb fuel b) st (document_calls cb path items tl) rest.
Proof.
  intros Hr Hp Hd Hff Hok Htl Hfuel Hmax. unfold scan_document, document_calls. rewrite <- Hd.
  eapply follows_yields; [apply yields_or_put, yields_join; by apply yields_path|].
  intros st1 Hr1 Hp1. apply (follows_bind _ _ _ _ _ rest).
  { destruct (MatchDocumentPath cb); [by apply follows_call|by apply follows_ret]. }
  intros m st2 Hr2 Hp2. apply (follows_bind _ _ _ _ _ rest).
  { unfold visit_if. destruct m; [|by apply follows_ret].
    destruct (VisitDocument cb) as [v|]; [|by apply follows_ret].
    eapply follows_bind; [by apply follows_or_put, follows_join, follows_lift|].
    intros d st3 Hr3 Hp3. by apply follows_call. }
  intros [] st3 Hr3 Hp3. apply follows_or_put, follows_join, follows_with_reader; [done..| |].
  - unfold maxAlloc in Hmax. lia.
  - intros st4 Hr4 Hp4. rewrite Hd in *. by apply follows_ScanDocumentReader.
Qed.

Lemma document_calls_whole path items c :
  document_calls cb path items None c = index_calls cb (IndexDocument path items) c.
Proof.
  unfold document_calls. cbn [index_calls tail_bytes tail_calls]. rewrite app_nil_r.
  apply bind_ext. intros m c1. apply bind_ext. intros _ c2. unfold joinM. by rewrite then_ret.
Qed.

(** A computation that does not return ends there. *)
Lemma follows_stops (m : ScanM unit) (k : unit → ScanM unit) st am rest rest' :
  (∀ c a, (am c).1 ≠ Ok a) → follows m st am rest → follows (sbind m k) st am rest'.
Proof.
  intros Hstop (st1&Hm&Hc&_). pose proof (Hstop (client st)) as Hs. unfold follows, sbind. rewrite Hm.
  destruct (am (client st)) as [[a| | |] c]; cbn in *; [by destruct (Hs a)|by exists st1..].
Qed.

Lemma document_calls_stop path items t rest c a : (document_calls cb path items (Some (t, rest)) c).1 ≠ Ok a.
Proof.
  unfold document_calls, sbind at 1. destruct (_ c) as [[m| | |] c1]; try done. unfold sbind at 1.
  destruct (visit_if _ _ _ c1) as [[[]| | |] c2]; try done. unfold joinM, sbind.
  by destruct (forM_ _ _ c2) as [[[]| | |] c3].
Qed.

Lemma follows_ending e fuel st :
  ending_ok e → at_rest (rd st) (ending_bytes e) → pool_ok (pool st) →
  zlen (ending_bytes e) < Z.of_nat fuel → zlen (ending_bytes e) ≤ maxAlloc →
  follows (ScanIndexReader cb fuel) st (ending_calls cb e) [].
Proof.
  intros Hok Hr Hp Hfuel Hmax. pose proof (zlen_nonneg (ending_bytes e)).
  destruct fuel as [|fuel]; [lia|]. cbn [ScanIndexReader].
  destruct e as [|t rest|path items t rest more]; cbn [ending_bytes ending_calls ending_ok] in *.
  - apply follows_eof; [done..|]. intros st1 Hr1 Hp1. by apply follows_ret.
  - by eapply follows_foreign.
  - destruct Hok as (Hff&Hitems&Ht). set (payload := doc_payload items ++ t :: rest) in *.
    rewrite zlen_app in *. pose proof (zlen_enc_field indexDocumentsFieldNumber payload).
    pose proof (zlen_nonneg payload). pose proof (zlen_nonneg more).
    unfold enc_field in Hr. cbn [app] in Hr. rewrite <- app_assoc in Hr.
    eapply follows_meta; [done..|by unfold indexDocumentsFieldNumber|]. intros st1 Hr1 Hp1. cbv beta iota.
    rewrite Z.eqb_refl. cbn [negb]. eapply (follows_field _ payload); [done..|lia|]. intros b st2 Hd Hr2 Hp2.
    eapply follows_stops; [apply document_calls_stop|].
    eapply (follows_scan_document _ _ _ _ (Some (t, rest))); rewrite ?Hd; try done; lia.
Qed.

Lemma follows_index_end idx e fuel st :
  Forall index_ok idx → ending_ok e → at_rest (rd st) (enc_index idx ++ ending_bytes e) → pool_ok (pool st) →
  zlen (enc_index idx ++ ending_bytes e) < Z.of_nat fuel → zlen (enc_index idx ++ ending_bytes e) ≤ maxAlloc →
  follows (ScanIndexReader cb fuel) st (forM_ idx (index_calls cb) ;;; ending_calls cb e) [].
Proof.
  intros Hok He. revert fuel st. induction Hok as [|it idx Hit _ IH];
    intros fuel st Hr Hp Hfuel Hmax; [by apply follows_ending|].
  unfold enc_index in *. rewrite fmap_cons, enc_fields_cons, <- app_assoc in *.
  fold (enc_index idx) in *. set (rest := enc_index idx ++ ending_bytes e) in *. rewrite zlen_app in *.
  pose proof (zlen_enc_field (index_field it).1 (index_field it).2) as Hlen.
  pose proof (zlen_nonneg (index_field it).2). pose proof (zlen_nonneg rest).
  destruct fuel as [|fuel]; [lia|]. cbn [ScanIndexReader forM_].
  unfold enc_field in Hr. cbn [app] in Hr. rewrite <- app_assoc in Hr.
  eapply follows_ext; [intros c; apply then_assoc|].
  eapply follows_meta; [done..| |].
  { destruct it; cbn in *; unfold indexDocumentsFieldNumber; lia. }
  intros st1 Hr1 Hp1. cbv beta iota. destruct it as [path items|num p]; cbn [index_field fst snd] in *.
  - rewrite Z.eqb_refl. cbn [negb]. destruct Hit as [Hff Hitems].
    eapply follows_field; [done..|lia|]. intros b st2 Hd Hr2 Hp2.
    eapply follows_bind.
    { eapply follows_ext; [apply document_calls_whole|].
      apply follows_scan_document; rewrite ?Hd; cbn [tail_bytes]; rewrite ?app_nil_r; try done; lia. }
    intros [] st3 Hr3 Hp3. eapply follows_yields; [by apply yields_put|]. intros st4 Hr4 Hp4.
    apply IH; [done..|lia|lia].
  - destruct Hit as [_ Hnum]. destruct (Z.eqb_spec num indexDocumentsFieldNumber); [done|].
    cbn [negb]. eapply follows_skip; [done..|]. intros st2 Hr2 Hp2.
    change (follows (ScanIndexReader cb fuel) st2 (forM_ idx (index_calls cb) ;;; ending_calls cb e) []).
    apply IH; [done..|lia|lia].
Qed.

Lemma follows_ScanIndexReader idx fuel st :
  Forall index_ok idx → at_rest (rd st) (enc_index idx) → pool_ok (pool st) →
  zlen (enc_index idx) < Z.of_nat fuel → zlen (enc_index idx) ≤ maxAlloc →
  follows (ScanIndexReader cb fuel) st (forM_ idx (index_calls cb)) [].
Proof.
  intros. eapply follows_ext; [intros c; apply then_ret|].
  apply (follows_index_end idx EndIndex); cbn [ending_bytes]; rewrite ?app_nil_r; done.
Qed.

(** C37: An index is given as bytes: length-delimited fields with numbers up to
    15, documents (with fields of that kind, and the path among them) and others,
    of at most 2^48 bytes and fewer than the fuel; its end is there, or a field
    that is not length-delimited, in the index or in a document.  Scanning it
    makes exactly the calls that its documents, symbols and occurrences up to
    there ask for, in order, each with the path, the symbol and the message of its
    field: whatever buffers the pool holds, hands out again or makes anew, and for
    every client.  It returns what the calls return, skips length-delimited fields
    of other numbers, and ends with an error at a field that is not
    length-delimited. *)
Theorem ScanIndexReader_calls idx e fuel bp c :
  Forall index_ok idx → ending_ok e → pool_ok bp →
  let input := enc_index idx ++ ending_bytes e in
  zlen input < Z.of_nat fuel → zlen input ≤ maxAlloc →
  let '(r, st') := ScanIndexReader cb fuel (mkScanState (NewReader input) bp c) in
  (r, client st') = (forM_ idx (index_calls cb) ;;; ending_calls cb e) c.
Proof.
  intros Hok He Hp input Hfuel Hmax.
  destruct (follows_index_end idx e fuel (mkScanState (NewReader input) bp c)) as (st'&Hst'&Hc&_); [done..| |done|done|done|].
  { apply at_rest_start. fold input. unfold maxAlloc in Hmax. lia. }
  rewrite Hst', Hc. cbn [client]. by destruct (sbind _ _ c).
Qed.

(** ** Input that is not a serialised index *)

(** A field that has no length in a document, such as an enumeration, ends
    the scan of the document with an error: it is not skipped. *)
Theorem ScanDocumentReader_not_bytes fuel path st t rest :
  at_rest (rd st) (t :: rest) → pool_ok (pool st) → 8 ≤ t < 128 → t mod 8 ≠ BytesType →
  (ScanDocumentReader cb (S fuel) path st).1
  = Err (EJoin "failed to consume field" (EText "expected bytes type for field")).
Proof.
  intros Hr Hp Ht Hty.
  pose proof (meta_foreign st t rest Hr Hp (conj Ht Hty)) as Hm.
  destruct Hm as (st1&Hm&_). cbn [ScanDocumentReader].
  by rewrite (sbind_try_err _ _ _ _ _ Hm).
Qed.

(** The scanner does not change the source of the reader and the buckets of
    the pool. *)
Definition frame (st : ScanState C) : bytes * list Z := (src (rd st), sizes (pool st)).
Definition keeps_frame {A} (m : ScanM (C := C) A) : Prop := ∀ st, frame (m st).2 = frame st.

Lemma sizes_Get bp n : sizes (Get bp n).2 = sizes bp.
Proof.
  unfold Get. destruct (find_bucket _ _ _) as [[i b]|]; [|done].
  destruct (pools bp !! i) as [[|]|]; try done. by destruct (reuse _ _).
Qed.
Lemma sizes_Put bp b : sizes (Put bp b) = sizes bp.
Proof. unfold Put. by destruct (exact_bucket _ _ _). Qed.

Lemma keeps_frame_bind {A B} (m : ScanM A) (k : A → ScanM B) :
  keeps_frame m → (∀ a, keeps_frame (k a)) → keeps_frame (sbind m k).
Proof.
  intros Hm Hk st. unfold sbind. specialize (Hm st).
  destruct (m st) as [[a| | |] st1]; cbn in *; [by rewrite Hk|done..].
Qed.
Lemma keeps_frame_try {A} (m : ScanM A) : keeps_frame m → keeps_frame (try_ m).
Proof. intros Hm st. unfold try_. specialize (Hm st). by destruct (m st) as [[]]. Qed.
Lemma keeps_frame_join {A} s (m : ScanM A) : keeps_frame m → keeps_frame (joinM s m).
Proof. intros Hm st. unfold joinM. specialize (Hm st). by destruct (m st). Qed.
Lemma keeps_frame_then {A} b (m : ScanM A) : keeps_frame m → keeps_frame (then_put b m).
Proof.
  intros Hm st. unfold then_put, frame in *. specialize (Hm st). destruct (m st). cbn in *.
  by rewrite sizes_Put.
Qed.
Lemma keeps_frame_put b : keeps_frame (pool_put b).
Proof. intros st. unfold frame, pool_put. cbn. by rewrite sizes_Put. Qed.
Lemma keeps_frame_id {A} (m : ScanM (C := C) A) : (∀ st, (m st).2 = st) → keeps_frame m.
Proof. intros Hm st. by rewrite Hm. Qed.
Lemma keeps_frame_get n : keeps_frame (pool_get n).
Proof.
  intros st. unfold frame, pool_get. pose proof (sizes_Get (pool st) n) as Hs.
  destruct (Get _ _). cbn in *. by rewrite Hs.
Qed.
Lemma keeps_frame_read b : keeps_frame (read b).
Proof.
  intros st. unfold read, Read. destruct (_ <=? _); [done|]. by destruct (copy_to _ _).
Qed.

Ltac keeps_frame_tac :=
  repeat first
    [ apply keeps_frame_then | apply keeps_frame_join | apply keeps_frame_try
    | apply keeps_frame_get | apply keeps_frame_read | apply keeps_frame_put
    | apply keeps_frame_id; intros; reflexivity
    | apply keeps_frame_bind; [|intros] | case_match ].

Lemma meta_keeps_frame : keeps_frame consumeBytesFieldMeta.
Proof. unfold consumeBytesFieldMeta. keeps_frame_tac. Qed.
Lemma readVarint_loop_keeps_frame n b : keeps_frame (readVarint_loop n b).
Proof. revert b. induction n as [|n IH]; intros b; cbn; keeps_frame_tac. apply IH. Qed.
Lemma length_keeps_frame : keeps_frame read_length.
Proof.
  unfold read_length, readVarint. keeps_frame_tac. apply readVarint_loop_keeps_frame.
Qed.

(** A field of another number whose length is that of itself, negated. *)
Definition loop_index : bytes := tag 1 :: varint (2 ^ 64 - 11).

(** A length of 2^63 or more moves the reader backwards when its field is
    skipped: on the eleven bytes of [loop_index] the scanner never ends. *)
Theorem ScanIndexReader_loops fuel bp c :
  pool_ok bp →
  (ScanIndexReader cb fuel (mkScanState (NewReader loop_index) bp c)).1 = Fuel.
Proof.
  assert (H11 : zlen loop_index = 11) by reflexivity.
  revert bp c. induction fuel as [|fuel IH]; intros bp c Hp; [done|].
  cbn [ScanIndexReader]. set (st := mkScanState _ bp c).
  assert (Hr : at_rest (rd st) (tag 1 :: varint (2 ^ 64 - 11) ++ []))
    by (rewrite app_nil_r; apply (at_rest_start loop_index); rewrite H11; lia).
  destruct (yields_meta st 1 _ Hr Hp) as (st1&Hm&Hr1&Hp1&Hc1); [lia|].
  rewrite (sbind_try_ok _ _ _ _ _ Hm). cbv beta iota.
  change (negb (1 =? indexDocumentsFieldNumber)) with true. cbv iota.
  destruct (yields_length st1 (2 ^ 64 - 11) [] Hr1 Hp1) as (st2&Hl&Hr2&Hp2&Hc2); [lia|].
  assert (Hsrc : frame st2 = frame st).
  { pose proof (length_keeps_frame st1) as Hk. rewrite Hl in Hk. cbn in Hk. rewrite Hk.
    pose proof (meta_keeps_frame st) as Hk'. by rewrite Hm in Hk'. }
  apply (f_equal fst) in Hsrc. cbn in Hsrc.
  assert (Hoff : off (rd st2) = 11).
  { pose proof (at_rest_length _ _ Hr2) as Ho. rewrite Hsrc, H11, zlen_nil in Ho. lia. }
  assert (Hskip : joinM "failed to skip" skipField st1
    = (Ok tt, mkScanState (NewReader loop_index) (pool st2) (client st2))).
  { unfold joinM, skipField. rewrite (sbind_ok _ _ _ _ _ Hl).
    unfold sbind, joinM, seek, Seek. rewrite Hoff, Hsrc. reflexivity. }
  rewrite (sbind_ok _ _ _ _ _ Hskip). by apply IH.
Qed.

(** A length of 2^63 or more in the field of a document is a negative size
    for the pool, and the scanner panics. *)
Theorem ScanIndexReader_negative_length fuel bp c s ss rest :
  pool_ok bp → sizes bp = s :: ss → 0 ≤ s → zlen rest < 2 ^ 32 →
  (ScanIndexReader cb (S fuel) (mkScanState
    (NewReader (tag indexDocumentsFieldNumber :: varint (2 ^ 63) ++ rest)) bp c)).1 = Panic.
Proof.
  intros Hp Hs Hpos Hrest. cbn [ScanIndexReader]. set (st := mkScanState _ bp c).
  assert (Hr : at_rest (rd st) (tag indexDocumentsFieldNumber :: varint (2 ^ 63) ++ rest)).
  { apply at_rest_start. rewrite zlen_cons, zlen_app.
    change (zlen (varint (2 ^ 63))) with 10. lia. }
  destruct (yields_meta st indexDocumentsFieldNumber _ Hr Hp) as (st1&Hm&Hr1&Hp1&Hc1);
    [unfold indexDocumentsFieldNumber; lia|].
  rewrite (sbind_try_ok _ _ _ _ _ Hm). cbv beta iota. rewrite Z.eqb_refl. cbn [negb].
  destruct (yields_length st1 (2 ^ 63) rest Hr1 Hp1) as (st2&Hl&Hr2&Hp2&Hc2); [lia|].
  assert (Hsz : frame st2 = frame st).
  { pose proof (length_keeps_frame st1) as Hk. rewrite Hl in Hk. cbn in Hk. rewrite Hk.
    pose proof (meta_keeps_frame st) as Hk'. by rewrite Hm in Hk'. }
  apply (f_equal snd) in Hsz. cbn in Hsz. rewrite Hs in Hsz.
  assert (Hlen : joinM "failed to consume length" (consumeLen BytesType) st1
    = (Ok (int64 (2 ^ 63)), st2)).
  { unfold joinM, consumeLen. cbn. unfold sbind. by rewrite Hl. }
  rewrite (sbind_ok _ _ _ _ _ Hlen).
  assert (Hget : pool_get (int64 (2 ^ 63)) st2
    = (Panic, mkScanState (rd st2) (Get (pool st2) (int64 (2 ^ 63))).2 (client st2))).
  { unfold pool_get. pose proof (Get_negative (pool st2) s ss (int64 (2 ^ 63)) Hsz) as Hneg.
    destruct (Get _ _) as [r bp']. cbn in *. rewrite Hneg; [done|done|].
    rewrite int64_high by lia. lia. }
  by rewrite (sbind_panic _ _ _ _ Hget).
Qed.
End scan.

(** ** A wire format for concrete runs *)

Fixpoint varint_value (bs : bytes) : Z :=
  match bs with
  | [] => 0
  | [b] => b
  | b :: bs' => b - 128 + 128 * varint_value bs'
  end.
Lemma varint_value_loop n v : varint_value (varint_loop n v) = v.
Proof.
  revert v. induction n as [|n IH]; intros v; cbn; [done|].
  destruct (v <? 128); [done|]. specialize (IH (v / 128)).
  destruct (varint_loop n (v / 128)) eqn:Hl.
  { by destruct n; cbn in Hl; [|destruct (_ <? _)]. }
  cbn [varint_value] in *. rewrite IH. pose proof (Z.div_mod v 128). lia.
Qed.

Definition no_document : Scip.Document := Scip.mkDocument "" "" [] [] "".
(** The string in the first field of a message. *)
Definition first_string (b : bytes) : string :=
  match b with _ :: n :: rest => string_of_bytes (take (Z.to_nat n) rest) | _ => "" end.
#[export] Instance simple_wire : Wire := {
  ConsumeTag b := match b with [t] => (t / 8, t mod 8, 1) | _ => (0, 0, -1) end;
  ConsumeVarint b := (varint_value b, zlen b);
  UnmarshalDocument _ := Ok no_document;
  UnmarshalSymbol b := Ok (Scip.mkSymbolInformation (first_string b) [] [] (Scip.Kind_other 0) "" None "");
  UnmarshalOccurrence _ := Ok (Scip.mkOccurrence [] "" 0 [] 0 [] [])
}.
#[export] Instance simple_wire_laws : WireLaws.
Proof.
  split.
  - done.
  - intros v Hv. change (ConsumeVarint (varint v)) with (varint_value (varint v), zlen (varint v)).
    unfold varint at 1. by rewrite varint_value_loop.
Qed.

(** A client that records what it is called with. *)
Definition record_calls : Callbacks (list string) :=
  mkCallbacks _
    (Some (λ p log, (Ok true, log ++ [p])))
    (Some (λ s log, (Ok true, log ++ [string_of_bytes s])))
    None
    (Some (λ d log, (Ok tt, log ++ ["document"])))
    (Some (λ p s log, (Ok tt, log ++ [p])))
    None.
(** The path "a", a symbol "s" with a varint field after its name, and an
    occurrence, which the client does not match. *)
Definition sample_index : list index_item :=
  [IndexOther 1 [1; 2; 3];
   IndexDocument (Some [97])
     [ItemOther 1 [97];
      ItemSymbol (enc_field 1 [115] ++ [40; 7]) (Some [115]);
      ItemOccurrence (enc_field 1 [0; 0; 3]) None]].
Definition sample_pool : BufferPool :=
  mkBufferPool [16; 32] [[replicate 16 255]; []] 32 (λ _, true) 0.

Lemma sample_pool_ok : pool_ok sample_pool.
Proof.
  split; [done|]. intros [|[|i]] free s [= <-] [= <-]; repeat constructor.
Qed.

Lemma sample_index_ok : Forall index_ok sample_index.
Proof.
  constructor; [cbn; unfold indexDocumentsFieldNumber; lia|]. constructor; [|constructor].
  cbn [index_ok]. split.
  { apply (first_field_found 1 [] [97] (enc_fields [(3, enc_field 1 [115] ++ [40; 7]);
      (2, enc_field 1 [0; 0; 3])])). constructor. }
  repeat constructor; cbn; try (unfold documentSymbolsFieldNumber, documentOccurrencesFieldNumber; lia).
  - apply (first_field_found 1 [] [115] [40; 7]). constructor.
  - apply (first_field_none 2 [(1, [0; 0; 3])]). repeat constructor; cbn; lia.
Qed.

Lemma BufferPool_correct_witness :
  ∃ r bp', Get sample_pool 7 = (Ok r, bp') ∧ blen r = 7 ∧ zlen (data r) = 7 ∧ pool_ok bp'.
Proof.
  apply (BufferPool_correct sample_pool 7 nil_buf sample_pool_ok). unfold maxAlloc. lia.
Defined.

(** The index above; and one that goes on with a document that has a position
    encoding, the field 6 of a document. *)
Lemma ScanIndexReader_calls_witness :
  (let '(r, st') := ScanIndexReader record_calls 100
     (mkScanState (NewReader (enc_index sample_index ++ [])) sample_pool []) in
   (r, client st') = (Ok tt, ["a"; "document"; "s"; "a"])) ∧
  let '(r, st') := ScanIndexReader record_calls 100 (mkScanState
    (NewReader (enc_index sample_index ++ enc_field 2 (enc_field 1 [98] ++ [48; 1]) ++ [])) sample_pool []) in
  (r, client st') = (Err (EJoin "failed to scan document" not_bytes),
    ["a"; "document"; "s"; "a"; "b"; "document"]).
Proof.
  split.
  - exact (ScanIndexReader_calls record_calls sample_index EndIndex 100 sample_pool [] sample_index_ok I
      sample_pool_ok eq_refl ltac:(discriminate)).
  - refine (ScanIndexReader_calls record_calls sample_index (EndDocument (Some [98]) [ItemOther 1 [98]] 48 [1] [])
      100 sample_pool [] sample_index_ok _ sample_pool_ok eq_refl ltac:(discriminate)).
    split_and!; [apply (first_field_found 1 [] [98] [48; 1]); constructor| |split; [lia|discriminate]].
    repeat constructor; discriminate.
Defined.

Lemma ScanDocumentReader_not_bytes_witness :
  (ScanDocumentReader record_calls 9 "a"
    (mkScanState (NewReader [48; 1]) sample_pool [])).1
  = Err (EJoin "failed to consume field" (EText "expected bytes type for field")).
Proof.
  apply (ScanDocumentReader_not_bytes record_calls 8 "a" _ 48 [1]);
    [apply at_rest_start; reflexivity|exact sample_pool_ok|lia|discriminate].
Defined.

Lemma ScanIndexReader_loops_witness :
  (ScanIndexReader record_calls 1000 (mkScanState (NewReader loop_index) sample_pool [])).1 = Fuel.
Proof. apply (ScanIndexReader_loops record_calls 1000 sample_pool [] sample_pool_ok). Defined.

Lemma ScanIndexReader_negative_length_witness :
  (ScanIndexReader record_calls 1 (mkScanState
    (NewReader (tag indexDocumentsFieldNumber :: varint (2 ^ 63) ++ [])) sample_pool [])).1 = Panic.
Proof.
  apply (ScanIndexReader_negative_length record_calls 0 sample_pool [] 16 [32] []);
    [exact sample_pool_ok|reflexivity|lia|reflexivity].
Defined.
