(* ===== verification/PrefixTree.v ===== *)
(** * The symbol prefix tree

    Models [src/scip-lib/partialloader/prefixtree.go].  The nodes of the tree
    are objects that point to their parents and children, and the loader keeps
    pointers to nodes, so nodes live in a heap.  A child of a node is found by
    its descriptor; a path of descriptors leads from a node to another
    ([walk]).

    Ranging over a map of children has no fixed order; the model takes the
    order of [map_to_list], and the theorems do not depend on it.  [Merge] and
    [PruneNodes] recurse down the tree with fuel, for which any bound on the
    length of paths is enough. *)

From stdpp Require Import base gmap list strings fin_maps.
From Stdlib Require Import ZArith Lia.
From S2P Require Import Prelude Scip.

Local Open Scope Z_scope.

Abbreviation Descriptor := Model.Descriptor.
Abbreviation nptr := N.

(** The information of one version of a symbol. *)
Record VersionInfo := mkVersionInfo {
  Info : Model.SymbolInformation; DocumentPath : string
}.

Record SymbolPrefixTreeNode := mkNode {
  Parent : option nptr;
  Preamble : string;
  SymbolVersions : option (gmap string VersionInfo);   (** [None] is a nil map *)
  Children : gmap Descriptor nptr;
  Revision : Z
}.

Record Forest := mkForest { nodes : gmap nptr SymbolPrefixTreeNode; next_node : nptr }.

Definition TreeM := GoM Forest.

Definition load_node (p : nptr) : TreeM SymbolPrefixTreeNode := λ h,
  (match nodes h !! p with Some n => Ok n | None => Panic end, h).
Definition store_node (p : nptr) (n : SymbolPrefixTreeNode) : TreeM unit := λ h,
  (Ok tt, mkForest (<[p := n]> (nodes h)) (next_node h)).
Definition alloc_node (n : SymbolPrefixTreeNode) : TreeM nptr := λ h,
  (Ok (next_node h), mkForest (<[next_node h := n]> (nodes h)) (N.succ (next_node h))).

Definition set_children n c := mkNode (Parent n) (Preamble n) (SymbolVersions n) c (Revision n).
Definition set_parent n p := mkNode p (Preamble n) (SymbolVersions n) (Children n) (Revision n).
Definition set_versions n v := mkNode (Parent n) (Preamble n) v (Children n) (Revision n).
Definition set_revision n r := mkNode (Parent n) (Preamble n) (SymbolVersions n) (Children n) r.

(** The root that [NewSymbolPrefixTree] and [LoadIndex] make: it has no map of
    versions. *)
Definition root_node : SymbolPrefixTreeNode := mkNode None "" None ∅ 0.
Definition NewSymbolPrefixTree : TreeM nptr := alloc_node root_node.

(** [addChild]; a store to a nil map of versions would panic. *)
Definition addChild (t : nptr) (relativeDocPath preamble : string) (descriptor : Descriptor)
    (info : option Model.SymbolInformation) (revision : Z) (version : string)
    : TreeM (nptr * bool) :=
  tn <- load_node t;;
  let* (c, isNew) :=
    match Children tn !! descriptor with
    | None =>
      c <- alloc_node (mkNode (Some t) preamble (Some ∅) ∅ revision);;
      store_node t (set_children tn (<[descriptor := c]> (Children tn))) ;;;
      sret (c, true)
    | Some existing =>
      en <- load_node existing;;
      store_node existing (set_revision en revision) ;;;
      sret (existing, false)
    end in
  match info with
  | None => sret (c, isNew)
  | Some info =>
    cn <- load_node c;;
    match SymbolVersions cn with
    | None => lift_res Panic
    | Some versions =>
      store_node c (set_versions cn
        (Some (<[version := mkVersionInfo info relativeDocPath]> versions))) ;;;
      sret (c, isNew)
    end
  end.

Section add.
Context `{Bindings}.

(** The loop of [AddSymbol] over the descriptors: the last one gets the
    information. *)
Fixpoint addDescriptors (node : nptr) (isNew : bool) (ds : list Descriptor)
    (relativeDocPath preamble : string) (info : Model.SymbolInformation)
    (revision : Z) (version : string) : TreeM (nptr * bool) :=
  match ds with
  | [] => sret (node, isNew)
  | [d] => addChild node relativeDocPath preamble d (Some info) revision version
  | d :: ds' =>
    let* (node', isNew') := addChild node "" "" d None revision version in
    addDescriptors node' isNew' ds' relativeDocPath preamble info revision version
  end.

(** [AddSymbol]: [None] for the nil node of a symbol that does not parse. *)
Definition AddSymbol (t : nptr) (relativeDocPath : string) (info : Model.SymbolInformation)
    (revision : Z) : TreeM (option nptr * bool) :=
  match ParseScipSymbol (Model.ISymbol info) with
  | Err _ => sret (None, false)
  | Panic => lift_res Panic
  | Fuel => lift_res Fuel
  | Ok sy =>
    match Scip.SPackage sy with
    | None => lift_res Panic
    | Some pkg =>
      let* (node, isNew) :=
        addDescriptors t false (ScipDescriptorsToModelDescriptors (Scip.Descriptors sy))
          relativeDocPath (String.append (Scip.Scheme sy) (String.append " " (Package_ID pkg)))
          info revision (Scip.Version pkg) in
      sret (Some node, isNew)
    end
  end.

(** The loop of [GetNode] and of the lookup by descriptors. *)
Fixpoint walk (h : gmap nptr SymbolPrefixTreeNode) (p : nptr) (ds : list Descriptor)
    : option nptr :=
  match ds with
  | [] => Some p
  | d :: ds' => n ← h !! p; c ← Children n !! d; walk h c ds'
  end.

Definition GetNode (t : nptr) (symbol : string) : TreeM (option nptr) := λ h,
  match ParseScipSymbol symbol with
  | Err _ => (Ok None, h)
  | Panic => (Panic, h)
  | Fuel => (Fuel, h)
  | Ok sy => (Ok (walk (nodes h) t (ScipDescriptorsToModelDescriptors (Scip.Descriptors sy))), h)
  end.
End add.

(** The update of an existing node from the node of the other tree. *)
Definition merge_into (existing child : SymbolPrefixTreeNode) : SymbolPrefixTreeNode :=
  let versions :=
    match SymbolVersions child with
    | None => SymbolVersions existing
    | Some vs => Some (vs ∪ default ∅ (SymbolVersions existing))
    end in
  mkNode (Parent existing) (Preamble existing) versions (Children existing)
    (if Revision existing <? Revision child then Revision child else Revision existing).

Fixpoint Merge (fuel : nat) (t other : nptr) : TreeM unit :=
  match fuel with
  | O => lift_res Fuel
  | S fuel' =>
    on <- load_node other;;
    forM_ (map_to_list (Children on)) (λ '(desc, child),
      tn <- load_node t;;
      cn <- load_node child;;
      match Children tn !! desc with
      | None =>
        store_node child (set_parent cn (Some t)) ;;;
        store_node t (set_children tn (<[desc := child]> (Children tn)))
      | Some existing =>
        en <- load_node existing;;
        store_node existing (merge_into en cn) ;;;
        Merge fuel' existing child
      end)
  end.

(** A version of the node is of the document. *)
Definition has_doc (n : SymbolPrefixTreeNode) (docPath : string) : bool :=
  existsb (λ v, bool_decide (DocumentPath v.2 = docPath))
    (map_to_list (default ∅ (SymbolVersions n))).

Fixpoint PruneNodes (fuel : nat) (t : nptr) (docPath : string) (revision : Z) : TreeM unit :=
  match fuel with
  | O => lift_res Fuel
  | S fuel' =>
    tn <- load_node t;;
    forM_ (map_to_list (Children tn)) (λ '(name, child),
      cn <- load_node child;;
      if (Revision cn <? revision) && has_doc cn docPath then
        tn' <- load_node t;;
        store_node t (set_children tn' (delete name (Children tn')))
      else PruneNodes fuel' child docPath revision)
  end.
