(* ===== verification/PrefixTreeProof.v ===== *)
(** * Correctness of the symbol prefix tree

    A node is the root of a tree when every path from it leads to an allocated
    node and no two paths lead to the same one.  Shown for such trees: what
    [AddSymbol] adds and changes, that [Merge] is the union of two trees with
    the information of the other taking precedence, and that [PruneNodes]
    removes exactly the outdated nodes of a document. *)

From stdpp Require Import base gmap list strings fin_maps.
From Stdlib Require Import ZArith Lia.
From S2P Require Import Prelude Scip Occurrences PrefixTree.

Local Open Scope Z_scope.

Abbreviation Heap := (gmap nptr SymbolPrefixTreeNode).
Implicit Types (h : Heap) (p q t c : nptr) (d : Descriptor) (ds : list Descriptor).

(** ** Paths *)

Definition reach h p q : Prop := ∃ ds, walk h p ds = Some q.

Record tree h p : Prop := {
  tree_alloc ds q : walk h p ds = Some q → is_Some (h !! q);
  tree_inj ds1 ds2 q : walk h p ds1 = Some q → walk h p ds2 = Some q → ds1 = ds2
}.

Lemma walk_cons h p d ds :
  walk h p (d :: ds) = (n ← h !! p; c ← Children n !! d; walk h c ds).
Proof. done. Qed.

Lemma walk_app h p ds1 ds2 : walk h p (ds1 ++ ds2) = (q ← walk h p ds1; walk h q ds2).
Proof.
  revert p. induction ds1 as [|d ds1 IH]; intros p; [done|]. cbn [app]. rewrite !walk_cons.
  destruct (h !! p) as [n|]; [|done]. cbn. destruct (Children n !! d) as [c|]; [|done]. cbn.
  apply IH.
Qed.

Lemma walk_child h p n d c ds :
  h !! p = Some n → Children n !! d = Some c → walk h p (d :: ds) = walk h c ds.
Proof. intros Hp Hd. rewrite walk_cons, Hp. cbn. by rewrite Hd. Qed.

Lemma walk_cons_Some h p d ds q :
  walk h p (d :: ds) = Some q → ∃ n c, h !! p = Some n ∧ Children n !! d = Some c ∧ walk h c ds = Some q.
Proof.
  rewrite walk_cons. intros (n&Hn&Hq)%bind_Some. apply bind_Some in Hq as (c&Hc&Hq).
  by exists n, c.
Qed.

Lemma reach_refl h p : reach h p p.
Proof. by exists []. Qed.
Lemma reach_trans h p q r : reach h p q → reach h q r → reach h p r.
Proof.
  intros [ds1 H1] [ds2 H2]. exists (ds1 ++ ds2). by rewrite walk_app, H1.
Qed.
Lemma reach_child h p n d c : h !! p = Some n → Children n !! d = Some c → reach h p c.
Proof. intros Hp Hd. exists [d]. by rewrite (walk_child _ _ _ _ _ _ Hp Hd). Qed.

(** Paths depend only on the children of the nodes they pass. *)
Lemma walk_ext h h' p ds :
  (∀ q, reach h p q → Children <$> h' !! q = Children <$> h !! q) → walk h' p ds = walk h p ds.
Proof.
  revert p. induction ds as [|d ds IH]; intros p Hext; [done|]. rewrite !walk_cons.
  pose proof (Hext p (reach_refl h p)) as Hp.
  destruct (h !! p) as [n|] eqn:Hn, (h' !! p) as [n'|]; cbn in Hp; try done. cbn.
  injection Hp as ->. destruct (Children n !! d) as [c|] eqn:Hc; [|done]. cbn.
  apply IH. intros q Hq. apply Hext. eapply reach_trans; [|done]. by eapply reach_child.
Qed.

Lemma reach_ext h h' p q :
  (∀ q, reach h p q → Children <$> h' !! q = Children <$> h !! q) → reach h' p q ↔ reach h p q.
Proof.
  intros Hext. unfold reach. split; intros [ds Hds]; exists ds;
    [by rewrite <- (walk_ext h h')|by rewrite (walk_ext h h')].
Qed.

Lemma tree_ext h h' p :
  (∀ q, reach h p q → Children <$> h' !! q = Children <$> h !! q) → tree h p → tree h' p.
Proof.
  intros Hext [Ha Hi]. split.
  - intros ds q Hq. rewrite (walk_ext h h') in Hq by done.
    assert (Hr : reach h p q) by (by exists ds). specialize (Hext q Hr).
    destruct (Ha ds q Hq) as [n Hn]. rewrite Hn in Hext. destruct (h' !! q); [by eexists|done].
  - intros ds1 ds2 q. rewrite !(walk_ext h h') by done. apply Hi.
Qed.

(** ** Subtrees *)

Lemma tree_sub h p ds q : tree h p → walk h p ds = Some q → tree h q.
Proof.
  intros [Ha Hi] Hq. split.
  - intros ds' q' Hq'. apply (Ha (ds ++ ds')). by rewrite walk_app, Hq.
  - intros ds1 ds2 q' H1 H2. apply (app_inv_head ds), (Hi _ _ q'); by rewrite walk_app, Hq.
Qed.

Lemma tree_child h p n d c :
  tree h p → h !! p = Some n → Children n !! d = Some c → tree h c.
Proof.
  intros Ht Hp Hd. apply (tree_sub h p [d]); [done|]. by rewrite (walk_child _ _ _ _ _ _ Hp Hd).
Qed.

(** A child does not lead back, and two children lead to different nodes. *)
Lemma tree_child_root h p n d c :
  tree h p → h !! p = Some n → Children n !! d = Some c → ¬ reach h c p.
Proof.
  intros Ht Hp Hd [ds Hds].
  assert (d :: ds = []) as Heq; [|done].
  apply (tree_inj _ _ Ht _ _ p); [|done]. by rewrite (walk_child _ _ _ _ _ _ Hp Hd).
Qed.

Lemma tree_children_disjoint h p n d1 c1 d2 c2 q :
  tree h p → h !! p = Some n → Children n !! d1 = Some c1 → Children n !! d2 = Some c2 →
  d1 ≠ d2 → reach h c1 q → reach h c2 q → False.
Proof.
  intros Ht Hp H1 H2 Hne [ds1 Hd1] [ds2 Hd2].
  assert (d1 :: ds1 = d2 :: ds2) as [= ?]; [|done].
  apply (tree_inj _ _ Ht _ _ q).
  - by rewrite (walk_child _ _ _ _ _ _ Hp H1).
  - by rewrite (walk_child _ _ _ _ _ _ Hp H2).
Qed.

(** ** A change below a child

    [h'] is [h] with the subtree of the child [c] of [t] changed: the nodes of
    [t] outside that subtree are as before, and the subtree may have grown by
    the nodes [N]. *)
Section below.
Context (h h' : Heap) (t c : nptr) (n : SymbolPrefixTreeNode) (d : Descriptor) (N : nptr → Prop).
Context (Ht : tree h t) (Hn : h !! t = Some n) (Hc : Children n !! d = Some c).
Context (Hframe : ∀ p, reach h t p → ¬ reach h c p → h' !! p = h !! p).
Context (Htc : tree h' c).
Context (Hgrow : ∀ p, reach h' c p → reach h c p ∨ N p).
Context (Hnew : ∀ p, N p → ¬ reach h t p).

Lemma below_root : h' !! t = Some n.
Proof.
  rewrite Hframe; [done|apply reach_refl|]. by eapply tree_child_root.
Qed.

Lemma below_walk_same ds : walk h' t (d :: ds) = walk h' c ds.
Proof. apply (walk_child _ _ n); [apply below_root|done]. Qed.

Lemma below_other d' c' q :
  Children n !! d' = Some c' → d' ≠ d → reach h c' q → h' !! q = h !! q.
Proof.
  intros Hd' Hne Hq. apply Hframe.
  - eapply reach_trans; [|done]. by eapply reach_child.
  - intros Hcq. by eapply (tree_children_disjoint h t n d' c' d c q).
Qed.

Lemma below_walk_other d' ds : d' ≠ d → walk h' t (d' :: ds) = walk h t (d' :: ds).
Proof.
  intros Hne. rewrite !walk_cons, below_root, Hn. cbn.
  destruct (Children n !! d') as [c'|] eqn:Hd'; [|done]. cbn.
  apply walk_ext. intros q Hq. by rewrite (below_other d' c' q).
Qed.

Lemma below_reach p : reach h' t p → reach h t p ∨ N p.
Proof.
  intros [[|d' ds] Hp].
  - injection Hp as <-. left. apply reach_refl.
  - destruct (decide (d' = d)) as [->|Hne].
    + rewrite below_walk_same in Hp. destruct (Hgrow p) as [Hcp|]; [by exists ds| |by right].
      left. eapply reach_trans; [|done]. by eapply reach_child.
    + rewrite below_walk_other in Hp by done. left. by exists (d' :: ds).
Qed.

Lemma below_tree : tree h' t.
Proof.
  split.
  - intros [|d' ds] q Hq.
    + injection Hq as <-. rewrite below_root. by eexists.
    + destruct (decide (d' = d)) as [->|Hne].
      * rewrite below_walk_same in Hq. by eapply (tree_alloc _ _ Htc).
      * rewrite below_walk_other in Hq by done.
        destruct (walk_cons_Some _ _ _ _ _ Hq) as (n0&c'&Hn0&Hc'&Hw). simplify_eq.
        rewrite (below_other d' c' q) by (done || by exists ds). by eapply (tree_alloc _ _ Ht).
  - assert (Hroot : ∀ d' ds, walk h' t (d' :: ds) ≠ Some t).
    { intros d' ds. destruct (decide (d' = d)) as [->|Hne].
      - rewrite below_walk_same. intros Hw. destruct (Hgrow t) as [Hct|HN]; [by exists ds| |].
        + by eapply (tree_child_root h t n d c).
        + by apply (Hnew t HN), reach_refl.
      - rewrite below_walk_other by done. intros Hw. by apply (tree_inj _ _ Ht _ [] t) in Hw. }
    assert (Hmix : ∀ d' ds ds' q, d' ≠ d → walk h' t (d :: ds) = Some q →
      walk h' t (d' :: ds') = Some q → False).
    { intros d' ds ds' q Hne. rewrite below_walk_same, below_walk_other by done. intros H1 H2.
      destruct (Hgrow q) as [Hcq|HN]; [by exists ds| |].
      - destruct (walk_cons_Some _ _ _ _ _ H2) as (n0&c'&Hn0&Hc'&Hw). simplify_eq.
        by eapply (tree_children_disjoint h t n d c d' c' q); eauto; exists ds'.
      - by apply (Hnew q HN); exists (d' :: ds'). }
    intros [|d1 ds1] [|d2 ds2] q H1 H2; [done|by simplify_eq/=; apply Hroot in H2
      |by simplify_eq/=; apply Hroot in H1|].
    destruct (decide (d1 = d)) as [->|Hne1], (decide (d2 = d)) as [->|Hne2].
    + rewrite below_walk_same in H1, H2. f_equal. by eapply (tree_inj _ _ Htc).
    + by eapply Hmix in H2.
    + by eapply Hmix in H1.
    + rewrite below_walk_other in H1, H2 by done. by eapply (tree_inj _ _ Ht).
Qed.
End below.

(** ** A new child

    A tree [c] with nodes of its own is made the child [d] of [t]. *)
Section link.
Context (h : Heap) (t c : nptr) (n : SymbolPrefixTreeNode) (d : Descriptor).
Context (Ht : tree h t) (Hn : h !! t = Some n) (Hd : Children n !! d = None).
Context (Htc : tree h c) (Hdisj : ∀ p, reach h t p → ¬ reach h c p).

Definition linked : Heap := <[t := set_children n (<[d := c]> (Children n))]> h.

Lemma linked_root : linked !! t = Some (set_children n (<[d := c]> (Children n))).
Proof. apply lookup_insert_eq. Qed.

Lemma linked_walk_away x ds : ¬ reach h x t → walk linked x ds = walk h x ds.
Proof.
  intros Hx. apply walk_ext. intros q Hq. unfold linked.
  rewrite lookup_insert_ne; [done|]. by intros <-.
Qed.

Lemma linked_walk_new ds : walk linked t (d :: ds) = walk h c ds.
Proof.
  rewrite (walk_child _ _ _ _ c _ linked_root) by (cbn; apply lookup_insert_eq).
  apply linked_walk_away. intros Hct. by apply (Hdisj t (reach_refl h t)).
Qed.

Lemma linked_walk_old d' ds : d' ≠ d → walk linked t (d' :: ds) = walk h t (d' :: ds).
Proof.
  intros Hne. rewrite !walk_cons, linked_root, Hn. cbn. rewrite lookup_insert_ne by done.
  destruct (Children n !! d') as [c'|] eqn:Hd'; [|done]. cbn.
  apply linked_walk_away. by eapply tree_child_root.
Qed.

Lemma linked_reach p : reach linked t p → reach h t p ∨ reach h c p.
Proof.
  intros [[|d' ds] Hp]; [left; by exists []|].
  destruct (decide (d' = d)) as [->|].
  - rewrite linked_walk_new in Hp. right. by exists ds.
  - rewrite linked_walk_old in Hp by done. left. by exists (d' :: ds).
Qed.

Lemma linked_alloc q : is_Some (h !! q) → is_Some (linked !! q).
Proof.
  intros Hq. unfold linked. destruct (decide (q = t)) as [->|].
  - rewrite lookup_insert_eq. by eexists.
  - by rewrite lookup_insert_ne by done.
Qed.

Lemma linked_tree : tree linked t.
Proof.
  assert (Hnone : ∀ ds, walk h t (d :: ds) = None).
  { intros ds. rewrite walk_cons, Hn. cbn. by rewrite Hd. }
  split.
  - intros ds q Hq. apply linked_alloc. destruct (linked_reach q) as [[ds' Hq']|[ds' Hq']];
      [by exists ds|by eapply (tree_alloc _ _ Ht)|by eapply (tree_alloc _ _ Htc)].
  - assert (Hroot : ∀ d' ds, walk linked t (d' :: ds) ≠ Some t).
    { intros d' ds. destruct (decide (d' = d)) as [->|].
      - rewrite linked_walk_new. intros Hw. apply (Hdisj t (reach_refl h t)). by exists ds.
      - rewrite linked_walk_old by done. intros Hw. by apply (tree_inj _ _ Ht _ [] t) in Hw. }
    assert (Hmix : ∀ d' ds ds' q, d' ≠ d → walk linked t (d :: ds) = Some q →
      walk linked t (d' :: ds') = Some q → False).
    { intros d' ds ds' q Hne. rewrite linked_walk_new, linked_walk_old by done. intros H1 H2.
      apply (Hdisj q); [by exists (d' :: ds')|by exists ds]. }
    intros [|d1 ds1] [|d2 ds2] q H1 H2; [done|by simplify_eq/=; apply Hroot in H2
      |by simplify_eq/=; apply Hroot in H1|].
    destruct (decide (d1 = d)) as [->|Hne1], (decide (d2 = d)) as [->|Hne2].
    + rewrite linked_walk_new in H1, H2. f_equal. by eapply (tree_inj _ _ Htc).
    + by eapply Hmix in H2.
    + by eapply Hmix in H1.
    + rewrite linked_walk_old in H1, H2 by done. by eapply (tree_inj _ _ Ht).
Qed.
End link.

(** ** The information of a tree

    The versions and the revision of the node at a path. *)
Definition node_info (n : SymbolPrefixTreeNode) : gmap string VersionInfo * Z :=
  (default ∅ (SymbolVersions n), Revision n).
Definition info_at h p ds : option (gmap string VersionInfo * Z) :=
  q ← walk h p ds; node_info <$> h !! q.

Lemma info_at_nil h p : info_at h p [] = node_info <$> h !! p.
Proof. done. Qed.

Lemma info_at_child h p n d c ds :
  h !! p = Some n → Children n !! d = Some c → info_at h p (d :: ds) = info_at h c ds.
Proof. intros Hp Hd. unfold info_at. by rewrite (walk_child _ _ _ _ _ _ Hp Hd). Qed.

Lemma info_at_ext h h' p ds :
  (∀ q, reach h p q → h' !! q = h !! q) → info_at h' p ds = info_at h p ds.
Proof.
  intros Hext. unfold info_at.
  assert (Hw : walk h' p ds = walk h p ds) by (apply walk_ext; intros q Hq; by rewrite Hext).
  rewrite Hw. destruct (walk h p ds) as [q|] eqn:Hq; [|done]. cbn.
  rewrite Hext; [done|by exists ds].
Qed.

Lemma info_at_none h p n d ds :
  h !! p = Some n → Children n !! d = None → info_at h p (d :: ds) = None.
Proof. intros Hp Hd. unfold info_at. rewrite walk_cons, Hp. cbn. by rewrite Hd. Qed.

(** ** [Merge] *)

Definition merge_info (a b : option (gmap string VersionInfo * Z))
    : option (gmap string VersionInfo * Z) :=
  match a, b with
  | Some (v1, r1), Some (v2, r2) => Some (v2 ∪ v1, Z.max r1 r2)
  | Some x, None => Some x
  | None, y => y
  end.

Lemma merge_info_none a : merge_info a None = a.
Proof. by destruct a as [[]|]. Qed.

Lemma merge_into_info en cn :
  Some (node_info (merge_into en cn)) = merge_info (Some (node_info en)) (Some (node_info cn)).
Proof.
  unfold node_info, merge_into. cbn. do 2 f_equal.
  - destruct (SymbolVersions cn); cbn; [done|]. by rewrite (left_id_L ∅ (∪)).
  - destruct (Z.ltb_spec (Revision en) (Revision cn)); lia.
Qed.

(** Paths from [o] are shorter than [fuel]. *)
Definition depth_lt h p (fuel : nat) : Prop :=
  ∀ ds q, walk h p ds = Some q → (length ds < fuel)%nat.

(** The child [c] of the other tree has been merged at [d]. *)
Record merged_child h t d c h' : Prop := {
  mc_tree : tree h' t;
  mc_root : info_at h' t [] = info_at h t [];
  mc_same ds : info_at h' t (d :: ds) = merge_info (info_at h t (d :: ds)) (info_at h c ds);
  mc_other d' ds : d' ≠ d → info_at h' t (d' :: ds) = info_at h t (d' :: ds);
  mc_reach p : reach h' t p → reach h t p ∨ reach h c p;
  mc_frame p : ¬ reach h t p → ¬ reach h c p → h' !! p = h !! p
}.

(** The whole of the other tree below its root has been merged. *)
Record merged h t o h' : Prop := {
  m_tree : tree h' t;
  m_root : info_at h' t [] = info_at h t [];
  m_info d ds : info_at h' t (d :: ds) = merge_info (info_at h t (d :: ds)) (info_at h o (d :: ds));
  m_reach p : reach h' t p → reach h t p ∨ reach h o p;
  m_frame p : ¬ reach h t p → ¬ reach h o p → h' !! p = h !! p
}.

(** The other tree has no node of the first. *)
Definition apart h t o : Prop := ∀ p, reach h t p → ¬ reach h o p.

(** A write that keeps the children of its node changes no path. *)
Lemma same_children h p n n' q :
  h !! p = Some n → Children n' = Children n →
  Children <$> <[p := n']> h !! q = Children <$> h !! q.
Proof.
  intros Hp Hc. destruct (decide (q = p)) as [->|].
  - rewrite lookup_insert_eq, Hp. cbn. by rewrite Hc.
  - by rewrite lookup_insert_ne.
Qed.

Lemma adopt_child h t d c tn cn :
  tree h t → tree h c → apart h t c → h !! t = Some tn → h !! c = Some cn →
  Children tn !! d = None →
  merged_child h t d c
    (linked (<[c := set_parent cn (Some t)]> h) t c tn d).
Proof.
  intros Ht Hc Hap Htn Hcn Hd.
  set (h1 := <[c := set_parent cn (Some t)]> h).
  assert (Htc : t ≠ c) by (intros ->; by apply (Hap c (reach_refl h c)), reach_refl).
  assert (Hsame : ∀ q, Children <$> h1 !! q = Children <$> h !! q)
    by (intros q; by apply same_children with cn).
  assert (Hw : ∀ x ds, walk h1 x ds = walk h x ds) by (intros; apply walk_ext; eauto).
  assert (Hr : ∀ x q, reach h1 x q ↔ reach h x q) by (intros; apply reach_ext; eauto).
  assert (Ht1 : tree h1 t) by (eapply tree_ext; eauto).
  assert (Hc1 : tree h1 c) by (eapply tree_ext; eauto).
  assert (Htn1 : h1 !! t = Some tn) by (unfold h1; by rewrite lookup_insert_ne by done).
  assert (Hap1 : ∀ p, reach h1 t p → ¬ reach h1 c p) by (intros p; rewrite !Hr; apply Hap).
  assert (Hinfo : ∀ q, node_info <$> linked h1 t c tn d !! q = node_info <$> h !! q).
  { intros q. unfold linked. destruct (decide (q = t)) as [->|].
    - by rewrite lookup_insert_eq, Htn.
    - rewrite lookup_insert_ne by done. unfold h1. destruct (decide (q = c)) as [->|].
      + by rewrite lookup_insert_eq, Hcn.
      + by rewrite lookup_insert_ne by done. }
  split.
  - by apply linked_tree.
  - unfold info_at. cbn. by rewrite Hinfo.
  - intros ds. rewrite (info_at_none h t tn) by done. unfold info_at.
    rewrite linked_walk_new, Hw by done. cbn. destruct (walk h c ds); [|done]. apply Hinfo.
  - intros d' ds Hne. unfold info_at. rewrite linked_walk_old, Hw by done.
    destruct (walk h t (d' :: ds)); [|done]. apply Hinfo.
  - intros p Hp. apply linked_reach in Hp; [|done..]. by rewrite !Hr in Hp.
  - intros p Hp1 Hp2. unfold linked. rewrite lookup_insert_ne.
    + unfold h1. rewrite lookup_insert_ne; [done|]. intros <-. by apply Hp2, reach_refl.
    + intros <-. by apply Hp1, reach_refl.
Qed.

Lemma merge_existing h t d c e tn en cn h2 :
  tree h t → tree h c → apart h t c → h !! t = Some tn → h !! c = Some cn →
  Children tn !! d = Some e → h !! e = Some en →
  merged (<[e := merge_into en cn]> h) e c h2 → merged_child h t d c h2.
Proof.
  intros Ht Hc Hap Htn Hcn Hd Hen [M1 M2 M3 M4 M5].
  set (h1 := <[e := merge_into en cn]> h) in *.
  assert (Hsame : ∀ q, Children <$> h1 !! q = Children <$> h !! q)
    by (intros q; by apply same_children with en).
  assert (Hw : ∀ x ds, walk h1 x ds = walk h x ds) by (intros; apply walk_ext; eauto).
  assert (Hr : ∀ x q, reach h1 x q ↔ reach h x q) by (intros; apply reach_ext; eauto).
  assert (Hte : ¬ reach h e t) by (by eapply tree_child_root).
  assert (Hce : ¬ reach h c e) by (intros Hce; eapply Hap; [|done]; by eapply reach_child).
  assert (Htne : t ≠ e) by (intros ->; by apply Hte, reach_refl).
  assert (Htn1 : h1 !! t = Some tn) by (unfold h1; by rewrite lookup_insert_ne by done).
  assert (Ht1 : tree h1 t) by (eapply tree_ext; eauto).
  assert (Hsub : ∀ p, reach h e p → reach h t p)
    by (intros p Hp; eapply reach_trans; [by eapply reach_child|done]).
  assert (Hframe : ∀ p, reach h1 t p → ¬ reach h1 e p → h2 !! p = h1 !! p).
  { intros p Hp1 Hp2. apply M5; [done|]. rewrite Hr in *. by apply Hap. }
  assert (Hnew : ∀ p, reach h1 c p → ¬ reach h1 t p).
  { intros p. rewrite !Hr. intros Hcp Htp. by apply (Hap p). }
  assert (Hother : ∀ q, q ≠ e → h1 !! q = h !! q) by (intros q Hq; by apply lookup_insert_ne).
  assert (Hroot : h2 !! t = Some tn) by (by apply (below_root h1 h2 t e tn d)).
  split.
  - by apply (below_tree h1 h2 t e tn d (reach h1 c)).
  - by rewrite !info_at_nil, Hroot, Htn.
  - intros ds. rewrite (info_at_child h t tn d e) by done.
    rewrite (info_at_child h2 t tn d e) by done.
    destruct ds as [|d1 ds].
    + rewrite M2, !info_at_nil, Hen, Hcn. unfold h1. rewrite lookup_insert_eq.
      apply merge_into_info.
    + rewrite M3. f_equal.
      * unfold info_at. rewrite Hw. destruct (walk h e (d1 :: ds)) as [q|] eqn:Hq; [|done]. cbn.
        rewrite Hother; [done|]. intros ->.
        by apply (tree_inj _ _ (tree_child _ _ _ _ _ Ht Htn Hd) _ [] e) in Hq.
      * apply info_at_ext. intros q Hq. apply Hother. by intros ->.
  - intros d' ds Hne. unfold info_at.
    rewrite (below_walk_other h1 h2 t e tn d) by done. rewrite Hw.
    destruct (walk h t (d' :: ds)) as [q|] eqn:Hq; [|done]. cbn.
    destruct (walk_cons_Some _ _ _ _ _ Hq) as (n0&c'&Hn0&Hc'&Hw'). simplify_eq.
    rewrite (below_other h1 h2 t e tn d) with (d' := d') (c' := c');
      [|done..|rewrite Hr; by exists ds].
    rewrite Hother; [done|]. intros ->.
    apply (tree_children_disjoint h t tn d' c' d e e); [done..|by exists ds|apply reach_refl].
  - intros p Hp. apply (below_reach h1 h2 t e tn d (reach h1 c)) in Hp; [|done..].
    by rewrite !Hr in Hp.
  - intros p Hp1 Hp2. rewrite M5; [|rewrite Hr; by intros ?%Hsub|by rewrite Hr]. apply Hother.
    intros ->. apply Hp1. by eapply reach_child.
Qed.

(** The body of the loop over the children of the other node. *)
Definition merge_step (fuel : nat) (t : nptr) : Descriptor * nptr → TreeM unit := λ '(desc, child),
  tn <- load_node t;;
  cn <- load_node child;;
  match Children tn !! desc with
  | None =>
    store_node child (set_parent cn (Some t)) ;;;
    store_node t (set_children tn (<[desc := child]> (Children tn)))
  | Some existing =>
    en <- load_node existing;;
    store_node existing (merge_into en cn) ;;;
    Merge fuel existing child
  end.

Lemma Merge_S fuel t o :
  Merge (S fuel) t o = (on <- load_node o;; forM_ (map_to_list (Children on)) (merge_step fuel t)).
Proof. done. Qed.

Lemma load_node_ok p n h k : h !! p = Some n → load_node p (mkForest h k) = (Ok n, mkForest h k).
Proof. intros Hp. unfold load_node. cbn. by rewrite Hp. Qed.

Definition merge_terminates (fuel : nat) : Prop := ∀ h k t o,
  tree h t → tree h o → apart h t o → depth_lt h o fuel →
  ∃ h', Merge fuel t o (mkForest h k) = (Ok tt, mkForest h' k) ∧ merged h t o h'.

Lemma merge_step_ok fuel h k t d c :
  merge_terminates fuel → tree h t → tree h c → apart h t c → depth_lt h c fuel →
  ∃ h', merge_step fuel t (d, c) (mkForest h k) = (Ok tt, mkForest h' k) ∧ merged_child h t d c h'.
Proof.
  intros IH Ht Hc Hap Hdep.
  destruct (tree_alloc _ _ Ht [] t eq_refl) as [tn Htn].
  destruct (tree_alloc _ _ Hc [] c eq_refl) as [cn Hcn].
  unfold merge_step. rewrite (sbind_ok _ _ _ _ _ (load_node_ok _ _ _ k Htn)).
  rewrite (sbind_ok _ _ _ _ _ (load_node_ok _ _ _ k Hcn)).
  destruct (Children tn !! d) as [e|] eqn:Hd.
  - assert (Hte : reach h t e) by (by eapply reach_child).
    destruct (tree_alloc _ _ (tree_child _ _ _ _ _ Ht Htn Hd) [] e eq_refl) as [en Hen].
    rewrite (sbind_ok _ _ _ _ _ (load_node_ok _ _ _ k Hen)).
    assert (Hsame : ∀ q, Children <$> <[e := merge_into en cn]> h !! q = Children <$> h !! q)
      by (intros q; by apply same_children with en).
    destruct (IH (<[e := merge_into en cn]> h) k e c) as (h'&Hrun&Hm).
    + eapply tree_ext; [intros q _; apply Hsame|by apply (tree_child h t tn d)].
    + eapply tree_ext; [intros q _; apply Hsame|done].
    + intros p Hep Hcp. rewrite (reach_ext h) in Hep, Hcp by auto.
      apply (Hap p); [by apply (reach_trans h t e)|done].
    + intros ds q. rewrite (walk_ext h) by auto. apply Hdep.
    + exists h'. split; [exact Hrun|by eapply merge_existing].
  - eexists. split; [reflexivity|]. by apply adopt_child.
Qed.

(** The other children are as they were after one has been merged. *)
Lemma merged_child_apart h t d c h' c' :
  merged_child h t d c h' → apart h t c' → apart h c c' →
  (∀ q, reach h c' q → h' !! q = h !! q) ∧ apart h' t c'.
Proof.
  intros [M1 M2 M3 M4 M5 M6] Ha1 Ha2.
  assert (Hq : ∀ q, reach h c' q → h' !! q = h !! q).
  { intros q Hq. apply M6; intros Hx; [by apply (Ha1 q)|by apply (Ha2 q)]. }
  split; [done|]. intros p Hp. rewrite (reach_ext h) by (intros q Hq'; by rewrite Hq).
  destruct (M5 p Hp); [by apply Ha1|by apply Ha2].
Qed.

Record merged_list h t (l : list (Descriptor * nptr)) h' : Prop := {
  ml_tree : tree h' t;
  ml_root : info_at h' t [] = info_at h t [];
  ml_info d ds : info_at h' t (d :: ds) = merge_info (info_at h t (d :: ds))
    (c ← (list_to_map l : gmap Descriptor nptr) !! d; info_at h c ds);
  ml_reach p : reach h' t p → reach h t p ∨ Exists (λ x, reach h x.2 p) l;
  ml_frame p : ¬ reach h t p → Forall (λ x, ¬ reach h x.2 p) l → h' !! p = h !! p
}.

Definition mergeable h t (fuel : nat) (x : Descriptor * nptr) : Prop :=
  tree h x.2 ∧ apart h t x.2 ∧ depth_lt h x.2 fuel.

Lemma mergeable_after fuel h t d c h' l :
  merged_child h t d c h' → Forall (λ x, apart h c x.2) l → Forall (mergeable h t fuel) l →
  Forall (mergeable h' t fuel) l ∧ Forall (λ x, ∀ q, reach h x.2 q → h' !! q = h !! q) l.
Proof.
  intros Hm Ha Hl. rewrite <- Forall_and. apply Forall_forall. intros x Hx.
  rewrite Forall_forall in Ha, Hl. specialize (Ha x Hx). specialize (Hl x Hx) as (H1&H2&H3).
  destruct (merged_child_apart _ _ _ _ _ x.2 Hm H2 Ha) as [Hq Hap].
  assert (Hext : ∀ q, reach h x.2 q → Children <$> h' !! q = Children <$> h !! q)
    by (intros q Hq'; by rewrite Hq).
  split; [split; [by eapply tree_ext|split; [done|]]|done].
  intros ds q. rewrite (walk_ext h) by done. apply H3.
Qed.

Lemma apart_after h h' l :
  Forall (λ x, ∀ q, reach h x.2 q → h' !! q = h !! q) l →
  ForallOrdPairs (λ x y : Descriptor * nptr, apart h x.2 y.2) l →
  ForallOrdPairs (λ x y : Descriptor * nptr, apart h' x.2 y.2) l.
Proof.
  intros Hl Hp. induction Hp as [|x l Hx Hp IH]; [constructor|].
  inversion_clear Hl as [|?? Hhx Hhl]. constructor; [|by apply IH].
  rewrite Forall_forall in *. intros y Hy p Hxp Hyp.
  rewrite (reach_ext h) in Hxp by (intros q Hq; by rewrite Hhx).
  rewrite (reach_ext h) in Hyp by (intros q Hq; by rewrite (Hhl y)).
  by apply (Hx y Hy p).
Qed.

Lemma merged_list_cons h t d c l h1 h2 :
  d ∉ l.*1 → Forall (λ x, ∀ q, reach h x.2 q → h1 !! q = h !! q) l →
  merged_child h t d c h1 → merged_list h1 t l h2 → merged_list h t ((d, c) :: l) h2.
Proof.
  intros Hd Hsame [M1 M2 M3 M4 M5 M6] [L1 L2 L3 L4 L5].
  rewrite Forall_forall in Hsame.
  assert (Hr : ∀ x p, x ∈ l → reach h1 x.2 p ↔ reach h x.2 p).
  { intros x p Hx. apply reach_ext. intros q Hq. by rewrite (Hsame x). }
  split.
  - done.
  - by rewrite L2.
  - intros d' ds. rewrite L3. cbn [list_to_map foldr]. destruct (decide (d' = d)) as [->|Hne].
    + rewrite lookup_insert_eq, not_elem_of_list_to_map_1, M3 by done.
      apply merge_info_none.
    + rewrite lookup_insert_ne, M4 by done. f_equal.
      destruct (list_to_map l !! d') as [c'|] eqn:Hc'; [|done]. cbn.
      apply elem_of_list_to_map_2 in Hc'. apply info_at_ext. by apply (Hsame (d', c')).
  - intros p Hp. destruct (L4 p Hp) as [H1|H1].
    + destruct (M5 p H1); [by left|right; by constructor].
    + right. apply Exists_cons_tl. rewrite Exists_exists in *. destruct H1 as (x&Hx&H1).
      exists x. split; [done|]. by rewrite <- Hr.
  - intros p Hp Hl. inversion_clear Hl as [|?? Hcp Hlp]. cbn in Hcp.
    rewrite L5; [by apply M6|intros Hx; by destruct (M5 p Hx)|].
    rewrite Forall_forall in *. intros x Hx. rewrite Hr by done. by apply Hlp.
Qed.

Lemma merge_list_ok fuel t k l : merge_terminates fuel → ∀ h,
  tree h t → NoDup l.*1 → Forall (mergeable h t fuel) l →
  ForallOrdPairs (λ x y : Descriptor * nptr, apart h x.2 y.2) l →
  ∃ h', forM_ l (merge_step fuel t) (mkForest h k) = (Ok tt, mkForest h' k) ∧ merged_list h t l h'.
Proof.
  intros IHfuel. induction l as [|[d c] l IH]; intros h Ht Hnd Hm Hp.
  - exists h. split; [done|]. split; try done; [|by left].
    intros d ds. cbn. rewrite lookup_empty. symmetry. apply merge_info_none.
  - inversion_clear Hm as [|?? (Hc&Hap&Hdep) Hm']. inversion_clear Hp as [|?? Hpx Hp'].
    cbn in Hnd. apply NoDup_cons in Hnd as [Hd Hnd].
    destruct (merge_step_ok fuel h k t d c) as (h1&Hrun1&Hmc); [done..|].
    destruct (mergeable_after fuel h t d c h1 l) as [Hm1 Hsame]; [done..|].
    destruct (IH h1) as (h2&Hrun2&Hml); [by eapply mc_tree|done..|by eapply apart_after|].
    exists h2. split; [|by eapply merged_list_cons].
    cbn [forM_]. by rewrite (sbind_ok _ _ _ _ _ Hrun1).
Qed.

Lemma children_apart h o on :
  tree h o → h !! o = Some on →
  ForallOrdPairs (λ x y : Descriptor * nptr, apart h x.2 y.2) (map_to_list (Children on)).
Proof.
  intros Ho Hon.
  assert (Hin : ∀ x, x ∈ map_to_list (Children on) → Children on !! x.1 = Some x.2)
    by (intros [d c] Hx; by apply elem_of_map_to_list in Hx).
  pose proof (NoDup_fst_map_to_list (Children on)) as Hnd.
  induction (map_to_list (Children on)) as [|x l IH]; constructor.
  - cbn in Hnd. apply NoDup_cons in Hnd as [Hx _]. apply Forall_forall. intros y Hy p H1 H2.
    apply (tree_children_disjoint h o on x.1 x.2 y.1 y.2 p); try done.
    + apply Hin. by left.
    + apply Hin. by right.
    + intros Heq. apply Hx. rewrite Heq. by apply list_elem_of_fmap_2.
  - apply IH; [intros y Hy; apply Hin; by right|]. cbn in Hnd. by apply NoDup_cons in Hnd as [_ ?].
Qed.

Lemma Merge_ok fuel : merge_terminates fuel.
Proof.
  induction fuel as [|fuel IH]; intros h k t o Ht Ho Hap Hdep.
  { specialize (Hdep [] o eq_refl). cbn in Hdep. lia. }
  destruct (tree_alloc _ _ Ho [] o eq_refl) as [on Hon].
  rewrite Merge_S, (sbind_ok _ _ _ _ _ (load_node_ok _ _ _ k Hon)).
  assert (Hchild : ∀ x p, x ∈ map_to_list (Children on) → reach h x.2 p → reach h o p).
  { intros [d c] p Hx Hp. apply elem_of_map_to_list in Hx. apply (reach_trans h o c); [|done].
    by apply (reach_child h o on d). }
  destruct (merge_list_ok fuel t k (map_to_list (Children on)) IH h) as (h'&Hrun&[L1 L2 L3 L4 L5]).
  - done.
  - apply NoDup_fst_map_to_list.
  - apply Forall_forall. intros [d c] Hx. apply elem_of_map_to_list in Hx as Hc. split_and!.
    + by apply (tree_child h o on d).
    + intros p Hp Hcp. by apply (Hap p Hp), (Hchild (d, c)).
    + intros ds q Hq. specialize (Hdep (d :: ds) q).
      rewrite (walk_child _ _ _ _ _ _ Hon Hc) in Hdep. specialize (Hdep Hq). cbn in Hdep. lia.
  - by apply (children_apart h o on).
  - exists h'. split; [done|]. split; try done.
    + intros d ds. rewrite L3, list_to_map_to_list. f_equal.
      destruct (Children on !! d) as [c|] eqn:Hc.
      * by rewrite (info_at_child h o on d c).
      * by rewrite (info_at_none h o on).
    + intros p Hp. destruct (L4 p Hp) as [?|Hx]; [by left|]. right.
      apply Exists_exists in Hx as (x&Hx&Hxp). by eapply Hchild.
    + intros p H1 H2. apply L5; [done|]. apply Forall_forall. intros x Hx Hxp.
      by eapply H2, Hchild.
Qed.

(** ** [AddSymbol] *)

(** Every node below the root has a map of versions, and no node has yet been
    allocated from [k] on. *)
Definition versioned h t : Prop :=
  ∀ d ds q n, walk h t (d :: ds) = Some q → h !! q = Some n → is_Some (SymbolVersions n).
Definition fresh h (k : nptr) : Prop := ∀ p, is_Some (h !! p) → (p < k)%N.

(** A write to the node at [ds] that keeps its children. *)
Section write.
Context (h : Heap) (t q : nptr) (n n' : SymbolPrefixTreeNode) (ds : list Descriptor).
Context (Ht : tree h t) (Hq : walk h t ds = Some q) (Hn : h !! q = Some n).
Context (Hc : Children n' = Children n).

Lemma write_walk x xs : walk (<[q := n']> h) x xs = walk h x xs.
Proof. apply walk_ext. intros y _. by apply same_children with n. Qed.

Lemma write_tree x : tree h x → tree (<[q := n']> h) x.
Proof. apply tree_ext. intros y _. by apply same_children with n. Qed.

Lemma write_reach x y : reach (<[q := n']> h) x y ↔ reach h x y.
Proof. apply reach_ext. intros z _. by apply same_children with n. Qed.

Lemma write_info xs :
  info_at (<[q := n']> h) t xs = if decide (xs = ds) then Some (node_info n') else info_at h t xs.
Proof.
  unfold info_at. rewrite write_walk. destruct (decide (xs = ds)) as [->|Hne].
  - rewrite Hq. cbn. by rewrite lookup_insert_eq.
  - destruct (walk h t xs) as [y|] eqn:Hy; [|done]. cbn. rewrite lookup_insert_ne; [done|].
    intros <-. by apply Hne, (tree_inj _ _ Ht _ _ q).
Qed.

Lemma write_versioned : is_Some (SymbolVersions n') → versioned h t → versioned (<[q := n']> h) t.
Proof.
  intros Hv Hold d xs y m. rewrite write_walk. intros Hw. destruct (decide (y = q)) as [->|].
  - rewrite lookup_insert_eq. by intros [= <-].
  - rewrite lookup_insert_ne by done. by eapply Hold.
Qed.

Lemma write_fresh k : fresh h k → fresh (<[q := n']> h) k.
Proof.
  intros Hf p. destruct (decide (p = q)) as [->|].
  - intros _. apply Hf. by eexists.
  - rewrite lookup_insert_ne by done. apply Hf.
Qed.
End write.

Lemma versioned_sub h t d c n :
  h !! t = Some n → Children n !! d = Some c → versioned h t → versioned h c.
Proof.
  intros Hn Hd Hv d' ds q m Hw. apply (Hv d (d' :: ds)). by rewrite (walk_child _ _ _ _ _ _ Hn Hd).
Qed.

(** What [addChild] does to the tree [t]: its child [c] at [d] has the
    information [x]. *)
Record child_added h k t d (x : gmap string VersionInfo * Z) c h' k' : Prop := {
  ca_tree : tree h' t;
  ca_child : ∃ n, h' !! t = Some n ∧ Children n !! d = Some c;
  ca_root : SymbolVersions <$> h' !! t = SymbolVersions <$> h !! t;
  ca_info xs : info_at h' t xs = if decide (xs = [d]) then Some x else info_at h t xs;
  ca_reach p : reach h' t p → reach h t p ∨ (k ≤ p)%N;
  ca_frame p : ¬ reach h t p → (p < k)%N → h' !! p = h !! p;
  ca_versioned : versioned h' t;
  ca_fresh : fresh h' k' ∧ (k ≤ k')%N
}.

Lemma fresh_none h k : fresh h k → h !! k = None.
Proof.
  intros Hf. destruct (h !! k) eqn:Hk; [|done]. assert (k < k)%N by (apply Hf; by eexists). lia.
Qed.

Lemma tree_below_fresh h k t p : tree h t → fresh h k → reach h t p → (p < k)%N.
Proof. intros Ht Hf [ds Hp]. by eapply Hf, tree_alloc. Qed.

(** A new node is made the child [d] of [t]. *)
Section new_child.
Context (h : Heap) (k t : nptr) (d : Descriptor) (tn new : SymbolPrefixTreeNode).
Context (Ht : tree h t) (Hf : fresh h k) (Htn : h !! t = Some tn) (Hd : Children tn !! d = None).
Context (Hnew : Children new = ∅).

Abbreviation h1 := (<[k := new]> h).
Abbreviation h2 := (linked (<[k := new]> h) t k tn d).

Lemma new_old q : reach h t q → h1 !! q = h !! q.
Proof.
  intros Hq. apply lookup_insert_ne. pose proof (tree_below_fresh _ _ _ _ Ht Hf Hq). lia.
Qed.
Lemma new_walk_old ds : walk h1 t ds = walk h t ds.
Proof. apply walk_ext. intros q Hq. by rewrite new_old. Qed.
Lemma new_reach_old q : reach h1 t q ↔ reach h t q.
Proof. apply reach_ext. intros q' Hq. by rewrite new_old. Qed.
Lemma new_tree_old : tree h1 t.
Proof. eapply tree_ext; [|done]. intros q Hq. by rewrite new_old. Qed.
Lemma new_root_old : h1 !! t = Some tn.
Proof. rewrite new_old; [done|apply reach_refl]. Qed.

Lemma new_leaf ds q : walk h1 k ds = Some q → ds = [] ∧ q = k.
Proof.
  destruct ds as [|d' ds]; intros Hw; [by injection Hw|].
  destruct (walk_cons_Some _ _ _ _ _ Hw) as (m&c&Hm&Hc&_). rewrite lookup_insert_eq in Hm.
  injection Hm as <-. by rewrite Hnew, lookup_empty in Hc.
Qed.
Lemma new_leaf_tree : tree h1 k.
Proof.
  split; [|by intros ?? q [-> _]%new_leaf [-> _]%new_leaf]. intros ds q [_ ->]%new_leaf.
  rewrite lookup_insert_eq. by eexists.
Qed.
Lemma new_apart p : reach h1 t p → ¬ reach h1 k p.
Proof.
  intros Hp [ds [_ ->]%new_leaf]. rewrite new_reach_old in Hp.
  pose proof (tree_below_fresh _ _ _ _ Ht Hf Hp). lia.
Qed.

Lemma new_tree : tree h2 t.
Proof.
  apply linked_tree; auto using new_tree_old, new_root_old, new_leaf_tree, new_apart.
Qed.
Lemma new_lookup q : q ≠ t → h2 !! q = h1 !! q.
Proof. intros Hq. by apply lookup_insert_ne. Qed.
Lemma new_walk_new ds : walk h2 t (d :: ds) = walk h1 k ds.
Proof. apply linked_walk_new. exact new_apart. Qed.
Lemma new_walk_other d' ds : d' ≠ d → walk h2 t (d' :: ds) = walk h t (d' :: ds).
Proof.
  intros Hne. rewrite linked_walk_old; [apply new_walk_old|..|done];
    [apply new_tree_old|apply new_root_old].
Qed.
Lemma new_not_root d' ds q : walk h2 t (d' :: ds) = Some q → q ≠ t.
Proof. intros Hw ->. by apply (tree_inj _ _ new_tree _ [] t) in Hw. Qed.
Lemma new_ne : t ≠ k.
Proof. intros <-. pose proof (fresh_none _ _ Hf). congruence. Qed.

Lemma new_info_child xs :
  info_at h2 t (d :: xs) = if decide (xs = []) then Some (node_info new) else None.
Proof.
  unfold info_at. rewrite new_walk_new. case_decide as Hxs.
  - subst. cbn. by rewrite new_lookup, lookup_insert_eq by (symmetry; apply new_ne).
  - destruct (walk h1 k xs) eqn:Hw; [|done]. by apply new_leaf in Hw as [? _].
Qed.
Lemma new_info_other d' xs : d' ≠ d → info_at h2 t (d' :: xs) = info_at h t (d' :: xs).
Proof.
  intros Hne. unfold info_at. pose proof (new_walk_other d' xs Hne) as Hw. rewrite Hw.
  destruct (walk h t (d' :: xs)) as [q|] eqn:Hq; [|done]. cbn.
  rewrite new_lookup, new_old; [done|by eexists|]. by eapply new_not_root.
Qed.

Lemma new_reach p : reach h2 t p → reach h t p ∨ p = k.
Proof.
  intros Hp. apply linked_reach in Hp as [Hp|[ds [_ ->]%new_leaf]];
    [|by right|apply new_tree_old|apply new_root_old|exact new_apart].
  left. by rewrite new_reach_old in Hp.
Qed.

Lemma new_versioned : is_Some (SymbolVersions new) → versioned h t → versioned h2 t.
Proof.
  intros Hs Hv d' ds q m Hw. rewrite new_lookup by (by eapply new_not_root).
  destruct (decide (d' = d)) as [->|Hne].
  - rewrite new_walk_new in Hw. apply new_leaf in Hw as [_ ->].
    rewrite lookup_insert_eq. by intros [= <-].
  - rewrite new_walk_other in Hw by done. rewrite new_old by (by eexists). by apply (Hv d' ds).
Qed.

Lemma new_fresh : fresh h2 (N.succ k).
Proof.
  intros p Hp. assert (t < k)%N by (apply Hf; by eexists).
  destruct (decide (p = t)) as [->|]; [lia|]. rewrite new_lookup in Hp by done.
  destruct (decide (p = k)) as [->|]; [lia|]. rewrite lookup_insert_ne in Hp by done.
  apply Hf in Hp. lia.
Qed.
End new_child.

Lemma add_new_child h k t d tn preamble rev :
  tree h t → versioned h t → fresh h k → h !! t = Some tn → Children tn !! d = None →
  child_added h k t d (∅, rev) k
    (linked (<[k := mkNode (Some t) preamble (Some ∅) ∅ rev]> h) t k tn d) (N.succ k).
Proof.
  intros Ht Hv Hf Htn Hd. split.
  - by apply new_tree.
  - eexists. split; [apply lookup_insert_eq|]. apply lookup_insert_eq.
  - by rewrite linked_root, Htn.
  - intros [|d' xs].
    + by rewrite decide_False, !info_at_nil, Htn, linked_root by done.
    + destruct (decide (d' = d)) as [->|Hne].
      * rewrite new_info_child, !(info_at_none h t tn d) by done.
        by destruct xs; [rewrite !decide_True by done|rewrite !decide_False by done].
      * rewrite decide_False by congruence. by apply new_info_other.
  - intros p Hp. apply new_reach in Hp as [Hp| ->]; [by left|right; lia|done..].
  - intros p Hp Hlt. rewrite new_lookup by (intros ->; by apply Hp, reach_refl).
    apply lookup_insert_ne. lia.
  - apply new_versioned; [done..|by eexists|done].
  - split; [by apply new_fresh|lia].
Qed.

(** A write to the child [c] at [d]. *)
Lemma write_child h k t d c x h' k' cn cn' :
  child_added h k t d x c h' k' → h' !! c = Some cn →
  Children cn' = Children cn → is_Some (SymbolVersions cn') →
  child_added h k t d (node_info cn') c (<[c := cn']> h') k'.
Proof.
  intros [C1 (n&Hn&Hc) C2 C3 C4 C5 C6 [C7 C8]] Hcn Hch Hv.
  assert (Hw : walk h' t [d] = Some c) by (by rewrite (walk_child _ _ _ _ _ _ Hn Hc)).
  assert (Hct : c ≠ t) by (intros ->; by apply (tree_inj _ _ C1 _ [] t) in Hw).
  split.
  - by apply write_tree with cn.
  - exists n. by rewrite lookup_insert_ne.
  - by rewrite lookup_insert_ne.
  - intros xs. rewrite (write_info h' t c cn cn' [d]) by done. rewrite C3. by case_decide.
  - intros p. rewrite (write_reach h' c cn) by done. apply C4.
  - intros p Hp Hlt. rewrite lookup_insert_ne; [by apply C5|]. intros <-.
    destruct (C4 c) as [|]; [by eexists|done|lia].
  - by apply write_versioned with cn.
  - split; [by apply write_fresh with cn|done].
Qed.

(** The child that is there already. *)
Lemma existing_child h k t d e tn en :
  tree h t → versioned h t → fresh h k → h !! t = Some tn → Children tn !! d = Some e →
  h !! e = Some en → child_added h k t d (node_info en) e h k.
Proof.
  intros Ht Hv Hf Htn Hd Hen. split; auto using N.le_refl.
  - by exists tn.
  - intros xs. case_decide; [|done]. subst. rewrite (info_at_child h t tn d e) by done.
    by rewrite info_at_nil, Hen.
Qed.

Definition put_version (info : option Model.SymbolInformation) (path version : string)
    (vs : gmap string VersionInfo) : gmap string VersionInfo :=
  match info with None => vs | Some i => <[version := mkVersionInfo i path]> vs end.

Lemma child_node h k t d x c h' k' : child_added h k t d x c h' k' →
  ∃ cn vs, h' !! c = Some cn ∧ SymbolVersions cn = Some vs ∧ x = (vs, Revision cn).
Proof.
  intros [C1 (n&Hn&Hc) _ C3 _ _ C6 _].
  assert (Hw : walk h' t [d] = Some c) by (by rewrite (walk_child _ _ _ _ _ _ Hn Hc)).
  destruct (tree_alloc _ _ C1 _ _ Hw) as [cn Hcn].
  destruct (C6 d [] c cn Hw Hcn) as [vs Hvs].
  exists cn, vs. split_and!; [done..|]. specialize (C3 [d]). rewrite decide_True in C3 by done.
  unfold info_at, node_info in C3. rewrite Hw in C3. cbn in C3. rewrite Hcn in C3. cbn in C3.
  rewrite Hvs in C3. by injection C3.
Qed.

(** The first half of [addChild]: the child is there with the new revision. *)
Lemma ensure_child h k t d tn preamble rev :
  tree h t → versioned h t → fresh h k → h !! t = Some tn →
  ∃ c h' k', (match Children tn !! d with
    | None =>
      c <- alloc_node (mkNode (Some t) preamble (Some ∅) ∅ rev);;
      store_node t (set_children tn (<[d := c]> (Children tn))) ;;; sret (c, true)
    | Some existing =>
      en <- load_node existing;;
      store_node existing (set_revision en rev) ;;; sret (existing, false)
    end) (mkForest h k) = (Ok (c, bool_decide (walk h t [d] = None)), mkForest h' k') ∧
    child_added h k t d (default ∅ (fst <$> info_at h t [d]), rev) c h' k'.
Proof.
  intros Ht Hv Hf Htn. cbn [walk]. rewrite Htn. cbn [mbind option_bind].
  destruct (Children tn !! d) as [e|] eqn:Hd.
  - destruct (tree_alloc _ _ (tree_child _ _ _ _ _ Ht Htn Hd) [] e eq_refl) as [en Hen].
    rewrite (sbind_ok _ _ _ _ _ (load_node_ok _ _ _ k Hen)).
    rewrite (info_at_child h t tn d e), info_at_nil, Hen by done.
    exists e, (<[e := set_revision en rev]> h), k. split; [done|].
    apply (write_child h k t d e (node_info en) h k en (set_revision en rev));
      [by apply existing_child with tn|done..|].
    apply (Hv d [] e en); [|done]. by rewrite (walk_child _ _ _ _ _ _ Htn Hd).
  - rewrite (info_at_none h t tn) by done.
    eexists k, (linked (<[k := mkNode (Some t) preamble (Some ∅) ∅ rev]> h) t k tn d), (N.succ k).
    split; [|by apply add_new_child]. reflexivity.
Qed.

Lemma addChild_ok h k t d path preamble info rev version :
  tree h t → versioned h t → fresh h k →
  ∃ c h' k', addChild t path preamble d info rev version (mkForest h k)
    = (Ok (c, bool_decide (walk h t [d] = None)), mkForest h' k') ∧
  child_added h k t d
    (put_version info path version (default ∅ (fst <$> info_at h t [d])), rev) c h' k'.
Proof.
  intros Ht Hv Hf. destruct (tree_alloc _ _ Ht [] t eq_refl) as [tn Htn].
  destruct (ensure_child h k t d tn preamble rev) as (c&h'&k'&Hrun&Hca); [done..|].
  unfold addChild.
  rewrite (sbind_ok _ _ _ _ _ (load_node_ok _ _ _ k Htn)), (sbind_ok _ _ _ _ _ Hrun).
  destruct info as [i|]; [|by exists c, h', k'].
  destruct (child_node _ _ _ _ _ _ _ _ Hca) as (cn&vs&Hcn&Hvs&Hx).
  rewrite (sbind_ok _ _ _ _ _ (load_node_ok _ _ _ k' Hcn)), Hvs. injection Hx as -> Hrev.
  eexists c, _, k'. split; [done|]. rewrite Hrev.
  apply (write_child h k t d c _ h' k' cn
    (set_versions cn (Some (put_version (Some i) path version vs)))) in Hca; [done..|by eexists].
Qed.

(** The information at the path [xs] when a symbol is added at [ds]: the nodes
    on the way get the new revision, the last one the version too. *)
Definition added_info ds (u : gmap string VersionInfo → gmap string VersionInfo) (rev : Z)
    (xs : list Descriptor) (old : option (gmap string VersionInfo * Z))
    : option (gmap string VersionInfo * Z) :=
  if decide (xs ≠ [] ∧ xs `prefix_of` ds) then
    Some ((if decide (xs = ds) then u else id) (default ∅ (fst <$> old)), rev)
  else old.

Record added h k t ds (u : gmap string VersionInfo → gmap string VersionInfo) (rev : Z)
    node h' k' : Prop := {
  ad_tree : tree h' t;
  ad_walk : walk h' t ds = Some node;
  ad_root : SymbolVersions <$> h' !! t = SymbolVersions <$> h !! t;
  ad_info xs : info_at h' t xs = added_info ds u rev xs (info_at h t xs);
  ad_reach p : reach h' t p → reach h t p ∨ (k ≤ p)%N;
  ad_frame p : ¬ reach h t p → (p < k)%N → h' !! p = h !! p;
  ad_versioned : versioned h' t;
  ad_fresh : fresh h' k' ∧ (k ≤ k')%N
}.

Lemma added_info_nil d ds u rev old : added_info (d :: ds) u rev [] old = old.
Proof. unfold added_info. rewrite decide_False; [done|]. by intros [? _]. Qed.
Lemma added_info_other d ds u rev d' xs old :
  d' ≠ d → added_info (d :: ds) u rev (d' :: xs) old = old.
Proof.
  intros Hne. unfold added_info. rewrite decide_False; [done|].
  intros [_ Hp]. apply Hne. by eapply prefix_cons_inv_1.
Qed.
Lemma added_info_head d ds u rev old :
  added_info (d :: ds) u rev [d] old =
  Some ((if decide (ds = []) then u else id) (default ∅ (fst <$> old)), rev).
Proof.
  unfold added_info. rewrite decide_True by (split; [done|apply prefix_cons, prefix_nil]).
  do 2 f_equal. destruct (decide (ds = [])) as [->|]; [by rewrite decide_True|].
  rewrite decide_False; [done|]. by intros [= <-].
Qed.
Lemma added_info_tail d ds u rev x xs old :
  added_info (d :: ds) u rev (d :: x :: xs) old = added_info ds u rev (x :: xs) old.
Proof.
  unfold added_info. destruct (decide (x :: xs `prefix_of` ds)) as [Hp|Hp].
  - rewrite (decide_True (P := d :: x :: xs ≠ [] ∧ _)) by (split; [done|by apply prefix_cons]).
    rewrite (decide_True (P := x :: xs ≠ [] ∧ _)) by done.
    do 2 f_equal. destruct (decide (x :: xs = ds)) as [<-|]; [by rewrite decide_True|].
    rewrite decide_False; [done|]. by intros [= ?].
  - rewrite !decide_False; [done|by intros [_ ?]|]. intros [_ ?]. by apply Hp, prefix_cons_inv_2 with d d.
Qed.

Lemma child_added_last h k t d u rev c h' k' :
  child_added h k t d (u (default ∅ (fst <$> info_at h t [d])), rev) c h' k' →
  added h k t [d] u rev c h' k'.
Proof.
  intros [C1 (n&Hn&Hc) C2 C3 C4 C5 C6 C7]. split; try done.
  - by rewrite (walk_child _ _ _ _ _ _ Hn Hc).
  - intros xs. rewrite C3. destruct (decide (xs = [d])) as [->|Hne].
    + by rewrite added_info_head.
    + destruct xs as [|x xs]; [by rewrite added_info_nil|].
      destruct (decide (x = d)) as [->|]; [|by rewrite added_info_other].
      destruct xs as [|x xs]; [done|]. rewrite added_info_tail. unfold added_info.
      rewrite decide_False; [done|]. intros [_ Hp]. by apply prefix_nil_inv in Hp.
Qed.

(** The symbol is added below the child that [addChild] has made. *)
Section add_below.
Context (h : Heap) (k t : nptr) (d : Descriptor) (c : nptr) (h1 : Heap) (k1 : nptr).
Context (ds : list Descriptor) (u : gmap string VersionInfo → gmap string VersionInfo) (rev : Z).
Context (node : nptr) (h2 : Heap) (k2 : nptr) (n : SymbolPrefixTreeNode).
Context (Ht : tree h t) (Hf : fresh h k) (Hds : ds ≠ []).
Context (CA : child_added h k t d (default ∅ (fst <$> info_at h t [d]), rev) c h1 k1).
Context (AD : added h1 k1 c ds u rev node h2 k2).
Context (Hn : h1 !! t = Some n) (Hc : Children n !! d = Some c).

Let Ht1 : tree h1 t := ca_tree _ _ _ _ _ _ _ _ CA.
Let Htc : tree h2 c := ad_tree _ _ _ _ _ _ _ _ _ AD.

Lemma add_below_frame p : reach h1 t p → ¬ reach h1 c p → h2 !! p = h1 !! p.
Proof.
  intros Hp Hcp. apply (ad_frame _ _ _ _ _ _ _ _ _ AD); [done|].
  apply (tree_below_fresh h1 k1 t); [apply Ht1|apply (ca_fresh _ _ _ _ _ _ _ _ CA)|done].
Qed.
Lemma add_below_new p : (k1 ≤ p)%N → ¬ reach h1 t p.
Proof.
  intros Hp Hr. pose proof (tree_below_fresh h1 k1 t p Ht1 (proj1 (ca_fresh _ _ _ _ _ _ _ _ CA)) Hr).
  lia.
Qed.
Lemma add_below_root : h2 !! t = Some n.
Proof. by apply (below_root h1 h2 t c n d Ht1 Hn Hc), add_below_frame. Qed.

Lemma add_below_other d' q xs : d' ≠ d → walk h2 t (d' :: xs) = Some q →
  walk h1 t (d' :: xs) = Some q ∧ h2 !! q = h1 !! q.
Proof.
  intros Hne Hq.
  rewrite (below_walk_other h1 h2 t c n d Ht1 Hn Hc add_below_frame) in Hq by done.
  split; [done|]. destruct (walk_cons_Some _ _ _ _ _ Hq) as (n0&c'&Hn0&Hc'&Hw). simplify_eq.
  apply (below_other h1 h2 t c n d Ht1 Hn Hc add_below_frame d' c'); [done..|]. by exists xs.
Qed.

Lemma add_below_info xs : info_at h2 t xs = added_info (d :: ds) u rev xs (info_at h t xs).
Proof.
  pose proof (ca_info _ _ _ _ _ _ _ _ CA) as C3. destruct xs as [|x xs].
  { rewrite added_info_nil, info_at_nil, add_below_root, <- Hn, <- info_at_nil, C3.
    by rewrite decide_False. }
  destruct (decide (x = d)) as [->|Hne].
  - rewrite (info_at_child h2 t n d c) by (done || apply add_below_root).
    rewrite (ad_info _ _ _ _ _ _ _ _ _ AD).
    rewrite <- (info_at_child h1 t n d c), C3 by done. destruct xs as [|x xs].
    + rewrite decide_True, added_info_head, decide_False by done. cbn [id].
      destruct ds; [done|]. by rewrite added_info_nil.
    + by rewrite decide_False, added_info_tail by done.
  - rewrite added_info_other by done. specialize (C3 (x :: xs)).
    rewrite decide_False in C3 by congruence. rewrite <- C3. unfold info_at.
    rewrite (below_walk_other h1 h2 t c n d Ht1 Hn Hc add_below_frame) by done.
    destruct (walk h1 t (x :: xs)) as [q|] eqn:Hq; [|done]. cbn.
    destruct (add_below_other x q xs) as [_ ->]; [done| |done].
    by rewrite (below_walk_other h1 h2 t c n d Ht1 Hn Hc add_below_frame).
Qed.

Lemma add_below_versioned : versioned h2 t.
Proof.
  pose proof (ca_versioned _ _ _ _ _ _ _ _ CA) as C6.
  intros d' xs q m Hw Hm. destruct (decide (d' = d)) as [->|Hne].
  - rewrite (walk_child _ _ _ _ _ _ add_below_root Hc) in Hw. destruct xs as [|x xs].
    + injection Hw as <-. pose proof (ad_root _ _ _ _ _ _ _ _ _ AD) as Hr.
      rewrite Hm in Hr. cbn in Hr. destruct (h1 !! c) as [m1|] eqn:Hm1; [|done].
      injection Hr as ->. apply (C6 d [] c); [|done].
      by rewrite (walk_child _ _ _ _ _ _ Hn Hc).
    + by apply (ad_versioned _ _ _ _ _ _ _ _ _ AD x xs q).
  - destruct (add_below_other d' q xs) as [Hq Heq]; [done..|]. rewrite Heq in Hm.
    by apply (C6 d' xs q).
Qed.

Lemma add_below : added h k t (d :: ds) u rev node h2 k2.
Proof.
  pose proof (ad_reach _ _ _ _ _ _ _ _ _ AD) as Hgrow.
  pose proof (ca_fresh _ _ _ _ _ _ _ _ CA) as [Hf1 Hk1].
  pose proof (ad_fresh _ _ _ _ _ _ _ _ _ AD) as [Hf2 Hk2].
  assert (Hsub : ∀ p, reach h1 c p → reach h1 t p)
    by (intros p Hp; apply (reach_trans h1 t c); [by apply (reach_child h1 t n d)|done]).
  split.
  - apply (below_tree h1 h2 t c n d (λ p, (k1 ≤ p)%N)); auto using add_below_frame, add_below_new.
  - rewrite (walk_child _ _ _ _ _ _ add_below_root Hc). apply (ad_walk _ _ _ _ _ _ _ _ _ AD).
  - rewrite add_below_root, <- Hn. apply (ca_root _ _ _ _ _ _ _ _ CA).
  - apply add_below_info.
  - intros p Hp. apply (below_reach h1 h2 t c n d (λ p, (k1 ≤ p)%N)) in Hp as [Hp|Hp];
      auto using add_below_frame; [by apply (ca_reach _ _ _ _ _ _ _ _ CA)|right; lia].
  - intros p Hp Hlt. rewrite (ad_frame _ _ _ _ _ _ _ _ _ AD); [|..|lia].
    + by apply (ca_frame _ _ _ _ _ _ _ _ CA).
    + intros Hcp. apply Hsub, (ca_reach _ _ _ _ _ _ _ _ CA) in Hcp as [|]; [done|lia].
  - apply add_below_versioned.
  - split; [done|lia].
Qed.
End add_below.

Lemma walk_info h t ds : tree h t → walk h t ds = None ↔ info_at h t ds = None.
Proof.
  intros Ht. unfold info_at. destruct (walk h t ds) as [q|] eqn:Hq; [|done]. cbn.
  destruct (tree_alloc _ _ Ht _ _ Hq) as [n ->]. done.
Qed.

Lemma addDescriptors_ok ds path preamble info rev version : ds ≠ [] → ∀ h k t b,
  tree h t → versioned h t → fresh h k →
  ∃ node h' k',
    addDescriptors t b ds path preamble info rev version (mkForest h k)
      = (Ok (node, bool_decide (walk h t ds = None)), mkForest h' k') ∧
    added h k t ds (put_version (Some info) path version) rev node h' k'.
Proof.
  induction ds as [|d ds IH]; [done|]. intros _ h k t b Ht Hv Hf.
  destruct ds as [|d2 ds].
  - destruct (addChild_ok h k t d path preamble (Some info) rev version) as (c&h'&k'&Hrun&Hca);
      [done..|]. exists c, h', k'. split; [exact Hrun|by apply child_added_last].
  - destruct (addChild_ok h k t d "" "" None rev version) as (c&h1&k1&Hrun&Hca); [done..|].
    destruct (ca_child _ _ _ _ _ _ _ _ Hca) as (n&Hn&Hc).
    pose proof (ca_tree _ _ _ _ _ _ _ _ Hca) as Ht1.
    destruct (IH ltac:(done) h1 k1 c (bool_decide (walk h t [d] = None))) as (node&h2&k2&Hrun2&Had).
    + by apply (tree_child h1 t n d).
    + apply (versioned_sub h1 t d c n); [done..|]. by eapply ca_versioned.
    + by eapply ca_fresh.
    + exists node, h2, k2. split; [|by eapply add_below].
      change (addDescriptors t b (d :: d2 :: ds) path preamble info rev version) with
        (let* (node', isNew') := addChild t "" "" d None rev version in
         addDescriptors node' isNew' (d2 :: ds) path preamble info rev version).
      rewrite (sbind_ok _ _ _ _ _ Hrun), Hrun2. do 3 f_equal. apply bool_decide_ext.
      rewrite <- (walk_child _ _ _ _ _ _ Hn Hc), !walk_info by done.
      rewrite (ca_info _ _ _ _ _ _ _ _ Hca). by rewrite decide_False.
Qed.

Lemma AddSymbol_ok `{Bindings} h k t path info rev sy pkg :
  tree h t → versioned h t → fresh h k →
  ParseScipSymbol (Model.ISymbol info) = Ok sy → Scip.SPackage sy = Some pkg →
  Scip.Descriptors sy ≠ [] →
  let ds := ScipDescriptorsToModelDescriptors (Scip.Descriptors sy) in
  ∃ node h' k',
    AddSymbol t path info rev (mkForest h k)
      = (Ok (Some node, bool_decide (walk h t ds = None)), mkForest h' k') ∧
    added h k t ds (put_version (Some info) path (Scip.Version pkg)) rev node h' k'.
Proof.
  intros Ht Hv Hf Hparse Hpkg Hds ds.
  assert (Hne : ds ≠ []) by (unfold ds; by destruct (Scip.Descriptors sy)).
  unfold AddSymbol. rewrite Hparse, Hpkg. fold ds.
  destruct (addDescriptors_ok ds path (String.append (Scip.Scheme sy) (String.append " " (Package_ID pkg)))
    info rev (Scip.Version pkg) Hne h k t false Ht Hv Hf) as (node&h'&k'&Hrun&Had).
  exists node, h', k'. by rewrite (sbind_ok _ _ _ _ _ Hrun).
Qed.

(** ** [PruneNodes] *)

(** [h'] is [h] with some children removed. *)
Definition fewer h' h : Prop := ∀ p,
  match h' !! p, h !! p with
  | Some n', Some n => n' = set_children n (Children n') ∧ Children n' ⊆ Children n
  | None, None => True
  | _, _ => False
  end.

Lemma fewer_refl h : fewer h h.
Proof. intros p. destruct (h !! p) as [[]|]; done. Qed.
Lemma fewer_trans h2 h1 h : fewer h2 h1 → fewer h1 h → fewer h2 h.
Proof.
  intros H1 H2 p. specialize (H1 p). specialize (H2 p).
  destruct (h2 !! p) as [n2|], (h1 !! p) as [n1|], (h !! p) as [n|]; try done.
  destruct H1 as [E1 C1], H2 as [E2 C2]. split; [|by trans (Children n1)].
  rewrite E2 in E1. exact E1.
Qed.
Lemma fewer_lookup h' h p n' :
  fewer h' h → h' !! p = Some n' → ∃ n, h !! p = Some n ∧ Children n' ⊆ Children n.
Proof.
  intros Hs Hp. specialize (Hs p). rewrite Hp in Hs.
  destruct (h !! p) as [n|]; [|done]. destruct Hs as [_ ?]. by exists n.
Qed.
Lemma fewer_info h' h p : fewer h' h → node_info <$> h' !! p = node_info <$> h !! p.
Proof.
  intros Hs. specialize (Hs p). destruct (h' !! p) as [n'|], (h !! p) as [n|]; try done.
  destruct Hs as [-> _]. done.
Qed.
Lemma fewer_walk h' h t ds q : fewer h' h → walk h' t ds = Some q → walk h t ds = Some q.
Proof.
  intros Hs. revert t. induction ds as [|d ds IH]; intros t; [done|].
  intros (n'&c&Hn'&Hc&Hw)%walk_cons_Some.
  destruct (fewer_lookup _ _ _ _ Hs Hn') as (n&Hn&Hsub).
  rewrite (walk_child h t n d c) by (done || by eapply lookup_weaken). by apply IH.
Qed.
Lemma fewer_tree h' h t : fewer h' h → tree h t → tree h' t.
Proof.
  intros Hs Ht. split.
  - intros ds q Hq%(fewer_walk _ h); [|done]. destruct (tree_alloc _ _ Ht _ _ Hq) as [n Hn].
    specialize (Hs q). rewrite Hn in Hs. destruct (h' !! q); [by eexists|done].
  - intros ds1 ds2 q H1%(fewer_walk _ h) H2%(fewer_walk _ h); [|done..]. by apply (tree_inj _ _ Ht _ _ q).
Qed.
Lemma fewer_reach h' h t p : fewer h' h → reach h' t p → reach h t p.
Proof. intros Hs [ds Hd]. exists ds. by apply (fewer_walk h'). Qed.

(** The node at [xs] has not been updated since and has a version of the
    document. *)
Definition outdated h t (docPath : string) (rev : Z) (xs : list Descriptor) : Prop :=
  ∃ vs r v vi, info_at h t xs = Some (vs, r) ∧ r < rev ∧ vs !! v = Some vi ∧ DocumentPath vi = docPath.

Lemma has_doc_spec n docPath :
  has_doc n docPath = true ↔ ∃ v vi, (default ∅ (SymbolVersions n)) !! v = Some vi ∧ DocumentPath vi = docPath.
Proof.
  unfold has_doc. rewrite existsb_exists. split.
  - intros ([v vi]&Hin&Hd). apply list_elem_of_In, elem_of_map_to_list in Hin.
    apply bool_decide_eq_true in Hd. by exists v, vi.
  - intros (v&vi&Hin&Hd). exists (v, vi). split; [|by apply bool_decide_eq_true].
    by apply list_elem_of_In, elem_of_map_to_list.
Qed.

Lemma outdated_node h t docPath rev xs q n :
  walk h t xs = Some q → h !! q = Some n →
  outdated h t docPath rev xs ↔ (Revision n <? rev) && has_doc n docPath = true.
Proof.
  intros Hq Hn. unfold outdated, info_at. rewrite Hq. cbn. rewrite Hn. cbn.
  rewrite andb_true_iff, Z.ltb_lt, has_doc_spec. unfold node_info. split.
  - intros (vs&r&v&vi&[= <- <-]&Hr&Hv&Hd). split; [done|by exists v, vi].
  - intros (Hr&v&vi&Hv&Hd). by exists (default ∅ (SymbolVersions n)), (Revision n), v, vi.
Qed.

(** What the paths of [D] lead to after pruning. *)
Record pruned_at h t docPath rev (D : Descriptor → Prop) h' : Prop := {
  pa_keep d xs : D d →
    (∀ ys, ys ≠ [] → ys `prefix_of` (d :: xs) → ¬ outdated h t docPath rev ys) →
    walk h' t (d :: xs) = walk h t (d :: xs);
  pa_drop d xs ys : D d → ys ≠ [] → ys `prefix_of` (d :: xs) → outdated h t docPath rev ys →
    walk h' t (d :: xs) = None;
  pa_other d xs : ¬ D d → walk h' t (d :: xs) = walk h t (d :: xs);
  pa_fewer : fewer h' h;
  pa_frame p : ¬ reach h t p → h' !! p = h !! p
}.

(** Outdated nodes are the same in a heap with the same paths to them. *)
Lemma outdated_ext h1 h t t1 docPath rev xs xs1 :
  fewer h1 h → walk h1 t1 xs1 = walk h t xs →
  outdated h1 t1 docPath rev xs1 ↔ outdated h t docPath rev xs.
Proof.
  intros Hs Hw. unfold outdated, info_at. rewrite Hw. destruct (walk h t xs) as [q|]; [|done].
  cbn. by rewrite (fewer_info h1 h).
Qed.

Definition prune_step (fuel : nat) (t : nptr) (docPath : string) (rev : Z)
    : Descriptor * nptr → TreeM unit := λ '(name, child),
  cn <- load_node child;;
  if (Revision cn <? rev) && has_doc cn docPath then
    tn' <- load_node t;;
    store_node t (set_children tn' (delete name (Children tn')))
  else PruneNodes fuel child docPath rev.

Lemma PruneNodes_S fuel t docPath rev :
  PruneNodes (S fuel) t docPath rev =
  (tn <- load_node t;; forM_ (map_to_list (Children tn)) (prune_step fuel t docPath rev)).
Proof. done. Qed.

Section prune.
Context (docPath : string) (rev : Z).

Definition prunes (fuel : nat) : Prop := ∀ h k t,
  tree h t → depth_lt h t fuel →
  ∃ h', PruneNodes fuel t docPath rev (mkForest h k) = (Ok tt, mkForest h' k) ∧
    pruned_at h t docPath rev (λ _, True) h'.

Section prune_child.
Context (h : Heap) (t c : nptr) (d : Descriptor) (tn : SymbolPrefixTreeNode).
Context (Ht : tree h t) (Htn : h !! t = Some tn) (Hc : Children tn !! d = Some c).

Lemma prune_delete :
  outdated h t docPath rev [d] →
  pruned_at h t docPath rev (eq d) (<[t := set_children tn (delete d (Children tn))]> h).
Proof.
  intros Hout. set (h' := <[t := set_children tn (delete d (Children tn))]> h).
  assert (Htn' : h' !! t = Some (set_children tn (delete d (Children tn)))) by apply lookup_insert_eq.
  split.
  - intros d' xs <- Hkeep. by destruct (Hkeep [d]); [|apply prefix_cons, prefix_nil|].
  - intros d' xs ys <- _ _ _. rewrite walk_cons, Htn'. cbn. by rewrite lookup_delete_eq.
  - intros d' xs Hne. rewrite !walk_cons, Htn', Htn. cbn. rewrite lookup_delete_ne by done.
    destruct (Children tn !! d') as [c'|] eqn:Hc'; [|done]. cbn. apply walk_ext. intros q Hq.
    unfold h'. rewrite lookup_insert_ne; [done|]. intros <-. by eapply (tree_child_root h t tn d' c').
  - intros p. unfold h'. destruct (decide (p = t)) as [->|].
    + rewrite lookup_insert_eq, Htn. split; [done|]. apply delete_subseteq.
    + rewrite lookup_insert_ne by done. apply fewer_refl.
  - intros p Hp. apply lookup_insert_ne. intros ->. by apply Hp, reach_refl.
Qed.

Lemma prune_below h' :
  ¬ outdated h t docPath rev [d] → pruned_at h c docPath rev (λ _, True) h' →
  pruned_at h t docPath rev (eq d) h'.
Proof.
  intros Hout [P1 P2 P3 P4 P5].
  assert (Htn' : h' !! t = Some tn) by (rewrite P5; [done|by eapply tree_child_root]).
  assert (Hw : ∀ xs, walk h t (d :: xs) = walk h c xs) by (intros; by apply walk_child with tn).
  assert (Hw' : ∀ xs, walk h' t (d :: xs) = walk h' c xs) by (intros; by apply walk_child with tn).
  assert (Hsub : ∀ ys, outdated h c docPath rev ys ↔ outdated h t docPath rev (d :: ys)).
  { intros ys. symmetry. apply outdated_ext; [apply fewer_refl|done]. }
  split.
  - intros d' [|x xs] <- Hkeep; rewrite Hw, Hw'; [done|]. apply P1; [done|].
    intros ys Hys Hp. rewrite Hsub. apply Hkeep; [done|by apply prefix_cons].
  - intros d' xs ys <- Hys Hp Ho. destruct ys as [|y ys]; [done|].
    apply prefix_cons_inv_1 in Hp as Heq. subst y. apply prefix_cons_inv_2 in Hp.
    destruct ys as [|y ys]; [done|]. destruct xs as [|x xs]; [by apply prefix_nil_inv in Hp|].
    rewrite Hw'. apply (P2 x xs (y :: ys)); try done. by rewrite Hsub.
  - intros d' xs Hne. rewrite !walk_cons, Htn', Htn. cbn.
    destruct (Children tn !! d') as [c'|] eqn:Hc'; [|done]. cbn. apply walk_ext. intros q Hq.
    rewrite P5; [done|]. intros Hcq. by eapply (tree_children_disjoint h t tn d' c' d c).
  - done.
  - intros p Hp. apply P5. intros Hcp. apply Hp, (reach_trans h t c); [|done].
    by apply (reach_child h t tn d).
Qed.
End prune_child.

Lemma prune_step_ok fuel h k t c d tn :
  prunes fuel → tree h t → depth_lt h t (S fuel) → h !! t = Some tn → Children tn !! d = Some c →
  ∃ h', prune_step fuel t docPath rev (d, c) (mkForest h k) = (Ok tt, mkForest h' k) ∧
    pruned_at h t docPath rev (eq d) h'.
Proof.
  intros IH Ht Hdep Htn Hc.
  assert (Hw : walk h t [d] = Some c) by (by rewrite (walk_child _ _ _ _ _ _ Htn Hc)).
  destruct (tree_alloc _ _ Ht _ _ Hw) as [cn Hcn].
  unfold prune_step. rewrite (sbind_ok _ _ _ _ _ (load_node_ok _ _ _ k Hcn)).
  pose proof (outdated_node h t docPath rev [d] c cn Hw Hcn) as Hout.
  destruct ((Revision cn <? rev) && has_doc cn docPath).
  - rewrite (sbind_ok _ _ _ _ _ (load_node_ok _ _ _ k Htn)). eexists. split; [done|].
    apply (prune_delete h t d tn Ht Htn). by apply Hout.
  - destruct (IH h k c) as (h'&Hrun&Hp).
    + by apply (tree_child h t tn d).
    + intros ds q Hq. specialize (Hdep (d :: ds) q).
      rewrite (walk_child _ _ _ _ _ _ Htn Hc) in Hdep. specialize (Hdep Hq). cbn in Hdep. lia.
    + exists h'. split; [done|]. apply (prune_below h t c d tn); [done..|by intros ?%Hout|done].
Qed.

Lemma pruned_at_weaken h t D D' h' :
  (∀ d, D d ↔ D' d) → pruned_at h t docPath rev D h' → pruned_at h t docPath rev D' h'.
Proof.
  intros HD [P1 P2 P3 P4 P5]. split; [..|done|done]; intros d.
  - intros xs Hd. by apply P1, HD.
  - intros xs ys Hd. by apply P2, HD.
  - intros xs Hd. apply P3. by intros ?%HD.
Qed.

Lemma pruned_at_comp h t D1 D2 h1 h2 :
  (∀ d, D1 d → ¬ D2 d) → (∀ d, Decision (D1 d)) →
  pruned_at h t docPath rev D1 h1 → pruned_at h1 t docPath rev D2 h2 →
  pruned_at h t docPath rev (λ d, D1 d ∨ D2 d) h2.
Proof.
  intros Hd Hdec [P1 P2 P3 P4 P5] [Q1 Q2 Q3 Q4 Q5].
  assert (Hout : ∀ d ys, ¬ D1 d →
    outdated h1 t docPath rev (d :: ys) ↔ outdated h t docPath rev (d :: ys)).
  { intros d ys Hn. apply outdated_ext; [done|]. by apply P3. }
  assert (HD : ∀ d, D1 d ∨ D2 d → (D1 d ∧ ¬ D2 d) ∨ (¬ D1 d ∧ D2 d)).
  { intros d. pose proof (Hd d). destruct (Hdec d); tauto. }
  split.
  - intros d xs [[H1 H2]|[H1 H2]]%HD Hkeep; [by rewrite Q3, P1|]. rewrite Q1, P3; try done.
    intros ys Hys Hp. destruct ys as [|y ys]; [done|].
    apply prefix_cons_inv_1 in Hp as Heq. subst y. rewrite Hout by done. by apply Hkeep.
  - intros d xs ys [[H1 H2]|[H1 H2]]%HD Hys Hp Ho; [rewrite Q3 by done; by apply (P2 d xs ys)|].
    destruct ys as [|y ys]; [done|]. apply prefix_cons_inv_1 in Hp as Heq. subst y.
    apply (Q2 d xs (d :: ys)); try done. by rewrite Hout.
  - intros d xs Hn. rewrite Q3, P3; tauto.
  - by apply (fewer_trans _ h1).
  - intros p Hp. rewrite Q5, P5; [done..|]. by intros ?%(fewer_reach h1 h).
Qed.

Lemma prune_list_ok fuel t k l : prunes fuel → ∀ h tn,
  tree h t → depth_lt h t (S fuel) → h !! t = Some tn → NoDup l.*1 →
  Forall (λ x, walk h t [x.1] = Some x.2) l →
  ∃ h', forM_ l (prune_step fuel t docPath rev) (mkForest h k) = (Ok tt, mkForest h' k) ∧
    pruned_at h t docPath rev (λ d, d ∈ l.*1) h'.
Proof.
  intros IHfuel. induction l as [|[d c] l IH]; intros h tn Ht Hdep Htn Hnd Hl.
  { exists h. split; [done|]. split; [by intros d xs ?%elem_of_nil|by intros d xs ys ?%elem_of_nil
      |done|apply fewer_refl|done]. }
  cbn in Hnd. apply NoDup_cons in Hnd as [Hd Hnd]. inversion_clear Hl as [|?? Hc Hl'].
  apply walk_cons_Some in Hc as (n&c'&Hn&Hc&[= ->]). simplify_eq.
  destruct (prune_step_ok fuel h k t c d tn) as (h1&Hrun1&Hp1); [done..|].
  pose proof (pa_fewer _ _ _ _ _ _ Hp1) as Hs.
  assert (Ht1 : tree h1 t) by (by apply (fewer_tree h1 h)).
  destruct (tree_alloc _ _ Ht1 [] t eq_refl) as [tn1 Htn1].
  destruct (IH h1 tn1) as (h2&Hrun2&Hp2); [done| |done..| |].
  - intros ds q Hq%(fewer_walk h1 h); [|done]. by eapply Hdep.
  - rewrite Forall_forall in *. intros [d' c'] Hx. specialize (Hl' _ Hx).
    change (walk h1 t [d'] = Some c'). rewrite (pa_other _ _ _ _ _ _ Hp1 d' []); [done|]. intros ->.
    apply Hd. by apply (list_elem_of_fmap_2 fst) in Hx.
  - exists h2. split; [cbn [forM_]; by rewrite (sbind_ok _ _ _ _ _ Hrun1)|].
    apply (pruned_at_weaken h t (λ x, d = x ∨ x ∈ l.*1)).
    + intros x. cbn. rewrite elem_of_cons. split; intros [?|?]; auto.
    + apply (pruned_at_comp h t (eq d) _ h1); [by intros x <-|apply _|done..].
Qed.

Lemma PruneNodes_ok fuel : prunes fuel.
Proof.
  induction fuel as [|fuel IH]; intros h k t Ht Hdep.
  { specialize (Hdep [] t eq_refl). cbn in Hdep. lia. }
  destruct (tree_alloc _ _ Ht [] t eq_refl) as [tn Htn].
  rewrite PruneNodes_S, (sbind_ok _ _ _ _ _ (load_node_ok _ _ _ k Htn)).
  destruct (prune_list_ok fuel t k (map_to_list (Children tn)) IH h tn) as (h'&Hrun&Hp); try done.
  - apply NoDup_fst_map_to_list.
  - apply Forall_forall. intros [d c] Hx%elem_of_map_to_list. cbn.
    by rewrite Htn; cbn; rewrite Hx.
  - exists h'. split; [done|]. destruct Hp as [P1 P2 P3 P4 P5].
    assert (Hin : ∀ d, d ∉ (map_to_list (Children tn)).*1 → ∀ xs, walk h t (d :: xs) = None).
    { intros d Hd xs. rewrite walk_cons, Htn. cbn. destruct (Children tn !! d) as [c|] eqn:Hc; [|done].
      destruct Hd. apply elem_of_map_to_list in Hc. by apply (list_elem_of_fmap_2 fst) in Hc. }
    split; [..|done|done]; [| |done].
    + intros d xs _. destruct (decide (d ∈ (map_to_list (Children tn)).*1)); [by apply P1|].
      intros _. by apply P3.
    + intros d xs ys _. destruct (decide (d ∈ (map_to_list (Children tn)).*1)); [by apply P2|].
      intros _ _ _. rewrite P3 by done. by apply Hin.
Qed.
End prune.

(** ** Main theorems *)

(** Merging the tree [other] into [t], when the two share no node, gives a
    tree in which a path leads to a node exactly when it does in one of the two
    trees, with the union of the versions at that path (those of [other] taking
    precedence) and the later of the two revisions; nodes of neither tree are
    untouched, and [Merge] never fails when fuel exceeds the depth of [other]. *)
Theorem Merge_union fuel h k t o :
  tree h t → tree h o → apart h t o → depth_lt h o fuel →
  ∃ h', Merge fuel t o (mkForest h k) = (Ok tt, mkForest h' k) ∧ tree h' t ∧
    (∀ ds, ds ≠ [] → info_at h' t ds = merge_info (info_at h t ds) (info_at h o ds)) ∧
    info_at h' t [] = info_at h t [] ∧
    (∀ p, ¬ reach h t p → ¬ reach h o p → h' !! p = h !! p).
Proof.
  intros Ht Ho Hap Hdep. destruct (Merge_ok fuel h k t o) as (h'&Hrun&[M1 M2 M3 M4 M5]); [done..|].
  exists h'. split_and!; try done. intros [|d ds] Hds; [done|apply M3].
Qed.

(** Adding a symbol that parses to a package and at least one descriptor
    yields a tree in which the nodes on the path of its descriptors exist and
    have the given revision, the last one has the information under the version
    of the package, and every other node and version is as before; the flag
    says whether the path was new, and [GetNode] of the symbol then returns
    the node that [AddSymbol] returned. *)
Theorem AddSymbol_adds `{Bindings} h k t path info rev sy pkg :
  tree h t → versioned h t → fresh h k →
  ParseScipSymbol (Model.ISymbol info) = Ok sy → Scip.SPackage sy = Some pkg →
  Scip.Descriptors sy ≠ [] →
  let ds := ScipDescriptorsToModelDescriptors (Scip.Descriptors sy) in
  ∃ node h' k',
    AddSymbol t path info rev (mkForest h k)
      = (Ok (Some node, bool_decide (walk h t ds = None)), mkForest h' k') ∧
    GetNode t (Model.ISymbol info) (mkForest h' k') = (Ok (Some node), mkForest h' k') ∧
    tree h' t ∧ versioned h' t ∧ fresh h' k' ∧
    (∀ xs, info_at h' t xs =
      added_info ds (put_version (Some info) path (Scip.Version pkg)) rev xs (info_at h t xs)) ∧
    (∀ p, ¬ reach h t p → (p < k)%N → h' !! p = h !! p).
Proof.
  intros Ht Hv Hf Hparse Hpkg Hds ds.
  destruct (AddSymbol_ok h k t path info rev sy pkg Ht Hv Hf Hparse Hpkg Hds)
    as (node&h'&k'&Hrun&[A1 A2 A3 A4 A5 A6 A7 [A8 A9]]).
  exists node, h', k'. rewrite Hrun. unfold GetNode. rewrite Hparse. cbn [nodes].
  rewrite A2. by split_and!.
Qed.

(** Pruning the nodes of a document removes exactly the paths on which some
    node is of the document and older than the given revision: every other path
    leads where it did, nodes keep their information, and nodes outside the tree
    are untouched. *)
Theorem PruneNodes_exact fuel h k t docPath rev :
  tree h t → depth_lt h t fuel →
  ∃ h', PruneNodes fuel t docPath rev (mkForest h k) = (Ok tt, mkForest h' k) ∧ tree h' t ∧
    (∀ ds, (∀ xs, xs ≠ [] → xs `prefix_of` ds → ¬ outdated h t docPath rev xs) →
      info_at h' t ds = info_at h t ds) ∧
    (∀ ds xs, xs ≠ [] → xs `prefix_of` ds → outdated h t docPath rev xs → info_at h' t ds = None) ∧
    (∀ p, ¬ reach h t p → h' !! p = h !! p).
Proof.
  intros Ht Hdep. destruct (PruneNodes_ok docPath rev fuel h k t Ht Hdep) as (h'&Hrun&[P1 P2 P3 P4 P5]).
  exists h'. split_and!; [done|by apply (fewer_tree h' h)| | |done].
  - intros ds Hkeep. unfold info_at. assert (Hw : walk h' t ds = walk h t ds).
    { destruct ds as [|d xs]; [done|by apply P1]. }
    rewrite Hw. destruct (walk h t ds) as [q|]; [|done]. cbn. by apply fewer_info.
  - intros ds xs Hxs Hp Ho. unfold info_at. destruct ds as [|d ds]; [by apply prefix_nil_inv in Hp|].
    by rewrite (P2 d ds xs).
Qed.

(** A root with one child, to instantiate the theorems. *)
Lemma flat_walk h t n d c m ds q :
  h !! t = Some n → Children n = {[d := c]} → h !! c = Some m → Children m = ∅ →
  walk h t ds = Some q → (ds = [] ∧ q = t) ∨ (ds = [d] ∧ q = c).
Proof.
  intros Hn Hcn Hm Hcm. destruct ds as [|d1 ds]; intros Hw; [left; by injection Hw|].
  apply walk_cons_Some in Hw as (n0&c0&Hn0&Hc0&Hw). simplify_eq. rewrite Hcn in Hc0.
  apply lookup_singleton_Some in Hc0 as [<- <-]. right.
  destruct ds as [|d2 ds]; [by injection Hw|].
  apply walk_cons_Some in Hw as (m0&c1&Hm0&Hc1&_). simplify_eq. by rewrite Hcm, lookup_empty in Hc1.
Qed.

Lemma flat_tree h t n d c m :
  h !! t = Some n → Children n = {[d := c]} → h !! c = Some m → Children m = ∅ → c ≠ t →
  tree h t ∧ depth_lt h t 2.
Proof.
  intros Hn Hcn Hm Hcm Hne.
  assert (Hw := λ ds q, flat_walk h t n d c m ds q Hn Hcn Hm Hcm). split; [split|].
  - intros ds q Hq. destruct (Hw ds q Hq) as [[_ ->]|[_ ->]]; by eexists.
  - intros ds1 ds2 q H1 H2. by destruct (Hw _ _ H1) as [[-> ->]|[-> ->]], (Hw _ _ H2) as [[-> ?]|[-> ?]].
  - intros ds q Hq. destruct (Hw ds q Hq) as [[-> _]|[-> _]]; cbn; lia.
Qed.

Definition sample_info : Model.SymbolInformation :=
  Model.mkSymbolInformation "a" [] [] Scip.Kind_Function "a" None "".
Definition sample_desc : Descriptor := Model.mkDescriptor "a" 1 "".
Definition sample_root (c : nptr) : SymbolPrefixTreeNode := mkNode None "" None {[sample_desc := c]} 0.
Definition sample_leaf (t : nptr) (version path : string) (rev : Z) : SymbolPrefixTreeNode :=
  mkNode (Some t) "" (Some {[version := mkVersionInfo sample_info path]}) ∅ rev.
(** Two trees, each with the symbol [a], of versions 1 and 2. *)
Definition sample_heap : Heap :=
  list_to_map [(0%N, sample_root 1); (1%N, sample_leaf 0 "1" "x" 1);
    (2%N, sample_root 3); (3%N, sample_leaf 2 "2" "y" 2)].

Lemma sample_tree_0 : tree sample_heap 0 ∧ depth_lt sample_heap 0 2.
Proof. by apply flat_tree with (sample_root 1) sample_desc 1%N (sample_leaf 0 "1" "x" 1). Qed.
Lemma sample_tree_2 : tree sample_heap 2 ∧ depth_lt sample_heap 2 2.
Proof. by apply flat_tree with (sample_root 3) sample_desc 3%N (sample_leaf 2 "2" "y" 2). Qed.
Lemma sample_apart : apart sample_heap 0 2.
Proof.
  intros p [ds1 H1] [ds2 H2].
  apply (flat_walk sample_heap 0 (sample_root 1) sample_desc 1 (sample_leaf 0 "1" "x" 1)) in H1; [|done..].
  apply (flat_walk sample_heap 2 (sample_root 3) sample_desc 3 (sample_leaf 2 "2" "y" 2)) in H2; [|done..].
  by destruct H1 as [[_ ->]|[_ ->]], H2 as [[_ ?]|[_ ?]].
Qed.

Lemma Merge_union_witness :
  ∃ h', Merge 2 0 2 (mkForest sample_heap 4) = (Ok tt, mkForest h' 4) ∧
    info_at h' 0 [sample_desc] =
      Some ({["2" := mkVersionInfo sample_info "y"]} ∪ {["1" := mkVersionInfo sample_info "x"]}, 2).
Proof.
  destruct (Merge_union 2 sample_heap 4 0 2 (proj1 sample_tree_0) (proj1 sample_tree_2) sample_apart
    (proj2 sample_tree_2)) as (h'&Hrun&_&Hinfo&_).
  exists h'. split; [exact Hrun|]. by rewrite Hinfo.
Defined.

Lemma PruneNodes_exact_witness :
  ∃ h', PruneNodes 2 0 "x" 2 (mkForest sample_heap 4) = (Ok tt, mkForest h' 4) ∧
    info_at h' 0 [sample_desc] = None.
Proof.
  destruct (PruneNodes_exact 2 sample_heap 4 0 "x" 2 (proj1 sample_tree_0) (proj2 sample_tree_0))
    as (h'&Hrun&_&_&Hdrop&_).
  exists h'. split; [exact Hrun|]. apply (Hdrop _ [sample_desc]); [done..|].
  exists {["1" := mkVersionInfo sample_info "x"]}, 1, "1", (mkVersionInfo sample_info "x").
  split_and!; [done|lia|apply lookup_singleton_eq|done].
Defined.

Lemma AddSymbol_adds_witness :
  ∃ node h' k', AddSymbol 0 "z" sample_info 7 (mkForest {[0%N := root_node]} 1)
    = (Ok (Some node, true), mkForest h' k') ∧
    GetNode 0 "a" (mkForest h' k') = (Ok (Some node), mkForest h' k') ∧
    info_at h' 0 [sample_desc] = Some ({["1" := mkVersionInfo sample_info "z"]}, 7).
Proof.
  assert (Hw : ∀ ds q, walk {[0%N := root_node]} 0 ds = Some q → ds = [] ∧ q = 0%N).
  { intros [|d ds] q H; [by injection H|]. by apply walk_cons_Some in H as (n&c&[= <-]&Hc&_). }
  destruct (AddSymbol_adds {[0%N := root_node]} 1 0 "z" sample_info 7
    (Scip.mkSymbol "scip" (Some (Scip.mkPackage "m" "p" "1")) [Scip.mkDescriptor "a" 1 ""])
    (Scip.mkPackage "m" "p" "1")) as (node&h'&k'&Hrun&Hget&_&_&_&Hinfo&_).
  - split; [by intros ds q [_ ->]%Hw|by intros ds1 ds2 q [-> _]%Hw [-> _]%Hw].
  - by intros d ds q n [? _]%Hw.
  - intros p [n [<- _]%lookup_singleton_Some]. lia.
  - reflexivity.
  - reflexivity.
  - discriminate.
  - exists node, h', k'. split_and!; [exact Hrun|exact Hget|]. by rewrite Hinfo.
Defined.
