(* ===== verification/PartialIndex.v ===== *)
(** * The partially loaded index

    Models [src/scip-lib/partialloader/index.go]: the index of a workspace,
    which keeps a prefix tree of all global symbols, the documents loaded so
    far, and which index file each document is in.

    [LoadIndex] scans an index with callbacks that fill a tree and maps of its
    own, and merges them into the index when the scan ends, with or without an
    error.  Operations run one at a time here: the code guards each of its maps
    with a lock, and a lock for modifications around the merge.  The callback
    for loaded documents is a name ([onDocumentLoaded]); its calls are
    recorded.  [scan_fuel] bounds the loops of the scanner and [tree_fuel] the
    depth of trees. *)

From stdpp Require Import base gmap list strings fin_maps sorting.
From Stdlib Require Import ZArith Lia.
From S2P Require Import Prelude Scip Paths Scanner PrefixTree.

Local Open Scope Z_scope.

Record docNodes := mkDocNodes { dn_nodes : list nptr; dn_revision : Z }.

Record PartialLoadedIndex := mkIndex {
  forest : Forest;                               (** the heap of tree nodes *)
  PrefixTreeRoot : nptr;
  LoadedDocuments : gmap string Model.Document;
  DocTreeNodes : gmap string docNodes;
  revision : Z;
  updatedDocs : gmap string Z;
  docToIndex : gmap string string;
  indexFolder : string;
  ipool : BufferPool;
  onDocumentLoaded : N;
  loaded_calls : list (N * Model.Document);      (** calls of the callback *)
  ImplementorsBySymbol : gmap string (gset string)
}.

Definition IndexM := GoM PartialLoadedIndex.

Definition set_forest h p := mkIndex h (PrefixTreeRoot p) (LoadedDocuments p) (DocTreeNodes p)
  (revision p) (updatedDocs p) (docToIndex p) (indexFolder p) (ipool p) (onDocumentLoaded p)
  (loaded_calls p) (ImplementorsBySymbol p).
Definition set_documents d p := mkIndex (forest p) (PrefixTreeRoot p) d (DocTreeNodes p)
  (revision p) (updatedDocs p) (docToIndex p) (indexFolder p) (ipool p) (onDocumentLoaded p)
  (loaded_calls p) (ImplementorsBySymbol p).
Definition set_doc_nodes d p := mkIndex (forest p) (PrefixTreeRoot p) (LoadedDocuments p) d
  (revision p) (updatedDocs p) (docToIndex p) (indexFolder p) (ipool p) (onDocumentLoaded p)
  (loaded_calls p) (ImplementorsBySymbol p).
Definition set_index_revision r p := mkIndex (forest p) (PrefixTreeRoot p) (LoadedDocuments p)
  (DocTreeNodes p) r (updatedDocs p) (docToIndex p) (indexFolder p) (ipool p)
  (onDocumentLoaded p) (loaded_calls p) (ImplementorsBySymbol p).
Definition set_updated u p := mkIndex (forest p) (PrefixTreeRoot p) (LoadedDocuments p)
  (DocTreeNodes p) (revision p) u (docToIndex p) (indexFolder p) (ipool p)
  (onDocumentLoaded p) (loaded_calls p) (ImplementorsBySymbol p).
Definition set_doc_index d p := mkIndex (forest p) (PrefixTreeRoot p) (LoadedDocuments p)
  (DocTreeNodes p) (revision p) (updatedDocs p) d (indexFolder p) (ipool p)
  (onDocumentLoaded p) (loaded_calls p) (ImplementorsBySymbol p).
Definition set_pool b p := mkIndex (forest p) (PrefixTreeRoot p) (LoadedDocuments p)
  (DocTreeNodes p) (revision p) (updatedDocs p) (docToIndex p) (indexFolder p) b
  (onDocumentLoaded p) (loaded_calls p) (ImplementorsBySymbol p).
Definition set_callback c p := mkIndex (forest p) (PrefixTreeRoot p) (LoadedDocuments p)
  (DocTreeNodes p) (revision p) (updatedDocs p) (docToIndex p) (indexFolder p) (ipool p)
  c (loaded_calls p) (ImplementorsBySymbol p).
Definition set_calls c p := mkIndex (forest p) (PrefixTreeRoot p) (LoadedDocuments p)
  (DocTreeNodes p) (revision p) (updatedDocs p) (docToIndex p) (indexFolder p) (ipool p)
  (onDocumentLoaded p) c (ImplementorsBySymbol p).
Definition set_implementors i p := mkIndex (forest p) (PrefixTreeRoot p) (LoadedDocuments p)
  (DocTreeNodes p) (revision p) (updatedDocs p) (docToIndex p) (indexFolder p) (ipool p)
  (onDocumentLoaded p) (loaded_calls p) i.

(** The callback that does nothing is 0. *)
Definition NewPartialLoadedIndex (reuse : N → bool) (folder : string) : gores PartialLoadedIndex :=
  bp <-? NewBufferPool reuse 1024 12;;
  let '(root, h) := NewSymbolPrefixTree (mkForest ∅ 0) in
  r <-? root;;
  Ok (mkIndex h r ∅ ∅ 0 ∅ ∅ folder bp 0%N [] ∅).

Definition SetDocumentLoadedCallback (callback : N) : IndexM unit := modify_st (set_callback callback).

Definition call_loaded (doc : Model.Document) (p : PartialLoadedIndex) : PartialLoadedIndex :=
  set_calls (loaded_calls p ++ [(onDocumentLoaded p, doc)]) p.

(** Runs a tree operation on the nodes of the index. *)
Definition on_tree {A} (m : TreeM A) : IndexM A := λ p,
  let '(r, h) := m (forest p) in (r, set_forest h p).

(** ** Revisions

    [int64(math.Max(float64(a), float64(b)))]: an integer of more than 53 bits
    is rounded to the nearest float, ties to even. *)
Definition float64 (z : Z) : Z :=
  let k := Z.log2 (Z.abs z) - 52 in
  if k <=? 0 then z
  else
    let q := Z.abs z / 2 ^ k in
    let r := Z.abs z mod 2 ^ k in
    let up := (2 ^ (k - 1) <? r) || ((r =? 2 ^ (k - 1)) && Z.odd q) in
    Z.sgn z * ((if up then q + 1 else q) * 2 ^ k).
Definition max_float (a b : Z) : Z := int64 (Z.max (float64 a) (float64 b)).

(** ** [LoadIndex] *)

(** The state that the callbacks of one load share. *)
Record LoadState := mkLoad {
  ls_index : PartialLoadedIndex;
  localDocTreeNodes : gmap string docNodes;
  localUpdatedDocs : gmap string Z;
  localDocToIndex : gmap string string;
  localImplementorsBySymbol : gmap string (gset string)
}.

Section load.
Context `{Bindings} `{Wire} `{FileSystem} (scan_fuel tree_fuel : nat) (errText : error → string)
  (schedule : list string → list string).

(** The callback [MatchDocumentPath] of [LoadIndex]: a document that is loaded
    already is loaded again. *)
Definition load_match_document (indexPath indexDocPath : string) : GoM LoadState bool := λ st,
  let docPath := Clean indexDocPath in
  let p := ls_index st in
  let '(nodes, p) :=
    match localDocTreeNodes st !! docPath with
    | Some nodes => (nodes, p)
    | None =>
      let rev := int64 (revision p + 1) in
      (mkDocNodes [] rev, set_index_revision rev p)
    end in
  (Ok (bool_decide (is_Some (LoadedDocuments p !! docPath))),
   mkLoad p (<[docPath := nodes]> (localDocTreeNodes st))
     (<[docPath := dn_revision nodes]> (localUpdatedDocs st))
     (<[docPath := indexPath]> (localDocToIndex st))
     (localImplementorsBySymbol st)).

Definition load_match_symbol (symbol : bytes) : GoM LoadState bool :=
  sret (negb (IsLocalSymbol (string_of_bytes symbol))).

(** The symbols that [info] implements. *)
Definition add_implementors (info : Model.SymbolInformation) (impls : gmap string (gset string))
    : gmap string (gset string) :=
  foldl (λ m rel,
    if Model.IsImplementation rel then
      <[Model.RSymbol rel := {[Model.ISymbol info]} ∪ default ∅ (m !! Model.RSymbol rel)]> m
    else m) impls (Model.Relationships info).

Definition load_visit_symbol (localPrefixTree : nptr) (indexDocPath : string)
    (info : Scip.SymbolInformation) : GoM LoadState unit := λ st,
  let docPath := Clean indexDocPath in
  let modelInfo := ScipSymbolInformationToModelSymbolInformation info in
  let '(r, p) := on_tree (AddSymbol localPrefixTree docPath modelInfo (revision (ls_index st)))
                   (ls_index st) in
  let impls := localImplementorsBySymbol st in
  let st1 := mkLoad p (localDocTreeNodes st) (localUpdatedDocs st) (localDocToIndex st) in
  match r with
  | Err e => (Err e, st1 impls)
  | Panic => (Panic, st1 impls)
  | Fuel => (Fuel, st1 impls)
  | Ok (leafNode, isNew) =>
    let impls := add_implementors modelInfo impls in
    if isNew then
      match localDocTreeNodes st !! docPath with
      | None => (Panic, st1 impls)
      | Some nodes =>
        (Ok tt, mkLoad p
          (<[docPath := mkDocNodes (dn_nodes nodes ++ option_list leafNode) (dn_revision nodes)]>
             (localDocTreeNodes st))
          (localUpdatedDocs st) (localDocToIndex st) impls)
      end
    else (Ok tt, st1 impls)
  end.

Definition load_visit_document (doc : Scip.Document) : GoM LoadState unit := λ st,
  let docPath := Clean (Scip.RelativePath doc) in
  let modelDoc := ScipDocumentToModelDocument doc in
  let p := ls_index st in
  (Ok tt, mkLoad (call_loaded modelDoc (set_documents (<[docPath := modelDoc]> (LoadedDocuments p)) p))
    (localDocTreeNodes st) (localUpdatedDocs st) (localDocToIndex st)
    (localImplementorsBySymbol st)).

Definition load_callbacks (indexPath : string) (localPrefixTree : nptr) : Callbacks LoadState :=
  mkCallbacks _ (Some (load_match_document indexPath)) (Some load_match_symbol) None
    (Some load_visit_document) (Some (load_visit_symbol localPrefixTree)) None.

(** The merges, which run also when the scan fails or panics. *)
Definition mergePrefixTree (localPrefixTree : nptr) : IndexM unit := λ p,
  on_tree (Merge tree_fuel (PrefixTreeRoot p) localPrefixTree) p.

Definition mergeDocTreeNodes (local : gmap string docNodes) : IndexM unit :=
  modify_st (λ p, set_doc_nodes
    (union_with (λ old new, Some (mkDocNodes (dn_nodes old ++ dn_nodes new)
       (max_float (dn_revision old) (dn_revision new)))) (DocTreeNodes p) local) p).

Definition mergeUpdatedDocs (local : gmap string Z) : IndexM unit :=
  modify_st (λ p, set_updated
    (merge (λ old new,
       match new with
       | None => old
       | Some rev => Some (max_float (default 0 old) rev)
       end) (updatedDocs p) local) p).

Definition mergeDocToIndex (local : gmap string string) : IndexM unit :=
  modify_st (λ p, set_doc_index (local ∪ docToIndex p) p).

Definition mergeImplementors (local : gmap string (gset string)) : IndexM unit :=
  modify_st (λ p, set_implementors
    (union_with (λ old new, Some (old ∪ new)) (ImplementorsBySymbol p) local) p).

Definition load_merge (localPrefixTree : nptr) (st : LoadState) : IndexM unit :=
  mergePrefixTree localPrefixTree ;;;
  mergeDocTreeNodes (localDocTreeNodes st) ;;;
  mergeUpdatedDocs (localUpdatedDocs st) ;;;
  mergeDocToIndex (localDocToIndex st) ;;;
  mergeImplementors (localImplementorsBySymbol st).

Definition LoadIndex (indexPath : string) (content : bytes) : IndexM unit :=
  localPrefixTree <- on_tree (alloc_node root_node);;
  λ p,
    let '(r, st) := ScanIndexReader (load_callbacks indexPath localPrefixTree) scan_fuel
      (mkScanState (NewReader content) (ipool p) (mkLoad p ∅ ∅ ∅ ∅)) in
    let p := set_pool (pool st) (ls_index (client st)) in
    match r with
    | Fuel => (Fuel, p)
    | _ =>
      match load_merge localPrefixTree (client st) p with
      | (Ok _, p') => (r, p')
      | (m, p') => (m, p')
      end
    end.

Definition LoadIndexFile (file : string) : IndexM unit :=
  content <- lift_res (Open file);;
  LoadIndex file content.

(** ** Lookup of symbols *)

Definition GetSymbolInformationFromDescriptors (descriptors : list Descriptor) (version : string)
    : IndexM (option (Model.SymbolInformation * string)) :=
  match descriptors with
  | [] => throw (EText "no descriptors provided")
  | _ =>
    p <- get_st;;
    match walk (nodes (forest p)) (PrefixTreeRoot p) descriptors with
    | None => sret None
    | Some node =>
      n <- on_tree (load_node node);;
      let versions := default ∅ (SymbolVersions n) in
      if bool_decide (versions = ∅) || bool_decide (version = "") then sret None
      else
        match versions !! version with
        | Some v => sret (Some (Info v, DocumentPath v))
        | None =>
          match merge_sort String.le (map_to_list versions).*1 with
          | [] => lift_res Panic
          | first :: _ =>
            match versions !! first with
            | Some v => sret (Some (Info v, DocumentPath v))
            | None => lift_res Panic
            end
          end
        end
    end
  end.

Definition GetSymbolInformation (symbol : string)
    : IndexM (option (Model.SymbolInformation * string)) :=
  if IsLocalSymbol symbol then sret None
  else
    sy <- lift_res (ParseScipSymbol symbol);;
    match Scip.SPackage sy with
    | None => lift_res Panic
    | Some pkg =>
      GetSymbolInformationFromDescriptors
        (ScipDescriptorsToModelDescriptors (Scip.Descriptors sy)) (Scip.Version pkg)
    end.

(** The order of the symbols is that of a map, which is not fixed. *)
Definition Implementations (symbol : string) : IndexM (list string) :=
  p <- get_st;;
  sret (elements (default ∅ (ImplementorsBySymbol p !! symbol))).

(** ** References *)

Definition reference_callbacks (symbol : string) : Callbacks (gmap string (list Model.Occurrence)) :=
  mkCallbacks _ None None
    (Some (λ occSymbol, sret (bool_decide (string_of_bytes occSymbol = symbol))))
    None None
    (Some (λ docPath occ, modify_st (λ occurrences,
      <[docPath := default [] (occurrences !! docPath) ++ [ScipOccurrenceToModelOccurrence occ]]>
        occurrences))).

(** [None] is the nil map returned for a local symbol. *)
Definition References (symbol : string) : IndexM (option (gmap string (list Model.Occurrence))) :=
  if IsLocalSymbol symbol then sret None
  else λ p,
    let '(r, st) := ScanIndexFolder (reference_callbacks symbol) scan_fuel errText schedule
      (indexFolder p) true (mkScanState (NewReader []) (ipool p) ∅) in
    (_ <-? r;; Ok (Some (client st)), set_pool (pool st) p).

(** ** Documents *)

Definition document_callbacks (docPath : string) : Callbacks PartialLoadedIndex :=
  mkCallbacks _
    (Some (λ indexRelativeDocPath, sret (bool_decide (Clean indexRelativeDocPath = docPath))))
    None None
    (Some (λ doc, modify_st (λ p, set_documents
      (<[docPath := ScipDocumentToModelDocument doc]> (LoadedDocuments p)) p)))
    None None.

(** Runs a scan whose client is the index itself; the pool is shared. *)
Definition scan_index (m : GoM (ScanState PartialLoadedIndex) unit) : IndexM unit := λ p,
  let '(r, st) := m (mkScanState (NewReader []) (ipool p) p) in
  (r, set_pool (pool st) (client st)).

Definition loadDocumentFromIndex (indexPath docPath : string) : IndexM (option Model.Document) :=
  scan_index (ScanIndexFile (document_callbacks docPath) scan_fuel indexPath) ;;;
  p <- get_st;;
  sret (LoadedDocuments p !! docPath).

Definition loadDocumentFromIndexFolder (relativeDocPath : string) : IndexM (option Model.Document) :=
  p0 <- get_st;;
  scan_index (ScanIndexFolder (document_callbacks relativeDocPath) scan_fuel errText schedule
    (indexFolder p0) true) ;;;
  p <- get_st;;
  sret (LoadedDocuments p !! relativeDocPath).

Definition LoadDocument (relativeDocPath : string) : IndexM (option Model.Document) :=
  p <- get_st;;
  match LoadedDocuments p !! relativeDocPath with
  | Some doc => sret (Some doc)
  | None =>
    doc <- (match docToIndex p !! relativeDocPath with
            | Some index => loadDocumentFromIndex index relativeDocPath
            | None => loadDocumentFromIndexFolder relativeDocPath
            end);;
    match doc with
    | Some d => modify_st (call_loaded d) ;;; sret doc
    | None => sret None
    end
  end.

(** ** [Tidy] *)

(** The documents of [DocTreeNodes] in the order of the map. *)
Definition tidy_doc (x : string * docNodes) : IndexM unit :=
  first <- lift_res (go_index (dn_nodes x.2) 0);;
  n <- on_tree (load_node first);;
  match Parent n with
  | None => sret tt
  | Some parent => on_tree (PruneNodes tree_fuel parent x.1 (dn_revision x.2))
  end.

Definition Tidy : IndexM unit :=
  p <- get_st;;
  forM_ (map_to_list (DocTreeNodes p)) tidy_doc ;;;
  modify_st (set_updated ∅).

End load.
