(* ===== verification/PartialIndexProof.v ===== *)
(** * Correctness of the partially loaded index

    Shown for serialised indices: after [LoadIndex] every symbol of the index
    is found with its last definition there, the symbols of other indices as
    before, its documents are known to be in it, and the symbols that implement
    others are recorded.  [GetSymbolInformation] returns exactly what was
    loaded, [LoadDocument] the last document of the path. *)

From stdpp Require Import base gmap list strings fin_maps sorting.
From Stdlib Require Import ZArith Lia.
From S2P Require Import Prelude Scip Occurrences Paths Scanner ScannerProof PrefixTree PrefixTreeProof PartialIndex.

Local Open Scope Z_scope.

(** ** Versions *)

(** What is known of the version [v] of the symbol at [ds]. *)
Definition ver_at (h : Heap) (t : nptr) (ds : list Descriptor) (v : string) : option VersionInfo :=
  x ← info_at h t ds; x.1 !! v.

Lemma ver_at_added h t ds path info version rev h' xs v :
  ds ≠ [] →
  info_at h' t xs = added_info ds (put_version (Some info) path version) rev xs (info_at h t xs) →
  ver_at h' t xs v =
    if decide (xs = ds ∧ v = version) then Some (mkVersionInfo info path) else ver_at h t xs v.
Proof.
  intros Hds Hi. unfold ver_at. rewrite Hi. unfold added_info.
  destruct (decide (xs ≠ [] ∧ xs `prefix_of` ds)) as [[Hne Hp]|Hn].
  - cbn. destruct (decide (xs = ds)) as [->|Hx].
    + destruct (decide (v = version)) as [->|Hv].
      * rewrite decide_True by done. cbn. by rewrite lookup_insert_eq.
      * rewrite decide_False by tauto. cbn. rewrite lookup_insert_ne by done.
        destruct (info_at h t ds); cbn; [done|apply lookup_empty].
    + rewrite decide_False by tauto. cbn.
      destruct (info_at h t xs); cbn; [done|apply lookup_empty].
  - rewrite decide_False; [done|]. intros [-> _]. by apply Hn.
Qed.

Lemma ver_at_merged a b v :
  ((x ← merge_info a b; x.1 !! v) : option VersionInfo) =
  match (x ← b; x.1 !! v) with Some vi => Some vi | None => (x ← a; x.1 !! v) end.
Proof.
  destruct a as [[v1 r1]|], b as [[v2 r2]|]; cbn; [|done| |done].
  - rewrite lookup_union. by destruct (v2 !! v), (v1 !! v).
  - by destruct (v2 !! v).
Qed.

(** ** The symbols of an index *)

Section symbols.
Context `{Bindings} `{Wire}.

(** A definition: the document and the information. *)
Abbreviation def := (string * Model.SymbolInformation)%type.

Definition def_key (info : Model.SymbolInformation) : option (list Descriptor * string) :=
  match ParseScipSymbol (Model.ISymbol info) with
  | Ok sy => pkg ← Scip.SPackage sy;
             Some (ScipDescriptorsToModelDescriptors (Scip.Descriptors sy), Scip.Version pkg)
  | _ => None
  end.

(** The global symbols of an index, with the paths of their documents. *)
Definition item_defs (path : string) (it : doc_item) : list def :=
  match it with
  | ItemSymbol p s =>
    if IsLocalSymbol (string_of_bytes (default [] s)) then []
    else match UnmarshalSymbol p with
         | Ok info => [(Clean path, ScipSymbolInformationToModelSymbolInformation info)]
         | _ => []
         end
  | _ => []
  end.
Definition index_path (path : option bytes) : string := string_of_bytes (default [] path).
Definition index_defs (it : index_item) : list def :=
  match it with
  | IndexDocument path items => items ≫= item_defs (index_path path)
  | IndexOther _ _ => []
  end.
Definition index_docs (it : index_item) : list string :=
  match it with
  | IndexDocument path _ => [Clean (index_path path)]
  | IndexOther _ _ => []
  end.

(** The last definition of the version [v] of the symbol at [ds]. *)
Fixpoint last_def (defs : list def) (ds : list Descriptor) (v : string) : option VersionInfo :=
  match defs with
  | [] => None
  | (path, info) :: defs' =>
    match last_def defs' ds v with
    | Some vi => Some vi
    | None => if bool_decide (def_key info = Some (ds, v)) then Some (mkVersionInfo info path) else None
    end
  end.

Lemma last_def_snoc defs path info ds v :
  last_def (defs ++ [(path, info)]) ds v =
  if bool_decide (def_key info = Some (ds, v)) then Some (mkVersionInfo info path) else last_def defs ds v.
Proof.
  induction defs as [|[path' info'] defs IH]; cbn; [done|]. rewrite IH.
  by case_bool_decide.
Qed.

Lemma last_def_app defs1 defs2 ds v :
  last_def (defs1 ++ defs2) ds v =
  match last_def defs2 ds v with Some vi => Some vi | None => last_def defs1 ds v end.
Proof.
  induction defs1 as [|[path info] defs1 IH]; cbn; [by destruct (last_def defs2 ds v)|].
  rewrite IH. by destruct (last_def defs2 ds v).
Qed.

(** [s] implements [a] by a definition of the list. *)
Definition implements (defs : list def) (a s : string) : Prop :=
  ∃ d rel, d ∈ defs ∧ rel ∈ Model.Relationships d.2 ∧ Model.IsImplementation rel = true ∧
    Model.RSymbol rel = a ∧ Model.ISymbol d.2 = s.

Lemma exists_elem_cons {A} (P : A → Prop) x l :
  (∃ y, y ∈ x :: l ∧ P y) ↔ P x ∨ ∃ y, y ∈ l ∧ P y.
Proof.
  split.
  - intros (y&[->|Hy]%elem_of_cons&HP); [by left|]. right. by exists y.
  - intros [HP|(y&Hy&HP)]; [exists x; split; [by left|done]|exists y; split; [by right|done]].
Qed.

Lemma add_implementors_spec info m a s :
  s ∈ default ∅ (add_implementors info m !! a) ↔
  s ∈ default ∅ (m !! a) ∨ implements [("", info)] a s.
Proof.
  assert (Hgen : ∀ rels (m : gmap string (gset string)), s ∈ default ∅ (foldl (λ m rel,
      if Model.IsImplementation rel then
        <[Model.RSymbol rel := {[Model.ISymbol info]} ∪ default ∅ (m !! Model.RSymbol rel)]> m
      else m) m rels !! a) ↔
    s ∈ default ∅ (m !! a) ∨ ∃ rel, rel ∈ rels ∧ Model.IsImplementation rel = true ∧
      Model.RSymbol rel = a ∧ Model.ISymbol info = s).
  { clear m. induction rels as [|r rels IH]; intros m; cbn [foldl].
    - split; [by left|]. intros [?|(rel&Hin&_)]; [done|by apply elem_of_nil in Hin].
    - rewrite IH, exists_elem_cons. destruct (Model.IsImplementation r) eqn:Hi.
      + destruct (decide (Model.RSymbol r = a)) as [Ha|Ha].
        * rewrite Ha, lookup_insert_eq. cbn [from_option]; unfold id at 1. rewrite elem_of_union, elem_of_singleton.
          intuition auto.
        * rewrite lookup_insert_ne by done. tauto.
      + intuition discriminate. }
  unfold add_implementors. rewrite Hgen. unfold implements. f_equiv. split.
  - intros (rel&Hin&Hi&Ha&Hs). exists ("", info), rel. split_and!; try done. by left.
  - intros (d&rel&Hd&Hin&Hi&Ha&Hs). apply list_elem_of_singleton in Hd as ->. by exists rel.
Qed.

Lemma implements_snoc defs d a s :
  implements (defs ++ [d]) a s ↔ implements defs a s ∨ implements [("", d.2)] a s.
Proof.
  unfold implements. split.
  - intros (d'&rel&Hd&Hrest). apply elem_of_app in Hd as [Hd|Hd]; [left; by exists d', rel|].
    apply list_elem_of_singleton in Hd as ->. right. exists ("", d.2), rel.
    split; [by left|done].
  - intros [(d'&rel&Hd&Hrest)|(d'&rel&Hd&Hrest)].
    + exists d', rel. split; [apply elem_of_app; by left|done].
    + apply list_elem_of_singleton in Hd as ->. exists d, rel.
      split; [apply elem_of_app; right; by left|done].
Qed.
End symbols.

(** ** The callbacks of a load *)

Section load.
Context `{Bindings} `{Wire} (tree_fuel : nat).

(** A symbol of an index that the tree takes in. *)
Definition def_ok (info : Model.SymbolInformation) : Prop :=
  ∃ sy pkg, ParseScipSymbol (Model.ISymbol info) = Ok sy ∧ Scip.SPackage sy = Some pkg ∧
    Scip.Descriptors sy ≠ [] ∧ (length (Scip.Descriptors sy) < tree_fuel)%nat.

(** The global symbols decode and parse, and so do the documents. *)
Definition item_loads (it : doc_item) : Prop :=
  match it with
  | ItemSymbol p s =>
    IsLocalSymbol (string_of_bytes (default [] s)) = false →
    ∃ info, UnmarshalSymbol p = Ok info ∧ def_ok (ScipSymbolInformationToModelSymbolInformation info)
  | _ => True
  end.
Definition index_loads (it : index_item) : Prop :=
  match it with
  | IndexDocument _ items =>
    (∃ doc, UnmarshalDocument (doc_payload items) = Ok doc) ∧ Forall item_loads items
  | IndexOther _ _ => True
  end.

(** The state of a load of [indexPath] into [p0], with the tree [t] of its
    own, after the documents [docs] and the definitions [defs]. *)
Record loading (p0 : PartialLoadedIndex) (indexPath : string) (t : nptr) (docs : list string)
    (defs : list (string * Model.SymbolInformation)) (st : LoadState) : Prop := {
  ld_tree : tree (nodes (forest (ls_index st))) t;
  ld_versioned : versioned (nodes (forest (ls_index st))) t;
  ld_fresh : fresh (nodes (forest (ls_index st))) (next_node (forest (ls_index st)));
  ld_next : (next_node (forest p0) ≤ next_node (forest (ls_index st)))%N;
  ld_reach q : reach (nodes (forest (ls_index st))) t q → (next_node (forest p0) ≤ q)%N;
  ld_frame q : (q < next_node (forest p0))%N →
    nodes (forest (ls_index st)) !! q = nodes (forest p0) !! q;
  ld_depth : depth_lt (nodes (forest (ls_index st))) t tree_fuel;
  ld_ver ds v : ver_at (nodes (forest (ls_index st))) t ds v = last_def defs ds v;
  ld_same : PrefixTreeRoot (ls_index st) = PrefixTreeRoot p0 ∧
    docToIndex (ls_index st) = docToIndex p0 ∧ indexFolder (ls_index st) = indexFolder p0 ∧
    ImplementorsBySymbol (ls_index st) = ImplementorsBySymbol p0;
  ld_docs d : localDocToIndex st !! d = if bool_decide (d ∈ docs) then Some indexPath else None;
  ld_nodes d : d ∈ docs → is_Some (localDocTreeNodes st !! d);
  ld_impl a s : s ∈ default ∅ (localImplementorsBySymbol st !! a) ↔ implements defs a s
}.

Lemma loading_match_document p0 ip t docs defs st path :
  loading p0 ip t docs defs st →
  ∃ b st', load_match_document ip path st = (Ok b, st') ∧
    loading p0 ip t (docs ++ [Clean path]) defs st'.
Proof.
  intros [L1 L2 L3 L4 L5 L6 L7 L8 L9 L10 L11 L12]. unfold load_match_document.
  assert (Hdocs : ∀ d, <[Clean path := ip]> (localDocToIndex st) !! d =
    if bool_decide (d ∈ docs ++ [Clean path]) then Some ip else None).
  { intros d. destruct (decide (d = Clean path)) as [->|Hne].
    - rewrite lookup_insert_eq, bool_decide_true; [done|]. apply elem_of_app. right. by left.
    - rewrite lookup_insert_ne, L10 by done.
      rewrite (bool_decide_ext (d ∈ docs) (d ∈ docs ++ [Clean path])); [done|].
      rewrite elem_of_app, list_elem_of_singleton. tauto. }
  assert (Hnodes : ∀ n d, d ∈ docs ++ [Clean path] →
    is_Some (<[Clean path := n]> (localDocTreeNodes st) !! d)).
  { intros n d Hd. destruct (decide (d = Clean path)) as [->|Hne].
    - rewrite lookup_insert_eq. by eexists.
    - rewrite lookup_insert_ne by done. apply L11.
      rewrite elem_of_app, list_elem_of_singleton in Hd. tauto. }
  destruct (localDocTreeNodes st !! Clean path) as [n|]; eexists _, _; (split; [reflexivity|]);
    split; cbn; (done || apply Hdocs || apply Hnodes).
Qed.

Lemma loading_visit_document p0 ip t docs defs st doc :
  loading p0 ip t docs defs st →
  ∃ st', load_visit_document doc st = (Ok tt, st') ∧ loading p0 ip t docs defs st'.
Proof.
  intros [L1 L2 L3 L4 L5 L6 L7 L8 L9 L10 L11 L12]. eexists. split; [reflexivity|]. by split.
Qed.

Lemma def_ok_key info : def_ok info →
  ∃ sy pkg, ParseScipSymbol (Model.ISymbol info) = Ok sy ∧ Scip.SPackage sy = Some pkg ∧
    Scip.Descriptors sy ≠ [] ∧
    (length (ScipDescriptorsToModelDescriptors (Scip.Descriptors sy)) < tree_fuel)%nat ∧
    def_key info = Some (ScipDescriptorsToModelDescriptors (Scip.Descriptors sy), Scip.Version pkg).
Proof.
  intros (sy&pkg&Hp&Hpkg&Hne&Hlen). exists sy, pkg. split_and!; try done.
  - unfold ScipDescriptorsToModelDescriptors. by rewrite length_fmap.
  - unfold def_key. by rewrite Hp, Hpkg.
Qed.

(** The tree of the load after one more symbol. *)
Lemma loading_added p0 ip t docs defs st path info sy pkg node h' k' rev :
  loading p0 ip t docs defs st →
  Scip.Descriptors sy ≠ [] →
  (length (ScipDescriptorsToModelDescriptors (Scip.Descriptors sy)) < tree_fuel)%nat →
  def_key info = Some (ScipDescriptorsToModelDescriptors (Scip.Descriptors sy), Scip.Version pkg) →
  added (nodes (forest (ls_index st))) (next_node (forest (ls_index st))) t
    (ScipDescriptorsToModelDescriptors (Scip.Descriptors sy))
    (put_version (Some info) path (Scip.Version pkg)) rev node h' k' →
  ∀ dn, (∀ d, d ∈ docs → is_Some (dn !! d)) →
  loading p0 ip t docs (defs ++ [(path, info)])
    (mkLoad (set_forest (mkForest h' k') (ls_index st)) dn (localUpdatedDocs st)
      (localDocToIndex st) (add_implementors info (localImplementorsBySymbol st))).
Proof.
  intros [L1 L2 L3 L4 L5 L6 L7 L8 L9 L10 L11 L12] Hds Hlen Hkey [A1 A2 A3 A4 A5 A6 A7 [A8 A9]] dn Hdn.
  set (ds := ScipDescriptorsToModelDescriptors (Scip.Descriptors sy)) in *.
  assert (Hne : ds ≠ []) by (unfold ds; by destruct (Scip.Descriptors sy)).
  split; cbn; try done.
  - lia.
  - intros q Hq. destruct (A5 q Hq); [by apply L5|lia].
  - intros q Hq. rewrite A6; [by apply L6| |lia]. intros Hr%L5. lia.
  - intros xs q Hq. assert (Hi : info_at h' t xs ≠ None).
    { intros Hn. apply walk_info in Hn; [congruence|done]. }
    rewrite A4 in Hi. unfold added_info in Hi. case_decide as Hp.
    + destruct Hp as [_ Hp]. apply prefix_length in Hp. lia.
    + destruct (walk (nodes (forest (ls_index st))) t xs) as [q'|] eqn:Hw; [by eapply L7|].
      by apply walk_info in Hw.
  - intros xs v. rewrite (ver_at_added _ _ _ _ _ _ _ _ _ _ Hne (A4 xs)), last_def_snoc, Hkey.
    destruct (decide (xs = ds ∧ v = Scip.Version pkg)) as [[-> ->]|Hn].
    + by rewrite bool_decide_true.
    + rewrite bool_decide_false; [by apply L8|]. intros [= <- <-]. by apply Hn.
  - intros a s. by rewrite add_implementors_spec, L12, implements_snoc.
Qed.

Lemma loading_visit_symbol p0 ip t docs defs st path info :
  loading p0 ip t docs defs st → Clean path ∈ docs →
  def_ok (ScipSymbolInformationToModelSymbolInformation info) →
  ∃ st', load_visit_symbol t path info st = (Ok tt, st') ∧
    loading p0 ip t docs
      (defs ++ [(Clean path, ScipSymbolInformationToModelSymbolInformation info)]) st'.
Proof.
  intros HL Hd Hok. destruct (def_ok_key _ Hok) as (sy&pkg&Hp&Hpkg&Hne&Hlen&Hkey).
  pose proof (ld_nodes _ _ _ _ _ _ HL) as L11. destruct (L11 _ Hd) as [dn Hdn].
  pose proof HL as [L1 L2 L3 _ _ _ _ _ _ _ _ _].
  unfold load_visit_symbol, on_tree.
  destruct (forest (ls_index st)) as [h k] eqn:Hforest. cbn [nodes next_node] in *.
  set (mi := ScipSymbolInformationToModelSymbolInformation info) in *.
  destruct (AddSymbol_ok h k t (Clean path) mi (revision (ls_index st)) sy pkg L1 L2 L3 Hp Hpkg Hne)
    as (node&h'&k'&Hrun&Had). rewrite Hrun.
  assert (Hnext := loading_added p0 ip t docs defs st (Clean path) mi sy pkg node h' k'
    (revision (ls_index st)) HL Hne Hlen Hkey). rewrite Hforest in Hnext. specialize (Hnext Had).
  case_bool_decide; [|by eexists; split; [reflexivity|apply Hnext]].
  rewrite Hdn. eexists. split; [reflexivity|]. apply Hnext.
  intros d Hin. destruct (decide (d = Clean path)) as [->|]; [rewrite lookup_insert_eq; by eexists|].
  rewrite lookup_insert_ne by done. by apply L11.
Qed.

Lemma loading_item p0 ip t docs defs st path it :
  loading p0 ip t docs defs st → Clean path ∈ docs → item_loads it →
  ∃ st', item_calls (load_callbacks ip t) path it st = (Ok tt, st') ∧
    loading p0 ip t docs (defs ++ item_defs path it) st'.
Proof.
  intros HL Hd Hit. destruct it as [p s|p s|n p]; cbn [item_calls load_callbacks MatchSymbol MatchOccurrence].
  - unfold load_match_symbol. rewrite sbind_ret. cbn [item_defs item_loads] in *.
    destruct (IsLocalSymbol (string_of_bytes (default [] s))) eqn:Hl; cbn [negb visit_if].
    + exists st. rewrite app_nil_r. by split.
    + destruct (Hit eq_refl) as (info&Hu&Hok). rewrite Hu.
      destruct (loading_visit_symbol p0 ip t docs defs st path info HL Hd Hok) as (st'&Hrun&HL').
      exists st'. by split.
  - exists st. cbn. rewrite app_nil_r. by split.
  - exists st. cbn. rewrite app_nil_r. by split.
Qed.

Lemma loading_items p0 ip t docs path items : Clean path ∈ docs → Forall item_loads items →
  ∀ defs st, loading p0 ip t docs defs st →
  ∃ st', forM_ items (item_calls (load_callbacks ip t) path) st = (Ok tt, st') ∧
    loading p0 ip t docs (defs ++ (items ≫= item_defs path)) st'.
Proof.
  intros Hd Hf. induction Hf as [|it items Hit Hf IH]; intros defs st HL.
  - exists st. cbn. rewrite app_nil_r. by split.
  - destruct (loading_item p0 ip t docs defs st path it) as (st1&Hrun1&HL1); [done..|].
    destruct (IH _ _ HL1) as (st2&Hrun2&HL2).
    exists st2. cbn [forM_]. rewrite (sbind_ok _ _ _ _ _ Hrun1). split; [done|].
    by rewrite bind_cons, (assoc_L (++)).
Qed.

Lemma loading_index_item p0 ip t docs defs st it :
  loading p0 ip t docs defs st → index_loads it →
  ∃ st', index_calls (load_callbacks ip t) it st = (Ok tt, st') ∧
    loading p0 ip t (docs ++ index_docs it) (defs ++ index_defs it) st'.
Proof.
  intros HL Hit. destruct it as [path items|n p]; cbn [index_calls index_docs index_defs].
  2:{ exists st. rewrite !app_nil_r. by split. }
  destruct Hit as [[doc Hdoc] Hitems]. fold (index_path path).
  cbn [load_callbacks MatchDocumentPath VisitDocument].
  destruct (loading_match_document p0 ip t docs defs st (index_path path) HL) as (b&st1&Hrun1&HL1).
  rewrite (sbind_ok _ _ _ _ _ Hrun1).
  assert (Hvisit : ∃ st2, visit_if b (Some load_visit_document) (joinM "failed to read document"
      (lift_res (UnmarshalDocument (doc_payload items)))) st1 = (Ok tt, st2) ∧
    loading p0 ip t (docs ++ [Clean (index_path path)]) defs st2).
  { destruct b; [|by exists st1]. cbn [visit_if]. rewrite Hdoc.
    by apply (loading_visit_document p0 ip t _ defs st1 doc). }
  destruct Hvisit as (st2&Hrun2&HL2). rewrite (sbind_ok _ _ _ _ _ Hrun2).
  destruct (loading_items p0 ip t (docs ++ [Clean (index_path path)]) (index_path path) items)
    with (defs := defs) (st := st2) as (st3&Hrun3&HL3); [|done..|].
  { apply elem_of_app. right. by left. }
  exists st3. unfold joinM. fold (load_callbacks ip t). by rewrite Hrun3.
Qed.

Lemma loading_index p0 ip t idx : Forall index_loads idx → ∀ docs defs st,
  loading p0 ip t docs defs st →
  ∃ st', forM_ idx (index_calls (load_callbacks ip t)) st = (Ok tt, st') ∧
    loading p0 ip t (docs ++ (idx ≫= index_docs)) (defs ++ (idx ≫= index_defs)) st'.
Proof.
  intros Hf. induction Hf as [|it idx Hit Hf IH]; intros docs defs st HL.
  - exists st. cbn. rewrite !app_nil_r. by split.
  - destruct (loading_index_item p0 ip t docs defs st it) as (st1&Hrun1&HL1); [done..|].
    destruct (IH _ _ _ HL1) as (st2&Hrun2&HL2).
    exists st2. cbn [forM_]. rewrite (sbind_ok _ _ _ _ _ Hrun1). split; [done|].
    by rewrite !bind_cons, !(assoc_L (++)).
Qed.

(** The documents that are loaded: those of the index are loaded again. *)
Definition reload_item (docs : gmap string Model.Document) (it : index_item)
    : gmap string Model.Document :=
  match it with
  | IndexDocument path items =>
    match docs !! Clean (index_path path), UnmarshalDocument (doc_payload items) with
    | Some _, Ok doc => <[Clean (Scip.RelativePath doc) := ScipDocumentToModelDocument doc]> docs
    | _, _ => docs
    end
  | IndexOther _ _ => docs
  end.
Abbreviation documents st := (LoadedDocuments (ls_index st)).

Lemma visit_symbol_documents t path info st st' :
  load_visit_symbol t path info st = (Ok tt, st') → documents st' = documents st.
Proof.
  unfold load_visit_symbol, on_tree. destruct (AddSymbol _ _ _ _ _) as [[[leaf isNew]| | |] h]; [|done..].
  destruct isNew; [|by intros [= <-]]. destruct (_ !! _); [|done]. by intros [= <-].
Qed.

Lemma items_documents ip t path items : ∀ st st',
  forM_ items (item_calls (load_callbacks ip t) path) st = (Ok tt, st') → documents st' = documents st.
Proof.
  induction items as [|it items IH]; intros st st' Hrun; [by injection Hrun as <-|].
  cbn [forM_] in Hrun. apply sbind_inv in Hrun as ([]&st1&Hit&Hrun). rewrite (IH _ _ Hrun).
  destruct it as [p s|p s|n p]; [|by injection Hit as <-..].
  cbn [item_calls load_callbacks MatchSymbol] in Hit. unfold load_match_symbol in Hit.
  rewrite sbind_ret in Hit. destruct (negb _); [|by injection Hit as <-].
  cbn [visit_if VisitSymbol mbind option_bind] in Hit.
  destruct (UnmarshalSymbol p) as [info| | |]; [|done..]. by apply visit_symbol_documents in Hit.
Qed.

Lemma index_documents ip t idx : ∀ st st',
  forM_ idx (index_calls (load_callbacks ip t)) st = (Ok tt, st') →
  documents st' = foldl reload_item (documents st) idx.
Proof.
  induction idx as [|it idx IH]; intros st st' Hrun; [by injection Hrun as <-|].
  cbn [forM_ foldl] in Hrun |- *. apply sbind_inv in Hrun as ([]&st1&Hit&Hrun). rewrite (IH _ _ Hrun).
  f_equal. destruct it as [path items|n p]; [|by injection Hit as <-].
  cbn [index_calls load_callbacks MatchDocumentPath VisitDocument] in Hit. fold (index_path path) in Hit.
  apply sbind_inv in Hit as (b&st2&Hm&Hit). apply sbind_inv in Hit as ([]&st3&Hv&Hit).
  assert (Hdocs : documents st1 = documents st3).
  { unfold joinM in Hit. destruct (forM_ _ _ st3) as [[[]| | |] st4] eqn:Hf; [|done..].
    injection Hit as <-. by apply items_documents in Hf. }
  rewrite Hdocs. unfold load_match_document in Hm. cbn [reload_item].
  assert (Hb : b = bool_decide (is_Some (documents st !! Clean (index_path path))) ∧
    documents st2 = documents st) by (by destruct (localDocTreeNodes st !! _); injection Hm as <- <-).
  destruct Hb as [-> Hst2]. destruct (documents st !! Clean (index_path path)) as [d|] eqn:Hd.
  - cbn in Hv. unfold sbind, joinM, lift_res in Hv.
    destruct (UnmarshalDocument _) as [doc| | |]; [|done..]. injection Hv as <-. cbn. by rewrite Hst2.
  - rewrite bool_decide_false in Hv by (by intros []). injection Hv as <-. done.
Qed.

(** ** [LoadIndex] *)

(** The invariant of the index. *)
Definition index_inv (p : PartialLoadedIndex) : Prop :=
  tree (nodes (forest p)) (PrefixTreeRoot p) ∧
  fresh (nodes (forest p)) (next_node (forest p)) ∧ pool_ok (ipool p).

Definition symbol_at (p : PartialLoadedIndex) (ds : list Descriptor) (v : string) : option VersionInfo :=
  ver_at (nodes (forest p)) (PrefixTreeRoot p) ds v.

(** The state when the scan starts: the tree of the load is a new root. *)
Lemma loading_start p ip :
  index_inv p → (0 < tree_fuel)%nat →
  loading p ip (next_node (forest p)) [] []
    (mkLoad (set_forest (mkForest (<[next_node (forest p) := root_node]> (nodes (forest p)))
      (N.succ (next_node (forest p)))) p) ∅ ∅ ∅ ∅).
Proof.
  intros (Ht&Hf&_) Hfuel. set (k := next_node (forest p)) in *. set (h := nodes (forest p)) in *.
  assert (Hw : ∀ ds q, walk (<[k := root_node]> h) k ds = Some q → ds = [] ∧ q = k)
    by (intros; by apply (new_leaf h k root_node)).
  split; cbn [ls_index localDocToIndex localDocTreeNodes localImplementorsBySymbol set_forest
    forest nodes next_node PrefixTreeRoot docToIndex indexFolder ImplementorsBySymbol]; try done.
  - by apply (new_leaf_tree h k root_node).
  - intros d ds q n Hq. by apply Hw in Hq as [? _].
  - intros q [n Hn]. destruct (decide (q = k)) as [->|]; [lia|].
    rewrite lookup_insert_ne in Hn by done. assert (q < k)%N by (by apply Hf). lia.
  - fold k. lia.
  - intros q [ds Hq]. apply Hw in Hq as [_ ->]. done.
  - intros q Hq. apply lookup_insert_ne. fold k in Hq. lia.
  - intros ds q Hq. apply Hw in Hq as [-> _]. done.
  - intros ds v. unfold ver_at, info_at.
    destruct (walk (<[k := root_node]> h) k ds) as [q|] eqn:Hq; [|done].
    apply Hw in Hq as [_ ->]. cbn. by rewrite lookup_insert_eq.
  - intros d Hd. by apply elem_of_nil in Hd.
  - intros a s. rewrite lookup_empty. cbn. split; [by intros ?%elem_of_empty|].
    intros (d&rel&Hd&_). by apply elem_of_nil in Hd.
Qed.

(** What a load of [docs] and [defs] has done to the index. *)
Record loaded (p0 : PartialLoadedIndex) (ip : string) (docs : list string)
    (defs : list (string * Model.SymbolInformation)) (p : PartialLoadedIndex) : Prop := {
  lo_inv : index_inv p;
  lo_symbols ds v : ds ≠ [] → symbol_at p ds v =
    match last_def defs ds v with Some vi => Some vi | None => symbol_at p0 ds v end;
  lo_docs d : docToIndex p !! d = if bool_decide (d ∈ docs) then Some ip else docToIndex p0 !! d;
  lo_impl a s : s ∈ default ∅ (ImplementorsBySymbol p !! a) ↔
    s ∈ default ∅ (ImplementorsBySymbol p0 !! a) ∨ implements defs a s;
  lo_same : PrefixTreeRoot p = PrefixTreeRoot p0 ∧ indexFolder p = indexFolder p0
}.

(** The tree of the index while it is loaded. *)
Lemma loading_main p0 ip t docs defs st :
  index_inv p0 → loading p0 ip t docs defs st →
  let h := nodes (forest (ls_index st)) in
  tree h (PrefixTreeRoot p0) ∧ apart h (PrefixTreeRoot p0) t ∧
  ∀ ds, info_at h (PrefixTreeRoot p0) ds = info_at (nodes (forest p0)) (PrefixTreeRoot p0) ds.
Proof.
  intros (Ht&Hf&_) [L1 L2 L3 L4 L5 L6 L7 L8 L9 L10 L11 L12] h.
  assert (Hsame : ∀ q, reach (nodes (forest p0)) (PrefixTreeRoot p0) q → h !! q = nodes (forest p0) !! q).
  { intros q Hq. apply L6. by apply (tree_below_fresh _ _ _ _ Ht Hf). }
  assert (Hc : ∀ q, reach (nodes (forest p0)) (PrefixTreeRoot p0) q →
    Children <$> h !! q = Children <$> nodes (forest p0) !! q) by (intros q Hq; by rewrite Hsame).
  split_and!.
  - by apply (tree_ext (nodes (forest p0))).
  - intros q Hq Hl%L5. rewrite (reach_ext (nodes (forest p0))) in Hq by done.
    pose proof (tree_below_fresh _ _ _ _ Ht Hf Hq). lia.
  - intros ds. by apply info_at_ext.
Qed.

Lemma merge_fresh h k t o h' :
  tree h t → tree h o → fresh h k → merged h t o h' → fresh h' k.
Proof.
  intros Ht Ho Hf [M1 M2 M3 M4 M5] q Hq. destruct (decide (q < k)%N) as [|Hk]; [done|].
  rewrite M5 in Hq; [by apply Hf| |]; intros Hr.
  - by apply (tree_below_fresh _ _ _ _ Ht Hf) in Hr.
  - by apply (tree_below_fresh _ _ _ _ Ho Hf) in Hr.
Qed.

Lemma elem_union_with (m1 m2 : gmap string (gset string)) a s :
  s ∈ default ∅ (union_with (λ old new, Some (old ∪ new)) m1 m2 !! a) ↔
  s ∈ default ∅ (m1 !! a) ∨ s ∈ default ∅ (m2 !! a).
Proof.
  rewrite lookup_union_with. destruct (m1 !! a), (m2 !! a); cbn; set_solver.
Qed.

Lemma load_merge_ok p0 ip t docs defs st bp :
  index_inv p0 → loading p0 ip t docs defs st → pool_ok bp →
  ∃ p', load_merge tree_fuel t st (set_pool bp (ls_index st)) = (Ok tt, p') ∧
    loaded p0 ip docs defs p' ∧ LoadedDocuments p' = documents st.
Proof.
  intros Hinv HL Hbp. destruct (loading_main _ _ _ _ _ _ Hinv HL) as (Ht&Hap&Hinfo).
  destruct HL as [L1 L2 L3 L4 L5 L6 L7 L8 (R1&R2&R3&R4) L10 L11 L12].
  destruct (forest (ls_index st)) as [h k] eqn:Hforest. cbn [nodes next_node] in *.
  destruct (Merge_ok tree_fuel h k (PrefixTreeRoot p0) t Ht L1 Hap L7) as (h'&Hrun&Hm).
  eexists. split.
  { unfold load_merge, mergePrefixTree, on_tree. unfold sbind at 1.
    cbn [set_pool forest PrefixTreeRoot]. rewrite Hforest, R1, Hrun. reflexivity. }
  split; [|done].
  split; cbn [set_implementors set_doc_index set_updated set_doc_nodes set_forest set_pool
    docToIndex ImplementorsBySymbol PrefixTreeRoot indexFolder].
  - split_and!; cbn; [rewrite R1; apply (m_tree _ _ _ _ Hm)| |done].
    by apply (merge_fresh h k _ t h' Ht L1 L3 Hm).
  - intros ds v Hds. unfold symbol_at, ver_at. cbn. rewrite R1.
    destruct ds as [|d ds]; [done|]. rewrite (m_info _ _ _ _ Hm), ver_at_merged, Hinfo.
    specialize (L8 (d :: ds) v). unfold ver_at in L8. by rewrite L8.
  - intros d. rewrite lookup_union, R2, L10. case_bool_decide; by destruct (docToIndex p0 !! d).
  - intros a s. rewrite elem_union_with, R4. by rewrite L12.
  - done.
Qed.
End load.

Section index.
Context `{Bindings} `{WireLaws} (scan_fuel tree_fuel : nat).

Lemma LoadIndex_ok p ip idx :
  index_inv p → Forall index_ok idx → Forall (index_loads tree_fuel) idx →
  zlen (enc_index idx) < Z.of_nat scan_fuel → zlen (enc_index idx) ≤ maxAlloc →
  (0 < tree_fuel)%nat →
  ∃ p', LoadIndex scan_fuel tree_fuel ip (enc_index idx) p = (Ok tt, p') ∧
    loaded p ip (idx ≫= index_docs) (idx ≫= index_defs) p' ∧
    LoadedDocuments p' = foldl reload_item (LoadedDocuments p) idx.
Proof.
  intros Hinv Hok Hloads Hfuel Hmax Htf.
  pose proof (loading_start tree_fuel p ip Hinv Htf) as HL0.
  set (p1 := set_forest (mkForest (<[next_node (forest p) := root_node]> (nodes (forest p)))
      (N.succ (next_node (forest p)))) p) in *.
  unfold LoadIndex. rewrite (sbind_ok (on_tree (alloc_node root_node)) _ p (next_node (forest p)) p1)
    by (by unfold on_tree, alloc_node, p1; destruct (forest p)).
  set (t := next_node (forest p)) in *. change (ipool p1) with (ipool p).
  destruct (loading_index tree_fuel p ip t idx Hloads [] [] _ HL0) as (st'&Hrun&HL').
  destruct (follows_ScanIndexReader (load_callbacks ip t) idx scan_fuel
    (mkScanState (NewReader (enc_index idx)) (ipool p) (mkLoad p1 ∅ ∅ ∅ ∅)))
    as (st&Hst&Hc&Hpool); [done| |apply Hinv|done..|].
  { apply at_rest_start. unfold maxAlloc in Hmax. lia. }
  cbn [client] in Hst, Hc, Hpool. rewrite Hrun in Hst, Hc, Hpool. cbn [fst snd] in *.
  rewrite Hst. cbv beta iota. rewrite Hc. destruct (Hpool tt eq_refl) as [_ Hbp].
  destruct (load_merge_ok tree_fuel p ip t _ _ st' (pool st) Hinv HL' Hbp) as (p'&Hm&Hl&Hdocs).
  exists p'. cbn [app] in Hl. rewrite Hm. split_and!; [done..|].
  by rewrite Hdocs, (index_documents _ _ _ _ _ Hrun).
Qed.

(** ** Lookup *)

Lemma ParseScipSymbol_version s sy pkg :
  ParseScipSymbol s = Ok sy → Scip.SPackage sy = Some pkg → Scip.Version pkg ≠ "".
Proof.
  unfold ParseScipSymbol. destruct (ParseSymbol s) as [sy0| | |]; cbn; [|done..].
  intros [= <-].
  match goal with |- context [match Scip.SPackage ?x with _ => _ end] =>
    destruct (Scip.SPackage x) as [p|] eqn:Hp end; [|congruence].
  case_bool_decide; cbn; [by intros [= <-]|]. rewrite Hp. by intros [= <-].
Qed.

(** The least of the versions at [ds]. *)
Definition first_version (p : PartialLoadedIndex) (ds : list Descriptor) (v : string) : Prop :=
  is_Some (symbol_at p ds v) ∧ ∀ v', is_Some (symbol_at p ds v') → String.le v v'.

Definition found (r : option (Model.SymbolInformation * string)) (vi : VersionInfo) : Prop :=
  r = Some (Info vi, DocumentPath vi).

Lemma least_version (m : gmap string VersionInfo) :
  m ≠ ∅ → ∃ v vi l, merge_sort String.le (map_to_list m).*1 = v :: l ∧ m !! v = Some vi ∧
    ∀ v', is_Some (m !! v') → String.le v v'.
Proof.
  intros Hm. assert (Hin : ∀ v, v ∈ merge_sort String.le (map_to_list m).*1 ↔ is_Some (m !! v)).
  { intros v. rewrite merge_sort_Permutation, list_elem_of_fmap. split.
    - intros ([v' vi]&->&Hx). apply elem_of_map_to_list in Hx. by eexists.
    - intros [vi Hx]. exists (v, vi). split; [done|]. by apply elem_of_map_to_list. }
  pose proof (StronglySorted_merge_sort String.le (map_to_list m).*1) as Hs.
  destruct (merge_sort String.le (map_to_list m).*1) as [|v l].
  - destruct (map_choose m Hm) as (v&vi&Hv). assert (v ∈ []) as ?%elem_of_nil; [|done].
    apply Hin. by eexists.
  - destruct (proj1 (Hin v) ltac:(by left)) as [vi Hv]. exists v, vi, l. split_and!; [done..|].
    intros v' Hv'%Hin. apply elem_of_cons in Hv' as [->|Hv']; [done|].
    apply StronglySorted_inv in Hs as [_ Hf]. by eapply Forall_forall in Hf.
Qed.

Lemma on_tree_load p q n : nodes (forest p) !! q = Some n → on_tree (load_node q) p = (Ok n, p).
Proof. destruct p as [[h k]]. cbn. unfold on_tree, load_node. cbn. by intros ->. Qed.

Lemma GetFromDescriptors_ok p ds version :
  index_inv p → ds ≠ [] → version ≠ "" →
  ∃ r, GetSymbolInformationFromDescriptors ds version p = (Ok r, p) ∧
    match symbol_at p ds version with
    | Some vi => found r vi
    | None => (r = None ∧ ∀ v, symbol_at p ds v = None) ∨
              ∃ v vi, first_version p ds v ∧ symbol_at p ds v = Some vi ∧ found r vi
    end.
Proof.
  intros (Ht&_) Hds Hver. unfold first_version, symbol_at, ver_at, info_at.
  unfold GetSymbolInformationFromDescriptors. destruct ds as [|d ds]; [done|].
  rewrite sbind_get. destruct (walk _ _ (d :: ds)) as [q|] eqn:Hq.
  2:{ exists None. split; [done|]. by left. }
  destruct (tree_alloc _ _ Ht _ _ Hq) as [n Hn]. cbn [mbind option_bind]. rewrite Hn.
  rewrite (sbind_ok _ _ p n p) by (by apply on_tree_load).
  cbn [fmap option_fmap option_map mbind option_bind node_info fst].
  set (vs := default ∅ (SymbolVersions n)).
  rewrite (bool_decide_false (version = "")) by done. rewrite orb_false_r.
  case_bool_decide as He.
  - exists None. split; [done|]. rewrite He, lookup_empty. left. split; [done|]. intros v.
    by rewrite lookup_empty.
  - destruct (vs !! version) as [vi|] eqn:Hv.
    + by exists (Some (Info vi, DocumentPath vi)).
    + destruct (least_version vs He) as (v&vi&l&Hs&Hvi&Hle). rewrite Hs, Hvi.
      exists (Some (Info vi, DocumentPath vi)). split; [done|]. right. exists v, vi.
      split_and!; [by eexists|done..].
Qed.

(** ** Files and folders *)

Lemma forM_app_ok {S A} (l1 l2 : list A) (f : A → GoM S unit) s s' :
  forM_ (l1 ++ l2) f s = (Ok tt, s') →
  ∃ s1, forM_ l1 f s = (Ok tt, s1) ∧ forM_ l2 f s1 = (Ok tt, s').
Proof.
  revert s. induction l1 as [|x l1 IH]; intros s Hrun; [by exists s|].
  cbn [app forM_] in Hrun |- *. unfold sbind in *.
  destruct (f x s) as [[[]| | |] s0]; [|done..]. by apply IH.
Qed.

Section files.
Context `{FileSystem} (errText : error → string) (schedule : list string → list string).
Context (idx : string → list index_item).

(** The file holds the serialised index [idx]. *)
Definition file_ok (f : string) : Prop :=
  Open f = Ok (enc_index (idx f)) ∧ Forall index_ok (idx f) ∧
  zlen (enc_index (idx f)) < Z.of_nat scan_fuel ∧ zlen (enc_index (idx f)) ≤ maxAlloc.
Definition is_scip (f : string) : bool := bool_decide (Ext f = ".scip").

Lemma ScanIndexFile_ok {C} (cb : Callbacks C) f st c' :
  file_ok f → pool_ok (pool st) → forM_ (idx f) (index_calls cb) (client st) = (Ok tt, c') →
  ∃ bp, ScanIndexFile cb scan_fuel f st = (Ok tt, mkScanState (rd st) bp c') ∧ pool_ok bp.
Proof.
  intros (Ho&Hidx&Hf&Hmax) Hp Hrun. unfold ScanIndexFile. rewrite Ho.
  change (∃ bp, with_reader (enc_index (idx f)) (ScanIndexReader cb scan_fuel) st =
    (Ok tt, mkScanState (rd st) bp c') ∧ pool_ok bp).
  destruct (follows_ScanIndexReader cb (idx f) scan_fuel
    (mkScanState (NewReader (enc_index (idx f))) (pool st) (client st))) as (st'&Hst&Hc&Hpool);
    [done| |done..|].
  { apply at_rest_start. unfold maxAlloc in Hmax. lia. }
  cbn [client] in Hst, Hc, Hpool. rewrite Hrun in Hst, Hc, Hpool.
  exists (pool st'). unfold with_reader. rewrite Hst, Hc. split; [done|]. by apply (Hpool tt).
Qed.

Lemma process_files_ok {C} (cb : Callbacks C) paths : ∀ st c',
  (∀ f, f ∈ paths → is_scip f = true → file_ok f) → pool_ok (pool st) →
  forM_ (List.filter is_scip paths ≫= idx) (index_calls cb) (client st) = (Ok tt, c') →
  ∃ bp, process_files cb scan_fuel paths st = (Ok [], mkScanState (rd st) bp c') ∧ pool_ok bp.
Proof.
  induction paths as [|f paths IH]; intros st c' Hall Hp Hrun.
  { exists (pool st). cbn in *. injection Hrun as <-. by destruct st. }
  assert (Hrest : ∀ f', f' ∈ paths → is_scip f' = true → file_ok f')
    by (intros f' Hf'; apply Hall; by right).
  cbn [process_files]. unfold processFile. cbn [List.filter] in Hrun.
  specialize (Hall f ltac:(by left)).
  destruct (is_scip f) eqn:Hs; unfold is_scip in Hs;
    [apply bool_decide_eq_true in Hs|apply bool_decide_eq_false in Hs].
  2:{ rewrite bool_decide_true by done. destruct (IH st c' Hrest Hp Hrun) as (bp&Hpf&Hbp).
      exists bp. unfold sbind at 1. cbn. unfold sbind at 1. by rewrite Hpf. }
  rewrite (bool_decide_false (Ext f ≠ ".scip")) by (intros Hn; by apply Hn).
  rewrite bind_cons in Hrun. apply forM_app_ok in Hrun as (c1&Hrun1&Hrun2).
  destruct (ScanIndexFile_ok cb f st c1 (Hall eq_refl) Hp Hrun1) as (bp1&Hscan&Hbp1).
  destruct (IH (mkScanState (rd st) bp1 c1) c' Hrest Hbp1 Hrun2) as (bp&Hpf&Hbp).
  exists bp. unfold sbind at 1. rewrite (sbind_try_ok _ _ _ _ _ Hscan). cbn.
  unfold sbind at 1. by rewrite Hpf.
Qed.

(** The files of a folder in the order in which they are scanned. *)
Definition folder_files (folder : string) (entries : list (string * bool)) : list string :=
  schedule ((λ entry, Join folder entry.1) <$> List.filter (λ entry, negb entry.2) entries).

Lemma ScanIndexFolder_ok {C} (cb : Callbacks C) folder entries st c' :
  ReadDir folder = Ok entries →
  (∀ f, f ∈ folder_files folder entries → is_scip f = true → file_ok f) → pool_ok (pool st) →
  forM_ (List.filter is_scip (folder_files folder entries) ≫= idx) (index_calls cb) (client st)
    = (Ok tt, c') →
  ∃ bp, ScanIndexFolder cb scan_fuel errText schedule folder true st
    = (Ok tt, mkScanState (rd st) bp c') ∧ pool_ok bp.
Proof.
  intros Hd Hall Hp Hrun. destruct (process_files_ok cb _ st c' Hall Hp Hrun) as (bp&Hpf&Hbp).
  exists bp. split; [|done]. unfold ScanIndexFolder. rewrite Hd. unfold sbind at 1. cbn [lift_res join_err].
  unfold sbind at 1. fold (folder_files folder entries). by rewrite Hpf.
Qed.

(** ** References *)

(** The occurrences of the symbol in an index, with their documents. *)
Definition item_refs (symbol path : string) (it : doc_item) : list (string * Model.Occurrence) :=
  match it with
  | ItemOccurrence p s =>
    if bool_decide (string_of_bytes (default [] s) = symbol) then
      match UnmarshalOccurrence p with
      | Ok occ => [(path, ScipOccurrenceToModelOccurrence occ)]
      | _ => []
      end
    else []
  | _ => []
  end.
Definition index_refs (symbol : string) (it : index_item) : list (string * Model.Occurrence) :=
  match it with
  | IndexDocument path items => items ≫= item_refs symbol (index_path path)
  | IndexOther _ _ => []
  end.
Definition item_decodes (it : doc_item) : Prop :=
  match it with ItemOccurrence p _ => ∃ occ, UnmarshalOccurrence p = Ok occ | _ => True end.
Definition index_decodes (it : index_item) : Prop :=
  match it with IndexDocument _ items => Forall item_decodes items | IndexOther _ _ => True end.

(** The occurrences by document, in their order. *)
Definition by_doc (refs : list (string * Model.Occurrence)) (m : gmap string (list Model.Occurrence))
    : gmap string (list Model.Occurrence) :=
  foldl (λ m r, <[r.1 := default [] (m !! r.1) ++ [r.2]]> m) m refs.

Lemma by_doc_lookup refs path : ∀ m,
  default [] (by_doc refs m !! path) =
  default [] (m !! path) ++ (snd <$> List.filter (λ r, bool_decide (r.1 = path)) refs).
Proof.
  unfold by_doc. induction refs as [|[p o] refs IH]; intros m; cbn [foldl List.filter fst snd].
  - cbn. by rewrite app_nil_r.
  - rewrite IH. case_bool_decide as Hp.
    + subst. rewrite lookup_insert_eq. cbn. by rewrite <- (assoc_L (++)).
    + by rewrite lookup_insert_ne.
Qed.

Lemma item_refs_ok symbol path it m : item_decodes it →
  item_calls (reference_callbacks symbol) path it m = (Ok tt, by_doc (item_refs symbol path it) m).
Proof.
  intros Hit. destruct it as [p s|p s|n p]; [done| |done]. destruct Hit as [occ Hocc].
  cbn [item_calls reference_callbacks MatchOccurrence]. rewrite sbind_ret. cbn [item_refs].
  case_bool_decide; [|done]. cbn [visit_if VisitOccurrence mbind option_bind]. by rewrite Hocc.
Qed.

Lemma items_refs_ok symbol path items : Forall item_decodes items → ∀ m,
  forM_ items (item_calls (reference_callbacks symbol) path) m
  = (Ok tt, by_doc (items ≫= item_refs symbol path) m).
Proof.
  induction 1 as [|it items Hit _ IH]; intros m; [done|]. cbn [forM_].
  rewrite (sbind_ok _ _ _ _ _ (item_refs_ok symbol path it m Hit)), IH.
  rewrite bind_cons. unfold by_doc. by rewrite foldl_app.
Qed.

Lemma index_refs_ok symbol l : Forall index_decodes l → ∀ m,
  forM_ l (index_calls (reference_callbacks symbol)) m = (Ok tt, by_doc (l ≫= index_refs symbol) m).
Proof.
  induction 1 as [|it l Hit _ IH]; intros m; [done|]. cbn [forM_]. rewrite bind_cons.
  unfold by_doc at 1. rewrite foldl_app. fold (by_doc (index_refs symbol it) m).
  rewrite (sbind_ok _ _ _ tt (by_doc (index_refs symbol it) m)); [by rewrite IH|].
  destruct it as [path items|n p]; [|done]. cbn [index_calls].
  unfold sbind, joinM. cbn. fold (index_path path).
  by rewrite (items_refs_ok symbol (index_path path) items Hit).
Qed.

(** ** Documents *)

Definition doc_decodes (it : index_item) : Prop :=
  match it with
  | IndexDocument _ items => ∃ doc, UnmarshalDocument (doc_payload items) = Ok doc
  | IndexOther _ _ => True
  end.

(** The document of an item, if its path is [d]. *)
Definition item_doc (d : string) (it : index_item) : option Model.Document :=
  match it with
  | IndexDocument path items =>
    if bool_decide (Clean (index_path path) = d) then
      match UnmarshalDocument (doc_payload items) with
      | Ok doc => Some (ScipDocumentToModelDocument doc)
      | _ => None
      end
    else None
  | IndexOther _ _ => None
  end.
(** The last document of the path [d]. *)
Fixpoint last_doc (l : list index_item) (d : string) : option Model.Document :=
  match l with
  | [] => None
  | it :: l' => match last_doc l' d with Some doc => Some doc | None => item_doc d it end
  end.

Definition put_doc (d : string) (doc : option Model.Document) (p : PartialLoadedIndex)
    : PartialLoadedIndex :=
  match doc with
  | Some doc => set_documents (<[d := doc]> (LoadedDocuments p)) p
  | None => p
  end.

Lemma document_item_ok d it p : doc_decodes it →
  index_calls (document_callbacks d) it p = (Ok tt, put_doc d (item_doc d it) p).
Proof.
  intros Hit. destruct it as [path items|n p']; [|done]. destruct Hit as [doc Hdoc].
  cbn [index_calls document_callbacks MatchDocumentPath VisitDocument]. rewrite sbind_ret.
  fold (index_path path). cbn [item_doc].
  assert (Hitems : ∀ path p, forM_ items (item_calls (document_callbacks d) path) p = (Ok tt, p)).
  { intros path0 p0. induction items as [|it items IH] in p0 |- *; [done|]. cbn [forM_].
    rewrite (sbind_ok _ _ p0 tt p0); [apply IH|]. by destruct it. }
  case_bool_decide; cbn [visit_if].
  - rewrite Hdoc. unfold sbind, joinM, lift_res. cbn [wrap_err join_err modify_st].
    fold (document_callbacks d). by rewrite Hitems.
  - rewrite sbind_ret. unfold joinM. fold (document_callbacks d). by rewrite Hitems.
Qed.

Lemma document_index_ok d l : Forall doc_decodes l → ∀ p,
  forM_ l (index_calls (document_callbacks d)) p = (Ok tt, put_doc d (last_doc l d) p).
Proof.
  induction 1 as [|it l Hit _ IH]; intros p; [done|]. cbn [forM_ last_doc].
  rewrite (sbind_ok _ _ _ _ _ (document_item_ok d it p Hit)), IH.
  destruct (last_doc l d) as [doc|]; [|done]. destruct (item_doc d it) as [doc'|]; [|done].
  cbn. unfold set_documents. cbn. by rewrite insert_insert_eq.
Qed.

(** The files in which [LoadDocument] looks for a document. *)
Definition document_files (p : PartialLoadedIndex) (d : string) (entries : list (string * bool))
    : list string :=
  match docToIndex p !! d with
  | Some f => [f]
  | None => List.filter is_scip (folder_files (indexFolder p) entries)
  end.

Lemma load_from_files p d entries :
  pool_ok (ipool p) →
  (docToIndex p !! d = None → ReadDir (indexFolder p) = Ok entries) →
  (∀ f, f ∈ document_files p d entries → file_ok f ∧ Forall doc_decodes (idx f)) →
  ∃ bp, (match docToIndex p !! d with
         | Some index => loadDocumentFromIndex scan_fuel index d
         | None => loadDocumentFromIndexFolder scan_fuel errText schedule d
         end) p
    = (Ok (LoadedDocuments (put_doc d (last_doc (document_files p d entries ≫= idx) d) p) !! d),
       set_pool bp (put_doc d (last_doc (document_files p d entries ≫= idx) d) p)) ∧ pool_ok bp.
Proof.
  intros Hp Hdir Hall. set (doc := last_doc (document_files p d entries ≫= idx) d).
  assert (Hrun : forM_ (document_files p d entries ≫= idx) (index_calls (document_callbacks d)) p
    = (Ok tt, put_doc d doc p)).
  { apply document_index_ok. apply Forall_bind. apply Forall_forall. intros f Hf.
    by apply (Hall f Hf). }
  unfold document_files in *. destruct (docToIndex p !! d) as [f|].
  - cbn [mbind list_bind] in Hrun. rewrite app_nil_r in Hrun.
    destruct (ScanIndexFile_ok (document_callbacks d) f (mkScanState (NewReader []) (ipool p) p)
      (put_doc d doc p)) as (bp&Hscan&Hbp); [apply Hall; by left|done..|].
    exists bp. split; [|done]. unfold loadDocumentFromIndex, scan_index. unfold sbind at 1.
    by rewrite Hscan.
  - destruct (ScanIndexFolder_ok (document_callbacks d) (indexFolder p) entries
      (mkScanState (NewReader []) (ipool p) p) (put_doc d doc p)) as (bp&Hscan&Hbp);
      [by apply Hdir| |done..|].
    + intros f Hf Hs. apply Hall. apply list_elem_of_In, filter_In.
      split; [by apply list_elem_of_In|done].
    + exists bp. split; [|done]. unfold loadDocumentFromIndexFolder, scan_index. rewrite sbind_get.
      unfold sbind at 1. by rewrite Hscan.
Qed.
End files.
End index.

(** ** Main theorems *)

(** Loading a serialised index whose global symbols decode and parse makes
    the symbols of the index known with their last definition there, the later
    index taking precedence over earlier ones, and keeps all others; its
    documents are recorded as being in it and its implementation relationships
    are added; the invariant of the index holds again. *)
Theorem LoadIndex_loads `{Bindings} `{WireLaws} scan_fuel tree_fuel p ip idx :
  index_inv p → Forall index_ok idx → Forall (index_loads tree_fuel) idx →
  zlen (enc_index idx) < Z.of_nat scan_fuel → zlen (enc_index idx) ≤ maxAlloc →
  (0 < tree_fuel)%nat →
  ∃ p', LoadIndex scan_fuel tree_fuel ip (enc_index idx) p = (Ok tt, p') ∧ index_inv p' ∧
    (∀ ds v, ds ≠ [] → symbol_at p' ds v =
      match last_def (idx ≫= index_defs) ds v with Some vi => Some vi | None => symbol_at p ds v end) ∧
    (∀ d, docToIndex p' !! d =
      if bool_decide (d ∈ idx ≫= index_docs) then Some ip else docToIndex p !! d) ∧
    (∀ a s, s ∈ default ∅ (ImplementorsBySymbol p' !! a) ↔
      s ∈ default ∅ (ImplementorsBySymbol p !! a) ∨ implements (idx ≫= index_defs) a s).
Proof.
  intros Hinv Hok Hl Hf Hm Htf.
  destruct (LoadIndex_ok scan_fuel tree_fuel p ip idx) as (p'&Hrun&[L1 L2 L3 L4 L5]&_); [done..|].
  exists p'. by split_and!.
Qed.

(** After an index is loaded, [GetSymbolInformation] of a global symbol of
    the index returns its last definition there with the path of its document,
    and changes nothing. *)
Theorem GetSymbolInformation_loaded `{Bindings} `{WireLaws} scan_fuel tree_fuel p ip idx s sy pkg vi :
  index_inv p → Forall index_ok idx → Forall (index_loads tree_fuel) idx →
  zlen (enc_index idx) < Z.of_nat scan_fuel → zlen (enc_index idx) ≤ maxAlloc →
  IsLocalSymbol s = false → ParseScipSymbol s = Ok sy → Scip.SPackage sy = Some pkg →
  Scip.Descriptors sy ≠ [] → (0 < tree_fuel)%nat →
  last_def (idx ≫= index_defs) (ScipDescriptorsToModelDescriptors (Scip.Descriptors sy))
    (Scip.Version pkg) = Some vi →
  ∃ p', LoadIndex scan_fuel tree_fuel ip (enc_index idx) p = (Ok tt, p') ∧
    GetSymbolInformation s p' = (Ok (Some (Info vi, DocumentPath vi)), p').
Proof.
  intros Hinv Hok Hl Hf Hm Hs Hp Hpkg Hds Htf Hdef.
  destruct (LoadIndex_ok scan_fuel tree_fuel p ip idx) as (p'&Hrun&[L1 L2 L3 L4 L5]&_); [done..|].
  exists p'. split; [done|]. unfold GetSymbolInformation. rewrite Hs, Hp. unfold sbind at 1.
  cbn [lift_res]. rewrite Hpkg. set (ds := ScipDescriptorsToModelDescriptors (Scip.Descriptors sy)) in *.
  assert (Hne : ds ≠ []) by (unfold ds; by destruct (Scip.Descriptors sy)).
  destruct (GetFromDescriptors_ok p' ds (Scip.Version pkg) L1 Hne) as (r&Hget&Hr).
  { by apply (ParseScipSymbol_version s sy). }
  rewrite L2, Hdef in Hr by done. rewrite Hget. by rewrite Hr.
Qed.

(** [GetSymbolInformationFromDescriptors] fails without descriptors,
    returns nothing for the empty version or an unknown symbol, otherwise the
    version asked for, and the least of the known versions when that one is
    not known; it never panics and changes nothing. *)
Theorem GetSymbolInformation_exact p ds version :
  index_inv p →
  match ds, version with
  | [], _ => GetSymbolInformationFromDescriptors ds version p = (Err (EText "no descriptors provided"), p)
  | _, "" => GetSymbolInformationFromDescriptors ds version p = (Ok None, p)
  | _, _ => ∃ r, GetSymbolInformationFromDescriptors ds version p = (Ok r, p) ∧
    match symbol_at p ds version with
    | Some vi => found r vi
    | None => (r = None ∧ ∀ v, symbol_at p ds v = None) ∨
              ∃ v vi, first_version p ds v ∧ symbol_at p ds v = Some vi ∧ found r vi
    end
  end.
Proof.
  intros Hinv. destruct ds as [|d ds]; [done|]. destruct version as [|c version].
  - unfold GetSymbolInformationFromDescriptors. rewrite sbind_get.
    destruct (walk _ _ (d :: ds)) as [q|] eqn:Hq; [|done].
    destruct (tree_alloc _ _ (proj1 Hinv) _ _ Hq) as [n Hn].
    rewrite (sbind_ok _ _ p n p) by (by apply on_tree_load).
    rewrite (bool_decide_true ("" = "")) by done. by rewrite orb_true_r.
  - by apply GetFromDescriptors_ok.
Qed.

(** [LoadDocument] returns a document that is loaded already; otherwise it
    returns the last document of that path in the index file that is known to
    have it, or in the files of the index folder, keeps it, and calls the
    callback with it; nothing else changes but the buffers of the pool. *)
Theorem LoadDocument_exact `{WireLaws} `{FileSystem} scan_fuel errText schedule idx p d entries :
  pool_ok (ipool p) →
  (docToIndex p !! d = None → ReadDir (indexFolder p) = Ok entries) →
  (∀ f, f ∈ document_files schedule p d entries →
    file_ok scan_fuel idx f ∧ Forall doc_decodes (idx f)) →
  match LoadedDocuments p !! d with
  | Some doc => LoadDocument scan_fuel errText schedule d p = (Ok (Some doc), p)
  | None => ∃ bp, pool_ok bp ∧
    LoadDocument scan_fuel errText schedule d p =
    match last_doc (document_files schedule p d entries ≫= idx) d with
    | None => (Ok None, set_pool bp p)
    | Some doc => (Ok (Some doc), call_loaded doc
        (set_pool bp (set_documents (<[d := doc]> (LoadedDocuments p)) p)))
    end
  end.
Proof.
  intros Hp Hdir Hall. unfold LoadDocument. rewrite sbind_get.
  destruct (LoadedDocuments p !! d) as [doc|] eqn:Hd; [done|].
  destruct (load_from_files scan_fuel errText schedule idx p d entries Hp Hdir Hall) as (bp&Hrun&Hbp).
  exists bp. split; [done|]. rewrite (sbind_ok _ _ _ _ _ Hrun).
  destruct (last_doc _ d) as [doc|]; cbn [put_doc].
  - assert (Hl : LoadedDocuments (set_documents (<[d := doc]> (LoadedDocuments p)) p) !! d = Some doc)
      by apply lookup_insert_eq. by rewrite !Hl.
  - by rewrite Hd.
Qed.

(** [References] of a global symbol returns, by document, exactly the
    occurrences of the symbol in the indices of the folder, in the order in
    which the files are scanned, and changes nothing but the buffers of the
    pool. *)
Theorem References_exact `{Bindings} `{WireLaws} `{FileSystem} scan_fuel errText schedule idx p entries s :
  IsLocalSymbol s = false → pool_ok (ipool p) → ReadDir (indexFolder p) = Ok entries →
  (∀ f, f ∈ folder_files schedule (indexFolder p) entries → is_scip f = true →
    file_ok scan_fuel idx f ∧ Forall index_decodes (idx f)) →
  ∃ m bp, References scan_fuel errText schedule s p = (Ok (Some m), set_pool bp p) ∧ pool_ok bp ∧
    ∀ path, default [] (m !! path) =
      snd <$> List.filter (λ r, bool_decide (r.1 = path))
        ((List.filter is_scip (folder_files schedule (indexFolder p) entries) ≫= idx) ≫= index_refs s).
Proof.
  intros Hs Hp Hdir Hall. unfold References. rewrite Hs.
  set (files := folder_files schedule (indexFolder p) entries) in *.
  destruct (ScanIndexFolder_ok scan_fuel errText schedule idx (reference_callbacks s) (indexFolder p)
    entries (mkScanState (NewReader []) (ipool p) ∅)
    (by_doc ((List.filter is_scip files ≫= idx) ≫= index_refs s) ∅)) as (bp&Hscan&Hbp).
  - done.
  - intros f Hf Hsc. by apply Hall.
  - done.
  - apply index_refs_ok. apply Forall_bind, Forall_forall. intros f Hf.
    apply list_elem_of_In, filter_In in Hf as [Hf Hsc]. apply Hall; [by apply list_elem_of_In|done].
  - rewrite Hscan. eexists _, bp. split_and!; [reflexivity|done|]. intros path.
    cbn [client]. by rewrite by_doc_lookup, lookup_empty.
Qed.

(** ** Instances *)

Definition sample_forest : Forest := mkForest {[0%N := root_node]} 1.
Definition empty_index : PartialLoadedIndex :=
  mkIndex sample_forest 0 ∅ ∅ 0 ∅ ∅ "idx" sample_pool 0 [] ∅.

Lemma empty_index_inv : index_inv empty_index.
Proof.
  split_and!; [by apply (new_leaf_tree ∅ 0 root_node)| |apply sample_pool_ok].
  intros q [n Hn]. change (({[0%N := root_node]} : Heap) !! q = Some n) in Hn.
  apply lookup_singleton_Some in Hn as [<- _]. cbn. lia.
Qed.

Lemma sample_loads : Forall (index_loads 5) sample_index.
Proof.
  constructor; [done|]. constructor; [|done]. split; [by eexists|].
  repeat constructor; intros _. eexists. split; [reflexivity|].
  exists (Scip.mkSymbol "scip" (Some (Scip.mkPackage "m" "p" "1")) [Scip.mkDescriptor "s" 1 ""]),
    (Scip.mkPackage "m" "p" "1").
  split_and!; [reflexivity|reflexivity|done|cbn; lia].
Qed.

(** A new index satisfies the invariant. *)
Lemma NewPartialLoadedIndex_inv reuse folder p :
  NewPartialLoadedIndex reuse folder = Ok p → index_inv p.
Proof.
  unfold NewPartialLoadedIndex. destruct (NewBufferPool reuse 1024 12) as [bp| | |] eqn:Hb; [|done..].
  intros [= <-]. split_and!; [by apply (new_leaf_tree ∅ 0 root_node)| |by eapply NewBufferPool_ok].
  apply empty_index_inv.
Qed.

Definition sample_symbol : Model.SymbolInformation :=
  Model.mkSymbolInformation "s" [] [] (Scip.Kind_other 0) "" None "".

Lemma LoadIndex_loads_witness :
  ∃ p', LoadIndex 100 5 "idx/a.scip" (enc_index sample_index) empty_index = (Ok tt, p') ∧
    symbol_at p' [Model.mkDescriptor "s" 1 ""] "1" = Some (mkVersionInfo sample_symbol "a") ∧
    docToIndex p' !! "a" = Some "idx/a.scip".
Proof.
  destruct (LoadIndex_loads 100 5 empty_index "idx/a.scip" sample_index empty_index_inv
    sample_index_ok sample_loads eq_refl ltac:(discriminate) ltac:(lia)) as (p'&Hrun&_&Hsym&Hdoc&_).
  exists p'. split_and!; [exact Hrun|by rewrite Hsym|by rewrite Hdoc].
Defined.

Lemma GetSymbolInformation_loaded_witness :
  ∃ p', LoadIndex 100 5 "idx/a.scip" (enc_index sample_index) empty_index = (Ok tt, p') ∧
    GetSymbolInformation "s" p' = (Ok (Some (sample_symbol, "a")), p').
Proof.
  exact (GetSymbolInformation_loaded 100 5 empty_index "idx/a.scip" sample_index "s"
    (Scip.mkSymbol "scip" (Some (Scip.mkPackage "m" "p" "1")) [Scip.mkDescriptor "s" 1 ""])
    (Scip.mkPackage "m" "p" "1") (mkVersionInfo sample_symbol "a") empty_index_inv
    sample_index_ok sample_loads eq_refl ltac:(discriminate) eq_refl eq_refl eq_refl
    ltac:(discriminate) ltac:(lia) eq_refl).
Defined.

Definition one_symbol_index : PartialLoadedIndex :=
  set_forest (mkForest (list_to_map [(0%N, sample_root 1); (1%N, sample_leaf 0 "1" "x" 1)]) 2) empty_index.

Lemma one_symbol_index_inv : index_inv one_symbol_index.
Proof.
  split_and!; [| |apply sample_pool_ok].
  - by apply (flat_tree _ _ (sample_root 1) sample_desc 1%N (sample_leaf 0 "1" "x" 1)).
  - intros q [n Hn]. cbn in Hn. destruct (decide (q = 0%N)) as [->|]; [done|].
    destruct (decide (q = 1%N)) as [->|]; [done|].
    by rewrite !lookup_insert_ne in Hn by done.
Qed.

Lemma GetSymbolInformation_exact_witness :
  ∃ r, GetSymbolInformationFromDescriptors [sample_desc] "9" one_symbol_index = (Ok r, one_symbol_index) ∧
    ((r = None ∧ ∀ v, symbol_at one_symbol_index [sample_desc] v = None) ∨
     ∃ v vi, first_version one_symbol_index [sample_desc] v ∧
       symbol_at one_symbol_index [sample_desc] v = Some vi ∧ found r vi).
Proof.
  apply (GetSymbolInformation_exact one_symbol_index [sample_desc] "9" one_symbol_index_inv).
Defined.

#[export] Instance simple_fs : FileSystem := {
  Open f := if bool_decide (f = "idx/a.scip") then Ok (enc_index sample_index) else Err (EExternal 2);
  ReadDir d := Ok [("a.scip", false); ("sub", true); ("notes", false)]
}.

Lemma sample_file_ok : file_ok 100 (λ _, sample_index) "idx/a.scip".
Proof. split_and!; [reflexivity|apply sample_index_ok|reflexivity|discriminate]. Qed.

Lemma LoadDocument_exact_witness :
  ∃ bp, pool_ok bp ∧
    LoadDocument 100 (λ _, "") reverse "a" empty_index =
    (Ok (Some (ScipDocumentToModelDocument no_document)),
     call_loaded (ScipDocumentToModelDocument no_document)
       (set_pool bp (set_documents {["a" := ScipDocumentToModelDocument no_document]} empty_index))).
Proof.
  assert (Hl : last_doc (document_files reverse empty_index "a"
      [("a.scip", false); ("sub", true); ("notes", false)] ≫= λ _, sample_index) "a"
    = Some (ScipDocumentToModelDocument no_document)) by (vm_compute; reflexivity).
  pose proof (LoadDocument_exact 100 (λ _, "") reverse (λ _, sample_index) empty_index "a"
    [("a.scip", false); ("sub", true); ("notes", false)]) as Hload.
  rewrite Hl in Hload. apply Hload.
  - apply sample_pool_ok.
  - done.
  - intros f Hf. change (f ∈ ["idx/a.scip"]) in Hf. apply list_elem_of_singleton in Hf as ->.
    split; [apply sample_file_ok|]. constructor; [done|]. constructor; [by eexists|done].
Defined.

Lemma References_exact_witness :
  ∃ m bp, References 100 (λ _, "") reverse "" empty_index = (Ok (Some m), set_pool bp empty_index) ∧
    default [] (m !! "a") = [Model.mkOccurrence [] "" 0 [] 0 []].
Proof.
  destruct (References_exact 100 (λ _, "") reverse (λ _, sample_index) empty_index
    [("a.scip", false); ("sub", true); ("notes", false)] "") as (m&bp&Hrun&_&Hm).
  - reflexivity.
  - apply sample_pool_ok.
  - reflexivity.
  - intros f Hf Hs. change (f ∈ ["idx/notes"; "idx/a.scip"]) in Hf.
    apply elem_of_cons in Hf as [->|Hf]; [done|]. apply list_elem_of_singleton in Hf as ->.
    split; [apply sample_file_ok|]. constructor; [done|]. constructor; [|done].
    repeat constructor; by eexists.
  - exists m, bp. split; [exact Hrun|]. by rewrite Hm.
Defined.

(** [Tidy] looks at the first tree node of every document of the index:
    after the load of an index in which some document defines no global symbol
    it panics. *)
Theorem Tidy_panics :
  let idx := [IndexDocument (Some [97]) [ItemOther 1 [97]]] in
  let '(r1, p1) := LoadIndex 100 5 "idx/a.scip" (enc_index idx) empty_index in
  r1 = Ok tt ∧ (Tidy 5 p1).1 = Panic.
Proof. vm_compute. by split. Qed.
