(* ===== verification/Registry.v ===== *)
(** * The symbol registry

    Models [src/ulsp/controller/scip/partial_registry.go], of which
    [src/scip-lib/registry/partial_registry.go] is a copy without
    [Implementation]: the queries of the language server (definition,
    references, hover, document symbols, implementation) over a partial index.

    The registry knows the index by its Go interface [PartialIndex], here a
    class of operations over the state of the index with laws that say what
    its answers mean.  The theorems about the registry use the laws only;
    [RegistryProof] shows that the partially loaded index has them.  The
    library of URIs is a parameter; log messages are left out. *)

From stdpp Require Import base gmap list strings fin_maps.
From Stdlib Require Import ZArith Lia.
From S2P Require Import Prelude Protocol Scip Occurrences Paths Scanner.

Local Open Scope Z_scope.

(** The calls of the callback for loaded documents that an index has made. *)
Class CallbackLog (S : Type) := { callback_calls : S → list (N * Model.Document) }.

Module Index.
(** [partialloader.PartialIndex].  A document that [LoadDocument] returns is a
    pointer into the index: [write_document] is a write through it. *)
Class PartialIndex (S : Type) := {
  SetDocumentLoadedCallback : N → GoM S unit;
  LoadIndex : string → bytes → GoM S unit;
  LoadIndexFile : string → GoM S unit;
  LoadDocument : string → GoM S (option Model.Document);
  write_document : string → Model.Document → GoM S unit;
  GetSymbolInformation : string → GoM S (option (Model.SymbolInformation * string));
  GetSymbolInformationFromDescriptors :
    list Model.Descriptor → string → GoM S (option (Model.SymbolInformation * string));
  References : string → GoM S (option (gmap string (list Model.Occurrence)));
  Implementations : string → GoM S (list string)
}.

(** What the answers of an index mean: the document of a path, the symbol at a
    path of descriptors, the occurrences of a symbol in a document and the
    symbols that implement a symbol; the documents in its memory, and the
    callback for documents that come there.  The queries of an index that is
    [ready] return these and do not change them, but for the documents that they
    bring to memory. *)
Class View (S : Type) `{PartialIndex S} `{CallbackLog S} := {
  ready : S → Prop;
  doc_of : S → string → option Model.Document;
  sym_of : S → list Model.Descriptor → string → option (Model.SymbolInformation * string);
  refs_of : S → string → string → list Model.Occurrence;
  impls_of : S → string → gset string;
  memory_of : S → gset string;
  callback_of : S → N
}.

(** The documents of the paths that are not in memory, as they are loaded. *)
Definition loads {S : Type} `{View S} (s : S) (paths : list string) : list (string * Model.Document) :=
  paths ≫= λ p, if decide (p ∈ memory_of s) then [] else option_list (pair p <$> doc_of s p).

Record unchanged {S : Type} `{View S} (s s' : S) : Prop := {
  un_doc d : doc_of s' d = doc_of s d;
  un_sym ds v : sym_of s' ds v = sym_of s ds v;
  un_refs a d : refs_of s' a d = refs_of s a d;
  un_impls a : impls_of s' a = impls_of s a;
  un_callback : callback_of s' = callback_of s
}.

(** A query that asks for the documents [paths]: those that are not in memory are
    loaded, each once, with a call of the callback. *)
Record asks {S : Type} `{View S} (paths : list string) (s s' : S) : Prop := {
  as_unchanged : unchanged s s';
  as_memory p : p ∈ memory_of s' ↔ p ∈ memory_of s ∨ p ∈ (loads s paths).*1;
  as_calls : ∃ new, callback_calls s' = callback_calls s ++ (pair (callback_of s) <$> new) ∧
    ∀ b, b ∈ new ↔ b ∈ (loads s paths).*2
}.

Class Laws (S : Type) `{View S} `{Bindings} := {
  LoadDocument_law s d : ready s →
    ∃ s', LoadDocument d s = (Ok (doc_of s d), s') ∧ ready s' ∧ asks [d] s s';
  FromDescriptors_law s ds v : ready s → ds ≠ [] → v ≠ "" →
    ∃ s', GetSymbolInformationFromDescriptors ds v s = (Ok (sym_of s ds v), s') ∧
      ready s' ∧ asks [] s s';
  References_law s a : ready s → IsLocalSymbol a = false →
    ∃ m s', References a s = (Ok (Some m), s') ∧ (∀ d, default [] (m !! d) = refs_of s a d) ∧
      ready s' ∧ asks [] s s';
  Implementations_law s a : ready s →
    ∃ s', Implementations a s = (Ok (elements (impls_of s a)), s') ∧ ready s' ∧ asks [] s s';
  write_document_law s d doc doc0 : ready s → doc_of s d = Some doc0 →
    ∃ s', write_document d doc s = (Ok tt, s') ∧ ready s' ∧
      doc_of s' d = Some doc ∧ ∀ d', d' ≠ d → doc_of s' d' = doc_of s d'
}.
End Index.
(** [go.lsp.dev/uri]: [Filename] panics on a URI that is not of a file. *)
Class UriLib := { File : string → URI; Filename : URI → gores string }.

Definition set_display_name (info : Model.SymbolInformation) (name : string) : Model.SymbolInformation :=
  Model.mkSymbolInformation (Model.ISymbol info) (Model.Documentation info)
    (Model.Relationships info) (Model.Kind info) name (Model.SignatureDocumentation info)
    (Model.EnclosingSymbol info).
Definition set_symbols (doc : Model.Document) (symbols : list Model.SymbolInformation) : Model.Document :=
  Model.mkDocument (Model.Language doc) (Model.RelativePath doc) (Model.Occurrences doc) symbols
    (Model.SymbolMap doc) (Model.DText doc) (Model.Diagnostics doc).

Module Registry.
Section registry.
Context {S : Type} `{Index.PartialIndex S} `{Bindings} `{UriLib} (WorkspaceRoot : string).

Definition RegistryM := GoM S.

Definition GetURI (relPath : string) : URI := File (Join WorkspaceRoot relPath).

(** [None] is a nil reader. *)
Definition LoadIndex (indexReader : option bytes) : RegistryM unit :=
  match indexReader with
  | None => throw (EText "index reader is nil")
  | Some content => Index.LoadIndex "" content
  end.
Definition LoadIndexFile (indexPath : string) : RegistryM unit := Index.LoadIndexFile indexPath.
Definition SetDocumentLoadedCallback (callback : N) : RegistryM unit :=
  Index.SetDocumentLoadedCallback callback.

Definition uriToRelativePath (uri : URI) : gores string :=
  filename <-? Filename uri;;
  match Rel WorkspaceRoot filename with
  | Ok rel => Ok rel
  | Err _ => Ok ""
  | Panic => Panic
  | Fuel => Fuel
  end.

Definition load (uri : URI) : RegistryM (option Model.Document) :=
  relativePath <- lift_res (uriToRelativePath uri);;
  Index.LoadDocument relativePath.

Definition DidOpen (uri : URI) (text : string) : RegistryM unit :=
  _ <- load uri;;
  sret tt.
Definition DidClose (sourceURI : URI) : RegistryM unit := sret tt.

Definition GetSymbolDefinitionOccurrence (descriptors : list Model.Descriptor) (version : string)
    : RegistryM (option Model.SymbolOccurrence) :=
  found <- Index.GetSymbolInformationFromDescriptors descriptors version;;
  match found with
  | None => sret None
  | Some (symbolInformation, defDocPath) =>
    defDoc <- Index.LoadDocument defDocPath;;
    match defDoc with
    | None => sret None
    | Some defDoc =>
      let definitionOccs := GetOccurrencesForSymbol (Model.Occurrences defDoc)
        (Model.ISymbol symbolInformation) Scip.SymbolRole_Definition in
      sret (Some (Model.mkSymbolOccurrence (File (Join WorkspaceRoot defDocPath))
        (head definitionOccs) (Some symbolInformation)))
    end
  end.

(** The definition of a symbol that is not local; a symbol without package
    would be a nil dereference. *)
Definition global_definition (symbol : string) : RegistryM (option Model.SymbolOccurrence) :=
  sy <- lift_res (ParseScipSymbol symbol);;
  match Scip.SPackage sy with
  | None => lift_res Panic
  | Some pkg =>
    GetSymbolDefinitionOccurrence (ScipDescriptorsToModelDescriptors (Scip.Descriptors sy))
      (Scip.Version pkg)
  end.

(** [Definition]; [None] is a pair of nil occurrences. *)
Definition Definition_ (sourceURI : URI) (pos : Position)
    : RegistryM (option (Model.SymbolOccurrence * Model.SymbolOccurrence)) :=
  doc <- load sourceURI;;
  match doc with
  | None => sret None
  | Some doc =>
    sourceOccurrence <- lift_res (GetOccurrenceForPosition (Model.Occurrences doc) pos);;
    match sourceOccurrence with
    | None => sret None
    | Some sourceOccurrence =>
      let symbol := Model.OSymbol sourceOccurrence in
      let result (symbolInformation : option Model.SymbolInformation)
          (definitionOcc : option Model.Occurrence) (defDocURI : URI) :=
        sret (Some (Model.mkSymbolOccurrence sourceURI (Some sourceOccurrence) symbolInformation,
                    Model.mkSymbolOccurrence defDocURI definitionOcc symbolInformation)) in
      if IsLocalSymbol symbol then
        let symbolInformation := GetLocalSymbolInformation (Model.Symbols doc) symbol in
        match GetOccurrencesForSymbol (Model.Occurrences doc) symbol Scip.SymbolRole_Definition with
        | definitionOcc :: _ => result symbolInformation (Some definitionOcc) sourceURI
        | [] => result symbolInformation None ""
        end
      else
        def <- global_definition symbol;;
        match def with
        | None => sret None
        | Some def => result (Model.SInfo def) (Model.SOccurrence def) (Model.SLocation def)
        end
    end
  end.

(** The occurrences of a map of documents as locations, in the order of the map. *)
Definition locations_of (occurrences : gmap string (list Model.Occurrence)) : list Location :=
  map_to_list occurrences ≫= λ '(relDocPath, occs),
    ScipOccurrenceToLocation (File (Join WorkspaceRoot relDocPath)) <$> occs.

(** [References]; [None] is a nil slice. *)
Definition References (sourceURI : URI) (pos : Position) : RegistryM (option (list Location)) :=
  doc <- load sourceURI;;
  match doc with
  | None => sret None
  | Some doc =>
    sourceOccurrence <- lift_res (GetOccurrenceForPosition (Model.Occurrences doc) pos);;
    match sourceOccurrence with
    | None => sret None
    | Some sourceOccurrence =>
      let symbol := Model.OSymbol sourceOccurrence in
      if IsLocalSymbol symbol then
        sret (Some (ScipOccurrenceToLocation sourceURI <$>
          List.filter (λ occ, bool_decide (Model.OSymbol occ = symbol)) (Model.Occurrences doc)))
      else
        occurrences <- Index.References symbol;;
        sret (Some (locations_of (default ∅ occurrences)))
    end
  end.

(** The documentation shown for an occurrence. *)
Definition hover_docs (occurrence : Model.Occurrence) (info : option Model.SymbolInformation) : string :=
  match Model.OverrideDocumentation occurrence with
  | _ :: _ => join newline (Model.OverrideDocumentation occurrence)
  | [] =>
    match info with
    | None => ""
    | Some info =>
      match Model.Documentation info with
      | _ :: _ => join newline (Model.Documentation info)
      | [] =>
        match Model.SignatureDocumentation info with
        | Some d => Model.DText d
        | None => ""
        end
      end
    end
  end.

Definition Hover (uri : URI) (pos : Position) : RegistryM (string * option Model.Occurrence) :=
  doc <- load uri;;
  match doc with
  | None => sret ("", None)
  | Some doc =>
    occurrence <- lift_res (GetOccurrenceForPosition (Model.Occurrences doc) pos);;
    match occurrence with
    | None => sret ("", None)
    | Some occurrence =>
      info <- Index.GetSymbolInformation (Model.OSymbol occurrence);;
      sret (hover_docs occurrence (fst <$> info), Some occurrence)
    end
  end.

(** The loop of [DocumentSymbols]: the symbols found so far and the document,
    whose symbols get the display names that they lack. *)
Fixpoint document_symbols (uri : URI) (occs : list Model.Occurrence) (doc : Model.Document)
    (symbolOccurrences : list Model.SymbolOccurrence) : list Model.SymbolOccurrence * Model.Document :=
  match occs with
  | [] => (symbolOccurrences, doc)
  | occ :: occs' =>
    if IsGlobalSymbol (Model.OSymbol occ) &&
       (0 <? Z.land (Model.SymbolRoles occ) Scip.SymbolRole_Definition) then
      match map_get (Model.SymbolMap doc) (Model.OSymbol occ) with
      | Some i =>
        match Model.Symbols doc !! i with
        | Some info =>
          let info' :=
            if bool_decide (Model.DisplayName info = "") then
              set_display_name info (ParseScipSymbolToDisplayName (Model.ISymbol info))
            else info in
          document_symbols uri occs' (set_symbols doc (<[i := info']> (Model.Symbols doc)))
            (symbolOccurrences ++ [Model.mkSymbolOccurrence uri (Some occ) (Some info')])
        | None => document_symbols uri occs' doc symbolOccurrences
        end
      | None => document_symbols uri occs' doc symbolOccurrences
      end
    else document_symbols uri occs' doc symbolOccurrences
  end.

Definition DocumentSymbols (uri : URI) : RegistryM (option (list Model.SymbolOccurrence)) :=
  relativePath <- lift_res (uriToRelativePath uri);;
  doc <- Index.LoadDocument relativePath;;
  match doc with
  | None => sret None
  | Some doc =>
    let '(symbolOccurrences, doc') := document_symbols uri (Model.Occurrences doc) doc [] in
    Index.write_document relativePath doc' ;;;
    sret (Some symbolOccurrences)
  end.

Definition Diagnostics (uri : URI) : RegistryM (list Model.Diagnostic) := throw (EText "not implemented").
Definition GetSymbolOccurrence (uri : URI) (pos : Position) : RegistryM (option Model.SymbolOccurrence) :=
  throw (EText "not implemented").

(** The loop of [Implementation]: symbols that do not parse or whose definition
    is not found are left out. *)
Fixpoint implementation_locations (implementors : list string) (locations : list Location)
    : RegistryM (list Location) :=
  match implementors with
  | [] => sret locations
  | implSym :: implementors' =>
    match ParseScipSymbol implSym with
    | Err _ => implementation_locations implementors' locations
    | Panic => lift_res Panic
    | Fuel => lift_res Fuel
    | Ok implementingSymbol =>
      match Scip.SPackage implementingSymbol with
      | None => lift_res Panic
      | Some pkg =>
        implOcc <- try_ (GetSymbolDefinitionOccurrence
          (ScipDescriptorsToModelDescriptors (Scip.Descriptors implementingSymbol))
          (Scip.Version pkg));;
        match implOcc with
        | inr (Some (Model.mkSymbolOccurrence loc (Some occ) _)) =>
          implementation_locations implementors' (locations ++ [ScipOccurrenceToLocation loc occ])
        | _ => implementation_locations implementors' locations
        end
      end
    end
  end.

Definition Implementation (sourceURI : URI) (pos : Position) : RegistryM (option (list Location)) :=
  doc <- load sourceURI;;
  match doc with
  | None => sret None
  | Some doc =>
    sourceOccurrence <- lift_res (GetOccurrenceForPosition (Model.Occurrences doc) pos);;
    match sourceOccurrence with
    | None => sret None
    | Some sourceOccurrence =>
      if IsLocalSymbol (Model.OSymbol sourceOccurrence) then sret (Some [])
      else
        implementors <- Index.Implementations (Model.OSymbol sourceOccurrence);;
        locations <- implementation_locations implementors [];;
        sret (Some locations)
    end
  end.

Definition LoadConcurrency (numCPU : Z) : Z := Z.quot numCPU 2.
End registry.
End Registry.
