(* ===== verification/RegistryProof.v ===== *)
(** * Correctness of the symbol registry

    The queries of the registry are shown correct against the laws of the
    partial index, and the partially loaded index is shown to have these laws
    when the files of its folder hold serialised indices. *)

From stdpp Require Import base gmap list strings fin_maps.
From Stdlib Require Import ZArith Lia.
From S2P Require Import Prelude Protocol Scip Occurrences Paths Scanner ScannerProof PrefixTree PrefixTreeProof PartialIndex PartialIndexProof Registry.

Local Open Scope Z_scope.

(** The library of URIs gives back the absolute path that a URI is made of. *)
Class UriLaws `{UriLib} := {
  Filename_File p : rooted p = true → Clean p = p → Filename (File p) = Ok p
}.

(** ** Queries *)

Section queries.
Context {S : Type} {I : Index.PartialIndex S} {C : CallbackLog S} {V : Index.View S} {B : Bindings} {L : Index.Laws S}
  {U : UriLib} (WorkspaceRoot : string).
Implicit Types s : S.

Lemma unchanged_trans s s1 s2 : Index.unchanged s s1 → Index.unchanged s1 s2 → Index.unchanged s s2.
Proof. intros [U1 U2 U3 U4 U5] [V1 V2 V3 V4 V5]. split; intros; congruence. Qed.

Lemma loads_elem s ps p b :
  (p, b) ∈ Index.loads s ps ↔ p ∈ ps ∧ p ∉ Index.memory_of s ∧ Index.doc_of s p = Some b.
Proof.
  unfold Index.loads. rewrite list_elem_of_bind. split.
  - intros (q&Hin&Hq). case_decide as Hm; [by apply elem_of_nil in Hin|].
    destruct (Index.doc_of s q) as [b'|] eqn:Hd; cbn in Hin; [|by apply elem_of_nil in Hin].
    apply list_elem_of_singleton in Hin as [= -> ->]. by split_and!.
  - intros (Hp&Hm&Hd). exists p. rewrite decide_False by done. rewrite Hd. by split; [apply list_elem_of_singleton|].
Qed.
Lemma loads_paths s ps p : p ∈ (Index.loads s ps).*1 ↔ ∃ b, (p, b) ∈ Index.loads s ps.
Proof. rewrite list_elem_of_fmap. split; [intros ([q b]&->&?); by exists b|intros [b ?]; by exists (p, b)]. Qed.
Lemma loads_docs s ps b : b ∈ (Index.loads s ps).*2 ↔ ∃ p, (p, b) ∈ Index.loads s ps.
Proof. rewrite list_elem_of_fmap. split; [intros ([q b']&->&?); by exists q|intros [p ?]; by exists (p, b)]. Qed.

Lemma asks_refl s : Index.asks [] s s.
Proof. split; [by split|intros p; cbn; set_solver|]. exists []. by rewrite app_nil_r. Qed.
Lemma loads_split ps1 ps2 s s1 : Index.asks ps1 s s1 →
  ∀ p b, (p, b) ∈ Index.loads s (ps1 ++ ps2) ↔ (p, b) ∈ Index.loads s ps1 ∨ (p, b) ∈ Index.loads s1 ps2.
Proof.
  intros [U1 M1 _] p b. rewrite !loads_elem, elem_of_app, M1, loads_paths, (Index.un_doc _ _ U1).
  setoid_rewrite loads_elem. destruct (decide (p ∈ ps1)), (decide (p ∈ Index.memory_of s)); naive_solver.
Qed.

Lemma asks_trans ps1 ps2 s s1 s2 : Index.asks ps1 s s1 → Index.asks ps2 s1 s2 → Index.asks (ps1 ++ ps2) s s2.
Proof.
  intros Ha1. pose proof (loads_split ps1 ps2 s s1 Ha1) as Hsplit. revert Ha1.
  intros [U1 M1 (n1&C1&N1)] [U2 M2 (n2&C2&N2)].
  split; [by eapply unchanged_trans| |].
  - intros p. rewrite M2, M1, !loads_paths. setoid_rewrite Hsplit. naive_solver.
  - exists (n1 ++ n2). rewrite C2, C1, (Index.un_callback _ _ U1), fmap_app, app_assoc. split; [done|].
    intros b. rewrite elem_of_app, N1, N2, !loads_docs. setoid_rewrite Hsplit. naive_solver.
Qed.

Lemma load_ok uri rel s :
  Registry.uriToRelativePath WorkspaceRoot uri = Ok rel → Index.ready s →
  ∃ s', Registry.load WorkspaceRoot uri s = (Ok (Index.doc_of s rel), s') ∧ Index.ready s' ∧
    Index.asks [rel] s s'.
Proof.
  intros Hrel Hs. unfold Registry.load. rewrite Hrel. unfold sbind at 1. cbn [lift_res].
  by apply Index.LoadDocument_law.
Qed.

(** The first occurrence that defines the symbol. *)
Definition first_definition (doc : Model.Document) (symbol : string) : option Model.Occurrence :=
  head (GetOccurrencesForSymbol (Model.Occurrences doc) symbol Scip.SymbolRole_Definition).

Lemma first_definition_spec doc symbol o :
  first_definition doc symbol = Some o →
  o ∈ Model.Occurrences doc ∧ Model.OSymbol o = symbol ∧
  0 < Z.land (Model.SymbolRoles o) Scip.SymbolRole_Definition.
Proof.
  unfold first_definition, GetOccurrencesForSymbol. intros Ho.
  assert (Hin : In o (List.filter (λ occ, bool_decide (Model.OSymbol occ = symbol) &&
    role_matches Scip.SymbolRole_Definition (Model.SymbolRoles occ)) (Model.Occurrences doc))).
  { destruct (List.filter _ _) as [|x l]; [done|]. injection Ho as ->. by left. }
  apply filter_In in Hin as [Hin [Hs Hr]%andb_true_iff]. apply bool_decide_eq_true in Hs.
  unfold role_matches in Hr. cbn in Hr. apply Z.ltb_lt in Hr.
  split_and!; [by apply list_elem_of_In|done..].
Qed.

(** The definition occurrence of a symbol as the view of the index has it. *)
Definition definition_of s ds v : option Model.SymbolOccurrence :=
  '(info, d) ← Index.sym_of s ds v;
  doc ← Index.doc_of s d;
  Some (Model.mkSymbolOccurrence (File (Join WorkspaceRoot d))
    (first_definition doc (Model.ISymbol info)) (Some info)).

(** The document of the definition. *)
Definition symbol_paths s ds v : list string :=
  match Index.sym_of s ds v with Some (_, d) => [d] | None => [] end.

Lemma GetSymbolDefinitionOccurrence_ok s ds v :
  Index.ready s → ds ≠ [] → v ≠ "" →
  ∃ s', Registry.GetSymbolDefinitionOccurrence WorkspaceRoot ds v s = (Ok (definition_of s ds v), s') ∧
    Index.ready s' ∧ Index.asks (symbol_paths s ds v) s s'.
Proof.
  intros Hs Hds Hv. unfold Registry.GetSymbolDefinitionOccurrence, definition_of, symbol_paths.
  destruct (Index.FromDescriptors_law s ds v Hs Hds Hv) as (s1&Hrun1&Hs1&U1).
  rewrite (sbind_ok _ _ _ _ _ Hrun1).
  destruct (Index.sym_of s ds v) as [[info d]|]; [|by exists s1].
  destruct (Index.LoadDocument_law s1 d Hs1) as (s2&Hrun2&Hs2&U2).
  rewrite (sbind_ok _ _ _ _ _ Hrun2), (Index.un_doc _ _ (Index.as_unchanged _ _ _ U1)). cbn [mbind option_bind].
  exists s2. pose proof (asks_trans _ _ _ _ _ U1 U2).
  by destruct (Index.doc_of s d) as [doc|].
Qed.

(** The answer of a query about the occurrence [occ] of a document. *)
Definition definition_at s (uri : URI) (doc : Model.Document) (occ : Model.Occurrence)
    (ds : list Model.Descriptor) (v : string) : option (Model.SymbolOccurrence * Model.SymbolOccurrence) :=
  let symbol := Model.OSymbol occ in
  if IsLocalSymbol symbol then
    let info := GetLocalSymbolInformation (Model.Symbols doc) symbol in
    let def := first_definition doc symbol in
    Some (Model.mkSymbolOccurrence uri (Some occ) info,
          Model.mkSymbolOccurrence (if def then uri else "") def info)
  else
    def ← definition_of s ds v;
    Some (Model.mkSymbolOccurrence uri (Some occ) (Model.SInfo def),
          Model.mkSymbolOccurrence (Model.SLocation def) (Model.SOccurrence def) (Model.SInfo def)).

(** The documents that a query for a definition asks for. *)
Definition definition_paths s (rel : string) (occ : Model.Occurrence) (ds : list Model.Descriptor) (v : string)
    : list string :=
  rel :: if IsLocalSymbol (Model.OSymbol occ) then [] else symbol_paths s ds v.

Lemma Definition_ok s uri rel pos doc occ sy pkg :
  Index.ready s → Registry.uriToRelativePath WorkspaceRoot uri = Ok rel →
  Index.doc_of s rel = Some doc →
  GetOccurrenceForPosition (Model.Occurrences doc) pos = Ok (Some occ) →
  ParseScipSymbol (Model.OSymbol occ) = Ok sy → Scip.SPackage sy = Some pkg →
  Scip.Descriptors sy ≠ [] →
  ∃ s', Registry.Definition_ WorkspaceRoot uri pos s =
      (Ok (definition_at s uri doc occ
        (ScipDescriptorsToModelDescriptors (Scip.Descriptors sy)) (Scip.Version pkg)), s') ∧
    Index.ready s' ∧
    Index.asks (definition_paths s rel occ
      (ScipDescriptorsToModelDescriptors (Scip.Descriptors sy)) (Scip.Version pkg)) s s'.
Proof.
  intros Hs Hrel Hdoc Hocc Hp Hpkg Hds. unfold Registry.Definition_, definition_at, definition_paths.
  destruct (load_ok uri rel s Hrel Hs) as (s1&Hrun1&Hs1&U1).
  rewrite (sbind_ok _ _ _ _ _ Hrun1), Hdoc, Hocc. unfold sbind at 1. cbn [lift_res].
  destruct (IsLocalSymbol (Model.OSymbol occ)).
  - exists s1. split; [|done]. unfold first_definition.
    by destruct (GetOccurrencesForSymbol _ _ _).
  - unfold Registry.global_definition. rewrite Hp. unfold sbind at 2. cbn [lift_res]. rewrite Hpkg.
    set (ds := ScipDescriptorsToModelDescriptors (Scip.Descriptors sy)).
    assert (Hne : ds ≠ []) by (unfold ds; by destruct (Scip.Descriptors sy)).
    destruct (GetSymbolDefinitionOccurrence_ok s1 ds (Scip.Version pkg) Hs1 Hne) as (s2&Hrun2&Hs2&U2).
    { by apply (ParseScipSymbol_version (Model.OSymbol occ) sy). }
    rewrite (sbind_ok _ _ _ _ _ Hrun2).
    assert (Heq : definition_of s1 ds (Scip.Version pkg) = definition_of s ds (Scip.Version pkg)).
    { unfold definition_of. rewrite (Index.un_sym _ _ (Index.as_unchanged _ _ _ U1)).
      destruct (Index.sym_of s ds _) as [[info d]|]; [|done]. cbn.
      by rewrite (Index.un_doc _ _ (Index.as_unchanged _ _ _ U1)). }
    assert (Hps : symbol_paths s1 ds (Scip.Version pkg) = symbol_paths s ds (Scip.Version pkg))
      by (unfold symbol_paths; by rewrite (Index.un_sym _ _ (Index.as_unchanged _ _ _ U1))).
    rewrite Heq. rewrite Hps in U2. exists s2. pose proof (asks_trans _ _ _ _ _ U1 U2).
    by destruct (definition_of s ds (Scip.Version pkg)).
Qed.

(** [Definition] at a position of a document returns the occurrence there
    and, for a local symbol, its first definition in the document, for another
    one the first definition of the symbol in the document that the index has
    for its descriptors and version; it returns nothing when the index knows
    no such symbol or document.  It loads these two documents where they are not
    in memory, and changes nothing else that can be observed. *)
Theorem Definition_correct s uri rel pos doc occ sy pkg :
  Index.ready s → Registry.uriToRelativePath WorkspaceRoot uri = Ok rel →
  Index.doc_of s rel = Some doc →
  GetOccurrenceForPosition (Model.Occurrences doc) pos = Ok (Some occ) →
  ParseScipSymbol (Model.OSymbol occ) = Ok sy → Scip.SPackage sy = Some pkg →
  Scip.Descriptors sy ≠ [] →
  ∃ s', Registry.Definition_ WorkspaceRoot uri pos s =
      (Ok (definition_at s uri doc occ
        (ScipDescriptorsToModelDescriptors (Scip.Descriptors sy)) (Scip.Version pkg)), s') ∧
    Index.ready s' ∧
    Index.asks (definition_paths s rel occ
      (ScipDescriptorsToModelDescriptors (Scip.Descriptors sy)) (Scip.Version pkg)) s s'.
Proof. apply Definition_ok. Qed.

(** ** References *)

Lemma locations_of_spec (m : gmap string (list Model.Occurrence)) loc :
  loc ∈ Registry.locations_of WorkspaceRoot m ↔
  ∃ d o, o ∈ default [] (m !! d) ∧ loc = ScipOccurrenceToLocation (File (Join WorkspaceRoot d)) o.
Proof.
  unfold Registry.locations_of. rewrite list_elem_of_bind. split.
  - intros ([d occs]&Hin&Hx). apply elem_of_map_to_list in Hx.
    apply list_elem_of_fmap in Hin as (o&->&Ho). exists d, o. by rewrite Hx.
  - intros (d&o&Ho&->). destruct (m !! d) as [occs|] eqn:Hd; [|by apply elem_of_nil in Ho].
    exists (d, occs). split; [|by apply elem_of_map_to_list].
    apply list_elem_of_fmap. by exists o.
Qed.

(** The locations that [References] has to return for the occurrence [occ] of
    the document [doc]. *)
Definition reference_location (s : S) (uri : URI) (doc : Model.Document) (occ : Model.Occurrence)
    (loc : Location) : Prop :=
  if IsLocalSymbol (Model.OSymbol occ) then
    ∃ o, o ∈ Model.Occurrences doc ∧ Model.OSymbol o = Model.OSymbol occ ∧
      loc = ScipOccurrenceToLocation uri o
  else
    ∃ d o, o ∈ Index.refs_of s (Model.OSymbol occ) d ∧
      loc = ScipOccurrenceToLocation (File (Join WorkspaceRoot d)) o.

Lemma References_ok s uri rel pos doc occ :
  Index.ready s → Registry.uriToRelativePath WorkspaceRoot uri = Ok rel →
  Index.doc_of s rel = Some doc →
  GetOccurrenceForPosition (Model.Occurrences doc) pos = Ok (Some occ) →
  ∃ locs s', Registry.References WorkspaceRoot uri pos s = (Ok (Some locs), s') ∧
    Index.ready s' ∧ Index.asks [rel] s s' ∧
    ∀ loc, loc ∈ locs ↔ reference_location s uri doc occ loc.
Proof.
  intros Hs Hrel Hdoc Hocc. unfold reference_location, Registry.References.
  destruct (load_ok uri rel s Hrel Hs) as (s1&Hrun1&Hs1&U1).
  rewrite (sbind_ok _ _ _ _ _ Hrun1), Hdoc, Hocc. unfold sbind at 1. cbn [lift_res].
  destruct (IsLocalSymbol (Model.OSymbol occ)) eqn:Hl.
  - eexists _, s1. split; [reflexivity|]. split_and!; [done..|]. intros loc.
    rewrite list_elem_of_fmap. split.
    + intros (o&->&Ho). apply list_elem_of_In, filter_In in Ho as [Ho Hsym].
      apply bool_decide_eq_true in Hsym. exists o. by rewrite list_elem_of_In.
    + intros (o&Ho&Hsym&->). exists o. split; [done|]. apply list_elem_of_In, filter_In.
      split; [by apply list_elem_of_In|by apply bool_decide_eq_true].
  - destruct (Index.References_law s1 (Model.OSymbol occ) Hs1 Hl) as (m&s2&Hrun2&Hm&Hs2&U2).
    rewrite (sbind_ok _ _ _ _ _ Hrun2). eexists _, s2. split; [reflexivity|].
    split_and!; [done|exact (asks_trans _ _ _ _ _ U1 U2)|]. intros loc. cbn [default from_option].
    change (default ∅ (Some m)) with m. rewrite locations_of_spec.
    setoid_rewrite Hm. by setoid_rewrite (Index.un_refs _ _ (Index.as_unchanged _ _ _ U1)).
Qed.

(** [References] at a position of a document returns, for a local symbol,
    the locations of its occurrences in the document, and for another one
    exactly the locations of its occurrences in all documents of the index;
    it loads the document where it is not in memory, and changes nothing else
    that can be observed. *)
Theorem References_correct s uri rel pos doc occ :
  Index.ready s → Registry.uriToRelativePath WorkspaceRoot uri = Ok rel →
  Index.doc_of s rel = Some doc →
  GetOccurrenceForPosition (Model.Occurrences doc) pos = Ok (Some occ) →
  ∃ locs s', Registry.References WorkspaceRoot uri pos s = (Ok (Some locs), s') ∧
    Index.ready s' ∧ Index.asks [rel] s s' ∧
    ∀ loc, loc ∈ locs ↔ reference_location s uri doc occ loc.
Proof. apply References_ok. Qed.

(** ** Document symbols *)

Definition named (info : Model.SymbolInformation) : Model.SymbolInformation :=
  if bool_decide (Model.DisplayName info = "") then
    set_display_name info (ParseScipSymbolToDisplayName (Model.ISymbol info))
  else info.

Lemma named_named info : named (named info) = named info.
Proof.
  unfold named at 2 3. case_bool_decide as Hd; [|unfold named; by rewrite bool_decide_false].
  unfold named. cbn. case_bool_decide; [|done]. done.
Qed.

(** The symbol of an occurrence that defines a global symbol. *)
Definition defined_symbol (uri : URI) (doc : Model.Document) (occ : Model.Occurrence)
    : option Model.SymbolOccurrence :=
  if IsGlobalSymbol (Model.OSymbol occ) &&
     (0 <? Z.land (Model.SymbolRoles occ) Scip.SymbolRole_Definition) then
    i ← map_get (Model.SymbolMap doc) (Model.OSymbol occ);
    info ← Model.Symbols doc !! i;
    Some (Model.mkSymbolOccurrence uri (Some occ) (Some (named info)))
  else None.

(** Some symbols of the document have got display names. *)
Record some_named (doc doc' : Model.Document) : Prop := {
  sn_same : doc' = set_symbols doc (Model.Symbols doc');
  sn_symbols : Forall2 (λ x x', x' = x ∨ x' = named x) (Model.Symbols doc) (Model.Symbols doc')
}.

Lemma some_named_refl doc : some_named doc doc.
Proof.
  split; [by destruct doc|]. induction (Model.Symbols doc); constructor; auto.
Qed.

Lemma document_symbols_ok uri occs doc : ∀ doc' acc,
  some_named doc doc' →
  ∃ doc'', Registry.document_symbols uri occs doc' acc = (acc ++ omap (defined_symbol uri doc) occs, doc'') ∧
    some_named doc doc''.
Proof.
  induction occs as [|occ occs IH]; intros doc' acc Hn; cbn [Registry.document_symbols omap list_omap].
  { exists doc'. by rewrite app_nil_r. }
  unfold defined_symbol at 1. destruct (_ && _); [|by apply IH].
  destruct Hn as [Hsame Hsyms].
  assert (Hmap : Model.SymbolMap doc' = Model.SymbolMap doc) by (by rewrite Hsame).
  rewrite Hmap. destruct (map_get _ _) as [i|]; cbn [mbind option_bind]; [|by apply IH].
  destruct (Model.Symbols doc !! i) as [info|] eqn:Hi.
  - destruct (Forall2_lookup_l _ _ _ _ _ Hsyms Hi) as (info'&Hi'&Hx). rewrite Hi'.
    fold (named info'). assert (Hnm : named info' = named info)
      by (destruct Hx as [->| ->]; [done|apply named_named]).
    destruct (IH (set_symbols doc' (<[i := named info']> (Model.Symbols doc')))
      (acc ++ [Model.mkSymbolOccurrence uri (Some occ) (Some (named info'))])) as (doc''&Hrun&Hn').
    { split; [by rewrite Hsame|]. cbn. rewrite Hnm.
      rewrite <- (list_insert_id (Model.Symbols doc) i info) by done.
      apply Forall2_insert; [done|by right]. }
    exists doc''. rewrite Hrun, Hnm. split; [|done]. cbn [mbind option_bind].
    by rewrite <- (assoc_L (++)).
  - assert (Hi' : Model.Symbols doc' !! i = None).
    { apply lookup_ge_None. rewrite <- (Forall2_length _ _ _ Hsyms). by apply lookup_ge_None. }
    rewrite Hi'. by apply IH.
Qed.

(** [DocumentSymbols] of a document returns, in the order of its
    occurrences, the global symbols that it defines and has information of,
    each with a display name where one can be derived; the document changes in
    the display names of symbols only, and no other document changes. *)
Theorem DocumentSymbols_correct s uri rel doc :
  Index.ready s → Registry.uriToRelativePath WorkspaceRoot uri = Ok rel →
  Index.doc_of s rel = Some doc →
  ∃ s' doc', Registry.DocumentSymbols WorkspaceRoot uri s =
      (Ok (Some (omap (defined_symbol uri doc) (Model.Occurrences doc))), s') ∧
    Index.ready s' ∧ Index.doc_of s' rel = Some doc' ∧ some_named doc doc' ∧
    ∀ d, d ≠ rel → Index.doc_of s' d = Index.doc_of s d.
Proof.
  intros Hs Hrel Hdoc. unfold Registry.DocumentSymbols. rewrite Hrel. unfold sbind at 1. cbn [lift_res].
  destruct (Index.LoadDocument_law s rel Hs) as (s1&Hrun1&Hs1&U1).
  rewrite (sbind_ok _ _ _ _ _ Hrun1), Hdoc.
  destruct (document_symbols_ok uri (Model.Occurrences doc) doc doc [] (some_named_refl doc))
    as (doc'&Hds&Hn). rewrite Hds. rewrite <- (Index.un_doc _ _ (Index.as_unchanged _ _ _ U1)) in Hdoc.
  destruct (Index.write_document_law s1 rel doc' doc Hs1 Hdoc) as (s2&Hrun2&Hs2&Hd&Hother).
  rewrite (sbind_ok _ _ _ _ _ Hrun2). exists s2, doc'. split_and!; [done..|].
  intros d Hne. rewrite Hother by done. apply (Index.un_doc _ _ (Index.as_unchanged _ _ _ U1)).
Qed.

(** The URI of a document path below the workspace root leads back to the
    path: a location that the registry returns can be queried again. *)
Theorem uri_path_roundtrip `{!UriLaws} rel :
  rooted WorkspaceRoot = true → plain rel →
  Registry.uriToRelativePath WorkspaceRoot (Registry.GetURI WorkspaceRoot rel) = Ok rel.
Proof.
  intros Hr Hp. unfold Registry.uriToRelativePath, Registry.GetURI.
  pose proof (Rel_Join WorkspaceRoot rel Hr Hp) as HR.
  destruct Hp as (ys&Hne&Hn&Hs&->).
  pose proof (Join_rooted WorkspaceRoot ys _ Hr Hne Hn Hs eq_refl) as HJ.
  rewrite Filename_File; [cbn [rbind]; by rewrite HR|by rewrite HJ|].
  unfold Join. by destruct WorkspaceRoot as [|c w], (join_slash ys); try apply Clean_idempotent.
Qed.
End queries.

(** ** The partially loaded index has the laws *)

Section loaded_index.
Context `{Bindings} `{WireLaws} `{FileSystem} (scan_fuel tree_fuel : nat)
  (errText : error → string) (schedule : list string → list string).
Context (idx : string → list index_item) (entries : list (string * bool)).

Definition loaded_index_ops : Index.PartialIndex PartialLoadedIndex := {|
  Index.SetDocumentLoadedCallback := PartialIndex.SetDocumentLoadedCallback;
  Index.LoadIndex := PartialIndex.LoadIndex scan_fuel tree_fuel;
  Index.LoadIndexFile := PartialIndex.LoadIndexFile scan_fuel tree_fuel;
  Index.LoadDocument := PartialIndex.LoadDocument scan_fuel errText schedule;
  Index.write_document d doc :=
    modify_st (λ p, set_documents (<[d := doc]> (LoadedDocuments p)) p);
  Index.GetSymbolInformation := PartialIndex.GetSymbolInformation;
  Index.GetSymbolInformationFromDescriptors := PartialIndex.GetSymbolInformationFromDescriptors;
  Index.References := PartialIndex.References scan_fuel errText schedule;
  Index.Implementations := PartialIndex.Implementations
|}.

(** The files that the index reads hold serialised indices. *)
Definition files_ready (p : PartialLoadedIndex) : Prop :=
  ReadDir (indexFolder p) = Ok entries ∧
  (∀ f, f ∈ folder_files schedule (indexFolder p) entries → is_scip f = true →
    file_ok scan_fuel idx f ∧ Forall doc_decodes (idx f) ∧ Forall index_decodes (idx f)) ∧
  (∀ d f, docToIndex p !! d = Some f → file_ok scan_fuel idx f ∧ Forall doc_decodes (idx f)).

Definition stored_doc (p : PartialLoadedIndex) (d : string) : option Model.Document :=
  match LoadedDocuments p !! d with
  | Some doc => Some doc
  | None => last_doc (document_files schedule p d entries ≫= idx) d
  end.

#[export] Instance loaded_index_log : CallbackLog PartialLoadedIndex := {| callback_calls := PartialIndex.loaded_calls |}.

Definition loaded_index_view : @Index.View PartialLoadedIndex loaded_index_ops _ := {|
  Index.ready p := index_inv p ∧ files_ready p;
  Index.doc_of := stored_doc;
  Index.sym_of p ds v :=
    match (GetSymbolInformationFromDescriptors ds v p).1 with Ok r => r | _ => None end;
  Index.refs_of p a d :=
    snd <$> List.filter (λ r, bool_decide (r.1 = d))
      ((List.filter is_scip (folder_files schedule (indexFolder p) entries) ≫= idx) ≫= index_refs a);
  Index.impls_of p a := default ∅ (ImplementorsBySymbol p !! a);
  Index.memory_of p := dom (LoadedDocuments p);
  Index.callback_of := onDocumentLoaded
|}.

(** The parts of the index that queries do not change. *)
Definition same_parts (p p' : PartialLoadedIndex) : Prop :=
  forest p' = forest p ∧ PrefixTreeRoot p' = PrefixTreeRoot p ∧ docToIndex p' = docToIndex p ∧
  indexFolder p' = indexFolder p ∧ ImplementorsBySymbol p' = ImplementorsBySymbol p.

Lemma lookup_same_parts p p' ds v : same_parts p p' →
  (GetSymbolInformationFromDescriptors ds v p').1 = (GetSymbolInformationFromDescriptors ds v p).1.
Proof.
  intros (Hf&Hr&_). unfold GetSymbolInformationFromDescriptors. destruct ds as [|d ds]; [done|].
  rewrite !sbind_get, Hf, Hr. destruct (walk _ _ (d :: ds)) as [q|]; [|done].
  unfold sbind, on_tree. rewrite Hf. destruct (load_node q (forest p)) as [[n| | |] h]; [|done..].
  destruct (_ || _); [done|]. destruct (default ∅ _ !! v); [done|].
  destruct (sorting.merge_sort _ _) as [|v' l]; [done|]. by destruct (default ∅ _ !! v').
Qed.

Lemma same_parts_ready p p' : same_parts p p' → pool_ok (ipool p') →
  index_inv p ∧ files_ready p → index_inv p' ∧ files_ready p'.
Proof.
  intros (Hf&Hr&Hd&Hi&_) Hp [(I1&I2&I3) (F1&F2&F3)].
  split; [split_and!; [by rewrite Hf, Hr|by rewrite Hf|done]|].
  split_and!; [by rewrite Hi| |].
  - intros f. rewrite Hi. apply F2.
  - intros d f. rewrite Hd. apply F3.
Qed.

Lemma same_parts_files p p' d : same_parts p p' →
  document_files schedule p' d entries = document_files schedule p d entries.
Proof. intros (_&_&Hd&Hi&_). unfold document_files. by rewrite Hd, Hi. Qed.

Lemma same_parts_unchanged p p' : same_parts p p' → onDocumentLoaded p' = onDocumentLoaded p → (∀ d, stored_doc p' d = stored_doc p d) →
  @Index.unchanged _ loaded_index_ops _ loaded_index_view p p'.
Proof.
  intros Hp Hcb Hdoc. split.
  - apply Hdoc.
  - intros ds v. cbn. by rewrite (lookup_same_parts p p').
  - intros a d. cbn. destruct Hp as (_&_&_&Hi&_). by rewrite Hi.
  - intros a. cbn. destruct Hp as (_&_&_&_&Hi). by rewrite Hi.
  - done.
Qed.

(** A query that loads no document. *)
Lemma same_parts_asks p p' : same_parts p p' → onDocumentLoaded p' = onDocumentLoaded p → LoadedDocuments p' = LoadedDocuments p →
  PartialIndex.loaded_calls p' = PartialIndex.loaded_calls p →
  ∀ ps, @Index.loads _ loaded_index_ops _ loaded_index_view p ps = [] →
  @Index.asks _ loaded_index_ops _ loaded_index_view ps p p'.
Proof.
  intros Hp Hcb Hl Hc ps Hnone. split.
  - apply same_parts_unchanged; [done..|]. intros d. unfold stored_doc. by rewrite Hl, (same_parts_files p p' d Hp).
  - intros d. rewrite Hnone. cbn. rewrite Hl. set_solver.
  - exists []. rewrite Hnone. cbn. by rewrite Hc, app_nil_r.
Qed.

Lemma document_files_ok p d : index_inv p ∧ files_ready p →
  ∀ f, f ∈ document_files schedule p d entries → file_ok scan_fuel idx f ∧ Forall doc_decodes (idx f).
Proof.
  intros [_ (F1&F2&F3)] f Hf. unfold document_files in Hf.
  destruct (docToIndex p !! d) as [g|] eqn:Hg.
  - apply list_elem_of_singleton in Hf as ->. by apply (F3 d).
  - apply list_elem_of_In, filter_In in Hf as [Hf Hs].
    destruct (F2 f) as (?&?&?); [by apply list_elem_of_In|done..].
Qed.

Lemma LoadDocument_view p d : index_inv p ∧ files_ready p →
  ∃ p', LoadDocument scan_fuel errText schedule d p = (Ok (stored_doc p d), p') ∧
    (index_inv p' ∧ files_ready p') ∧ same_parts p p' ∧ @Index.asks _ loaded_index_ops _ loaded_index_view [d] p p'.
Proof.
  intros Hready. pose proof Hready as [(I1&I2&I3) (F1&F2&F3)].
  destruct (LoadedDocuments p !! d) as [doc|] eqn:Hd.
  { exists p. unfold LoadDocument, stored_doc. rewrite sbind_get, Hd. split_and!; [done..|].
    apply same_parts_asks; [done..|]. unfold Index.loads. cbn.
    rewrite decide_True by (apply elem_of_dom; by eexists). done. }
  destruct (load_from_files scan_fuel errText schedule idx p d entries I3) as (bp&Hrun&Hbp);
    [done|by apply document_files_ok|].
  unfold LoadDocument. rewrite sbind_get, Hd, (sbind_ok _ _ _ _ _ Hrun).
  set (files := document_files schedule p d entries ≫= idx) in *.
  assert (Hs : stored_doc p d = last_doc files d) by (unfold stored_doc; by rewrite Hd).
  assert (Hloads : @Index.loads _ loaded_index_ops _ loaded_index_view p [d] = option_list (pair d <$> stored_doc p d)).
  { unfold Index.loads. cbn. rewrite decide_False by (apply not_elem_of_dom; done). by rewrite app_nil_r. }
  rewrite Hs in *. destruct (last_doc files d) as [doc|] eqn:Hl; cbn [put_doc].
  - assert (Hin : LoadedDocuments (set_documents (<[d := doc]> (LoadedDocuments p)) p) !! d = Some doc)
      by apply lookup_insert_eq. rewrite !Hin.
    eexists. split; [reflexivity|].
    match goal with |- _ ∧ _ ∧ Index.asks _ p ?q => set (p' := q) end.
    assert (Hsame : same_parts p p') by done.
    split; [by apply (same_parts_ready p p')|]. split; [done|]. split.
    + apply same_parts_unchanged; [done..|].
      intros d'. unfold stored_doc. rewrite (same_parts_files p p' d' Hsame). cbn.
      destruct (decide (d' = d)) as [->|]; [rewrite lookup_insert_eq, Hd; by fold files|].
      by rewrite lookup_insert_ne.
    + intros d'. rewrite Hloads. cbn. rewrite dom_insert_L, list_elem_of_singleton. set_solver.
    + exists [doc]. rewrite Hloads. by split.
  - rewrite Hd. exists (set_pool bp p). split; [done|].
    split; [by apply (same_parts_ready p)|]. split; [done|]. apply same_parts_asks; [done..|]. by rewrite Hloads.
Qed.

Lemma loaded_index_laws : @Index.Laws PartialLoadedIndex loaded_index_ops _ loaded_index_view _.
Proof.
  split.
  - intros p d Hr. destruct (LoadDocument_view p d Hr) as (p'&Hrun&Hr'&_&Hu). by exists p'.
  - intros p ds v [Hinv Hfiles] Hds Hv. destruct (GetFromDescriptors_ok p ds v Hinv Hds Hv) as (r&Hrun&_).
    exists p. cbn. rewrite Hrun. split_and!; [done..|]. by apply same_parts_asks.
  - intros p a [Hinv (F1&F2&F3)] Ha.
    destruct (ScanIndexFolder_ok scan_fuel errText schedule idx (reference_callbacks a) (indexFolder p)
      entries (mkScanState (NewReader []) (ipool p) ∅)
      (by_doc ((List.filter is_scip (folder_files schedule (indexFolder p) entries) ≫= idx)
        ≫= index_refs a) ∅)) as (bp&Hscan&Hbp).
    + done.
    + intros f Hf Hs. by apply F2.
    + apply Hinv.
    + apply index_refs_ok, Forall_bind, Forall_forall. intros f Hf.
      apply list_elem_of_In, filter_In in Hf as [Hf Hs].
      apply F2; [by apply list_elem_of_In|done].
    + eexists _, (set_pool bp p). split_and!.
      * cbn. unfold PartialIndex.References. rewrite Ha, Hscan. reflexivity.
      * intros d. cbn [client]. rewrite by_doc_lookup, lookup_empty. reflexivity.
      * by apply (same_parts_ready p).
      * by apply same_parts_asks.
  - intros p a Hr. exists p. split_and!; [done..|]. by apply same_parts_asks.
  - intros p d doc doc0 Hr Hd. eexists. split; [reflexivity|]. split_and!.
    + apply (same_parts_ready p); [done|apply Hr|done].
    + cbn. unfold stored_doc. cbn. by rewrite lookup_insert_eq.
    + intros d' Hne. cbn. unfold stored_doc. cbn. rewrite lookup_insert_ne by done.
      by rewrite (same_parts_files p).
Qed.
End loaded_index.

(** ** Instances *)

Fixpoint drop_prefix (pre s : string) : gores string :=
  match pre, s with
  | "", _ => Ok s
  | String c pre', String c' s' => if bool_decide (c = c') then drop_prefix pre' s' else Panic
  | _, _ => Panic
  end.
#[export] Instance simple_uri : UriLib := {
  File p := String.append "file://" p;
  Filename u := drop_prefix "file://" u
}.
#[export] Instance simple_uri_laws : UriLaws.
Proof. split. intros p _ _. reflexivity. Qed.

#[export] Instance sample_ops : Index.PartialIndex PartialLoadedIndex :=
  loaded_index_ops 100 5 (λ _, "") reverse.
Definition sample_entries : list (string * bool) := [("a.scip", false); ("sub", true); ("notes", false)].
#[export] Instance sample_view : Index.View PartialLoadedIndex :=
  loaded_index_view 100 5 (λ _, "") reverse (λ _, sample_index) sample_entries.
#[export] Instance sample_laws : Index.Laws PartialLoadedIndex :=
  loaded_index_laws 100 5 (λ _, "") reverse (λ _, sample_index) sample_entries.

(** The symbol [a] is defined in the document [x]. *)
Definition sample_def : Model.Occurrence := Model.mkOccurrence [0; 0; 3] "a" 1 [] 0 [].
Definition sample_doc : Model.Document :=
  Model.mkDocument "java" "x" [sample_def] [sample_info] [("a", 0%nat)] "" [].
Definition sample_registry : PartialLoadedIndex :=
  set_documents {["x" := sample_doc]} one_symbol_index.

Lemma sample_ready : Index.ready sample_registry.
Proof.
  split; [apply one_symbol_index_inv|]. split_and!.
  - reflexivity.
  - intros f Hf Hs. change (f ∈ ["idx/notes"; "idx/a.scip"]) in Hf.
    apply elem_of_cons in Hf as [->|Hf]; [done|]. apply list_elem_of_singleton in Hf as ->.
    split_and!; [apply sample_file_ok| |].
    + constructor; [done|]. constructor; [by eexists|done].
    + constructor; [done|]. constructor; [|done]. repeat constructor; by eexists.
  - intros d f Hd. done.
Qed.

Lemma Definition_correct_witness :
  ∃ s', Registry.Definition_ "/w" "file:///w/x" (mkPosition 0 1) sample_registry =
    (Ok (Some (Model.mkSymbolOccurrence "file:///w/x" (Some sample_def) (Some sample_info),
               Model.mkSymbolOccurrence "file:///w/x" (Some sample_def) (Some sample_info))), s').
Proof.
  destruct (Definition_correct (B := simple_bindings) (U := simple_uri) "/w" sample_registry "file:///w/x" "x" (mkPosition 0 1) sample_doc
    sample_def (Scip.mkSymbol "scip" (Some (Scip.mkPackage "m" "p" "1")) [Scip.mkDescriptor "a" 1 ""])
    (Scip.mkPackage "m" "p" "1") sample_ready eq_refl eq_refl eq_refl eq_refl eq_refl
    ltac:(discriminate)) as (s'&Hrun&_).
  exists s'. exact Hrun.
Defined.

Lemma References_correct_witness :
  ∃ locs s', Registry.References "/w" "file:///w/x" (mkPosition 0 1) sample_registry
    = (Ok (Some locs), s') ∧ ∀ loc, loc ∉ locs.
Proof.
  destruct (References_correct (B := simple_bindings) (U := simple_uri) "/w" sample_registry "file:///w/x" "x" (mkPosition 0 1) sample_doc
    sample_def sample_ready eq_refl eq_refl eq_refl) as (locs&s'&Hrun&_&_&Hl).
  exists locs, s'. split; [exact Hrun|]. intros loc Hin. apply Hl in Hin as (d&o&Ho&_).
  change (o ∈ []) in Ho. by apply elem_of_nil in Ho.
Defined.

Lemma DocumentSymbols_correct_witness :
  ∃ s', Registry.DocumentSymbols "/w" "file:///w/x" sample_registry =
    (Ok (Some [Model.mkSymbolOccurrence "file:///w/x" (Some sample_def) (Some sample_info)]), s').
Proof.
  destruct (DocumentSymbols_correct (B := simple_bindings) (U := simple_uri) "/w" sample_registry "file:///w/x" "x" sample_doc sample_ready
    eq_refl eq_refl) as (s'&doc'&Hrun&_).
  exists s'. exact Hrun.
Defined.

Lemma uri_path_roundtrip_witness :
  Registry.uriToRelativePath "/w" (Registry.GetURI "/w" "src/A.java") = Ok "src/A.java".
Proof.
  apply (uri_path_roundtrip "/w" "src/A.java"); [reflexivity|].
  exists ["src"; "A.java"]. split_and!; [done|repeat constructor; done|repeat constructor|done].
Defined.
