(* ===== verification/LibRegistry.v ===== *)
(** * The registry of the library

    Models [src/scip-lib/registry/partial_registry.go]: the registry that the
    library offers for a workspace, over the partially loaded index that its
    constructor makes.  The bodies of its methods are those of the registry of
    the daemon ([Registry]), which has [Implementation] and methods that are
    not implemented besides; here they are methods of the record, which owns
    its index.  Log messages are left out. *)

From stdpp Require Import base gmap list strings.
From Stdlib Require Import ZArith.
From S2P Require Import Prelude Protocol Scip Paths Scanner PartialIndex Registry.

Local Open Scope Z_scope.

Module LibRegistry.

Record partialScipRegistry (S : Type) := mkRegistry {
  WorkspaceRoot : string;
  Index_ : S;
  IndexFolder : string
}.
Arguments mkRegistry {S}.
Arguments WorkspaceRoot {S}.
Arguments Index_ {S}.
Arguments IndexFolder {S}.

Section registry.
Context {S : Type} {I : Index.PartialIndex S} `{Bindings} `{UriLib}.

Definition LibM := GoM (partialScipRegistry S).

(** A method whose body reads the root of the workspace and works on the index. *)
Definition method {A} (body : string → GoM S A) : LibM A := λ p,
  let '(r, index) := body (WorkspaceRoot p) (Index_ p) in
  (r, mkRegistry (WorkspaceRoot p) index (IndexFolder p)).

Definition GetURI (p : partialScipRegistry S) (relPath : string) : URI :=
  Registry.GetURI (WorkspaceRoot p) relPath.
Definition uriToRelativePath (p : partialScipRegistry S) (uri : URI) : gores string :=
  Registry.uriToRelativePath (WorkspaceRoot p) uri.

(** [None] is a nil reader. *)
Definition LoadIndex (indexReader : option bytes) : LibM unit :=
  method (λ _, Registry.LoadIndex indexReader).
Definition LoadIndexFile (indexPath : string) : LibM unit :=
  method (λ _, Registry.LoadIndexFile indexPath).
Definition SetDocumentLoadedCallback (callback : N) : LibM unit :=
  method (λ _, Registry.SetDocumentLoadedCallback callback).

Definition DidOpen (uri : URI) (text : string) : LibM unit :=
  method (λ root, Registry.DidOpen root uri text).
Definition DidClose (sourceURI : URI) : LibM unit := method (λ _, Registry.DidClose sourceURI).

Definition GetSymbolDefinitionOccurrence (descriptors : list Model.Descriptor) (version : string)
    : LibM (option Model.SymbolOccurrence) :=
  method (λ root, Registry.GetSymbolDefinitionOccurrence root descriptors version).
Definition Definition_ (sourceURI : URI) (pos : Position)
    : LibM (option (Model.SymbolOccurrence * Model.SymbolOccurrence)) :=
  method (λ root, Registry.Definition_ root sourceURI pos).
Definition References (sourceURI : URI) (pos : Position) : LibM (option (list Location)) :=
  method (λ root, Registry.References root sourceURI pos).
Definition Hover (uri : URI) (pos : Position) : LibM (string * option Model.Occurrence) :=
  method (λ root, Registry.Hover root uri pos).
Definition DocumentSymbols (uri : URI) : LibM (option (list Model.SymbolOccurrence)) :=
  method (λ root, Registry.DocumentSymbols root uri).
Definition Diagnostics (uri : URI) : LibM (list Model.Diagnostic) :=
  method (λ _, Registry.Diagnostics uri).
Definition LoadConcurrency (numCPU : Z) : Z := Registry.LoadConcurrency numCPU.
End registry.

(** [reuse] says which buffers of the pool of the index are used again. *)
Definition NewPartialScipRegistry (reuse : N → bool) (workspaceRoot indexFolder : string)
    : gores (partialScipRegistry PartialLoadedIndex) :=
  index <-? NewPartialLoadedIndex reuse indexFolder;;
  Ok (mkRegistry workspaceRoot index indexFolder).
End LibRegistry.
