(* ===== verification/LibRegistryProof.v ===== *)
(** * Correctness of the registry of the library

    An abstract registry answers queries from the serialised indices alone: it
    keeps the names of the files that were loaded, in their order, and of the
    documents whose symbols were shown.  The registry, with its prefix tree,
    its maps and its cache of documents, is shown to refine it: over any
    sequence of loads and queries both give the same answers. *)

From stdpp Require Import base gmap list strings fin_maps sorting.
From Stdlib Require Import ZArith Lia.
From S2P Require Import Prelude Protocol Scip Occurrences Paths Scanner ScannerProof PrefixTree PrefixTreeProof.
From S2P Require Import PartialIndex PartialIndexProof Registry RegistryProof LibRegistry.

Local Open Scope Z_scope.

Module LibRegistryProof.

(** ** Display names *)

Section names.
Context {B : Bindings}.

(** The symbols of a document that [DocumentSymbols] names. *)
Definition shown_symbol (doc : Model.Document) (occ : Model.Occurrence) : option nat :=
  if IsGlobalSymbol (Model.OSymbol occ) &&
     (0 <? Z.land (Model.SymbolRoles occ) Scip.SymbolRole_Definition)
  then map_get (Model.SymbolMap doc) (Model.OSymbol occ) else None.

Definition name_symbols (ids : list nat) (symbols : list Model.SymbolInformation) :=
  imap (λ i info, if bool_decide (i ∈ ids) then named info else info) symbols.

Definition show_doc (doc : Model.Document) : Model.Document :=
  set_symbols doc (name_symbols (omap (shown_symbol doc) (Model.Occurrences doc)) (Model.Symbols doc)).

Lemma name_symbols_lookup ids symbols i :
  name_symbols ids symbols !! i =
  (λ info, if bool_decide (i ∈ ids) then named info else info) <$> symbols !! i.
Proof. unfold name_symbols. by rewrite list_lookup_imap. Qed.

Lemma name_symbols_nil symbols : name_symbols [] symbols = symbols.
Proof.
  apply list_eq. intros i. rewrite name_symbols_lookup.
  rewrite bool_decide_false by apply not_elem_of_nil. by destruct (symbols !! i).
Qed.

Lemma name_symbols_snoc ids symbols i info :
  symbols !! i = Some info →
  <[i := named info]> (name_symbols ids symbols) = name_symbols (ids ++ [i]) symbols.
Proof.
  intros Hi. apply list_eq. intros j. rewrite name_symbols_lookup.
  destruct (decide (j = i)) as [->|Hne].
  - rewrite list_lookup_insert_eq.
    + rewrite Hi. cbn. rewrite bool_decide_true; [done|]. apply elem_of_app. right. by left.
    + unfold name_symbols. rewrite length_imap. by eapply lookup_lt_Some.
  - rewrite list_lookup_insert_ne, name_symbols_lookup by done.
    rewrite (bool_decide_ext (j ∈ ids) (j ∈ ids ++ [i])); [done|].
    rewrite elem_of_app, list_elem_of_singleton. tauto.
Qed.

Lemma name_symbols_out ids symbols i :
  symbols !! i = None → name_symbols (ids ++ [i]) symbols = name_symbols ids symbols.
Proof.
  intros Hi. apply list_eq. intros j. rewrite !name_symbols_lookup.
  destruct (decide (j = i)) as [->|Hne]; [by rewrite Hi|].
  rewrite (bool_decide_ext (j ∈ ids) (j ∈ ids ++ [i])); [done|].
  rewrite elem_of_app, list_elem_of_singleton. tauto.
Qed.

Lemma name_symbols_again ids symbols :
  name_symbols ids (name_symbols ids symbols) = name_symbols ids symbols.
Proof.
  apply list_eq. intros i. rewrite !name_symbols_lookup. destruct (symbols !! i); [|done]. cbn.
  case_bool_decide; [by rewrite named_named|done].
Qed.

Lemma show_doc_again doc : show_doc (show_doc doc) = show_doc doc.
Proof.
  set (ids := omap (shown_symbol doc) (Model.Occurrences doc)).
  change (set_symbols doc (name_symbols ids (name_symbols ids (Model.Symbols doc))) = show_doc doc).
  by rewrite name_symbols_again.
Qed.

Lemma named_info (info : Model.SymbolInformation) :
  (if bool_decide (Model.DisplayName info = "") then
    set_display_name info (ParseScipSymbolToDisplayName (Model.ISymbol info)) else info) = named info.
Proof. done. Qed.

Lemma document_symbols_from uri doc occs : ∀ ids acc,
  Registry.document_symbols uri occs (set_symbols doc (name_symbols ids (Model.Symbols doc))) acc =
  (acc ++ omap (defined_symbol uri doc) occs,
   set_symbols doc (name_symbols (ids ++ omap (shown_symbol doc) occs) (Model.Symbols doc))).
Proof.
  induction occs as [|occ occs IH]; intros ids acc; cbn [Registry.document_symbols omap list_omap].
  { by rewrite !app_nil_r. }
  unfold defined_symbol at 1, shown_symbol at 1. destruct (_ && _); [|apply IH].
  cbn [set_symbols Model.SymbolMap Model.Symbols].
  destruct (map_get _ _) as [i|]; cbn [mbind option_bind]; [|apply IH].
  rewrite name_symbols_lookup. destruct (Model.Symbols doc !! i) as [info|] eqn:Hi; cbn [fmap option_fmap option_map mbind option_bind].
  - assert (Hnm : ∀ b : bool, named (if b then named info else info) = named info)
      by (intros []; [apply named_named|done]).
    rewrite !named_info, !Hnm. rewrite name_symbols_snoc by done.
    specialize (IH (ids ++ [i])). unfold set_symbols at 1 in IH. unfold set_symbols at 1. cbn in IH |- *.
    rewrite IH. by rewrite <- !(assoc_L (++)).
  - rewrite <- (name_symbols_out ids _ i Hi). rewrite IH. by rewrite <- (assoc_L (++)).
Qed.

Lemma document_symbols_exact uri doc :
  Registry.document_symbols uri (Model.Occurrences doc) doc [] =
  (omap (defined_symbol uri doc) (Model.Occurrences doc), show_doc doc).
Proof.
  pose proof (document_symbols_from uri doc (Model.Occurrences doc) [] []) as Hd.
  rewrite name_symbols_nil in Hd. cbn [app] in Hd.
  unfold show_doc. rewrite <- Hd. f_equal. by destruct doc.
Qed.
End names.

(** ** The abstract registry *)

Section spec.
Context `{Bindings} `{WireLaws} `{FileSystem} `{UriLib}.
Context (scan_fuel tree_fuel : nat) (errText : error → string) (schedule : list string → list string).
Context (root folder : string) (idx : string → list index_item) (entries : list (string * bool)).

(** The files loaded so far, and the documents whose symbols were shown since
    they were loaded last. *)
Record spec_state := mkSpec { sp_files : list string; sp_shown : gset string }.
Definition spec_start : spec_state := mkSpec [] ∅.

Definition file_docs (f : string) : list string := idx f ≫= index_docs.
Definition spec_defs (st : spec_state) : list (string * Model.SymbolInformation) :=
  sp_files st ≫= λ f, idx f ≫= index_defs.

(** The last file that has the document. *)
Definition file_of (st : spec_state) (d : string) : option string :=
  last (List.filter (λ f, bool_decide (d ∈ file_docs f)) (sp_files st)).

(** A document: that of the last loaded file that has it, otherwise that of
    the files of the index folder. *)
Definition plain_doc (st : spec_state) (d : string) : option Model.Document :=
  match file_of st d with
  | Some f => last_doc (idx f) d
  | None => last_doc (List.filter is_scip (folder_files schedule folder entries) ≫= idx) d
  end.
Definition spec_doc (st : spec_state) (d : string) : option Model.Document :=
  if bool_decide (d ∈ sp_shown st) then show_doc <$> plain_doc st d else plain_doc st d.

(** The definition of a symbol: the last one of the version, otherwise of the
    least version that is known. *)
Definition def_version (ds : list Descriptor) (d : string * Model.SymbolInformation) : option string :=
  '(ds', v) ← def_key d.2;
  if bool_decide (ds' = ds) then Some v else None.
Definition spec_versions (defs : list (string * Model.SymbolInformation)) (ds : list Descriptor)
    : list string := omap (def_version ds) defs.
Definition spec_symbol (st : spec_state) (ds : list Descriptor) (v : string)
    : gores (option (Model.SymbolInformation * string)) :=
  let defs := spec_defs st in
  let result := fmap (M := option) (λ vi, (Info vi, DocumentPath vi)) in
  match ds with
  | [] => Err (EText "no descriptors provided")
  | _ =>
    if bool_decide (v = "") then Ok None
    else
      match last_def defs ds v with
      | Some vi => Ok (result (Some vi))
      | None => Ok (result (v0 ← head (merge_sort String.le (spec_versions defs ds)); last_def defs ds v0))
      end
  end.

(** The symbol of an occurrence that is not local. *)
Definition with_symbol {A} (symbol : string) (k : list Descriptor → string → gores A) : gores A :=
  sy <-? ParseScipSymbol symbol;;
  match Scip.SPackage sy with
  | None => Panic
  | Some pkg => k (ScipDescriptorsToModelDescriptors (Scip.Descriptors sy)) (Scip.Version pkg)
  end.

Definition spec_definition_of (st : spec_state) (ds : list Descriptor) (v : string)
    : gores (option Model.SymbolOccurrence) :=
  found <-? spec_symbol st ds v;;
  Ok ('(info, d) ← found;
      doc ← spec_doc st d;
      Some (Model.mkSymbolOccurrence (File (Join root d))
        (first_definition doc (Model.ISymbol info)) (Some info))).

(** A query at a position: [k] of the document and the occurrence there. *)
Definition at_position {A} (st : spec_state) (uri : URI) (pos : Position) (none : A)
    (k : Model.Document → Model.Occurrence → gores A) : gores A :=
  rel <-? Registry.uriToRelativePath root uri;;
  match spec_doc st rel with
  | None => Ok none
  | Some doc =>
    occ <-? GetOccurrenceForPosition (Model.Occurrences doc) pos;;
    match occ with
    | None => Ok none
    | Some occ => k doc occ
    end
  end.

Definition spec_definition (st : spec_state) (uri : URI) (pos : Position)
    : gores (option (Model.SymbolOccurrence * Model.SymbolOccurrence)) :=
  at_position st uri pos None (λ doc occ,
    let symbol := Model.OSymbol occ in
    if IsLocalSymbol symbol then
      let info := GetLocalSymbolInformation (Model.Symbols doc) symbol in
      let def := first_definition doc symbol in
      Ok (Some (Model.mkSymbolOccurrence uri (Some occ) info,
                Model.mkSymbolOccurrence (if def then uri else "") def info))
    else
      def <-? with_symbol symbol (spec_definition_of st);;
      Ok ((λ def, (Model.mkSymbolOccurrence uri (Some occ) (Model.SInfo def), def)) <$> def)).

(** All occurrences of the symbol in the files of the index folder. *)
Definition spec_refs (symbol : string) : list (string * Model.Occurrence) :=
  (List.filter is_scip (folder_files schedule folder entries) ≫= idx) ≫= index_refs symbol.
Definition ref_location (r : string * Model.Occurrence) : Location :=
  ScipOccurrenceToLocation (File (Join root r.1)) r.2.
Definition spec_references (st : spec_state) (uri : URI) (pos : Position) : gores (option (list Location)) :=
  at_position st uri pos None (λ doc occ,
    let symbol := Model.OSymbol occ in
    Ok (Some (if IsLocalSymbol symbol then
        ScipOccurrenceToLocation uri <$>
          List.filter (λ occ, bool_decide (Model.OSymbol occ = symbol)) (Model.Occurrences doc)
      else ref_location <$> spec_refs symbol))).

Definition spec_hover (st : spec_state) (uri : URI) (pos : Position)
    : gores (string * option Model.Occurrence) :=
  at_position st uri pos ("", None) (λ doc occ,
    let symbol := Model.OSymbol occ in
    info <-? (if IsLocalSymbol symbol then Ok None else with_symbol symbol (spec_symbol st));;
    Ok (Registry.hover_docs occ (fst <$> info), Some occ)).

(** *** Operations *)

Inductive op :=
  | OpLoadIndexFile (file : string)
  | OpSetCallback (callback : N)
  | OpDidOpen (uri : URI) (text : string)
  | OpDidClose (uri : URI)
  | OpSymbol (ds : list Descriptor) (version : string)
  | OpDefinition (uri : URI) (pos : Position)
  | OpReferences (uri : URI) (pos : Position)
  | OpHover (uri : URI) (pos : Position)
  | OpDocumentSymbols (uri : URI)
  | OpDiagnostics (uri : URI).

Inductive answer :=
  | ADone (r : gores unit)
  | ASymbol (r : gores (option Model.SymbolOccurrence))
  | ADefinition (r : gores (option (Model.SymbolOccurrence * Model.SymbolOccurrence)))
  | ALocations (r : gores (option (list Location)))
  | AHover (r : gores (string * option Model.Occurrence))
  | ASymbols (r : gores (option (list Model.SymbolOccurrence)))
  | ADiagnostics (r : gores (list Model.Diagnostic)).

Definition spec_op (o : op) (st : spec_state) : answer * spec_state :=
  match o with
  | OpLoadIndexFile f =>
    match Open f with
    | Ok _ => (ADone (Ok tt), mkSpec (sp_files st ++ [f]) (sp_shown st ∖ list_to_set (file_docs f)))
    | Err e => (ADone (Err e), st)
    | Panic => (ADone Panic, st)
    | Fuel => (ADone Fuel, st)
    end
  | OpSetCallback _ | OpDidClose _ => (ADone (Ok tt), st)
  | OpDidOpen uri _ => (ADone (_ <-? Registry.uriToRelativePath root uri;; Ok tt), st)
  | OpSymbol ds v => (ASymbol (spec_definition_of st ds v), st)
  | OpDefinition uri pos => (ADefinition (spec_definition st uri pos), st)
  | OpReferences uri pos => (ALocations (spec_references st uri pos), st)
  | OpHover uri pos => (AHover (spec_hover st uri pos), st)
  | OpDocumentSymbols uri =>
    match Registry.uriToRelativePath root uri with
    | Ok rel =>
      (ASymbols (Ok ((λ doc, omap (defined_symbol uri doc) (Model.Occurrences doc)) <$> spec_doc st rel)),
       mkSpec (sp_files st) ({[rel]} ∪ sp_shown st))
    | Err e => (ASymbols (Err e), st)
    | Panic => (ASymbols Panic, st)
    | Fuel => (ASymbols Fuel, st)
    end
  | OpDiagnostics _ => (ADiagnostics (Err (EText "not implemented")), st)
  end.

Abbreviation registry := (LibRegistry.partialScipRegistry PartialLoadedIndex).
#[local] Instance ops : Index.PartialIndex PartialLoadedIndex :=
  loaded_index_ops scan_fuel tree_fuel errText schedule.

Definition run_op (o : op) (p : registry) : answer * registry :=
  match o with
  | OpLoadIndexFile f => prod_map ADone id (LibRegistry.LoadIndexFile f p)
  | OpSetCallback c => prod_map ADone id (LibRegistry.SetDocumentLoadedCallback c p)
  | OpDidOpen uri text => prod_map ADone id (LibRegistry.DidOpen uri text p)
  | OpDidClose uri => prod_map ADone id (LibRegistry.DidClose uri p)
  | OpSymbol ds v => prod_map ASymbol id (LibRegistry.GetSymbolDefinitionOccurrence ds v p)
  | OpDefinition uri pos => prod_map ADefinition id (LibRegistry.Definition_ uri pos p)
  | OpReferences uri pos => prod_map ALocations id (LibRegistry.References uri pos p)
  | OpHover uri pos => prod_map AHover id (LibRegistry.Hover uri pos p)
  | OpDocumentSymbols uri => prod_map ASymbols id (LibRegistry.DocumentSymbols uri p)
  | OpDiagnostics uri => prod_map ADiagnostics id (LibRegistry.Diagnostics uri p)
  end.

Fixpoint run_ops {St} (step : op → St → answer * St) (os : list op) (st : St) : list answer * St :=
  match os with
  | [] => ([], st)
  | o :: os' =>
    let '(a, st1) := step o st in
    let '(l, st2) := run_ops step os' st1 in (a :: l, st2)
  end.

(** Locations are returned in the order of a map, which is not fixed. *)
Definition same_answer (a b : answer) : Prop :=
  match a, b with
  | ALocations (Ok (Some l)), ALocations (Ok (Some l')) => l ≡ₚ l'
  | _, _ => a = b
  end.

(** ** The simulation *)

(** A document is stored under the path that the scanner reads. *)
Definition doc_path (it : index_item) : Prop :=
  match it with
  | IndexDocument path items => ∀ doc, UnmarshalDocument (doc_payload items) = Ok doc →
      Clean (Scip.RelativePath doc) = Clean (index_path path)
  | IndexOther _ _ => True
  end.
(** The files hold serialised indices. *)
Definition loads (f : string) : Prop :=
  file_ok scan_fuel idx f ∧ Forall (index_loads tree_fuel) (idx f) ∧ Forall doc_path (idx f).
Record world : Prop := {
  w_dir : ReadDir folder = Ok entries;
  w_folder f : f ∈ folder_files schedule folder entries → is_scip f = true →
    file_ok scan_fuel idx f ∧ Forall doc_decodes (idx f) ∧ Forall index_decodes (idx f);
  w_fuel : (0 < tree_fuel)%nat
}.
Definition op_ok (o : op) : Prop :=
  match o with
  | OpLoadIndexFile f => loads f ∨ ∃ e, Open f = Err e
  | _ => True
  end.

Record sim (p : PartialLoadedIndex) (st : spec_state) : Prop := {
  sim_ready : index_inv p ∧ files_ready scan_fuel schedule idx entries p;
  sim_folder : indexFolder p = folder;
  sim_sym ds v : ds ≠ [] → symbol_at p ds v = last_def (spec_defs st) ds v;
  sim_index d : docToIndex p !! d = file_of st d;
  sim_doc d : stored_doc schedule idx entries p d = spec_doc st d
}.

Lemma loads_decodes l : Forall (index_loads tree_fuel) l → Forall doc_decodes l.
Proof. intros Hl. apply (Forall_impl _ _ _ Hl). by intros [path items|n p] Hi; [apply Hi|]. Qed.

Lemma last_doc_in l d : Forall doc_decodes l → d ∈ (l ≫= index_docs) ↔ is_Some (last_doc l d).
Proof.
  induction 1 as [|it l Hit _ IH]; cbn [last_doc].
  { cbn. split; [by intros ?%elem_of_nil|by intros []]. }
  rewrite bind_cons, elem_of_app, IH. destruct (last_doc l d); [split; [by eexists|by right; eexists]|].
  destruct it as [path items|n p]; cbn [index_docs item_doc].
  - destruct Hit as [doc ->]. rewrite list_elem_of_singleton. case_bool_decide as Hd.
    + split; [by eexists|by left].
    + split; [by intros [|[]]|by intros []].
  - split; [by intros [?%elem_of_nil|[]]|by intros []].
Qed.

Lemma reload_lookup l d : Forall doc_decodes l → Forall doc_path l → ∀ docs : gmap string Model.Document,
  foldl reload_item docs l !! d = (λ doc, default doc (last_doc l d)) <$> docs !! d.
Proof.
  induction 1 as [|it l Hit _ IH]; intros Hp docs; cbn [foldl last_doc].
  { by destruct (docs !! d). }
  apply Forall_cons in Hp as [Hp1 Hp]. rewrite (IH Hp).
  destruct it as [path items|n p]; cbn [reload_item item_doc].
  - destruct Hit as [doc Hdoc]. rewrite Hdoc. specialize (Hp1 doc Hdoc). rewrite Hp1.
    destruct (docs !! Clean (index_path path)) as [old|] eqn:Ho.
    + case_bool_decide as Hd; [|by rewrite lookup_insert_ne; destruct (last_doc l d)].
      rewrite <- Hd, lookup_insert_eq, Ho, Hd. cbn. by destruct (last_doc l d).
    + case_bool_decide as Hd; [by rewrite <- Hd, Ho|by destruct (last_doc l d)].
  - by destruct (last_doc l d).
Qed.

Lemma file_of_snoc st f sh d :
  file_of (mkSpec (sp_files st ++ [f]) sh) d = if bool_decide (d ∈ file_docs f) then Some f else file_of st d.
Proof.
  unfold file_of. cbn [sp_files]. rewrite List.filter_app. cbn [List.filter].
  case_bool_decide; [apply last_snoc|by rewrite app_nil_r].
Qed.

Lemma sim_start reuse p : world → NewPartialLoadedIndex reuse folder = Ok p → sim p spec_start.
Proof.
  intros [W1 W2 W3] Hn. pose proof (NewPartialLoadedIndex_inv _ _ _ Hn) as Hinv.
  unfold NewPartialLoadedIndex in Hn. destruct (NewBufferPool reuse 1024 12) as [bp| | |]; [|done..].
  injection Hn as <-. split; [split; [done|]|done| |done|].
  - split_and!; [done..|]. intros d f. cbn. by rewrite lookup_empty.
  - intros ds v Hds. unfold symbol_at, ver_at, info_at. cbn [forest nodes PrefixTreeRoot].
    destruct (walk _ _ ds) as [q|] eqn:Hw; [|done].
    apply (new_leaf ∅ 0 root_node) in Hw as [? _]; done.
  - intros d. unfold stored_doc, spec_doc, plain_doc. cbn [LoadedDocuments]. rewrite lookup_empty.
    by rewrite bool_decide_false by apply not_elem_of_empty.
Qed.

(** *** Loads *)

Lemma sim_load p st f : world → loads f → sim p st →
  ∃ p', LoadIndexFile scan_fuel tree_fuel f p = (Ok tt, p') ∧
    sim p' (mkSpec (sp_files st ++ [f]) (sp_shown st ∖ list_to_set (file_docs f))).
Proof.
  intros HW (Hf&Hl&Hpath) HS. pose proof Hf as (Hopen&Hok&Hfuel&Hmax). destruct HS as [S1 S2 S3 S4 S5].
  destruct (LoadIndex_ok scan_fuel tree_fuel p f (idx f)) as (p'&Hrun&[L1 L2 L3 L4 [L5 L6]]&Hdocs);
    [apply S1|done..|apply HW|].
  exists p'. split; [unfold LoadIndexFile; by rewrite Hopen|].
  pose proof (loads_decodes _ Hl) as Hdec.
  assert (Hidx : ∀ d, docToIndex p' !! d = file_of (mkSpec (sp_files st ++ [f])
    (sp_shown st ∖ list_to_set (file_docs f))) d).
  { intros d. by rewrite L3, S4, file_of_snoc. }
  split; [split; [done|]|by rewrite L6| |done|].
  - destruct S1 as [_ (F1&F2&F3)]. split_and!; [by rewrite L6|intros g; rewrite L6; apply F2|].
    intros d g. rewrite L3. case_bool_decide; [by intros [= <-]|by apply F3].
  - intros ds v Hds. unfold spec_defs. cbn [sp_files]. rewrite bind_app, last_def_app.
    cbn [mbind list_bind]. rewrite app_nil_r, L2, S3 by done. done.
  - intros d. specialize (S5 d). unfold stored_doc, spec_doc, plain_doc, document_files in *.
    rewrite Hdocs, (reload_lookup _ _ Hdec Hpath), L3, L6, file_of_snoc. cbn [sp_shown].
    rewrite S4, S2 in S5. fold (file_docs f) in *. rewrite S2, S4.
    destruct (bool_decide (d ∈ file_docs f)) eqn:Hd.
    + apply bool_decide_eq_true in Hd. rewrite bool_decide_false by set_solver.
      cbn [mbind list_bind]. rewrite app_nil_r.
      apply (last_doc_in _ _ Hdec) in Hd as [doc Hdoc]. rewrite Hdoc. by destruct (LoadedDocuments p !! d).
    + apply bool_decide_eq_false in Hd.
      assert (Hnone : last_doc (idx f) d = None).
      { destruct (last_doc (idx f) d) eqn:He; [|done]. exfalso. apply Hd, (last_doc_in _ _ Hdec).
        rewrite He. by eexists. }
      rewrite Hnone. rewrite (bool_decide_ext _ (d ∈ sp_shown st)) by set_solver.
      destruct (LoadedDocuments p !! d); exact S5.
Qed.

(** *** Queries

    [m] returns [r] from every index that [st] describes, and leaves an index
    that [st] describes. *)
Definition answers {A} (st : spec_state) (m : IndexM A) (r : gores A) : Prop :=
  ∀ p, sim p st → ∃ p', m p = (r, p') ∧ sim p' st.

Lemma answers_ret {A} st (a : A) : answers st (sret a) (Ok a).
Proof. intros p HS. by exists p. Qed.
Lemma answers_lift {A} st (r : gores A) : answers st (lift_res r) r.
Proof. intros p HS. by exists p. Qed.
Lemma answers_bind {A B} st (m : IndexM A) (k : A → IndexM B) r f :
  answers st m r → (∀ a, answers st (k a) (f a)) → answers st (sbind m k) (rbind r f).
Proof.
  intros Hm Hk p HS. destruct (Hm p HS) as (p1&Hrun&HS1).
  destruct r as [a|e| |]; [|by exists p1; unfold sbind; rewrite Hrun..].
  destruct (Hk a p1 HS1) as (p2&Hrun2&HS2). exists p2. by rewrite (sbind_ok _ _ _ _ _ Hrun).
Qed.

Lemma sim_same p p' st :
  sim p st → index_inv p' ∧ files_ready scan_fuel schedule idx entries p' → same_parts p p' →
  (∀ d, stored_doc schedule idx entries p' d = stored_doc schedule idx entries p d) → sim p' st.
Proof.
  intros [S1 S2 S3 S4 S5] Hr (H1'&H2'&H3'&H4'&H5') Hd. split; [done|congruence| | |].
  - intros ds v Hds. rewrite <- S3 by done. unfold symbol_at. by rewrite H1', H2'.
  - intros d. by rewrite H3'.
  - intros d. by rewrite Hd.
Qed.

Lemma answers_document st d :
  answers st (PartialIndex.LoadDocument scan_fuel errText schedule d) (Ok (spec_doc st d)).
Proof.
  intros p HS. pose proof HS as [S1 S2 S3 S4 S5].
  destruct (LoadDocument_view scan_fuel tree_fuel errText schedule idx entries p d S1)
    as (p'&Hrun&Hr&Hsame&Hu).
  exists p'. split; [by rewrite <- S5|]. apply (sim_same p); [done..|]. apply (Index.as_unchanged _ _ _ Hu).
Qed.

Lemma spec_versions_in defs ds v :
  v ∈ spec_versions defs ds ↔ is_Some (last_def defs ds v).
Proof.
  induction defs as [|[path info] defs IH].
  { cbn. split; [by intros ?%elem_of_nil|by intros []]. }
  assert (Hx : def_version ds (path, info) = Some v ↔ def_key info = Some (ds, v)).
  { unfold def_version. cbn [snd]. destruct (def_key info) as [[ds' v']|]; cbn; [|by split].
    case_bool_decide; split; intros; simplify_eq; done. }
  assert (Hcons : spec_versions ((path, info) :: defs) ds =
    option_list (def_version ds (path, info)) ++ spec_versions defs ds)
    by (unfold spec_versions; cbn [omap list_omap]; by destruct (def_version ds (path, info))).
  rewrite Hcons, elem_of_app, IH. cbn [last_def]. destruct (last_def defs ds v); [split; [by eexists|by right; eexists]|].
  case_bool_decide as Hk.
  - apply Hx in Hk. rewrite Hk. split; [by eexists|]. intros _. left. by left.
  - split; [|by intros []]. intros [Hv|[]]; [|done]. destruct (def_version ds (path, info)) as [v'|]; cbn in Hv.
    + apply list_elem_of_singleton in Hv as ->. by destruct Hk; apply Hx.
    + by apply elem_of_nil in Hv.
Qed.

Lemma least_head (l : list string) v :
  v ∈ l → (∀ v', v' ∈ l → String.le v v') → head (merge_sort String.le l) = Some v.
Proof.
  intros Hv Hle. pose proof (StronglySorted_merge_sort String.le l) as Hs.
  assert (Hin : ∀ x, x ∈ merge_sort String.le l ↔ x ∈ l) by (intros x; by rewrite merge_sort_Permutation).
  destruct (merge_sort String.le l) as [|x l']; [by apply Hin, elem_of_nil in Hv|]. cbn. f_equal.
  apply (anti_symm String.le).
  - apply Hin in Hv. apply elem_of_cons in Hv as [->|Hv]; [done|].
    apply StronglySorted_inv in Hs as [_ Hf]. by eapply Forall_forall in Hf.
  - apply Hle, Hin. by left.
Qed.

Lemma answers_symbol st ds v :
  answers st (PartialIndex.GetSymbolInformationFromDescriptors ds v) (spec_symbol st ds v).
Proof.
  intros p HS. exists p. split; [|done]. pose proof HS as [[Hinv _] S2 S3 _ _].
  pose proof (GetSymbolInformation_exact p ds v Hinv) as Hx.
  destruct ds as [|d ds]; [done|]. unfold spec_symbol.
  destruct v as [|c v]; [done|]. rewrite bool_decide_false by done.
  destruct Hx as (r&Hrun&Hr). rewrite Hrun. f_equal. rewrite (S3 (d :: ds)) in Hr by done.
  destruct (last_def (spec_defs st) (d :: ds) _) as [vi|]; [by rewrite Hr|]. f_equal.
  assert (Hin := spec_versions_in (spec_defs st) (d :: ds)).
  destruct Hr as [[-> Hno]|(v0&vi&[[vi' Hv0] Hle]&Hvi&->)].
  - destruct (head (merge_sort _ _)) as [v0|] eqn:Hh; [|done]. cbn [mbind option_bind].
    rewrite <- S3, Hno by done. done.
  - rewrite (least_head _ v0).
    + cbn [mbind option_bind]. by rewrite <- S3, Hvi by done.
    + apply Hin. by rewrite <- S3, Hv0 by done.
    + intros v' Hv'. apply Hle. rewrite S3 by done. by apply Hin.
Qed.

Lemma answers_definition_of st ds v :
  answers st (Registry.GetSymbolDefinitionOccurrence root ds v) (spec_definition_of st ds v).
Proof.
  apply (answers_bind st _ _ (spec_symbol st ds v)); [apply answers_symbol|].
  intros [[info d]|]; [|apply answers_ret].
  apply (answers_bind st _ _ (Ok (spec_doc st d)) (λ o, Ok (doc ← o;
    Some (Model.mkSymbolOccurrence (File (Join root d)) (first_definition doc (Model.ISymbol info))
      (Some info))))); [apply answers_document|].
  intros [doc|]; apply answers_ret.
Qed.

Lemma answers_with_symbol {A} st symbol (m : list Descriptor → string → IndexM A) k :
  (∀ ds v, answers st (m ds v) (k ds v)) →
  answers st (sy <- lift_res (ParseScipSymbol symbol);;
    match Scip.SPackage sy with
    | None => lift_res Panic
    | Some pkg => m (ScipDescriptorsToModelDescriptors (Scip.Descriptors sy)) (Scip.Version pkg)
    end) (with_symbol symbol k).
Proof.
  intros Hm. apply answers_bind; [apply answers_lift|].
  intros sy. destruct (Scip.SPackage sy); [apply Hm|apply answers_lift].
Qed.

Lemma answers_load st uri :
  answers st (Registry.load root uri)
    (rel <-? Registry.uriToRelativePath root uri;; Ok (spec_doc st rel)).
Proof. apply answers_bind; [apply answers_lift|]. intros rel. apply answers_document. Qed.

Lemma answers_at_position {A} st uri pos (none : A)
    (m : Model.Document → Model.Occurrence → IndexM A) k :
  (∀ doc occ, answers st (m doc occ) (k doc occ)) →
  answers st (doc <- Registry.load root uri;;
    match doc with
    | None => sret none
    | Some doc =>
      occ <- lift_res (GetOccurrenceForPosition (Model.Occurrences doc) pos);;
      match occ with
      | None => sret none
      | Some occ => m doc occ
      end
    end) (at_position st uri pos none k).
Proof.
  intros Hm. unfold Registry.load, at_position. intros p HS.
  rewrite sbind_assoc. revert p HS.
  apply answers_bind; [apply answers_lift|]. intros rel.
  apply (answers_bind st _ _ (Ok (spec_doc st rel)) (λ d, match d with
    | None => Ok none
    | Some doc => occ <-? GetOccurrenceForPosition (Model.Occurrences doc) pos;;
        match occ with None => Ok none | Some occ => k doc occ end
    end)); [apply answers_document|].
  intros [doc|]; [|apply answers_ret]. apply answers_bind; [apply answers_lift|].
  intros [occ|]; [apply Hm|apply answers_ret].
Qed.

Lemma answers_definition st uri pos :
  answers st (Registry.Definition_ root uri pos) (spec_definition st uri pos).
Proof.
  apply answers_at_position. intros doc occ. cbv zeta. unfold first_definition.
  destruct (IsLocalSymbol (Model.OSymbol occ)).
  { destruct (GetOccurrencesForSymbol _ _ _); apply answers_ret. }
  apply answers_bind; [apply answers_with_symbol, answers_definition_of|].
  intros [[loc o info]|]; apply answers_ret.
Qed.

Lemma answers_hover st uri pos : answers st (Registry.Hover root uri pos) (spec_hover st uri pos).
Proof.
  apply answers_at_position. intros doc occ. cbv zeta.
  apply answers_bind; [|intros info; apply answers_ret].
  change (Index.GetSymbolInformation (Model.OSymbol occ))
    with (PartialIndex.GetSymbolInformation (Model.OSymbol occ)).
  unfold PartialIndex.GetSymbolInformation. destruct (IsLocalSymbol _); [apply answers_ret|].
  apply answers_with_symbol, answers_symbol.
Qed.

(** *** References *)

Lemma locations_insert d o (m : gmap string (list Model.Occurrence)) :
  Registry.locations_of root (<[d := default [] (m !! d) ++ [o]]> m)
  ≡ₚ Registry.locations_of root m ++ [ref_location (d, o)].
Proof.
  assert (Hins : ∀ x, Registry.locations_of root (<[d := x]> m) ≡ₚ
    ((λ o, ref_location (d, o)) <$> x) ++ Registry.locations_of root (delete d m)).
  { intros x. unfold Registry.locations_of. rewrite <- insert_delete_eq.
    by rewrite map_to_list_insert by apply lookup_delete_eq. }
  assert (Hm : Registry.locations_of root m ≡ₚ
    ((λ o, ref_location (d, o)) <$> default [] (m !! d)) ++ Registry.locations_of root (delete d m)).
  { destruct (m !! d) as [x|] eqn:Hx; cbn; [|by rewrite delete_id].
    rewrite <- (insert_id m d x) at 1 by done. apply Hins. }
  rewrite Hins, Hm, fmap_app. rewrite <- !(assoc_L (++)). apply Permutation_app_head, Permutation_app_comm.
Qed.

Lemma locations_by_doc refs : ∀ m : gmap string (list Model.Occurrence),
  Registry.locations_of root (by_doc refs m) ≡ₚ Registry.locations_of root m ++ (ref_location <$> refs).
Proof.
  unfold by_doc. induction refs as [|[d o] refs IH]; intros m; cbn [foldl fmap list_fmap].
  { by rewrite app_nil_r. }
  rewrite IH. cbn [fst snd]. rewrite locations_insert. by rewrite <- (assoc_L (++)).
Qed.

Lemma answers_index_references st symbol : world → IsLocalSymbol symbol = false →
  answers st (PartialIndex.References scan_fuel errText schedule symbol)
    (Ok (Some (by_doc (spec_refs symbol) ∅))).
Proof.
  intros [W1 W2 _] Hl p HS. pose proof HS as [S1 S2 S3 S4 S5].
  destruct (ScanIndexFolder_ok scan_fuel errText schedule idx (reference_callbacks symbol) folder
    entries (mkScanState (NewReader []) (ipool p) ∅) (by_doc (spec_refs symbol) ∅)) as (bp&Hscan&Hbp).
  - done.
  - intros f Hf Hs. by apply W2.
  - apply S1.
  - apply index_refs_ok, Forall_bind, Forall_forall. intros f Hf.
    apply list_elem_of_In, filter_In in Hf as [Hf Hs]. apply W2; [by apply list_elem_of_In|done].
  - exists (set_pool bp p). unfold PartialIndex.References. rewrite Hl, S2, Hscan.
    split; [done|]. apply (sim_same p); [done| |done|done]. by apply (same_parts_ready _ _ _ _ p).
Qed.

Lemma answers_references st uri pos : world →
  ∃ r, answers st (Registry.References root uri pos) r ∧
    same_answer (ALocations r) (ALocations (spec_references st uri pos)).
Proof.
  intros HW. exists (at_position st uri pos None (λ doc occ,
    let symbol := Model.OSymbol occ in
    Ok (Some (if IsLocalSymbol symbol then
        ScipOccurrenceToLocation uri <$>
          List.filter (λ occ, bool_decide (Model.OSymbol occ = symbol)) (Model.Occurrences doc)
      else Registry.locations_of root (by_doc (spec_refs symbol) ∅))))). split.
  - apply answers_at_position. intros doc occ. cbv zeta.
    destruct (IsLocalSymbol (Model.OSymbol occ)) eqn:Hl; [apply answers_ret|].
    apply (answers_bind st _ _ (Ok (Some (by_doc (spec_refs (Model.OSymbol occ)) ∅)))
      (λ m, Ok (Some (Registry.locations_of root (default ∅ m))))); [by apply answers_index_references|].
    intros m. apply answers_ret.
  - unfold spec_references, at_position. destruct (Registry.uriToRelativePath root uri) as [rel| | |]; [|done..].
    cbn [rbind]. destruct (spec_doc st rel) as [doc|]; [|done].
    destruct (GetOccurrenceForPosition _ pos) as [[occ|]| | |]; [|done..]. cbn.
    destruct (IsLocalSymbol _); [done|]. by rewrite locations_by_doc.
Qed.

(** *** Document symbols *)

Lemma sim_document_symbols p st uri : sim p st →
  let '(r, p') := Registry.DocumentSymbols root uri p in
  let '(a, st') := spec_op (OpDocumentSymbols uri) st in
  ASymbols r = a ∧ sim p' st'.
Proof.
  intros HS. unfold Registry.DocumentSymbols, spec_op.
  destruct (Registry.uriToRelativePath root uri) as [rel| | |]; [|done..].
  unfold sbind at 1. cbn [lift_res].
  destruct (answers_document st rel p HS) as (p1&Hrun1&HS1).
  rewrite (sbind_ok _ _ _ _ _ Hrun1). destruct (spec_doc st rel) as [doc|] eqn:Hdoc.
  - rewrite document_symbols_exact. cbn [fmap option_fmap option_map].
    set (p2 := set_documents (<[rel := show_doc doc]> (LoadedDocuments p1)) p1).
    rewrite (sbind_ok _ _ p1 tt p2) by done. split; [done|].
    destruct HS1 as [S1 S2 S3 S4 S5]. split; [|exact S2|exact S3|exact S4|].
    { apply (same_parts_ready scan_fuel schedule idx entries p1); [done|apply S1|done]. }
    intros d. unfold spec_doc in *. cbn [sp_shown].
    change (plain_doc (mkSpec (sp_files st) _) d) with (plain_doc st d).
    destruct (decide (d = rel)) as [->|Hne].
    + rewrite bool_decide_true by set_solver. unfold stored_doc, p2. cbn [LoadedDocuments set_documents].
      rewrite lookup_insert_eq. case_bool_decide; [|by rewrite Hdoc].
      destruct (plain_doc st rel) as [doc0|]; [|done]. injection Hdoc as <-. cbn. by rewrite show_doc_again.
    + rewrite (bool_decide_ext _ (d ∈ sp_shown st)) by set_solver. rewrite <- S5.
      unfold stored_doc, p2. cbn [LoadedDocuments set_documents]. by rewrite lookup_insert_ne.
  - split; [done|]. destruct HS1 as [S1 S2 S3 S4 S5]. split; [exact S1|exact S2|exact S3|exact S4|]. intros d. rewrite S5.
    unfold spec_doc in *. cbn [sp_shown]. change (plain_doc (mkSpec (sp_files st) _) d) with (plain_doc st d).
    destruct (decide (d = rel)) as [->|Hne].
    + rewrite (bool_decide_true (rel ∈ {[rel]} ∪ _)) by set_solver.
      case_bool_decide; [done|by rewrite Hdoc].
    + by rewrite (bool_decide_ext (d ∈ {[rel]} ∪ _) (d ∈ sp_shown st)) by set_solver.
Qed.

(** *** The refinement *)

Abbreviation index := LibRegistry.Index_.
Definition sim_registry (p : registry) (st : spec_state) : Prop :=
  LibRegistry.WorkspaceRoot p = root ∧ sim (index p) st.

Lemma method_answers {A} (body : string → IndexM A) (f : gores A → answer) r p st' :
  LibRegistry.WorkspaceRoot p = root →
  (∃ p', body root (index p) = (r, p') ∧ sim p' st') →
  (prod_map f id (LibRegistry.method body p)).1 = f r ∧
  sim_registry (prod_map f id (LibRegistry.method body p)).2 st'.
Proof.
  intros Hroot (p'&Hrun&HS). unfold LibRegistry.method, sim_registry. rewrite Hroot, Hrun. by cbn.
Qed.

Lemma same_answer_refl a : same_answer a a.
Proof. destruct a as [ | | |[[l|]| | |]| | |]; cbn; done. Qed.

Lemma op_refines o p st : world → op_ok o → sim_registry p st →
  same_answer (run_op o p).1 (spec_op o st).1 ∧ sim_registry (run_op o p).2 (spec_op o st).2.
Proof.
  intros HW Ho [Hroot HS].
  assert (Hstep : ∀ (A : Type) (body : string → IndexM A) f r a st', f r = a →
      (∃ p', body root (index p) = (r, p') ∧ sim p' st') →
      same_answer (prod_map f id (LibRegistry.method body p)).1 a ∧
      sim_registry (prod_map f id (LibRegistry.method body p)).2 st').
  { intros A body f r a st' <- Hb. destruct (method_answers body f r p st' Hroot Hb) as [-> Hs].
    split; [apply same_answer_refl|done]. }
  destruct o as [f|c|uri text|uri|ds v|uri pos|uri pos|uri pos|uri|uri]; cbn [run_op].
  - destruct Ho as [Hl|[e He]]; cbn [spec_op].
    + pose proof Hl as [[-> _] _]. by apply (Hstep _ _ _ (Ok tt)), sim_load.
    + rewrite He. apply (Hstep _ _ _ (Err e)); [done|]. exists (index p). cbn. unfold LoadIndexFile.
      by rewrite He.
  - apply (Hstep _ _ _ (Ok tt)); [done|]. eexists. split; [reflexivity|].
    apply (sim_same (index p)); [done| |done|done]. apply (same_parts_ready _ _ _ _ (index p)); [done|apply HS|apply HS].
  - apply (Hstep _ _ _ (_ <-? Registry.uriToRelativePath root uri;; Ok tt)); [done|].
    destruct (answers_load st uri (index p) HS) as (p'&Hrun&HS'). exists p'. split; [|done].
    unfold Registry.DidOpen, sbind. rewrite Hrun. by destruct (Registry.uriToRelativePath root uri).
  - apply (Hstep _ _ _ (Ok tt)); [done|]. by exists (index p).
  - by apply (Hstep _ _ _ (spec_definition_of st ds v)), answers_definition_of.
  - by apply (Hstep _ _ _ (spec_definition st uri pos)), answers_definition.
  - destruct (answers_references st uri pos HW) as (r&Hr&Hsame).
    destruct (method_answers (λ root, Registry.References root uri pos) ALocations r p st Hroot
      (Hr _ HS)) as [Ha Hs]. unfold LibRegistry.References. by rewrite Ha.
  - by apply (Hstep _ _ _ (spec_hover st uri pos)), answers_hover.
  - pose proof (sim_document_symbols (index p) st uri HS) as Hd.
    destruct (Registry.DocumentSymbols root uri (index p)) as [r p'] eqn:Hrun.
    destruct (spec_op (OpDocumentSymbols uri) st) as [a st']. destruct Hd as [<- HS'].
    apply (Hstep _ (λ root, Registry.DocumentSymbols root uri) ASymbols r _ _ eq_refl). by exists p'.
  - apply (Hstep _ _ _ (Err (EText "not implemented"))); [done|]. by exists (index p).
Qed.

Lemma ops_refine os : world → Forall op_ok os → ∀ p st, sim_registry p st →
  Forall2 same_answer (run_ops run_op os p).1 (run_ops spec_op os st).1 ∧
  sim_registry (run_ops run_op os p).2 (run_ops spec_op os st).2.
Proof.
  intros HW. induction 1 as [|o os Ho _ IH]; intros p st HS; [by split; [constructor|]|].
  cbn [run_ops]. destruct (op_refines o p st HW Ho HS) as [Ha HS1].
  destruct (run_op o p) as [a p1], (spec_op o st) as [b st1]. cbn [fst snd] in *.
  destruct (IH p1 st1 HS1) as [Hl HS2].
  destruct (run_ops run_op os p1) as [l p2], (run_ops spec_op os st1) as [l' st2]. cbn [fst snd] in *.
  split; [by constructor|done].
Qed.
End spec.

Lemma NewPartialScipRegistry_ok reuse root folder :
  ∃ p, LibRegistry.NewPartialScipRegistry reuse root folder = Ok p ∧
    LibRegistry.WorkspaceRoot p = root ∧
    NewPartialLoadedIndex reuse folder = Ok (LibRegistry.Index_ p).
Proof. by eexists. Qed.

(** C8: The folder of indices holds well-formed index files that do not change,
    and each load is of a well-formed index file or of one that cannot be opened
    (a file whose scan fails half-way is not covered: the code keeps what it has
    read).  Then a new registry answers every sequence of such loads and of
    queries (definitions, references, hovers, symbols of documents and of
    descriptors) like the abstract one, which keeps only the names of the
    files loaded: a symbol has its last definition in them, or the one of the
    least version known, a document is that of the last file that has it, or
    of the index folder, references are all occurrences in the folder; a load
    of a file that cannot be opened fails and changes nothing.  Locations are
    equal up to their order. *)
Theorem registry_refines `{Bindings} `{WireLaws} `{FileSystem} `{UriLib} scan_fuel tree_fuel errText
    schedule reuse root folder idx entries os :
  world scan_fuel tree_fuel schedule folder idx entries → Forall (op_ok scan_fuel tree_fuel idx) os →
  ∃ p, LibRegistry.NewPartialScipRegistry reuse root folder = Ok p ∧
    Forall2 same_answer (run_ops (run_op scan_fuel tree_fuel errText schedule) os p).1
      (run_ops (spec_op schedule root folder idx entries) os spec_start).1.
Proof.
  intros HW Hos. destruct (NewPartialScipRegistry_ok reuse root folder) as (p&Hp&Hroot&Hn).
  exists p. split; [done|]. apply (ops_refine _ _ _ _ _ _ _ _ os HW Hos). split; [done|].
  by apply (sim_start scan_fuel tree_fuel schedule folder idx entries reuse).
Qed.

(** An index that is read from a reader is recorded without a file: its
    documents cannot be opened afterwards. *)
Theorem LoadIndex_reader `{Bindings} `{WireLaws} `{FileSystem} `{UriLib} scan_fuel tree_fuel errText
    schedule reuse root folder idx uri rel text e :
  Forall index_ok idx → Forall (index_loads tree_fuel) idx →
  zlen (enc_index idx) < Z.of_nat scan_fuel → zlen (enc_index idx) ≤ maxAlloc → (0 < tree_fuel)%nat →
  Registry.uriToRelativePath root uri = Ok rel → rel ∈ idx ≫= index_docs → Open "" = Err e →
  let ops := loaded_index_ops scan_fuel tree_fuel errText schedule in
  ∃ p p' p'', LibRegistry.NewPartialScipRegistry reuse root folder = Ok p ∧
    LibRegistry.LoadIndex (I := ops) (Some (enc_index idx)) p = (Ok tt, p') ∧
    LibRegistry.DidOpen (I := ops) uri text p' = (Err (EJoin "failed to open file" e), p'').
Proof.
  intros Hok Hl Hf Hm Htf Hrel Hin He ops.
  destruct (NewPartialScipRegistry_ok reuse root folder) as (p&Hp&Hroot&Hn).
  pose proof (NewPartialLoadedIndex_inv _ _ _ Hn) as Hinv.
  destruct (LoadIndex_ok scan_fuel tree_fuel (LibRegistry.Index_ p) "" idx) as (p'&Hrun&[L1 L2 L3 L4 L5]&Hdocs);
    [done..|].
  assert (Hnone : LoadedDocuments (LibRegistry.Index_ p) = ∅) by (by injection Hn as <-).
  assert (Hkeep : ∀ l, foldl reload_item (∅ : gmap string Model.Document) l = ∅).
  { intros l. induction l as [|it l IH]; [done|]. cbn [foldl]. destruct it as [path items|]; [|done].
    cbn [reload_item]. by rewrite lookup_empty. }
  exists p, (LibRegistry.mkRegistry root p' (LibRegistry.IndexFolder p)).
  eexists. split; [done|]. split.
  - unfold LibRegistry.LoadIndex, LibRegistry.method. cbn [Registry.LoadIndex Index.LoadIndex ops loaded_index_ops].
    by rewrite Hrun, Hroot.
  - unfold LibRegistry.DidOpen, LibRegistry.method, Registry.DidOpen, Registry.load. cbn [LibRegistry.WorkspaceRoot LibRegistry.Index_].
    rewrite Hrel. unfold sbind at 2. cbn [lift_res].
    assert (Hload : PartialIndex.LoadDocument scan_fuel errText schedule rel p' =
      (Err (EJoin "failed to open file" e), p')).
    { unfold PartialIndex.LoadDocument. rewrite sbind_get, Hdocs, Hnone, Hkeep, lookup_empty, L3.
      rewrite bool_decide_true by done. unfold loadDocumentFromIndex, scan_index, ScanIndexFile.
      rewrite He. unfold sbind. cbn. by destruct p'. }
    unfold sbind at 1. cbn [Index.LoadDocument ops loaded_index_ops]. by rewrite Hload.
Qed.

(** ** Instances *)

(** Documents decode to one that defines the symbol [s]. *)
Definition one_document : Scip.Document :=
  Scip.mkDocument "java" "a" [Scip.mkOccurrence [0; 0; 3] "s" 1 [] 0 [] []]
    [Scip.mkSymbolInformation "s" [] [] (Scip.Kind_other 0) "" None ""] "".
#[local] Instance one_wire : Wire := {
  ConsumeTag := @ConsumeTag simple_wire;
  ConsumeVarint := @ConsumeVarint simple_wire;
  UnmarshalDocument _ := Ok one_document;
  UnmarshalSymbol := @UnmarshalSymbol simple_wire;
  UnmarshalOccurrence _ := Ok (Scip.mkOccurrence [0; 0; 3] "s" 1 [] 0 [] [])
}.
#[local] Instance one_wire_laws : WireLaws.
Proof. split; apply simple_wire_laws. Qed.

Lemma one_file_ok : file_ok 100 (λ _, sample_index) "idx/a.scip".
Proof. split_and!; [reflexivity|apply sample_index_ok|reflexivity|discriminate]. Qed.

Lemma one_world : world 100 5 reverse "idx" (λ _, sample_index) sample_entries.
Proof.
  split; [reflexivity| |lia]. intros f Hf Hs. change (f ∈ ["idx/notes"; "idx/a.scip"]) in Hf.
  apply elem_of_cons in Hf as [->|Hf]; [done|]. apply list_elem_of_singleton in Hf as ->.
  split_and!; [apply one_file_ok| |].
  - constructor; [done|]. constructor; [by eexists|done].
  - constructor; [done|]. constructor; [|done]. repeat constructor; by eexists.
Qed.

Lemma one_loads : loads 100 5 (λ _, sample_index) "idx/a.scip".
Proof.
  split_and!; [apply one_file_ok| |].
  - constructor; [done|]. constructor; [|done]. split; [by eexists|].
    repeat constructor; intros _. eexists. split; [reflexivity|].
    exists (Scip.mkSymbol "scip" (Some (Scip.mkPackage "m" "p" "1")) [Scip.mkDescriptor "s" 1 ""]),
      (Scip.mkPackage "m" "p" "1").
    split_and!; [reflexivity|reflexivity|done|cbn; lia].
  - constructor; [done|]. constructor; [|done]. by intros doc [= <-].
Qed.

Definition sample_run : list op :=
  [OpLoadIndexFile "missing"; OpDefinition "file:///w/a" (mkPosition 0 1);
   OpLoadIndexFile "idx/a.scip"; OpDefinition "file:///w/a" (mkPosition 0 1);
   OpDocumentSymbols "file:///w/a"; OpHover "file:///w/b" (mkPosition 0 1)].

Definition one_info : Model.SymbolInformation :=
  Model.mkSymbolInformation "s" [] [] (Scip.Kind_other 0) "" None "".
Definition one_occurrence : Model.SymbolOccurrence :=
  Model.mkSymbolOccurrence "file:///w/a" (Some (Model.mkOccurrence [0; 0; 3] "s" 1 [] 0 []))
    (Some one_info).

Lemma registry_refines_witness :
  ∃ p l, LibRegistry.NewPartialScipRegistry (λ _, true) "/w" "idx" = Ok p ∧
    (run_ops (run_op 100 5 (λ _, "") reverse) sample_run p).1 = l ∧
    Forall2 same_answer l
      [ADone (Err (EExternal 2)); ADefinition (Ok None); ADone (Ok tt);
       ADefinition (Ok (Some (one_occurrence, one_occurrence)));
       ASymbols (Ok (Some [Model.mkSymbolOccurrence "file:///w/a"
         (Model.SOccurrence one_occurrence) (Some (named one_info))])); AHover (Ok ("", None))].
Proof.
  destruct (registry_refines 100 5 (λ _, "") reverse (λ _, true) "/w" "idx" (λ _, sample_index)
    sample_entries sample_run one_world) as (p&Hp&Hall).
  { constructor; [right; by eexists|]. constructor; [done|]. constructor; [left; apply one_loads|].
    by repeat constructor. }
  exists p. eexists. split; [exact Hp|]. split; [reflexivity|]. exact Hall.
Defined.

Lemma LoadIndex_reader_ex :
  let ops := loaded_index_ops 100 5 (λ _, "") reverse in
  ∃ p p' p'', LibRegistry.NewPartialScipRegistry (λ _, true) "/w" "idx" = Ok p ∧
    LibRegistry.LoadIndex (I := ops) (Some (enc_index sample_index)) p = (Ok tt, p') ∧
    LibRegistry.DidOpen (I := ops) "file:///w/a" "" p' =
      (Err (EJoin "failed to open file" (EExternal 2)), p'').
Proof.
  destruct one_loads as (_&Hl&_).
  exact (LoadIndex_reader 100 5 (λ _, "") reverse (λ _, true) "/w" "idx" sample_index "file:///w/a" "a" ""
    (EExternal 2) sample_index_ok Hl eq_refl ltac:(discriminate) ltac:(lia) eq_refl
    (proj2 (list_elem_of_singleton _ _) eq_refl) eq_refl).
Qed.

End LibRegistryProof.
