(* ===== verification/FullRegistry.v ===== *)
(** * The registry that keeps whole indices in memory

    Models [src/ulsp/controller/scip/types.go] and the methods of
    [registryImpl] in [src/ulsp/controller/scip/consume.go]: packages, the
    data of their symbols with the references to them by package and file, and
    documents with their local symbols.

    Go pointers are numbers: the data of symbols, the occurrences of a symbol
    in a file, packages and documents are in one heap each.  Several owners
    share them: the references of a symbol and the external references of the
    document that makes them are the same [FileOccurences].  A dangling
    pointer stands for nil.  A mutex is a flag; [Lock] of one that is locked
    does not return, which is the result [Fuel].  Calls run one at a time.
    [rng] is the order in which a map is ranged over. *)

From stdpp Require Import base gmap list strings fin_maps.
From Stdlib Require Import ZArith.
From S2P Require Import Prelude Protocol Scip Occurrences Paths Scanner Registry.

Local Open Scope Z_scope.

Module FullRegistry.

Abbreviation PackageID := string (only parsing).
Definition ptr := N.

Record FileOccurences := mkFileOccurences {
  Occurrences : list Model.Occurrence;
  file : URI
}.
Record SymbolData := mkSymbolData {
  sd_mu : bool;
  Info : option Model.SymbolInformation;
  SDefinition : option Model.Occurrence;
  SLocation : option LocationLink;
  References : gmap PackageID (list ptr)         (** of [FileOccurences] *)
}.
Record PackageMeta := mkPackageMeta {
  pkg_mu : bool;
  Pkg : Model.ScipPackage;
  PSymbolData : gmap string ptr                  (** of [SymbolData] *)
}.
Record FileInfo := mkFileInfo {
  FURI : URI;
  FDocument : option Model.Document;
  Package : option ptr;                          (** of [PackageMeta] *)
  Locals : gmap string ptr;
  Definitions : gmap string ptr;
  ExternalRefs : list ptr                        (** of [FileOccurences] *)
}.

(** The registry and the heaps. *)
Record registryImpl := mkRegistry {
  WorkspaceRoot : string;
  Packages : gmap PackageID ptr;
  Documents : gmap URI ptr;
  sds : gmap ptr SymbolData;
  fos : gmap ptr FileOccurences;
  pkgs : gmap ptr PackageMeta;
  infos : gmap ptr FileInfo;
  next : ptr
}.

Definition _unknownPkg : Model.ScipPackage := Model.mkScipPackage "ulsp" "unknown" "0.0.1".

Definition set_sds x (r : registryImpl) := mkRegistry (WorkspaceRoot r) (Packages r) (Documents r)
  x (fos r) (pkgs r) (infos r) (next r).
Definition set_fos x (r : registryImpl) := mkRegistry (WorkspaceRoot r) (Packages r) (Documents r)
  (sds r) x (pkgs r) (infos r) (next r).
Definition set_pkgs x (r : registryImpl) := mkRegistry (WorkspaceRoot r) (Packages r) (Documents r)
  (sds r) (fos r) x (infos r) (next r).
Definition set_infos x (r : registryImpl) := mkRegistry (WorkspaceRoot r) (Packages r) (Documents r)
  (sds r) (fos r) (pkgs r) x (next r).
Definition set_next x (r : registryImpl) := mkRegistry (WorkspaceRoot r) (Packages r) (Documents r)
  (sds r) (fos r) (pkgs r) (infos r) x.
Definition set_packages x (r : registryImpl) := mkRegistry (WorkspaceRoot r) x (Documents r)
  (sds r) (fos r) (pkgs r) (infos r) (next r).
Definition set_documents x (r : registryImpl) := mkRegistry (WorkspaceRoot r) (Packages r) x
  (sds r) (fos r) (pkgs r) (infos r) (next r).

Definition FullM := GoM registryImpl.

(** ** Pointers *)

Definition deref {A} (heap : registryImpl → gmap ptr A) (q : ptr) : FullM A := λ r,
  match heap r !! q with Some a => (Ok a, r) | None => (Panic, r) end.
Definition put_sd (q : ptr) (sd : SymbolData) : FullM unit := modify_st (λ r, set_sds (<[q := sd]> (sds r)) r).
Definition put_fo (q : ptr) (fo : FileOccurences) : FullM unit :=
  modify_st (λ r, set_fos (<[q := fo]> (fos r)) r).
Definition put_pkg (q : ptr) (p : PackageMeta) : FullM unit :=
  modify_st (λ r, set_pkgs (<[q := p]> (pkgs r)) r).
Definition put_info (q : ptr) (f : FileInfo) : FullM unit :=
  modify_st (λ r, set_infos (<[q := f]> (infos r)) r).
(** [&T{...}] *)
Definition new_ptr : FullM ptr := λ r, (Ok (next r), set_next (N.succ (next r)) r).
Definition alloc {A} (put : ptr → A → FullM unit) (a : A) : FullM ptr :=
  q <- new_ptr;;
  put q a ;;;
  sret q.

(** Locks: the rest of the function runs with the lock, and the deferred
    unlock also when it panics. *)
Definition set_sd_mu (b : bool) (sd : SymbolData) : SymbolData :=
  mkSymbolData b (Info sd) (SDefinition sd) (SLocation sd) (References sd).
Definition set_pkg_mu (b : bool) (p : PackageMeta) : PackageMeta :=
  mkPackageMeta b (Pkg p) (PSymbolData p).
Definition defer {A} (cleanup : registryImpl → registryImpl) (m : FullM A) : FullM A := λ r,
  let '(x, r') := m r in
  match x with Fuel => (x, r') | _ => (x, cleanup r') end.
Definition with_sd_lock {A} (q : ptr) (m : FullM A) : FullM A :=
  sd <- deref sds q;;
  if sd_mu sd then lift_res Fuel
  else
    put_sd q (set_sd_mu true sd) ;;;
    defer (λ r, set_sds (alter (set_sd_mu false) q (sds r)) r) m.
Definition with_pkg_lock {A} (q : ptr) (m : FullM A) : FullM A :=
  p <- deref pkgs q;;
  if pkg_mu p then lift_res Fuel
  else
    put_pkg q (set_pkg_mu true p) ;;;
    defer (λ r, set_pkgs (alter (set_pkg_mu false) q (pkgs r)) r) m.

(** ** Constructors *)

Definition NewSymbolData (info : option Model.SymbolInformation) (definition : option Model.Occurrence)
    (location : option LocationLink) : FullM ptr :=
  alloc put_sd (mkSymbolData false info definition location ∅).
Definition NewScipPackage (pkg : Model.ScipPackage) : FullM ptr :=
  alloc put_pkg (mkPackageMeta false pkg ∅).
(** A nil slice of references is an empty one. *)
Definition NewFileInfo (uri : URI) (doc : option Model.Document) (pkg : option ptr)
    (definitions : gmap string ptr) (externalRefs : list ptr) : FullM ptr :=
  alloc put_info (mkFileInfo uri doc pkg ∅ definitions externalRefs).

(** ** Symbols and references *)

Definition GetSymbolInformation (q : ptr) : FullM (option Model.SymbolInformation) :=
  with_sd_lock q (sd <- deref sds q;; sret (Info sd)).

(** The first of the files that is [docURI]. *)
Fixpoint find_file (docURI : URI) (l : list ptr) : FullM (option ptr) :=
  match l with
  | [] => sret None
  | f :: l' =>
    fo <- deref fos f;;
    if bool_decide (file fo = docURI) then sret (Some f) else find_file docURI l'
  end.

Definition set_references (refs : gmap PackageID (list ptr)) (sd : SymbolData) : SymbolData :=
  mkSymbolData (sd_mu sd) (Info sd) (SDefinition sd) (SLocation sd) refs.

Definition AddReference (q : ptr) (docURI : URI) (pkgID : PackageID) (occ : Model.Occurrence) : FullM ptr :=
  with_sd_lock q (
    sd <- deref sds q;;
    (match References sd !! pkgID with
     | Some _ => sret tt
     | None => put_sd q (set_references (<[pkgID := []]> (References sd)) sd)
     end) ;;;
    sd <- deref sds q;;
    found <- find_file docURI (default [] (References sd !! pkgID));;
    match found with
    | Some f =>
      fo <- deref fos f;;
      put_fo f (mkFileOccurences (Occurrences fo ++ [occ]) (file fo)) ;;;
      sret f
    | None =>
      f <- alloc put_fo (mkFileOccurences [occ] docURI);;
      put_sd q (set_references (<[pkgID := default [] (References sd !! pkgID) ++ [f]]> (References sd)) sd) ;;;
      sret f
    end).

(** [PackageMeta.getOrCreateSymbolData] *)
Definition pkg_getOrCreateSymbolData (p : ptr) (symbol : string) : FullM ptr :=
  pkg <- deref pkgs p;;
  match PSymbolData pkg !! symbol with
  | Some q => sret q
  | None =>
    q <- NewSymbolData None None None;;
    put_pkg p (mkPackageMeta (pkg_mu pkg) (Pkg pkg) (<[symbol := q]> (PSymbolData pkg))) ;;;
    sret q
  end.
(** [FileInfo.getOrCreateSymbolData] *)
Definition file_getOrCreateSymbolData (f : ptr) (symbol : string) : FullM ptr :=
  fi <- deref infos f;;
  match Locals fi !! symbol with
  | Some q => sret q
  | None =>
    q <- NewSymbolData None None None;;
    put_info f (mkFileInfo (FURI fi) (FDocument fi) (Package fi) (<[symbol := q]> (Locals fi))
      (Definitions fi) (ExternalRefs fi)) ;;;
    sret q
  end.

Section registry.
Context `{Bindings} `{UriLib} (rng : ∀ A, gmap string A → list (string * A)).
Arguments rng {A}.

Definition GetURI (r : registryImpl) (relPath : string) : URI := File (Join (WorkspaceRoot r) relPath).

Definition set_info (info : option Model.SymbolInformation) (sd : SymbolData) : SymbolData :=
  mkSymbolData (sd_mu sd) info (SDefinition sd) (SLocation sd) (References sd).
Definition set_definition (def : option Model.Occurrence) (loc : option LocationLink) (sd : SymbolData)
    : SymbolData :=
  mkSymbolData (sd_mu sd) (Info sd) def loc (References sd).

Definition is_definition (occ : Model.Occurrence) : bool :=
  0 <? Z.land (Model.SymbolRoles occ) Scip.SymbolRole_Definition.

(** One occurrence of the symbol [q] in the document. *)
Definition store_occurrence (docURI : URI) (q : ptr) (occ : Model.Occurrence) : FullM unit :=
  if is_definition occ then
    sd <- deref sds q;;
    put_sd q (set_definition (Some occ) (Some (ScipOccurrenceToLocationLink docURI occ None)) sd)
  else
    _ <- AddReference q docURI "local" occ;;
    sret tt.

Definition storeLocalSymbols (localSymbs : gmap string (option Model.SymbolInformation))
    (localOccs : gmap string (list Model.Occurrence)) (docURI : URI)
    (symbolDataFn : string → FullM ptr) : FullM unit :=
  forM_ (rng localSymbs) (λ '(symbol, info),
    q <- symbolDataFn symbol;;
    sd <- deref sds q;;
    put_sd q (set_info info sd)) ;;;
  forM_ (rng localOccs) (λ '(symbol, occs),
    q <- symbolDataFn symbol;;
    forM_ occs (store_occurrence docURI q)).

(** [PackageMeta.storeLocalSymbols] and [FileInfo.storeLocalSymbols] *)
Definition pkg_storeLocalSymbols (p : ptr) (localSymbs : gmap string (option Model.SymbolInformation))
    (localOccs : gmap string (list Model.Occurrence)) (docURI : URI) : FullM unit :=
  storeLocalSymbols localSymbs localOccs docURI (pkg_getOrCreateSymbolData p).
Definition file_storeLocalSymbols (f : ptr) (localSymbs : gmap string (option Model.SymbolInformation))
    (localOccs : gmap string (list Model.Occurrence)) : FullM unit :=
  fi <- deref infos f;;
  storeLocalSymbols localSymbs localOccs (FURI fi) (file_getOrCreateSymbolData f).

Definition getOrCreatePackage (pkg : Model.ScipPackage) : FullM ptr :=
  r <- get_st;;
  match Packages r !! Model.Name pkg with
  | Some p => sret p
  | None =>
    p <- NewScipPackage pkg;;
    modify_st (λ r, set_packages (<[Model.Name pkg := p]> (Packages r)) r) ;;;
    sret p
  end.

(** The loop of [ClearReferences] over the symbols of the package, which locks
    each symbol until the function returns, and its end. *)
Fixpoint clear_symbols (docURI : URI) (l : list (string * ptr)) : FullM unit :=
  match l with
  | [] => modify_st (λ r, set_documents (delete docURI (Documents r)) r)
  | (_, q) :: l' =>
    sd <- deref sds q;;
    match SLocation sd with
    | Some loc =>
      if bool_decide (TargetURI loc = docURI) then
        with_sd_lock q (
          sd <- deref sds q;;
          put_sd q (set_definition None None sd) ;;;
          clear_symbols docURI l')
      else clear_symbols docURI l'
    | None => clear_symbols docURI l'
    end
  end.

Definition clear_ref (f : ptr) : FullM unit :=
  ref <- deref fos f;;
  put_fo f (mkFileOccurences [] (file ref)).

Definition ClearReferences (docURI : URI) : FullM unit :=
  r <- get_st;;
  match Documents r !! docURI with
  | None => sret tt
  | Some d =>
    doc <- deref infos d;;
    forM_ (ExternalRefs doc) clear_ref ;;;
    match Package doc with
    | None => lift_res Panic
    | Some p =>
      with_pkg_lock p (
        pkg <- deref pkgs p;;
        clear_symbols docURI (rng (PSymbolData pkg)))
    end
  end.

(** ** Queries *)

(** [None] is nil. *)
Definition GetSymbolDataForSymbol (symbol : string) (localPkg : option ptr) : FullM (option ptr) :=
  if IsLocalSymbol symbol then
    match localPkg with
    | None => lift_res Panic
    | Some p => with_pkg_lock p (pkg <- deref pkgs p;; sret (PSymbolData pkg !! symbol))
    end
  else
    sy <- lift_res (ParseScipSymbol symbol);;
    match Scip.SPackage sy with
    | None => lift_res Panic
    | Some spkg =>
      r <- get_st;;
      match Packages r !! Scip.Name spkg with
      | None => sret None
      | Some p => with_pkg_lock p (pkg <- deref pkgs p;; sret (PSymbolData pkg !! symbol))
      end
    end.

(** The symbol that an occurrence defines; an error is dropped. *)
Definition document_symbol (doc : FileInfo) (occ : Model.Occurrence) : FullM (option ptr) :=
  if is_definition occ then
    if IsLocalSymbol (Model.OSymbol occ) then sret (Locals doc !! Model.OSymbol occ)
    else
      res <- try_ (GetSymbolDataForSymbol (Model.OSymbol occ) (Package doc));;
      sret (match res with inr q => q | inl _ => None end)
  else sret None.

Fixpoint document_symbols (doc : FileInfo) (occs : list Model.Occurrence) (symbols : list ptr)
    : FullM (list ptr) :=
  match occs with
  | [] => sret symbols
  | occ :: occs' =>
    symbolData <- document_symbol doc occ;;
    document_symbols doc occs' (symbols ++ option_list symbolData)
  end.

Definition GetDocumentSymbolForFile (uri : URI) : FullM (list ptr) :=
  r <- get_st;;
  match Documents r !! uri with
  | None => sret []
  | Some d =>
    doc <- deref infos d;;
    match FDocument doc with
    | None => lift_res Panic
    | Some document => document_symbols doc (Model.Occurrences document) []
    end
  end.

Definition GetSymbolForPosition (uri : URI) (pos : Position)
    : FullM (option Model.Occurrence * option ptr) :=
  r <- get_st;;
  match Documents r !! uri with
  | None => sret (None, None)
  | Some d =>
    doc <- deref infos d;;
    match FDocument doc with
    | None => lift_res Panic
    | Some document =>
      occ <- lift_res (GetOccurrenceForPosition (Model.Occurrences document) pos);;
      match occ with
      | None => sret (None, None)
      | Some occ =>
        if IsLocalSymbol (Model.OSymbol occ) && bool_decide (Locals doc ≠ ∅) then
          sret (Some occ, Locals doc !! Model.OSymbol occ)
        else
          sd <- GetSymbolDataForSymbol (Model.OSymbol occ) (Package doc);;
          sret (Some occ, sd)
      end
    end
  end.

Definition GetFileInfo (fileURI : URI) : FullM (option ptr) :=
  r <- get_st;;
  sret (Documents r !! fileURI).

(** The list that the loop of the code builds is not used. *)
Definition GetPackageInfo (pkgID : PackageID) : FullM (option ptr) :=
  r <- get_st;;
  sret (Packages r !! pkgID).
End registry.

(** ** The functions on occurrences

    [consume.go] has its own copies of the functions of [utils.go]. *)
Definition GetOccurrencesForSymbol := Occurrences.GetOccurrencesForSymbol.
Definition GetLocalSymbolInformation := Occurrences.GetLocalSymbolInformation.
Definition IsRangeBefore := Occurrences.IsRangeBefore.
Definition IsMatchingPosition `{Bindings} := Occurrences.IsMatchingPosition.
Definition GetOccurrenceForPosition `{Bindings} := Occurrences.GetOccurrenceForPosition.
End FullRegistry.
