(* ===== verification/FullRegistryProof.v ===== *)
(** * Correctness of the registry of whole indices

    The invariant of the heap: pointers lead to allocated data, the data of a
    symbol has one owner and a list of occurrences one place among references,
    and no lock is held between calls.  Every call that changes the
    registry keeps it and, from states that have it, neither blocks nor
    dereferences nil, [ClearReferences] of a document without package excepted.
    What the
    registry holds of a symbol is shown to be a function of what was stored,
    whatever the order of the maps; [ClearReferences] is shown to remove
    exactly the definitions and the external references of a document. *)

From stdpp Require Import base gmap list strings fin_maps.
From Stdlib Require Import ZArith Lia.
From S2P Require Import Prelude Protocol Scip Occurrences Paths Scanner Registry FullRegistry.

Local Open Scope Z_scope.
Import FullRegistry.

Module FullRegistryProof.

(** ** Owners and references *)

Inductive owner := OPkg (p : ptr) | OFile (f : ptr).
#[export] Instance owner_eq_dec : EqDecision owner.
Proof. solve_decision. Defined.

Definition owner_map (r : registryImpl) (o : owner) : option (gmap string ptr) :=
  match o with
  | OPkg p => PSymbolData <$> pkgs r !! p
  | OFile f => Locals <$> infos r !! f
  end.
Definition slot (r : registryImpl) (o : owner) (s : string) : option ptr := m ← owner_map r o; m !! s.

Definition sd_ref (sd : SymbolData) (k : string) (i : nat) : option ptr := l ← References sd !! k; l !! i.
Definition ref_at (r : registryImpl) (q : ptr) (k : string) (i : nat) : option ptr :=
  sd ← sds r !! q; sd_ref sd k i.

Definition info_ok (r : registryImpl) (fi : FileInfo) : Prop :=
  (∀ p, Package fi = Some p → is_Some (pkgs r !! p)) ∧ (∀ f, f ∈ ExternalRefs fi → is_Some (fos r !! f)).

Record wf (r : registryImpl) : Prop := {
  wf_sd_next q : is_Some (sds r !! q) → (q < next r)%N;
  wf_fo_next q : is_Some (fos r !! q) → (q < next r)%N;
  wf_pkg_next q : is_Some (pkgs r !! q) → (q < next r)%N;
  wf_info_next q : is_Some (infos r !! q) → (q < next r)%N;
  wf_sd_free q sd : sds r !! q = Some sd → sd_mu sd = false;
  wf_pkg_free q p : pkgs r !! q = Some p → pkg_mu p = false;
  wf_slot o s q : slot r o s = Some q → is_Some (sds r !! q);
  wf_slot_inj o1 s1 o2 s2 q : slot r o1 s1 = Some q → slot r o2 s2 = Some q → o1 = o2 ∧ s1 = s2;
  wf_ref q k i f : ref_at r q k i = Some f → is_Some (fos r !! f);
  wf_ref_inj q1 k1 i1 q2 k2 i2 f : ref_at r q1 k1 i1 = Some f → ref_at r q2 k2 i2 = Some f →
    q1 = q2 ∧ k1 = k2 ∧ i1 = i2;
  wf_packages n p : Packages r !! n = Some p → is_Some (pkgs r !! p);
  wf_documents u d : Documents r !! u = Some d → is_Some (infos r !! d);
  wf_info d fi : infos r !! d = Some fi → info_ok r fi
}.

(** ** What the registry holds of a symbol *)

Record sview := mkView {
  v_info : option Model.SymbolInformation;
  v_def : option Model.Occurrence;
  v_loc : option LocationLink;
  v_refs : gmap string (list FileOccurences)
}.
Definition empty_view : sview := mkView None None None ∅.

Definition read_fo (r : registryImpl) (f : ptr) : FileOccurences :=
  default (mkFileOccurences [] "") (fos r !! f).
Definition view_sd (r : registryImpl) (sd : SymbolData) : sview :=
  mkView (Info sd) (SDefinition sd) (SLocation sd) ((λ l : list ptr, read_fo r <$> l) <$> References sd).
Definition view (r : registryImpl) (q : ptr) : option sview := view_sd r <$> sds r !! q.
Definition sym_view (r : registryImpl) (o : owner) (s : string) : option sview := slot r o s ≫= view r.

(** What the operations on symbols do not change. *)
Definition shape (r : registryImpl) :=
  (WorkspaceRoot r, Packages r, Documents r, Pkg <$> pkgs r,
   (λ fi, mkFileInfo (FURI fi) (FDocument fi) (Package fi) ∅ (Definitions fi) (ExternalRefs fi)) <$> infos r).

Lemma shape_pkg r r' p : shape r' = shape r → is_Some (pkgs r' !! p) ↔ is_Some (pkgs r !! p).
Proof.
  unfold shape. intros [= _ _ _ Hp _]. apply (f_equal (.!! p)) in Hp. rewrite !lookup_fmap in Hp.
  destruct (pkgs r' !! p), (pkgs r !! p); split; intros []; try done; by eexists.
Qed.

Lemma shape_info r r' d fi' : shape r' = shape r → infos r' !! d = Some fi' →
  ∃ fi, infos r !! d = Some fi ∧ FURI fi' = FURI fi ∧ FDocument fi' = FDocument fi ∧
    Package fi' = Package fi ∧ ExternalRefs fi' = ExternalRefs fi.
Proof.
  unfold shape. intros [= _ _ _ _ Hi] Hd. apply (f_equal (.!! d)) in Hi. rewrite !lookup_fmap, Hd in Hi.
  destruct (infos r !! d) as [fi|]; [|done]. injection Hi as ? ? ? ? ?. by exists fi.
Qed.

Lemma shape_owner r r' o : shape r' = shape r → is_Some (owner_map r o) → is_Some (owner_map r' o).
Proof.
  intros Hs Ho. destruct o as [p|f]; cbn in *; rewrite fmap_is_Some in Ho |- *.
  - by apply (shape_pkg r r').
  - destruct Ho as [fi Hfi]. symmetry in Hs. destruct (shape_info _ _ _ _ Hs Hfi) as (fi'&?&_). by eexists.
Qed.

(** *** Changes of the data of one symbol *)

Definition updated (r : registryImpl) (q : ptr) (sd : SymbolData) (fos' : gmap ptr FileOccurences)
    (next' : ptr) : registryImpl :=
  mkRegistry (WorkspaceRoot r) (Packages r) (Documents r) (<[q := sd]> (sds r)) fos' (pkgs r) (infos r) next'.

Record update_ok (r : registryImpl) (q : ptr) (sd : SymbolData) (fos' : gmap ptr FileOccurences)
    (next' : ptr) : Prop := {
  up_sd : is_Some (sds r !! q);
  up_free : sd_mu sd = false;
  up_next : (next r ≤ next')%N;
  up_keep f : is_Some (fos r !! f) → is_Some (fos' !! f);
  up_fresh f : is_Some (fos' !! f) → (f < next')%N;
  up_ref k i f : sd_ref sd k i = Some f → is_Some (fos' !! f) ∧ (ref_at r q k i = Some f ∨ fos r !! f = None);
  up_inj k1 i1 k2 i2 f : sd_ref sd k1 i1 = Some f → sd_ref sd k2 i2 = Some f → k1 = k2 ∧ i1 = i2;
  up_same f : is_Some (fos r !! f) → (∀ k i, ref_at r q k i ≠ Some f) → fos' !! f = fos r !! f
}.

Section update.
Context (r : registryImpl) (q : ptr) (sd : SymbolData) (fos' : gmap ptr FileOccurences) (next' : ptr).
Context (W : wf r) (U : update_ok r q sd fos' next').
Abbreviation r' := (updated r q sd fos' next').

Lemma updated_slot o s : slot r' o s = slot r o s.
Proof. by destruct o. Qed.

Lemma updated_ref q' k i : ref_at r' q' k i = if decide (q' = q) then sd_ref sd k i else ref_at r q' k i.
Proof.
  unfold ref_at. cbn. destruct (decide (q' = q)) as [->|]; [by rewrite lookup_insert_eq|].
  by rewrite lookup_insert_ne.
Qed.

Lemma updated_wf : wf r'.
Proof using W U.
  destruct W as [W1 W2 W3 W4 W5 W6 W7 W8 W9 W10 W11 W12 W13], U as [U1 U2 U3 U4 U5 U6 U7 U8].
  split; try done.
  - intros x [y Hx]. cbn in *. destruct (decide (x = q)) as [->|].
    + assert (q < next r)%N by (by apply W1). lia.
    + rewrite lookup_insert_ne in Hx by done. assert (x < next r)%N by (apply W1; by eexists). lia.
  - intros x Hx. cbn in *. apply W3 in Hx. lia.
  - intros x Hx. cbn in *. apply W4 in Hx. lia.
  - intros x y. cbn. destruct (decide (x = q)) as [->|].
    + rewrite lookup_insert_eq. by intros [= <-].
    + rewrite lookup_insert_ne by done. apply W5.
  - intros o s x Hx. rewrite updated_slot in Hx. apply W7 in Hx. cbn.
    destruct (decide (x = q)) as [->|]; [rewrite lookup_insert_eq; by eexists|by rewrite lookup_insert_ne].
  - intros x k i f. rewrite updated_ref. case_decide; [by intros [? _]%U6|]. intros Hf. apply U4. by eapply W9.
  - assert (Hmix : ∀ x k1 i1 k2 i2 f, x ≠ q → ref_at r x k1 i1 = Some f → sd_ref sd k2 i2 = Some f → False).
    { intros x k1 i1 k2 i2 f Hne H1 H2. destruct (U6 _ _ _ H2) as [_ [H3|H3]].
      - by destruct (W10 _ _ _ _ _ _ _ H1 H3).
      - apply W9 in H1 as [? H1]. congruence. }
    intros q1 k1 i1 q2 k2 i2 f. rewrite !updated_ref. repeat case_decide; subst.
    + intros H1 H2. by destruct (U7 _ _ _ _ _ H1 H2).
    + intros H1 H2. by destruct (Hmix q2 k2 i2 k1 i1 f).
    + intros H1 H2. by destruct (Hmix q1 k1 i1 k2 i2 f).
    + apply W10.
  - intros d fi Hd. destruct (W13 d fi Hd) as [I1 I2]. split; [done|]. intros f Hf. by apply U4, I2.
Qed.

Lemma updated_view_other q' : q' ≠ q → view r' q' = view r q'.
Proof using W U.
  intros Hne. unfold view. cbn. rewrite lookup_insert_ne by done.
  destruct (sds r !! q') as [x|] eqn:Hx; [|done]. cbn. unfold view_sd. do 2 f_equal.
  apply map_eq. intros k. rewrite !lookup_fmap. destruct (References x !! k) as [l|] eqn:Hl; [|done].
  cbn. f_equal. apply list_fmap_ext. intros i f Hf.
  assert (Hr : ref_at r q' k i = Some f) by (unfold ref_at, sd_ref; by rewrite Hx; cbn; rewrite Hl).
  unfold read_fo. cbn. rewrite (up_same _ _ _ _ _ U); [done|by eapply wf_ref|].
  intros k' i' Hr'. by destruct (wf_ref_inj _ W _ _ _ _ _ _ _ Hr Hr').
Qed.

Lemma updated_sym_view o s : slot r o s = Some q → ∀ o' s', sym_view r' o' s' =
  if decide (o' = o ∧ s' = s) then Some (view_sd r' sd) else sym_view r o' s'.
Proof using W U.
  intros Hq o' s'. unfold sym_view. rewrite updated_slot. case_decide as Hd.
  - destruct Hd as [-> ->]. rewrite Hq. cbn. unfold view. cbn. by rewrite lookup_insert_eq.
  - destruct (slot r o' s') as [q'|] eqn:Hq'; [|done]. cbn. apply updated_view_other.
    intros ->. destruct (wf_slot_inj _ W _ _ _ _ _ Hq Hq') as [-> ->]. by apply Hd.
Qed.
End update.

(** [r'] is [r] with what it holds of the symbol [s] of [o] changed by [g]. *)
Record changed (r r' : registryImpl) (o : owner) (s : string) (g : sview → sview) : Prop := {
  ch_wf : wf r';
  ch_shape : shape r' = shape r;
  ch_slot q : slot r o s = Some q → slot r' o s = Some q;
  ch_view o' s' : sym_view r' o' s' =
    if decide (o' = o ∧ s' = s) then Some (g (default empty_view (sym_view r o s))) else sym_view r o' s'
}.

Lemma changed_trans r1 r2 r3 o s g h :
  changed r1 r2 o s g → changed r2 r3 o s h → changed r1 r3 o s (h ∘ g).
Proof.
  intros [A1 A2 A3 A4] [B1 B2 B3 B4]. split; [done|congruence|auto|].
  intros o' s'. rewrite B4, (A4 o s), (decide_True (P := o = o ∧ s = s)) by done.
  case_decide as Hd; [done|]. by rewrite A4, decide_False.
Qed.

Lemma updated_changed r q sd sd' fos' next' o s g :
  wf r → slot r o s = Some q → sds r !! q = Some sd → update_ok r q sd' fos' next' →
  view_sd (updated r q sd' fos' next') sd' = g (view_sd r sd) →
  changed r (updated r q sd' fos' next') o s g.
Proof.
  intros W Hq Hsd U Hg. split; [by apply updated_wf|done|by rewrite updated_slot|].
  intros o' s'. rewrite (updated_sym_view r q sd' fos' next' W U o s Hq). case_decide; [|done].
  unfold sym_view. rewrite Hq. cbn. unfold view. rewrite Hsd. cbn. by rewrite Hg.
Qed.

(** A change of the symbol that keeps its references. *)
Lemma put_sd_changed r q sd sd' o s g :
  wf r → slot r o s = Some q → sds r !! q = Some sd → sd_mu sd' = false → References sd' = References sd →
  view_sd r sd' = g (view_sd r sd) →
  ∃ r', put_sd q sd' r = (Ok tt, r') ∧ changed r r' o s g.
Proof.
  intros W Hq Hsd Hmu Href Hg. exists (updated r q sd' (fos r) (next r)). split; [done|].
  apply (updated_changed r q sd); [done..| |done].
  assert (Hr : ∀ k i, sd_ref sd' k i = ref_at r q k i)
    by (intros; unfold ref_at, sd_ref; by rewrite Hsd, Href).
  split; [by eexists|done|done|done|apply W| | |done].
  - intros k i f. rewrite Hr. intros Hf. split; [by eapply wf_ref|by left].
  - intros k1 i1 k2 i2 f. rewrite !Hr. intros H1 H2. by destruct (wf_ref_inj _ W _ _ _ _ _ _ _ H1 H2).
Qed.

(** ** References *)

Fixpoint first_file (r : registryImpl) (u : URI) (l : list ptr) : option ptr :=
  match l with
  | [] => None
  | f :: l' => if bool_decide (file (read_fo r f) = u) then Some f else first_file r u l'
  end.

(** The occurrence is added to the first entry of the file, or in a new one. *)
Fixpoint add_ref (u : URI) (occ : Model.Occurrence) (l : list FileOccurences) : list FileOccurences :=
  match l with
  | [] => [mkFileOccurences [occ] u]
  | fo :: l' =>
    if bool_decide (file fo = u) then mkFileOccurences (FullRegistry.Occurrences fo ++ [occ]) (file fo) :: l'
    else fo :: add_ref u occ l'
  end.

Lemma find_file_ok r u l :
  (∀ f, f ∈ l → is_Some (fos r !! f)) → find_file u l r = (Ok (first_file r u l), r).
Proof.
  induction l as [|f l IH]; intros Hl; [done|]. cbn [find_file first_file].
  destruct (Hl f ltac:(by left)) as [fo Hfo].
  assert (Hr : read_fo r f = fo) by (unfold read_fo; by rewrite Hfo). rewrite Hr.
  unfold sbind, deref. rewrite Hfo. case_bool_decide; [done|]. apply IH. intros f' Hf'. apply Hl. by right.
Qed.

Lemma first_file_in r u l f : first_file r u l = Some f → f ∈ l ∧ file (read_fo r f) = u.
Proof.
  induction l as [|f' l IH]; [done|]. cbn. case_bool_decide as Hf.
  - intros [= <-]. split; [by left|done].
  - intros [Hin Hu]%IH. split; [by right|done].
Qed.

Definition added (r : registryImpl) (q : ptr) (sd : SymbolData) (u : URI) (k : string)
    (occ : Model.Occurrence) : ptr * registryImpl :=
  let l := default [] (References sd !! k) in
  match first_file r u l with
  | Some f => (f, updated r q (set_references (<[k := l]> (References sd)) sd)
      (<[f := mkFileOccurences (FullRegistry.Occurrences (read_fo r f) ++ [occ]) (file (read_fo r f))]> (fos r)) (next r))
  | None => (next r, updated r q (set_references (<[k := l ++ [next r]]> (References sd)) sd)
      (<[next r := mkFileOccurences [occ] u]> (fos r)) (N.succ (next r)))
  end.

Lemma AddReference_run r q sd u k occ :
  sds r !! q = Some sd → sd_mu sd = false →
  (∀ f, f ∈ default [] (References sd !! k) → is_Some (fos r !! f)) →
  AddReference q u k occ r = (Ok (added r q sd u k occ).1, (added r q sd u k occ).2).
Proof.
  intros Hsd Hmu Hl. destruct sd as [mu info def loc refs]. cbn in Hmu, Hl. subst mu.
  unfold AddReference, with_sd_lock. unfold sbind at 1, deref at 1. rewrite Hsd. cbn [sd_mu].
  unfold sbind at 1. cbn [put_sd modify_st set_sd_mu Info SDefinition SLocation References].
  set (r1 := set_sds (<[q := mkSymbolData true info def loc refs]> (sds r)) r).
  set (l := default [] (refs !! k)) in *.
  set (r2 := set_sds (<[q := mkSymbolData true info def loc (<[k := l]> refs)]> (sds r)) r).
  assert (Hpre : sbind (deref sds q) (λ sd, match References sd !! k with
      | Some _ => sret tt
      | None => put_sd q (set_references (<[k := []]> (References sd)) sd)
      end) r1 = (Ok tt, r2)).
  { unfold sbind, deref, r1, r2. cbn. rewrite lookup_insert_eq. cbn. unfold l.
    destruct (refs !! k) as [l0|] eqn:Hk; cbn.
    - by rewrite (insert_id refs k l0).
    - unfold put_sd, modify_st, set_sds, set_references. cbn. by rewrite insert_insert_eq. }
  unfold defer. rewrite <- sbind_assoc, (sbind_ok _ _ _ _ _ Hpre).
  unfold sbind at 1, deref at 1. unfold r2 at 1. cbn [sds set_sds]. rewrite lookup_insert_eq.
  cbn [References]. rewrite lookup_insert_eq. cbn [default from_option]. unfold id.
  assert (Hff : ∀ l', first_file r2 u l' = first_file r u l') by (induction l'; [done|]; cbn; by rewrite IHl').
  unfold sbind at 1. rewrite find_file_ok by done. rewrite Hff.
  unfold added. cbn [References]. fold l. destruct (first_file r u l) as [f|] eqn:Hf.
  - destruct (Hl f) as [fo Hfo]; [by eapply first_file_in|]. unfold sbind, deref. cbn [r2 fos set_sds].
    rewrite Hfo. cbn. unfold updated, read_fo, set_sds, set_fos. rewrite Hfo. cbn.
    by rewrite alter_insert_eq.
  - unfold sbind. cbn. unfold updated, set_sds, set_fos, set_references. cbn.
    by rewrite insert_insert_eq, alter_insert_eq, insert_insert_eq.
Qed.

Lemma first_file_add_ref r u l f : first_file r u l = Some f → NoDup l →
  ∀ occ r', read_fo r' f = mkFileOccurences (FullRegistry.Occurrences (read_fo r f) ++ [occ]) (file (read_fo r f)) →
  (∀ f', f' ≠ f → read_fo r' f' = read_fo r f') →
  (read_fo r' <$> l) = add_ref u occ (read_fo r <$> l).
Proof.
  intros Hf Hnd occ r' Hr Hother. induction l as [|f' l IH]; [done|].
  apply NoDup_cons in Hnd as [Hn Hnd]. cbn [first_file fmap list_fmap add_ref] in *.
  case_bool_decide as Hu.
  - injection Hf as ->. f_equal; [done|]. apply list_fmap_ext. intros i x Hx. apply Hother.
    intros ->. by apply Hn; eapply list_elem_of_lookup_2.
  - f_equal; [|by apply IH]. apply Hother. intros ->. by apply first_file_in in Hf as [? _].
Qed.

Lemma first_file_add_ref_none r u l : first_file r u l = None →
  ∀ occ, (read_fo r <$> l) ++ [mkFileOccurences [occ] u] = add_ref u occ (read_fo r <$> l).
Proof.
  induction l as [|f l IH]; [done|]. cbn. case_bool_decide; [done|]. intros Hn occ. f_equal. by apply IH.
Qed.

Definition add_view (u : URI) (k : string) (occ : Model.Occurrence) (v : sview) : sview :=
  mkView (v_info v) (v_def v) (v_loc v)
    (<[k := add_ref u occ (default [] (v_refs v !! k))]> (v_refs v)).

Lemma sd_ref_in sd k f : f ∈ default [] (References sd !! k) ↔ ∃ i, sd_ref sd k i = Some f.
Proof.
  unfold sd_ref. destruct (References sd !! k) as [l|]; cbn.
  - apply list_elem_of_lookup.
  - split; [by intros ?%elem_of_nil|by intros []].
Qed.

Lemma sd_ref_set sd k l k' i :
  sd_ref (set_references (<[k := l]> (References sd)) sd) k' i = if decide (k' = k) then l !! i else sd_ref sd k' i.
Proof.
  unfold sd_ref. cbn. case_decide as Hk; [subst; by rewrite lookup_insert_eq|by rewrite lookup_insert_ne].
Qed.

Lemma sd_ref_default sd k i : default [] (References sd !! k) !! i = sd_ref sd k i.
Proof. unfold sd_ref. by destruct (References sd !! k). Qed.

Section add.
Context (r : registryImpl) (q : ptr) (sd : SymbolData) (W : wf r) (Hsd : sds r !! q = Some sd).

Lemma ref_at_sd k i : ref_at r q k i = sd_ref sd k i.
Proof using Hsd. unfold ref_at. by rewrite Hsd. Qed.

(** Writing to a list of occurrences of the symbol. *)
Lemma update_fo_ok k f fo : f ∈ default [] (References sd !! k) →
  update_ok r q (set_references (<[k := default [] (References sd !! k)]> (References sd)) sd)
    (<[f := fo]> (fos r)) (next r).
Proof using W Hsd.
  intros Hf. apply sd_ref_in in Hf as [i0 Hi0].
  assert (Hf : is_Some (fos r !! f)) by (eapply wf_ref; [done|by rewrite ref_at_sd]).
  assert (Hr : ∀ k' i, sd_ref (set_references (<[k := default [] (References sd !! k)]> (References sd)) sd) k' i
    = ref_at r q k' i).
  { intros k' i. rewrite sd_ref_set, ref_at_sd. case_decide as Hk; [subst; apply sd_ref_default|done]. }
  assert (Hdom : ∀ f', is_Some (<[f := fo]> (fos r) !! f') ↔ is_Some (fos r !! f')).
  { intros f'. destruct (decide (f' = f)) as [->|]; [rewrite lookup_insert_eq|by rewrite lookup_insert_ne].
    split; [done|by eexists]. }
  split; [by eexists|exact (wf_sd_free _ W q sd Hsd)|done| | | | |].
  - intros f'. by rewrite Hdom.
  - intros f'. rewrite Hdom. apply W.
  - intros k' i f'. rewrite Hr, Hdom. intros Hf'. split; [by eapply wf_ref|by left].
  - intros k1 i1 k2 i2 f'. rewrite !Hr. intros H1 H2. by destruct (wf_ref_inj _ W _ _ _ _ _ _ _ H1 H2).
  - intros f' _ Hn. apply lookup_insert_ne. intros ->. apply (Hn k i0). by rewrite ref_at_sd.
Qed.

(** A new list of occurrences. *)
Lemma update_new_ok k fo :
  update_ok r q (set_references (<[k := default [] (References sd !! k) ++ [next r]]> (References sd)) sd)
    (<[next r := fo]> (fos r)) (N.succ (next r)).
Proof using W Hsd.
  assert (Hnew : fos r !! next r = None).
  { apply eq_None_not_Some. intros Hn%(wf_fo_next _ W). lia. }
  assert (Hr : ∀ k' i f, sd_ref (set_references (<[k := default [] (References sd !! k) ++ [next r]]>
      (References sd)) sd) k' i = Some f → ref_at r q k' i = Some f ∨
      f = next r ∧ k' = k ∧ i = length (default [] (References sd !! k))).
  { intros k' i f. rewrite sd_ref_set. case_decide as Hk; [subst|rewrite ref_at_sd; by left].
    rewrite lookup_app, sd_ref_default, ref_at_sd. destruct (sd_ref sd k i) eqn:Hi; [by left|].
    intros Hx. right. rewrite <- sd_ref_default in Hi. apply lookup_ge_None in Hi.
    apply list_lookup_singleton_Some in Hx as [Hx ->]. split_and!; [done..|lia]. }
  split; [by eexists|exact (wf_sd_free _ W q sd Hsd)|lia| | | | |].
  - intros f' [x Hx]. rewrite lookup_insert_ne; [by eexists|]. congruence.
  - intros f' [x Hx]. destruct (decide (f' = next r)) as [->|]; [lia|].
    rewrite lookup_insert_ne in Hx by done. assert (f' < next r)%N by (apply (wf_fo_next _ W); by eexists). lia.
  - intros k' i f' [Hf'|(->&_)]%Hr; [|rewrite lookup_insert_eq; split; [by eexists|by right]].
    pose proof (wf_ref _ W _ _ _ _ Hf') as [x Hx]. split; [|by left].
    rewrite lookup_insert_ne; [by eexists|congruence].
  - intros k1 i1 k2 i2 f' [H1|(->&->&->)]%Hr [H2|(E2&->&->)]%Hr; [|subst f'| |done].
    + by destruct (wf_ref_inj _ W _ _ _ _ _ _ _ H1 H2).
    + apply (wf_ref _ W) in H1 as [x Hx]. congruence.
    + apply (wf_ref _ W) in H2 as [x Hx]. congruence.
  - intros f' [x Hx] _. apply lookup_insert_ne. congruence.
Qed.

Lemma refs_NoDup k : NoDup (default [] (References sd !! k)).
Proof using W Hsd.
  apply NoDup_alt. intros i j f. rewrite !sd_ref_default. rewrite <- !ref_at_sd. intros H1 H2.
  by destruct (wf_ref_inj _ W _ _ _ _ _ _ _ H1 H2) as (_&_&->).
Qed.

(** Reading the references after a change of those to [k]. *)
Lemma view_refs_set r' k l x :
  (read_fo r' <$> l) = x →
  (∀ k' i f, k' ≠ k → sd_ref sd k' i = Some f → read_fo r' f = read_fo r f) →
  v_refs (view_sd r' (set_references (<[k := l]> (References sd)) sd)) = <[k := x]> (v_refs (view_sd r sd)).
Proof.
  intros <- Hsame. cbn. apply map_eq. intros k'. destruct (decide (k' = k)) as [->|Hne].
  - by rewrite lookup_fmap, !lookup_insert_eq.
  - rewrite lookup_insert_ne by done. rewrite !lookup_fmap, lookup_insert_ne by done.
    destruct (References sd !! k') as [l'|] eqn:Hl; [|done]. cbn. f_equal.
    apply list_fmap_ext. intros i f Hf. apply (Hsame k' i f Hne). unfold sd_ref. by rewrite Hl.
Qed.

Lemma added_ok u k occ : ∃ sd' fos' next',
  (added r q sd u k occ).2 = updated r q sd' fos' next' ∧ update_ok r q sd' fos' next' ∧
  view_sd (updated r q sd' fos' next') sd' = add_view u k occ (view_sd r sd).
Proof using W Hsd.
  assert (Hold : default [] (v_refs (view_sd r sd) !! k) = read_fo r <$> default [] (References sd !! k)).
  { cbn. rewrite lookup_fmap. by destruct (References sd !! k). }
  assert (Hview : ∀ r' l, v_refs (view_sd r' (set_references (<[k := l]> (References sd)) sd)) =
      <[k := add_ref u occ (default [] (v_refs (view_sd r sd) !! k))]> (v_refs (view_sd r sd)) →
    view_sd r' (set_references (<[k := l]> (References sd)) sd) = add_view u k occ (view_sd r sd)).
  { intros r' l Hv. unfold add_view. rewrite <- Hv. done. }
  unfold added. destruct (first_file r u (default [] (References sd !! k))) as [f|] eqn:Hf.
  - destruct (first_file_in _ _ _ _ Hf) as [Hin _]. eexists _, _, _. split; [reflexivity|].
    split; [by apply update_fo_ok|]. apply Hview, view_refs_set.
    + rewrite Hold. apply (first_file_add_ref r u _ f Hf); [apply refs_NoDup| |].
      * unfold read_fo at 1. cbn. by rewrite lookup_insert_eq.
      * intros f' Hne. unfold read_fo. cbn. by rewrite lookup_insert_ne.
    + intros k' i f' Hne Hf'. unfold read_fo. cbn. rewrite lookup_insert_ne; [done|]. intros ->.
      apply sd_ref_in in Hin as [j Hj]. rewrite <- ref_at_sd in Hj, Hf'.
      by destruct (wf_ref_inj _ W _ _ _ _ _ _ _ Hj Hf') as (_&->&_).
  - eexists _, _, _. split; [reflexivity|]. split; [by apply update_new_ok|].
    assert (Hnew : ∀ k' i f', sd_ref sd k' i = Some f' → f' ≠ next r).
    { intros k' i f' Hf' ->. rewrite <- ref_at_sd in Hf'. apply (wf_ref _ W), (wf_fo_next _ W) in Hf'. lia. }
    apply Hview, view_refs_set.
    + rewrite Hold, fmap_app, <- (first_file_add_ref_none r u _ Hf occ). f_equal.
      * apply list_fmap_ext. intros i f' Hf'. unfold read_fo. cbn. rewrite lookup_insert_ne; [done|].
        rewrite sd_ref_default in Hf'. by apply not_eq_sym, (Hnew k i).
      * cbn. unfold read_fo. cbn. by rewrite lookup_insert_eq.
    + intros k' i f' Hne Hf'. unfold read_fo. cbn. rewrite lookup_insert_ne; [done|].
      by apply not_eq_sym, (Hnew k' i).
Qed.

Lemma AddReference_ok u k occ : ∃ f sd' fos' next',
  AddReference q u k occ r = (Ok f, updated r q sd' fos' next') ∧ update_ok r q sd' fos' next' ∧
  view_sd (updated r q sd' fos' next') sd' = add_view u k occ (view_sd r sd).
Proof using W Hsd.
  destruct (added_ok u k occ) as (sd'&fos'&next'&Ha&Hu&Hv). exists (added r q sd u k occ).1, sd', fos', next'.
  split; [|done]. rewrite <- Ha. apply AddReference_run; [done|by eapply wf_sd_free|].
  intros f [i Hi]%sd_ref_in. rewrite <- ref_at_sd in Hi. by eapply wf_ref.
Qed.
End add.

(** ** New symbols *)

Definition new_data : SymbolData := mkSymbolData false None None None ∅.

Record created (r r' : registryImpl) (o : owner) (s : string) : Prop := {
  cr_sds : sds r' = <[next r := new_data]> (sds r);
  cr_fos : fos r' = fos r;
  cr_next : next r' = N.succ (next r);
  cr_shape : shape r' = shape r;
  cr_free q p : pkgs r' !! q = Some p → pkg_mu p = false;
  cr_slot o' s' : slot r' o' s' = if decide (o' = o ∧ s' = s) then Some (next r) else slot r o' s'
}.

Section create.
Context (r r' : registryImpl) (o : owner) (s : string).
Context (W : wf r) (C : created r r' o s).

Lemma sds_next : sds r !! next r = None.
Proof using W. apply eq_None_not_Some. intros Hn%(wf_sd_next _ W). lia. Qed.

Lemma created_ref q k i : ref_at r' q k i = ref_at r q k i.
Proof using W C.
  unfold ref_at. rewrite (cr_sds _ _ _ _ C). destruct (decide (q = next r)) as [->|].
  - rewrite lookup_insert_eq, sds_next. cbn. unfold sd_ref. cbn. by rewrite lookup_empty.
  - by rewrite lookup_insert_ne.
Qed.

Lemma created_wf : wf r'.
Proof using W C.
  pose proof sds_next as Hn. pose proof created_ref as Href.
  destruct W as [W1 W2 W3 W4 W5 W6 W7 W8 W9 W10 W11 W12 W13], C as [C1 C2 C3 C4 C5 C6].
  assert (Hnew : ∀ o' s', slot r o' s' ≠ Some (next r)).
  { intros o' s' Hs. apply W7 in Hs as [? Hs]. congruence. }
  split; rewrite ?C1, ?C2, ?C3; try done.
  - intros q [x Hx]. destruct (decide (q = next r)) as [->|]; [lia|].
    rewrite lookup_insert_ne in Hx by done. assert (q < next r)%N by (apply W1; by eexists). lia.
  - intros q Hq. apply W2 in Hq. lia.
  - intros q Hq. apply (shape_pkg r r' q C4), W3 in Hq. lia.
  - intros q [fi Hq]. destruct (shape_info _ _ _ _ C4 Hq) as (fi'&Hfi&_).
    assert (q < next r)%N by (apply W4; by eexists). lia.
  - intros q sd. destruct (decide (q = next r)) as [->|]; [rewrite lookup_insert_eq; by intros [= <-]|].
    rewrite lookup_insert_ne by done. apply W5.
  - intros o' s' q. rewrite C6. case_decide; [intros [= <-]; rewrite lookup_insert_eq; by eexists|].
    intros Hs. destruct (W7 _ _ _ Hs) as [x Hx]. rewrite lookup_insert_ne; [by eexists|congruence].
  - intros o1 s1 o2 s2 q. rewrite !C6. repeat case_decide; [by destruct_and!; subst|..|apply W8].
    + intros [= <-] Hs. by apply Hnew in Hs.
    + intros Hs [= <-]. by apply Hnew in Hs.
  - intros q k i f. rewrite Href. apply W9.
  - intros q1 k1 i1 q2 k2 i2 f. rewrite !Href. apply W10.
  - intros n p Hp. apply (shape_pkg r r' p C4), (W11 n). unfold shape in C4. congruence.
  - intros u d Hd. assert (Hd' : Documents r !! u = Some d) by (unfold shape in C4; congruence).
    apply W12 in Hd' as [fi Hfi]. symmetry in C4. destruct (shape_info _ _ _ _ C4 Hfi) as (fi'&?&_). by eexists.
  - intros d fi Hd. destruct (shape_info _ _ _ _ C4 Hd) as (fi'&Hfi&_&_&Hp&Hx).
    destruct (W13 _ _ Hfi) as [I1 I2]. split; [rewrite Hp|rewrite Hx, C2; done].
    intros p Hpp. by apply (shape_pkg r r' p C4), I1.
Qed.

Lemma created_changed : slot r o s = None → changed r r' o s id.
Proof using W C.
  intros Hs. pose proof sds_next as Hn. split; [apply created_wf|apply C|by rewrite Hs|].
  intros o' s'. unfold sym_view. rewrite (cr_slot _ _ _ _ C), Hs. case_decide; cbn.
  - unfold view. rewrite (cr_sds _ _ _ _ C), lookup_insert_eq. cbn. unfold view_sd, new_data. cbn.
    by rewrite fmap_empty.
  - destruct (slot r o' s') as [q|] eqn:Hq; [|done]. cbn. unfold view. rewrite (cr_sds _ _ _ _ C).
    rewrite lookup_insert_ne.
    + destruct (sds r !! q) as [sd|]; [|done]. cbn. unfold view_sd, read_fo. by rewrite (cr_fos _ _ _ _ C).
    + intros <-. apply (wf_slot _ W) in Hq as [? ?]. congruence.
Qed.
End create.

(** The function finds the data of a symbol of [o] or makes it. *)
Definition gets (fn : string → FullM ptr) (o : owner) : Prop :=
  ∀ r s, wf r → is_Some (owner_map r o) →
  ∃ q r', fn s r = (Ok q, r') ∧ slot r' o s = Some q ∧ changed r r' o s id.

Lemma changed_id r o s q : wf r → slot r o s = Some q → changed r r o s id.
Proof.
  intros W Hq. split; try done. intros o' s'. case_decide as Hd; [|done]. destruct Hd as [-> ->].
  unfold sym_view. rewrite Hq. cbn. destruct (wf_slot _ W _ _ _ Hq) as [sd Hsd].
  unfold view. by rewrite Hsd.
Qed.

Lemma pkg_gets p : gets (pkg_getOrCreateSymbolData p) (OPkg p).
Proof.
  intros r s W [m Hm]. cbn in Hm. destruct (pkgs r !! p) as [pkg|] eqn:Hp; [|done]. injection Hm as Hm.
  unfold pkg_getOrCreateSymbolData, deref. unfold sbind at 1. rewrite Hp.
  assert (Hslot : slot r (OPkg p) s = PSymbolData pkg !! s) by (unfold slot; cbn; by rewrite Hp).
  destruct (PSymbolData pkg !! s) as [q|] eqn:Hs.
  { exists q, r. split_and!; [done..|]. by eapply changed_id. }
  eexists (next r), _. split; [reflexivity|].
  match goal with |- slot ?x _ _ = _ ∧ _ => set (r' := x) end.
  assert (C : created r r' (OPkg p) s).
  { split; try done.
    - unfold r', shape. cbn. do 2 f_equal. rewrite fmap_insert. apply insert_id.
      by rewrite lookup_fmap, Hp.
    - intros x y. cbn. destruct (decide (x = p)) as [->|].
      + rewrite lookup_insert_eq. intros [= <-]. cbn. by apply (wf_pkg_free _ W p).
      + rewrite lookup_insert_ne by done. apply W.
    - intros o' s'. unfold slot. destruct o' as [p'|f']; cbn; [|by rewrite decide_False by (by intros [])].
      destruct (decide (p' = p)) as [->|Hne].
      + rewrite lookup_insert_eq, Hp. cbn. destruct (decide (s' = s)) as [->|].
        * by rewrite lookup_insert_eq, decide_True.
        * rewrite lookup_insert_ne, decide_False by (done || by intros []). done.
      + rewrite lookup_insert_ne by done. rewrite decide_False; [done|]. by intros [[= ->] _]. }
  split; [rewrite (cr_slot _ _ _ _ C); by rewrite decide_True|]. by apply created_changed.
Qed.

Lemma file_gets f : gets (file_getOrCreateSymbolData f) (OFile f).
Proof.
  intros r s W [m Hm]. cbn in Hm. destruct (infos r !! f) as [fi|] eqn:Hf; [|done]. injection Hm as Hm.
  unfold file_getOrCreateSymbolData, deref. unfold sbind at 1. rewrite Hf.
  assert (Hslot : slot r (OFile f) s = Locals fi !! s) by (unfold slot; cbn; by rewrite Hf).
  destruct (Locals fi !! s) as [q|] eqn:Hs.
  { exists q, r. split_and!; [done..|]. by eapply changed_id. }
  eexists (next r), _. split; [reflexivity|].
  match goal with |- slot ?x _ _ = _ ∧ _ => set (r' := x) end.
  assert (C : created r r' (OFile f) s).
  { split; try done.
    - unfold r', shape. cbn. f_equal. rewrite fmap_insert. apply insert_id.
      by rewrite lookup_fmap, Hf.
    - apply W.
    - intros o' s'. unfold slot. destruct o' as [p'|f']; cbn; [by rewrite decide_False by (by intros [])|].
      destruct (decide (f' = f)) as [->|Hne].
      + rewrite lookup_insert_eq, Hf. cbn. destruct (decide (s' = s)) as [->|].
        * by rewrite lookup_insert_eq, decide_True.
        * rewrite lookup_insert_ne, decide_False by (done || by intros []). done.
      + rewrite lookup_insert_ne by done. rewrite decide_False; [done|]. by intros [[= ->] _]. }
  split; [rewrite (cr_slot _ _ _ _ C); by rewrite decide_True|]. by apply created_changed.
Qed.

(** ** [storeLocalSymbols] *)

Definition info_view (info : option Model.SymbolInformation) (v : sview) : sview :=
  mkView info (v_def v) (v_loc v) (v_refs v).
Definition occ_view `{Bindings} (u : URI) (v : sview) (occ : Model.Occurrence) : sview :=
  if is_definition occ then
    mkView (v_info v) (Some occ) (Some (ScipOccurrenceToLocationLink u occ None)) (v_refs v)
  else add_view u "local" occ v.

(** What is held of a symbol after a document [u] with the given information
    and occurrences of the symbol is stored. *)
Definition stored `{Bindings} (u : URI) (info : option (option Model.SymbolInformation))
    (occs : option (list Model.Occurrence)) (v : option sview) : option sview :=
  let v1 := match info with Some i => Some (info_view i (default empty_view v)) | None => v end in
  match occs with
  | Some l => Some (foldl (occ_view u) (default empty_view v1) l)
  | None => v1
  end.

Section store.
Context `{Bindings} (rng : ∀ A, gmap string A → list (string * A)).
Context (rng_ok : ∀ A (m : gmap string A), rng A m ≡ₚ map_to_list m).

Lemma store_occurrence_ok r q u o s occ :
  wf r → slot r o s = Some q →
  ∃ r', store_occurrence u q occ r = (Ok tt, r') ∧ changed r r' o s (λ v, occ_view u v occ).
Proof.
  intros W Hq. destruct (wf_slot _ W _ _ _ Hq) as [sd Hsd].
  unfold store_occurrence, occ_view. destruct (is_definition occ).
  - unfold sbind, deref. rewrite Hsd.
    apply (put_sd_changed r q sd); [done..|exact (wf_sd_free _ W q sd Hsd)|done|done].
  - destruct (AddReference_ok r q sd W Hsd u "local" occ) as (f&sd'&fos'&next'&Hrun&Hu&Hv).
    eexists. unfold sbind. rewrite Hrun. split; [reflexivity|].
    by apply (updated_changed r q sd).
Qed.

Lemma store_occurrences_ok q u o s occs : ∀ r, wf r → slot r o s = Some q →
  ∃ r', forM_ occs (store_occurrence u q) r = (Ok tt, r') ∧
    changed r r' o s (λ v, foldl (occ_view u) v occs).
Proof.
  induction occs as [|occ occs IH]; intros r W Hq.
  { exists r. split; [done|]. exact (changed_id r o s q W Hq). }
  destruct (store_occurrence_ok r q u o s occ W Hq) as (r1&Hrun1&C1).
  destruct (IH r1 (ch_wf _ _ _ _ _ C1) (ch_slot _ _ _ _ _ C1 _ Hq)) as (r2&Hrun2&C2).
  exists r2. cbn [forM_]. rewrite (sbind_ok _ _ _ _ _ Hrun1). split; [done|].
  exact (changed_trans _ _ _ _ _ _ _ C1 C2).
Qed.

(** A loop that changes what is held of each symbol of a map. *)
Lemma loop_ok {A} (body : string * A → FullM unit) (g : A → sview → sview) o :
  (∀ r x, wf r → is_Some (owner_map r o) →
    ∃ r', body x r = (Ok tt, r') ∧ changed r r' o x.1 (g x.2)) →
  ∀ l r, NoDup l.*1 → wf r → is_Some (owner_map r o) →
  ∃ r', forM_ l body r = (Ok tt, r') ∧ wf r' ∧ shape r' = shape r ∧
    ∀ o' s', sym_view r' o' s' = match list_to_map (M := gmap string A) l !! s' with
      | Some a => if decide (o' = o) then Some (g a (default empty_view (sym_view r o s')))
                  else sym_view r o' s'
      | None => sym_view r o' s'
      end.
Proof.
  intros Hbody l. induction l as [|[s a] l IH]; intros r Hnd W Ho.
  { exists r. split_and!; [done..|]. intros o' s'. cbn. by rewrite lookup_empty. }
  apply NoDup_cons in Hnd as [Hn Hnd]. destruct (Hbody r (s, a) W Ho) as (r1&Hrun1&[C1 C2 C3 C4]).
  destruct (IH r1 Hnd C1) as (r2&Hrun2&W2&Hs2&Hv2); [by apply (shape_owner r)|].
  exists r2. cbn [forM_]. rewrite (sbind_ok _ _ _ _ _ Hrun1). split_and!; [done..|congruence|].
  intros o' s'. rewrite Hv2. cbn [list_to_map foldr uncurry]. destruct (decide (s' = s)) as [->|Hne].
  - rewrite (not_elem_of_list_to_map_1 l s Hn). cbn. rewrite lookup_insert_eq, C4. cbn.
    by destruct (decide (o' = o)) as [->|]; [rewrite decide_True|rewrite decide_False by (by intros [])].
  - cbn. rewrite lookup_insert_ne by done. rewrite !C4. cbn [fst snd].
    rewrite !(decide_False (P := _ ∧ s' = s)) by (by intros []). done.
Qed.

Lemma rng_map {A} (m : gmap string A) : NoDup (rng A m).*1 ∧ list_to_map (rng A m) = m.
Proof using rng_ok.
  assert (Hnd : NoDup (rng A m).*1) by (rewrite (rng_ok A m); apply NoDup_fst_map_to_list).
  split; [done|]. rewrite <- (list_to_map_to_list m) at 2. apply list_to_map_proper; [done|apply rng_ok].
Qed.

Lemma storeLocalSymbols_ok fn o symbs occs u r :
  gets fn o → wf r → is_Some (owner_map r o) →
  ∃ r', storeLocalSymbols rng symbs occs u fn r = (Ok tt, r') ∧ wf r' ∧ shape r' = shape r ∧
    ∀ o' s, sym_view r' o' s =
      if decide (o' = o) then stored u (symbs !! s) (occs !! s) (sym_view r o s) else sym_view r o' s.
Proof using rng_ok.
  intros Hfn W Ho. unfold storeLocalSymbols.
  destruct (rng_map symbs) as [Hnd1 Hm1], (rng_map occs) as [Hnd2 Hm2].
  edestruct (loop_ok (λ '(symbol, info), q <- fn symbol;; sd <- deref sds q;; put_sd q (set_info info sd))
    info_view o) with (r := r) as (r1&Hrun1&W1&Hs1&Hv1); [|exact Hnd1|done|done|].
  { intros r0 [s info] W0 Ho0. destruct (Hfn r0 s W0 Ho0) as (q&r1&Hrun&Hq&C).
    destruct (wf_slot _ (ch_wf _ _ _ _ _ C) _ _ _ Hq) as [sd Hsd].
    destruct (put_sd_changed r1 q sd (set_info info sd) o s (info_view info)) as (r2&Hput&C2);
      [apply C|done|done|exact (wf_sd_free _ (ch_wf _ _ _ _ _ C) q sd Hsd)|done|done|].
    exists r2. rewrite (sbind_ok _ _ _ _ _ Hrun). unfold sbind, deref. rewrite Hsd. split; [done|].
    exact (changed_trans _ _ _ _ _ _ _ C C2). }
  edestruct (loop_ok (λ '(symbol, occs), q <- fn symbol;; forM_ occs (store_occurrence u q))
    (λ l v, foldl (occ_view u) v l) o) with (r := r1) as (r2&Hrun2&W2&Hs2&Hv2);
    [|exact Hnd2|done|by apply (shape_owner r)|].
  { intros r0 [s l] W0 Ho0. destruct (Hfn r0 s W0 Ho0) as (q&r3&Hrun&Hq&C).
    destruct (store_occurrences_ok q u o s l r3 (ch_wf _ _ _ _ _ C) Hq) as (r4&Hrun4&C4).
    exists r4. rewrite (sbind_ok _ _ _ _ _ Hrun). split; [done|].
    exact (changed_trans _ _ _ _ _ _ _ C C4). }
  exists r2. rewrite (sbind_ok _ _ _ _ _ Hrun1). split_and!; [done..|congruence|].
  assert (Hoo : ∀ B (x y : B), (if decide (o = o) then x else y) = x) by (intros; by rewrite decide_True).
  intros o' s. rewrite Hv2, !Hv1, Hm1, Hm2. unfold stored.
  destruct (decide (o' = o)) as [->|]; destruct (occs !! s), (symbs !! s); by rewrite ?Hoo.
Qed.
End store.

(** ** [ClearReferences] *)

Lemma clear_refs_ok l : ∀ r, (∀ f, f ∈ l → is_Some (fos r !! f)) →
  ∃ fos', forM_ l clear_ref r = (Ok tt, set_fos fos' r) ∧
    ∀ f, fos' !! f = (λ fo, if bool_decide (f ∈ l) then mkFileOccurences [] (file fo) else fo) <$> fos r !! f.
Proof.
  induction l as [|f l IH]; intros r Hl.
  { exists (fos r). split; [by destruct r|]. intros f. rewrite bool_decide_false by apply not_elem_of_nil.
    by destruct (fos r !! f). }
  destruct (Hl f ltac:(by left)) as [fo Hfo]. set (r1 := set_fos (<[f := mkFileOccurences [] (file fo)]> (fos r)) r).
  assert (Hrun : clear_ref f r = (Ok tt, r1)) by (unfold clear_ref, sbind, deref; by rewrite Hfo).
  destruct (IH r1) as (fos'&Hrun'&Hfos).
  { intros f' Hf'. cbn. destruct (decide (f' = f)) as [->|]; [rewrite lookup_insert_eq; by eexists|].
    rewrite lookup_insert_ne by done. apply Hl. by right. }
  exists fos'. cbn [forM_]. rewrite (sbind_ok _ _ _ _ _ Hrun). split; [done|].
  intros f'. rewrite Hfos. cbn. destruct (decide (f' = f)) as [->|Hne].
  - rewrite lookup_insert_eq, Hfo, (bool_decide_true (f ∈ f :: l)) by (by left). cbn. by case_bool_decide.
  - rewrite lookup_insert_ne by done. rewrite (bool_decide_ext (f' ∈ f :: l) (f' ∈ l)); [done|].
    rewrite elem_of_cons. tauto.
Qed.

Definition clear_sd (u : URI) (sd : SymbolData) : SymbolData :=
  match SLocation sd with
  | Some loc => if bool_decide (TargetURI loc = u) then set_definition None None sd else sd
  | None => sd
  end.

Lemma clear_symbols_ok u l : ∀ r, NoDup l.*2 →
  (∀ q, q ∈ l.*2 → ∃ sd, sds r !! q = Some sd ∧ sd_mu sd = false) →
  ∃ sds', clear_symbols u l r = (Ok tt, set_documents (delete u (Documents r)) (set_sds sds' r)) ∧
    ∀ q, sds' !! q = (λ sd, if bool_decide (q ∈ l.*2) then clear_sd u sd else sd) <$> sds r !! q.
Proof.
  induction l as [|[k q] l IH]; intros r Hnd Hl.
  { exists (sds r). split; [by destruct r|]. intros q. rewrite bool_decide_false by apply not_elem_of_nil.
    by destruct (sds r !! q). }
  cbn [fmap list_fmap snd] in Hnd, Hl |- *. apply NoDup_cons in Hnd as [Hn Hnd].
  destruct (Hl q ltac:(by left)) as (sd&Hsd&Hmu).
  assert (Hrest : ∀ x r1, (∀ q', q' ≠ q → sds r1 !! q' = sds r !! q') → x ∈ l.*2 →
    ∃ sd, sds r1 !! x = Some sd ∧ sd_mu sd = false).
  { intros x r1 Hs Hx. rewrite Hs; [apply Hl; by right|]. by intros ->. }
  assert (Hhead : ∀ q', bool_decide (q' ∈ q :: l.*2) = bool_decide (q' = q) || bool_decide (q' ∈ l.*2)).
  { intros q'. rewrite <- bool_decide_or. apply bool_decide_ext, elem_of_cons. }
  cbn [clear_symbols]. unfold sbind at 1, deref at 1. rewrite Hsd.
  assert (Hskip : clear_sd u sd = sd → ∃ sds', clear_symbols u l r =
      (Ok tt, set_documents (delete u (Documents r)) (set_sds sds' r)) ∧
    ∀ q', sds' !! q' = (λ sd, if bool_decide (q' ∈ q :: l.*2) then clear_sd u sd else sd) <$> sds r !! q').
  { intros Hc. destruct (IH r Hnd) as (sds'&Hrun&Hs); [intros; by apply Hrest|]. exists sds'. split; [done|].
    intros q'. rewrite Hs, Hhead. destruct (decide (q' = q)) as [->|].
    - rewrite Hsd. cbn. rewrite Hc. by destruct (_ || _), (bool_decide _).
    - by rewrite (bool_decide_false (q' = q)). }
  unfold clear_sd in Hskip at 1. destruct (SLocation sd) as [loc|] eqn:Hloc; [|by apply Hskip].
  case_bool_decide as Hu; [|by apply Hskip]. clear Hskip.
  unfold with_sd_lock. unfold sbind at 1, deref at 1. rewrite Hsd, Hmu.
  unfold sbind at 1. cbn [put_sd modify_st]. unfold defer, sbind at 1, deref at 1.
  cbn [sds set_sds]. rewrite lookup_insert_eq. unfold sbind at 1. cbn [put_sd modify_st].
  match goal with |- context [clear_symbols u l ?x] => set (r2 := x) end.
  destruct (IH r2 Hnd) as (sds'&Hrun&Hs).
  { intros x Hx. apply Hrest; [|done]. intros q' Hne. cbn. by rewrite !lookup_insert_ne by done. }
  rewrite Hrun. exists (alter (set_sd_mu false) q sds'). split; [done|].
  intros q'. rewrite Hhead. destruct (decide (q' = q)) as [->|Hne].
  - rewrite lookup_alter_eq, Hs, (bool_decide_false (q ∈ l.*2)) by done. cbn.
    rewrite lookup_insert_eq, Hsd, (bool_decide_true (q = q)) by done. cbn. unfold clear_sd.
    rewrite Hloc, bool_decide_true by done. unfold set_sd_mu, set_definition. cbn. by rewrite Hmu.
  - rewrite lookup_alter_ne, Hs, (bool_decide_false (q' = q)) by done. cbn.
    by rewrite !lookup_insert_ne by done.
Qed.

(** The data of the symbols of a package. *)
Definition symbols_of (r : registryImpl) (p : ptr) : list ptr :=
  (map_to_list (default ∅ (owner_map r (OPkg p)))).*2.

Lemma symbols_of_in r p q : q ∈ symbols_of r p ↔ ∃ s, slot r (OPkg p) s = Some q.
Proof.
  unfold symbols_of, slot. rewrite list_elem_of_fmap. split.
  - intros ([s q']&->&Hx). apply elem_of_map_to_list in Hx. exists s.
    destruct (owner_map r (OPkg p)); [done|]. cbn in Hx. by rewrite lookup_empty in Hx.
  - intros [s Hs]. destruct (owner_map r (OPkg p)); [|done]. exists (s, q). split; [done|].
    by apply elem_of_map_to_list.
Qed.

(** The registry after the document [u] of [p] with the references [refs] is cleared. *)
Record cleared (r r' : registryImpl) (u : URI) (p : ptr) (refs : list ptr) : Prop := {
  cl_root : WorkspaceRoot r' = WorkspaceRoot r ∧ Packages r' = Packages r ∧ pkgs r' = pkgs r ∧
    infos r' = infos r ∧ next r' = next r;
  cl_documents : Documents r' = delete u (Documents r);
  cl_fos f : fos r' !! f =
    (λ fo, if bool_decide (f ∈ refs) then mkFileOccurences [] (file fo) else fo) <$> fos r !! f;
  cl_sds q : sds r' !! q =
    (λ sd, if bool_decide (q ∈ symbols_of r p) then clear_sd u sd else sd) <$> sds r !! q
}.

Lemma clear_sd_same u sd : sd_mu (clear_sd u sd) = sd_mu sd ∧ Info (clear_sd u sd) = Info sd ∧
  References (clear_sd u sd) = References sd.
Proof. unfold clear_sd. by destruct (SLocation sd); [case_bool_decide|]. Qed.

Section clear.
Context (r r' : registryImpl) (u : URI) (p : ptr) (refs : list ptr).
Context (W : wf r) (C : cleared r r' u p refs).

Lemma cleared_slot o s : slot r' o s = slot r o s.
Proof using C. destruct (cl_root _ _ _ _ _ C) as (_&_&H1&H2&_). unfold slot, owner_map. by rewrite H1, H2. Qed.

Lemma cleared_sd q sd' : sds r' !! q = Some sd' →
  ∃ sd, sds r !! q = Some sd ∧ sd_mu sd' = sd_mu sd ∧ References sd' = References sd.
Proof using C.
  rewrite (cl_sds _ _ _ _ _ C). destruct (sds r !! q) as [sd|]; [|done]. intros [= <-]. exists sd.
  destruct (clear_sd_same u sd) as (?&?&?). by case_bool_decide.
Qed.

Lemma cleared_ref q k i : ref_at r' q k i = ref_at r q k i.
Proof using C.
  unfold ref_at. rewrite (cl_sds _ _ _ _ _ C). destruct (sds r !! q) as [sd|]; [|done]. cbn.
  destruct (clear_sd_same u sd) as (?&?&Hr). case_bool_decide; [|done]. unfold sd_ref. by rewrite Hr.
Qed.

Lemma cleared_wf : wf r'.
Proof using W C.
  pose proof cleared_slot as Hslot. pose proof cleared_ref as Href.
  destruct (cl_root _ _ _ _ _ C) as (H1&H2&H3&H4&H5).
  assert (Hfo : ∀ f, is_Some (fos r' !! f) ↔ is_Some (fos r !! f)) by (intros; by rewrite (cl_fos _ _ _ _ _ C), fmap_is_Some).
  assert (Hsd : ∀ q, is_Some (sds r' !! q) ↔ is_Some (sds r !! q)) by (intros; by rewrite (cl_sds _ _ _ _ _ C), fmap_is_Some).
  destruct W as [W1 W2 W3 W4 W5 W6 W7 W8 W9 W10 W11 W12 W13].
  split; rewrite ?H2, ?H3, ?H4, ?H5; try done.
  - intros q. rewrite Hsd. apply W1.
  - intros q. rewrite Hfo. apply W2.
  - intros q sd' (sd&Hq&->&_)%cleared_sd. by eapply W5.
  - intros o s q. rewrite Hslot, Hsd. apply W7.
  - intros o1 s1 o2 s2 q. rewrite !Hslot. apply W8.
  - intros q k i f. rewrite Href, Hfo. apply W9.
  - intros q1 k1 i1 q2 k2 i2 f. rewrite !Href. apply W10.
  - intros u' d. rewrite (cl_documents _ _ _ _ _ C). intros [_ Hd]%lookup_delete_Some. by eapply W12.
  - intros d fi Hd. destruct (W13 d fi Hd) as [I1 I2]. split; [by rewrite H3|]. intros f Hf. by apply Hfo, I2.
Qed.
End clear.

Section clear_run.
Context (rng : ∀ A, gmap string A → list (string * A)).
Context (rng_ok : ∀ A (m : gmap string A), rng A m ≡ₚ map_to_list m).

Lemma ClearReferences_run r u d fi p :
  wf r → Documents r !! u = Some d → infos r !! d = Some fi → Package fi = Some p →
  ∃ r', ClearReferences rng u r = (Ok tt, r') ∧ cleared r r' u p (ExternalRefs fi).
Proof using rng_ok.
  intros W Hd Hfi Hp. destruct (wf_info _ W _ _ Hfi) as [I1 I2]. destruct (I1 p Hp) as [pkg Hpkg].
  unfold ClearReferences. rewrite sbind_get, Hd. unfold sbind at 1, deref at 1. rewrite Hfi.
  destruct (clear_refs_ok (ExternalRefs fi) r I2) as (fos'&Hrun&Hfos).
  rewrite (sbind_ok _ _ _ _ _ Hrun), Hp. unfold with_pkg_lock. unfold sbind at 1, deref at 1.
  cbn [pkgs set_fos]. rewrite Hpkg, (wf_pkg_free _ W _ _ Hpkg). unfold sbind at 1. cbn [put_pkg modify_st].
  unfold defer, sbind at 1, deref at 1. cbn [pkgs set_pkgs]. rewrite lookup_insert_eq. cbn [PSymbolData set_pkg_mu].
  assert (Hslot : ∀ s, slot r (OPkg p) s = PSymbolData pkg !! s) by (intros; unfold slot; cbn; by rewrite Hpkg).
  assert (Hin : ∀ q, q ∈ (rng _ (PSymbolData pkg)).*2 ↔ q ∈ symbols_of r p).
  { intros q. rewrite (rng_ok _ (PSymbolData pkg)). unfold symbols_of. cbn. by rewrite Hpkg. }
  edestruct (clear_symbols_ok u (rng _ (PSymbolData pkg))) as (sds'&Hrun'&Hsds);
    [| |rewrite Hrun'; eexists; split; [reflexivity|]].
  - rewrite (rng_ok _ (PSymbolData pkg)). apply NoDup_fmap_2_strong; [|apply NoDup_map_to_list].
    intros [s1 q1] [s2 q2] Hx1%elem_of_map_to_list Hx2%elem_of_map_to_list Hq. cbn in Hq. subst q2.
    rewrite <- Hslot in Hx1, Hx2. by destruct (wf_slot_inj _ W _ _ _ _ _ Hx1 Hx2) as [_ ->].
  - intros q Hq%Hin%symbols_of_in. destruct Hq as [s Hs]. destruct (wf_slot _ W _ _ _ Hs) as [sd Hsd].
    exists sd. split; [done|]. by apply (wf_sd_free _ W q).
  - split; cbn.
    + split_and!; [done..| |done|done]. rewrite alter_insert_eq. apply insert_id. rewrite Hpkg. f_equal.
      destruct pkg as [mu pk sy]. unfold set_pkg_mu. cbn. by rewrite <- (wf_pkg_free _ W _ _ Hpkg).
    + done.
    + done.
    + intros q. rewrite Hsds. cbn. by rewrite (bool_decide_ext _ _ (Hin q)).
Qed.
End clear_run.

(** ** Reachable registries *)

Definition empty_registry (root : string) : registryImpl := mkRegistry root ∅ ∅ ∅ ∅ ∅ ∅ 0%N.

Lemma empty_wf root : wf (empty_registry root).
Proof.
  assert (Hslot : ∀ o s, slot (empty_registry root) o s = None) by (by intros []).
  split; try (intros ? []; done); try done; try (intros o s q; by rewrite Hslot).
Qed.

Section steps.
Context `{Bindings} (rng : ∀ A, gmap string A → list (string * A)).
Context (rng_ok : ∀ A (m : gmap string A), rng A m ≡ₚ map_to_list m).

(** The calls that change a registry. *)
Inductive call :=
  | CPackage (pkg : Model.ScipPackage)
  | CFileInfo (u : URI) (doc : option Model.Document) (pkg : option ptr) (defs : gmap string ptr) (refs : list ptr)
  | CStorePackage (p : ptr) (symbs : gmap string (option Model.SymbolInformation))
      (occs : gmap string (list Model.Occurrence)) (u : URI)
  | CStoreFile (f : ptr) (symbs : gmap string (option Model.SymbolInformation))
      (occs : gmap string (list Model.Occurrence))
  | CAddReference (q : ptr) (u : URI) (k : string) (occ : Model.Occurrence)
  | CClear (u : URI).

(** The pointers that a call gets are those of existing objects. *)
Definition call_ok (r : registryImpl) (c : call) : Prop :=
  match c with
  | CPackage _ | CClear _ => True
  | CFileInfo _ _ pkg _ refs => (∀ p, pkg = Some p → is_Some (pkgs r !! p)) ∧ (∀ f, f ∈ refs → is_Some (fos r !! f))
  | CStorePackage p _ _ _ => is_Some (pkgs r !! p)
  | CStoreFile f _ _ => is_Some (infos r !! f)
  | CAddReference q _ _ _ => is_Some (sds r !! q)
  end.

Definition run_call (c : call) : FullM unit :=
  match c with
  | CPackage pkg => _ <- getOrCreatePackage pkg;; sret tt
  | CFileInfo u doc pkg defs refs => _ <- NewFileInfo u doc pkg defs refs;; sret tt
  | CStorePackage p symbs occs u => pkg_storeLocalSymbols rng p symbs occs u
  | CStoreFile f symbs occs => file_storeLocalSymbols rng f symbs occs
  | CAddReference q u k occ => _ <- AddReference q u k occ;; sret tt
  | CClear u => ClearReferences rng u
  end.

(** The document is there, and has no package. *)
Definition lacks_package (r : registryImpl) (u : URI) : bool :=
  match Documents r !! u ≫= (infos r !!.) with
  | Some fi => match Package fi with None => true | Some _ => false end
  | None => false
  end.

(** How a call ends. *)
Definition call_result (r : registryImpl) (c : call) : gores unit :=
  match c with
  | CClear u => if lacks_package r u then Panic else Ok tt
  | _ => Ok tt
  end.

(** A write of the field [Documents], as the tests of the package do it. *)
Definition put_document (u : URI) (d : ptr) (r : registryImpl) : registryImpl :=
  set_documents (<[u := d]> (Documents r)) r.

Lemma package_wf r pkg : wf r → ∃ r', run_call (CPackage pkg) r = (Ok tt, r') ∧ wf r'.
Proof.
  intros W. cbn. unfold getOrCreatePackage. unfold sbind at 1. rewrite sbind_get.
  destruct (Packages r !! Model.Name pkg) as [p|] eqn:Hp; [by exists r|].
  eexists. split; [reflexivity|].
  match goal with |- wf ?x => set (r' := x) end.
  assert (Hpk : ∀ q, pkgs r' !! q = if decide (q = next r) then Some (mkPackageMeta false pkg ∅) else pkgs r !! q).
  { intros q. cbn. case_decide; [subst; apply lookup_insert_eq|by apply lookup_insert_ne]. }
  assert (Hnew : pkgs r !! next r = None).
  { apply eq_None_not_Some. intros Hn%(wf_pkg_next _ W). lia. }
  assert (Hkeep : ∀ q, is_Some (pkgs r !! q) → is_Some (pkgs r' !! q))
    by (intros q ?; rewrite Hpk; case_decide; [by eexists|done]).
  assert (Hslot : ∀ o s, slot r' o s = slot r o s).
  { intros [q|f] s; [|done]. unfold slot. cbn [owner_map]. rewrite Hpk. case_decide; [subst|done].
    rewrite Hnew. cbn. apply lookup_empty. }
  destruct W as [W1 W2 W3 W4 W5 W6 W7 W8 W9 W10 W11 W12 W13].
  split; try done.
  - intros q Hq. apply W1 in Hq. cbn. lia.
  - intros q Hq. apply W2 in Hq. cbn. lia.
  - intros q. rewrite Hpk. case_decide; [subst; cbn; lia|]. intros Hq%W3. cbn. lia.
  - intros q Hq. apply W4 in Hq. cbn. lia.
  - intros q x. rewrite Hpk. case_decide; [by intros [= <-]|apply W6].
  - intros o s q. rewrite Hslot. apply W7.
  - intros o1 s1 o2 s2 q. rewrite !Hslot. apply W8.
  - intros n x Hx. change (<[Model.Name pkg := next r]> (Packages r) !! n = Some x) in Hx.
    apply lookup_insert_Some in Hx as [[_ <-]|[_ Hx]]; [|apply Hkeep; by eapply W11].
    rewrite Hpk, decide_True by done. by eexists.
  - intros d fi Hd. destruct (W13 d fi Hd) as [I1 I2]. split; [|done]. intros p Hpp. by apply Hkeep, I1.
Qed.

Lemma file_info_wf r u doc pkg defs refs : wf r → call_ok r (CFileInfo u doc pkg defs refs) →
  ∃ r', run_call (CFileInfo u doc pkg defs refs) r = (Ok tt, r') ∧ wf r'.
Proof.
  intros W [Hpkg Hrefs]. eexists. split; [reflexivity|].
  match goal with |- wf ?x => set (r' := x) end.
  assert (Hin : ∀ q, infos r' !! q = if decide (q = next r) then Some (mkFileInfo u doc pkg ∅ defs refs)
    else infos r !! q).
  { intros q. cbn. case_decide; [subst; apply lookup_insert_eq|by apply lookup_insert_ne]. }
  assert (Hnew : infos r !! next r = None).
  { apply eq_None_not_Some. intros Hn%(wf_info_next _ W). lia. }
  assert (Hslot : ∀ o s, slot r' o s = slot r o s).
  { intros [q|f] s; [done|]. unfold slot. cbn [owner_map]. rewrite Hin. case_decide; [subst|done].
    rewrite Hnew. cbn. apply lookup_empty. }
  destruct W as [W1 W2 W3 W4 W5 W6 W7 W8 W9 W10 W11 W12 W13].
  split; try done.
  - intros q Hq. apply W1 in Hq. cbn. lia.
  - intros q Hq. apply W2 in Hq. cbn. lia.
  - intros q Hq. apply W3 in Hq. cbn. lia.
  - intros q. rewrite Hin. case_decide; [subst; cbn; lia|]. intros Hq%W4. cbn. lia.
  - intros o s q. rewrite Hslot. apply W7.
  - intros o1 s1 o2 s2 q. rewrite !Hslot. apply W8.
  - intros n x Hx. rewrite Hin. case_decide; [by eexists|by eapply W12].
  - intros d fi. rewrite Hin. case_decide; [by intros [= <-]|]. apply W13.
Qed.

Lemma put_document_wf r u d : wf r → is_Some (infos r !! d) → wf (put_document u d r).
Proof.
  intros [W1 W2 W3 W4 W5 W6 W7 W8 W9 W10 W11 W12 W13] Hd. split; try done.
  intros u' x Hx. change (<[u := d]> (Documents r) !! u' = Some x) in Hx.
  apply lookup_insert_Some in Hx as [[_ <-]|[_ Hx]]; [done|by eapply W12].
Qed.

Lemma file_store_ok r f fi symbs occs :
  wf r → infos r !! f = Some fi →
  ∃ r', file_storeLocalSymbols rng f symbs occs r = (Ok tt, r') ∧ wf r' ∧ shape r' = shape r ∧
    ∀ o s, sym_view r' o s =
      if decide (o = OFile f) then stored (FURI fi) (symbs !! s) (occs !! s) (sym_view r (OFile f) s)
      else sym_view r o s.
Proof using rng_ok.
  intros W Hf. unfold file_storeLocalSymbols, deref. unfold sbind at 1. rewrite Hf.
  apply storeLocalSymbols_ok; [done|apply file_gets|done|]. cbn. rewrite Hf. by eexists.
Qed.

Lemma pkg_store_ok r p symbs occs u :
  wf r → is_Some (pkgs r !! p) →
  ∃ r', pkg_storeLocalSymbols rng p symbs occs u r = (Ok tt, r') ∧ wf r' ∧ shape r' = shape r ∧
    ∀ o s, sym_view r' o s =
      if decide (o = OPkg p) then stored u (symbs !! s) (occs !! s) (sym_view r (OPkg p) s)
      else sym_view r o s.
Proof using rng_ok.
  intros W [pkg Hp]. apply storeLocalSymbols_ok; [done|apply pkg_gets|done|]. cbn. rewrite Hp. by eexists.
Qed.

(** [ClearReferences] of a document without package has emptied its external
    references when it panics. *)
Lemma clear_panics r u : wf r → lacks_package r u = true →
  ∃ r', ClearReferences rng u r = (Panic, r') ∧ wf r'.
Proof.
  intros W Hl. unfold lacks_package in Hl. destruct (Documents r !! u) as [d|] eqn:Hd; [|done]. cbn in Hl.
  destruct (infos r !! d) as [fi|] eqn:Hfi; [|done]. destruct (Package fi) eqn:Hp; [done|].
  destruct (wf_info _ W _ _ Hfi) as [_ I2].
  destruct (clear_refs_ok (ExternalRefs fi) r I2) as (fos'&Hrun&Hfos).
  exists (set_fos fos' r). split.
  - unfold ClearReferences. rewrite sbind_get, Hd. unfold sbind at 1, deref at 1. rewrite Hfi.
    by rewrite (sbind_ok _ _ _ _ _ Hrun), Hp.
  - assert (Hfo : ∀ f, is_Some (fos' !! f) ↔ is_Some (fos r !! f)) by (intros; by rewrite Hfos, fmap_is_Some).
    destruct W as [W1 W2 W3 W4 W5 W6 W7 W8 W9 W10 W11 W12 W13]. split; try done.
    + intros q Hq. apply W2. by apply Hfo.
    + intros q k i f Hf. apply Hfo. by apply (W9 q k i).
    + intros d' fi' Hd'. destruct (W13 d' fi' Hd') as [J1 J2]. split; [done|]. intros f Hf. by apply Hfo, J2.
Qed.

Lemma call_wf r c : wf r → call_ok r c → ∃ r', run_call c r = (call_result r c, r') ∧ wf r'.
Proof using rng_ok.
  intros W Hc. destruct c as [pkg|u doc pkg defs refs|p symbs occs u|f symbs occs|q u k occ|u].
  - by apply package_wf.
  - by apply file_info_wf.
  - destruct (pkg_store_ok r p symbs occs u W Hc) as (r'&?&?&_). by exists r'.
  - destruct Hc as [fi Hf]. destruct (file_store_ok r f fi symbs occs W Hf) as (r'&?&?&_). by exists r'.
  - destruct Hc as [sd Hsd]. destruct (AddReference_ok r q sd W Hsd u k occ) as (f&sd'&fos'&next'&Hrun&Hu&_).
    exists (updated r q sd' fos' next'). cbn. unfold sbind. rewrite Hrun. split; [done|].
    by apply updated_wf.
  - cbn [run_call call_result]. destruct (lacks_package r u) eqn:Hl; [by apply clear_panics|].
    unfold lacks_package in Hl. destruct (Documents r !! u) as [d|] eqn:Hd.
    + destruct (wf_documents _ W _ _ Hd) as [fi Hfi]. cbn in Hl. rewrite Hfi in Hl.
      destruct (Package fi) as [p|] eqn:Hp; [|done].
      destruct (ClearReferences_run rng rng_ok r u d fi p W Hd Hfi Hp) as (r'&Hrun&C).
      exists r'. split; [done|]. by eapply cleared_wf.
    + exists r. split; [|done]. unfold ClearReferences. by rewrite sbind_get, Hd.
Qed.
End steps.

(** ** A symbol that is new *)

Definition references_of (u : URI) (occs : list Model.Occurrence) : gmap string (list FileOccurences) :=
  match List.filter (λ occ, negb (is_definition occ)) occs with
  | [] => ∅
  | l => {["local" := [mkFileOccurences l u]]}
  end.

Lemma stored_new `{Bindings} u info occs :
  stored u (Some info) (Some occs) None =
  let def := last (List.filter is_definition occs) in
  Some (mkView info def ((λ occ, ScipOccurrenceToLocationLink u occ None) <$> def) (references_of u occs)).
Proof.
  unfold stored. cbn [default from_option]. f_equal.
  induction occs as [|occ occs IH] using rev_ind; [done|]. rewrite foldl_snoc, IH.
  unfold references_of, occ_view. rewrite !List.filter_app. cbn [List.filter].
  destruct (is_definition occ); cbn [negb].
  - rewrite last_snoc, app_nil_r. done.
  - rewrite app_nil_r. unfold add_view. cbn. f_equal.
    destruct (List.filter (λ occ, negb (is_definition occ)) occs) as [|o l]; cbn [app]; [done|].
    rewrite lookup_singleton_eq. cbn. rewrite bool_decide_true by done.
    unfold singletonM, map_singleton. by rewrite insert_insert_eq.
Qed.

(** ** Main theorems *)

Section main.
Context `{Bindings} (rng : ∀ A, gmap string A → list (string * A)).
Context (rng_ok : ∀ A (m : gmap string A), rng A m ≡ₚ map_to_list m).

(** What is left of the data [sd] of a symbol of [o]. *)
Definition after_clear (r : registryImpl) (u : URI) (p : ptr) (refs : list ptr) (o : owner) (sd : SymbolData)
    : sview :=
  let gone := bool_decide (o = OPkg p) && bool_decide (TargetURI <$> SLocation sd = Some u) in
  mkView (Info sd) (if gone then None else SDefinition sd) (if gone then None else SLocation sd)
    ((λ l : list ptr, (λ f, if bool_decide (f ∈ refs) then mkFileOccurences [] (file (read_fo r f))
                           else read_fo r f) <$> l) <$> References sd).

Lemma cleared_view r r' u p refs o s q sd :
  wf r → cleared r r' u p refs → slot r o s = Some q → sds r !! q = Some sd →
  view r' q = Some (after_clear r u p refs o sd).
Proof.
  intros W C Hq Hsd. unfold view. rewrite (cl_sds _ _ _ _ _ C), Hsd. cbn.
  assert (Hown : bool_decide (q ∈ symbols_of r p) = bool_decide (o = OPkg p)).
  { apply bool_decide_ext. rewrite symbols_of_in. split.
    - intros [s' Hs']. by destruct (wf_slot_inj _ W _ _ _ _ _ Hq Hs').
    - intros ->. by exists s. }
  rewrite Hown. f_equal. unfold after_clear.
  assert (Hread : ∀ f k i, sd_ref sd k i = Some f → read_fo r' f =
    if bool_decide (f ∈ refs) then mkFileOccurences [] (file (read_fo r f)) else read_fo r f).
  { intros f k i Hf. assert (Hr : ref_at r q k i = Some f) by (unfold ref_at; by rewrite Hsd).
    destruct (wf_ref _ W _ _ _ _ Hr) as [fo Hfo]. unfold read_fo. rewrite (cl_fos _ _ _ _ _ C), Hfo. cbn.
    by case_bool_decide. }
  assert (Hrefs : ((λ l : list ptr, read_fo r' <$> l) <$> References sd) =
    ((λ l : list ptr, (λ f, if bool_decide (f ∈ refs) then mkFileOccurences [] (file (read_fo r f))
      else read_fo r f) <$> l) <$> References sd)).
  { apply map_eq. intros k. rewrite !lookup_fmap. destruct (References sd !! k) as [l|] eqn:Hl; [|done].
    cbn. f_equal. apply list_fmap_ext. intros i f Hf. apply (Hread f k i). unfold sd_ref. by rewrite Hl. }
  unfold view_sd. cbv zeta. rewrite <- Hrefs. destruct (bool_decide (o = OPkg p)); cbn [andb]; [|done].
  unfold clear_sd. destruct (SLocation sd) as [loc|] eqn:Hloc; cbn.
  - rewrite (bool_decide_ext (Some (TargetURI loc) = Some u) (TargetURI loc = u)) by (split; congruence).
    destruct (bool_decide (TargetURI loc = u)); cbn; by rewrite ?Hloc.
  - by rewrite Hloc.
Qed.

(** C39: The registry kept wholly in memory is well formed when it is empty:
    pointers are valid, the data of a symbol has one owner, a list of
    occurrences one place among references, and no lock is held. From every
    well-formed registry each call that changes it (getOrCreatePackage,
    NewFileInfo, the two storeLocalSymbols, AddReference, ClearReferences), on
    objects that exist, ends without deadlock in a well-formed registry,
    whatever the order of maps; it panics exactly when it is ClearReferences of
    a document without a package. A write of an existing file to the field
    Documents, as the tests do it, keeps the registry well formed. *)
Theorem registry_invariant :
  (∀ root, wf (empty_registry root)) ∧
  ∀ r, wf r →
    (∀ c, call_ok r c → ∃ r', run_call rng c r = (call_result r c, r') ∧ wf r') ∧
    (∀ u d, is_Some (infos r !! d) → wf (put_document u d r)).
Proof using rng_ok.
  split; [apply empty_wf|]. intros r W. split.
  - intros c Hc. by apply call_wf.
  - intros u d. by apply put_document_wf.
Qed.

(** Storing the symbols and occurrences of a document in a package or a file
    changes what is held of each symbol of that owner as a fold over its
    occurrences says, and of no other, whatever the order of the maps; of a
    symbol not known before it holds the information, the last definition
    with its location, and the other occurrences as one entry of the file. *)
Theorem storeLocalSymbols_view r symbs occs u p f fi :
  wf r → is_Some (pkgs r !! p) → infos r !! f = Some fi →
  (∃ r', pkg_storeLocalSymbols rng p symbs occs u r = (Ok tt, r') ∧ wf r' ∧ shape r' = shape r ∧
    ∀ o s, sym_view r' o s =
      if decide (o = OPkg p) then stored u (symbs !! s) (occs !! s) (sym_view r (OPkg p) s)
      else sym_view r o s) ∧
  (∃ r', file_storeLocalSymbols rng f symbs occs r = (Ok tt, r') ∧ wf r' ∧ shape r' = shape r ∧
    ∀ o s, sym_view r' o s =
      if decide (o = OFile f) then stored (FURI fi) (symbs !! s) (occs !! s) (sym_view r (OFile f) s)
      else sym_view r o s) ∧
  ∀ info l, stored u (Some info) (Some l) None =
    let def := last (List.filter is_definition l) in
    Some (mkView info def ((λ occ, ScipOccurrenceToLocationLink u occ None) <$> def) (references_of u l)).
Proof using rng_ok.
  intros W Hp Hf. split_and!; [by apply pkg_store_ok|by apply file_store_ok|apply stored_new].
Qed.

(** [ClearReferences] of a document forgets the document, removes the
    definitions of the symbols of its package that are in it, and empties its
    external references wherever they are shared; all else is kept. *)
Theorem ClearReferences_exact r u d fi p :
  wf r → Documents r !! u = Some d → infos r !! d = Some fi → Package fi = Some p →
  ∃ r', ClearReferences rng u r = (Ok tt, r') ∧ wf r' ∧
    Documents r' = delete u (Documents r) ∧ Packages r' = Packages r ∧
    ∀ o s, slot r' o s = slot r o s ∧
      ∀ q sd, slot r o s = Some q → sds r !! q = Some sd →
        view r' q = Some (after_clear r u p (ExternalRefs fi) o sd).
Proof using rng_ok.
  intros W Hd Hfi Hp. destruct (ClearReferences_run rng rng_ok r u d fi p W Hd Hfi Hp) as (r'&Hrun&C).
  exists r'. split_and!; [done|by eapply cleared_wf|apply C|apply C|].
  intros o s. split; [by eapply cleared_slot|]. intros q sd Hq Hsd. by eapply cleared_view.
Qed.

(** Without a package the external references are emptied, and then the nil
    pointer is dereferenced: the document stays. *)
Theorem ClearReferences_no_package r u d fi :
  wf r → Documents r !! u = Some d → infos r !! d = Some fi → Package fi = None →
  ∃ fos', ClearReferences rng u r = (Panic, set_fos fos' r) ∧
    ∀ f, f ∈ ExternalRefs fi → ∃ fo, fos' !! f = Some fo ∧ FullRegistry.Occurrences fo = [].
Proof.
  intros W Hd Hfi Hp. destruct (wf_info _ W _ _ Hfi) as [_ I2].
  destruct (clear_refs_ok (ExternalRefs fi) r I2) as (fos'&Hrun&Hfos). exists fos'. split.
  - unfold ClearReferences. rewrite sbind_get, Hd. unfold sbind at 1, deref at 1. rewrite Hfi.
    by rewrite (sbind_ok _ _ _ _ _ Hrun), Hp.
  - intros f Hf. rewrite Hfos. destruct (I2 f Hf) as [fo ->]. cbn. rewrite bool_decide_true by done. by eexists.
Qed.

(** After the local symbols of a document are stored, the lookup at the
    position of an occurrence of one of them finds the occurrence and the data
    of the symbol, which holds what was stored. *)
Theorem local_symbol_roundtrip r u d fi doc symbs occs pos occ l :
  wf r → Documents r !! u = Some d → infos r !! d = Some fi → FDocument fi = Some doc →
  Occurrences.GetOccurrenceForPosition (Model.Occurrences doc) pos = Ok (Some occ) →
  IsLocalSymbol (Model.OSymbol occ) = true → occs !! Model.OSymbol occ = Some l →
  ∃ r' q, file_storeLocalSymbols rng d symbs occs r = (Ok tt, r') ∧
    GetSymbolForPosition u pos r' = (Ok (Some occ, Some q), r') ∧
    view r' q = stored (FURI fi) (symbs !! Model.OSymbol occ) (Some l) (sym_view r (OFile d) (Model.OSymbol occ)).
Proof using rng_ok.
  intros W Hd Hfi Hdoc Hocc Hlocal Hl.
  destruct (file_store_ok rng rng_ok r d fi symbs occs W Hfi) as (r'&Hrun&W'&Hshape&Hv).
  specialize (Hv (OFile d) (Model.OSymbol occ)). rewrite decide_True in Hv by done. rewrite Hl in Hv.
  unfold sym_view at 1 in Hv. destruct (slot r' (OFile d) (Model.OSymbol occ)) as [q|] eqn:Hq; [|done].
  exists r', q. split_and!; [done| |done]. unfold GetSymbolForPosition. rewrite sbind_get.
  assert (Hd' : Documents r' !! u = Some d) by (unfold shape in Hshape; congruence). rewrite Hd'.
  unfold slot in Hq. cbn in Hq. destruct (infos r' !! d) as [fi'|] eqn:Hfi'; [|done]. cbn in Hq.
  destruct (shape_info _ _ _ _ Hshape Hfi') as (fi0&Hfi0&_&Hdoc'&_).
  assert (fi0 = fi) as -> by congruence.
  unfold sbind at 1, deref at 1. rewrite Hfi', Hdoc', Hdoc, Hocc. unfold sbind at 1. cbn [lift_res].
  rewrite Hlocal, bool_decide_true; [by rewrite Hq|]. intros He. by rewrite He, lookup_empty in Hq.
Qed.
End main.

(** ** Instances *)

Definition in_order (A : Type) (m : gmap string A) : list (string * A) := map_to_list m.
Lemma in_order_ok A (m : gmap string A) : in_order A m ≡ₚ map_to_list m.
Proof. done. Qed.

Definition local_use : Model.Occurrence := Model.mkOccurrence [1; 0; 3] "local 0" 0 [] 0 [].
Definition local_def : Model.Occurrence := Model.mkOccurrence [0; 0; 3] "local 0" 1 [] 0 [].
Definition local_doc : Model.Document := Model.mkDocument "go" "a.go" [local_def; local_use] [] [] "" [].
Definition local_occs : gmap string (list Model.Occurrence) := {["local 0" := [local_def; local_use]]}.

(** A package 0, and the document 1 of it. *)
Definition after (r : registryImpl) (cs : list call) : registryImpl :=
  (forM_ cs (run_call in_order) r).2.
Definition sample_created : registryImpl := after (empty_registry "/w")
  [CPackage (Model.mkScipPackage "gomod" "p" "1"); CFileInfo "u" (Some local_doc) (Some 0%N) ∅ []].
Definition sample : registryImpl := put_document "u" 1%N sample_created.

Lemma sample_wf : wf sample.
Proof.
  set (r0 := after (empty_registry "/w") [CPackage (Model.mkScipPackage "gomod" "p" "1")]).
  assert (W0 : wf r0).
  { destruct (package_wf in_order _ (Model.mkScipPackage "gomod" "p" "1") (empty_wf "/w")) as (r'&Hrun&W).
    by injection Hrun as <-. }
  apply put_document_wf; [|by eexists].
  destruct (file_info_wf in_order r0 "u" (Some local_doc) (Some 0%N) ∅ [] W0) as (r'&Hrun&W).
  - split; [intros p [= <-]; by eexists|by intros f ?%elem_of_nil].
  - by injection Hrun as <-.
Qed.

(** Storing a file; and the panic of a document without package, after which the
    registry is still well formed. *)
Lemma registry_invariant_witness :
  (∃ r', run_call in_order (CStoreFile 1%N ∅ local_occs) sample = (Ok tt, r') ∧ wf r') ∧
  (∃ r1 r2, run_call in_order (CFileInfo "v" None None ∅ []) sample = (Ok tt, r1) ∧
    run_call in_order (CClear "v") (put_document "v" 2%N r1) = (Panic, r2) ∧ wf r2).
Proof.
  destruct (registry_invariant in_order in_order_ok) as [_ Hinv]. split.
  - apply (proj1 (Hinv sample sample_wf) (CStoreFile 1%N ∅ local_occs)). by eexists.
  - destruct (proj1 (Hinv sample sample_wf) (CFileInfo "v" None None ∅ [])) as (r1&Hrun1&W1);
      [split; [done|by intros f ?%elem_of_nil]|].
    assert (W2 : wf (put_document "v" 2%N r1))
      by (apply (proj2 (Hinv r1 W1)); injection Hrun1 as <-; by eexists).
    destruct (proj1 (Hinv _ W2) (CClear "v") I) as (r2&Hrun2&W3).
    exists r1, r2. split_and!; [exact Hrun1| |exact W3].
    rewrite Hrun2. injection Hrun1 as <-. reflexivity.
Defined.

Lemma storeLocalSymbols_view_witness :
  ∃ r', pkg_storeLocalSymbols in_order 0%N {["local 0" := None]} local_occs "u" sample = (Ok tt, r') ∧
    sym_view r' (OPkg 0%N) "local 0" = Some (mkView None (Some local_def)
      (Some (ScipOccurrenceToLocationLink "u" local_def None)) {["local" := [mkFileOccurences [local_use] "u"]]}).
Proof.
  destruct (storeLocalSymbols_view in_order in_order_ok sample {["local 0" := None]} local_occs "u" 0%N 1%N
    (mkFileInfo "u" (Some local_doc) (Some 0%N) ∅ ∅ []) sample_wf) as ((r'&Hrun&_&_&Hv)&_&Hnew);
    [by eexists|reflexivity|].
  exists r'. split; [exact Hrun|]. rewrite Hv, decide_True by done. apply (Hnew None [local_def; local_use]).
Defined.

Definition stored_sample : registryImpl := after sample [CStorePackage 0%N ∅ local_occs "u"].
Lemma stored_sample_wf : wf stored_sample.
Proof.
  destruct (call_wf in_order in_order_ok sample (CStorePackage 0%N ∅ local_occs "u") sample_wf) as (r'&Hrun&W);
    [by eexists|].
  unfold stored_sample, after. cbn [forM_]. rewrite (sbind_ok _ _ _ _ _ Hrun). done.
Qed.

Lemma ClearReferences_exact_witness :
  ∃ r', ClearReferences in_order "u" stored_sample = (Ok tt, r') ∧ Documents r' = ∅ ∧
    sym_view r' (OPkg 0%N) "local 0" = Some (mkView None None None {["local" := [mkFileOccurences [local_use] "u"]]}).
Proof.
  destruct (ClearReferences_exact in_order in_order_ok stored_sample "u" 1%N
    (mkFileInfo "u" (Some local_doc) (Some 0%N) ∅ ∅ []) 0%N stored_sample_wf eq_refl eq_refl eq_refl)
    as (r'&Hrun&_&Hd&_&Hv).
  exists r'. split_and!; [exact Hrun|rewrite Hd; reflexivity|].
  destruct (Hv (OPkg 0%N) "local 0") as [Hs Hq]. unfold sym_view. rewrite Hs. cbn.
  exact (Hq 2%N _ eq_refl eq_refl).
Defined.

Lemma local_symbol_roundtrip_witness :
  ∃ r' q, file_storeLocalSymbols in_order 1%N {["local 0" := None]} local_occs sample = (Ok tt, r') ∧
    GetSymbolForPosition "u" (mkPosition 1 1) r' = (Ok (Some local_use, Some q), r') ∧
    view r' q = Some (mkView None (Some local_def)
      (Some (ScipOccurrenceToLocationLink "u" local_def None)) {["local" := [mkFileOccurences [local_use] "u"]]}).
Proof.
  exact (local_symbol_roundtrip in_order in_order_ok sample "u" 1%N
    (mkFileInfo "u" (Some local_doc) (Some 0%N) ∅ ∅ []) local_doc {["local 0" := None]} local_occs (mkPosition 1 1)
    local_use [local_def; local_use] sample_wf eq_refl eq_refl eq_refl eq_refl eq_refl eq_refl).
Defined.

(** The references of a document to the symbols of its own package are not
    among its external references: when the document is cleared and stored
    again they are there twice. *)
Theorem reindex_doubles :
  let r := after stored_sample [CClear "u"; CStorePackage 0%N ∅ local_occs "u"] in
  v_refs <$> sym_view r (OPkg 0%N) "local 0" = Some {["local" := [mkFileOccurences [local_use; local_use] "u"]]}.
Proof. vm_compute. reflexivity. Qed.

End FullRegistryProof.
