(* ===== verification/Diagnostics.v ===== *)
(** * Diagnostics

    Models [src/ulsp/controller/diagnostics/diagnostics.go]: the diagnostics of
    the documents of each session, and their publication to the sessions of a
    workspace when a document of an index is loaded.  The session repository is
    the interface of [Session]; the gateway is a parameter, the error that a
    publication returns, and its calls are recorded. *)

From stdpp Require Import base gmap list strings fin_maps.
From Stdlib Require Import ZArith Lia.
From S2P Require Import Prelude Protocol Session Plugins Scip.

Local Open Scope Z_scope.

Module Diagnostics.

(** [publish] holds the calls of [PublishDiagnostics], with the session of
    their context; [reported] and [runs] are the counters. *)
Record controller := mkController {
  diagnostics : gmap uuid (gmap URI (list Model.Diagnostic));
  publish : list (uuid * URI * list Model.Diagnostic);
  reported : Z;
  runs : Z
}.

Definition New : controller := mkController ∅ [] 0 0.

Definition set_diagnostics d c := mkController d (publish c) (reported c) (runs c).

Section diagnostics.
Context {R : Type} `{Repository R}.
Context (publish_error : uuid → URI → option error) (sessions : R).

Definition PublishDiagnostics (u : uuid) (docURI : URI) (ds : list Model.Diagnostic)
    : GoM controller unit := λ c,
  (match publish_error u docURI with Some e => Err e | None => Ok tt end,
   mkController (diagnostics c) (publish c ++ [(u, docURI, ds)]) (reported c) (runs c)).

(** The body of the loop of [ApplyDiagnostics]: an error of the publication is
    only logged. *)
Definition apply_session (docURI : URI) (diagnostic : list Model.Diagnostic) (s : Session)
    : GoM controller unit :=
  modify_st (λ c, set_diagnostics
    (<[UUID s := <[docURI := diagnostic]> (default ∅ (diagnostics c !! UUID s))]> (diagnostics c)) c) ;;;
  _ <- try_ (PublishDiagnostics (UUID s) docURI diagnostic);;
  sret tt.

Definition ApplyDiagnostics (workspaceRoot : string) (docURI : URI)
    (diagnostic : list Model.Diagnostic) : GoM controller unit :=
  ss <- lift_res (repo_GetAllFromWorkspaceRoot sessions workspaceRoot);;
  forM_ ss (apply_session docURI diagnostic).

Definition initialize (ctx : Context) : GoM controller unit :=
  s <- lift_res (repo_GetFromContext sessions ctx);;
  modify_st (λ c, set_diagnostics (<[UUID s := ∅]> (diagnostics c)) c).

Definition updateMetrics (ds : list Model.Diagnostic) (c : controller) : controller :=
  mkController (diagnostics c) (publish c) (int64 (reported c + zlen ds)) (int64 (runs c + 1)).

Definition disposeSession (u : uuid) : GoM controller unit :=
  modify_st (λ c, set_diagnostics (delete u (diagnostics c)) c).

(** The metrics are deferred. *)
Definition shutdown (ctx : Context) : GoM controller unit := λ c,
  let '(r, c') := (s <- lift_res (repo_GetFromContext sessions ctx);; disposeSession (UUID s)) c in
  (r, updateMetrics [] c').

Definition endSession (u : uuid) : GoM controller unit := λ c,
  let '(r, c') := disposeSession u c in (r, updateMetrics [] c').
End diagnostics.

(** [StartupInfo] *)
Definition StartupInfo `{ProtocolMethods} (ctx : Context) : gores PluginInfo :=
  Ok (mkPluginInfo
    {[MethodName Initialize := PriorityHigh; MethodName Shutdown := PriorityAsync;
      MethodEndSession := PriorityRegular]}
    (Some (mkMethods "diagnostics" [Initialize; Shutdown; EndSession])) "diagnostics" None).

(** ** What is applied *)

Section proofs.
Context {R : Type} `{RepositoryLaws R}.
Context (publish_error : uuid → URI → option error) (sessions : R).

(** The diagnostics of a document, as a session has them. *)
Definition stored (c : controller) (u : uuid) (docURI : URI) : option (list Model.Diagnostic) :=
  diagnostics c !! u ≫= λ m, m !! docURI.

Lemma apply_sessions docURI ds ss c :
  ∃ c', forM_ ss (apply_session publish_error docURI ds) c = (Ok tt, c') ∧
    publish c' = publish c ++ ((λ s, (UUID s, docURI, ds)) <$> ss) ∧
    ∀ u d, stored c' u d =
      if bool_decide (u ∈ UUID <$> ss ∧ d = docURI) then Some ds else stored c u d.
Proof.
  revert c. induction ss as [|s ss IH]; intros c.
  { exists c. split_and!; [done|by rewrite app_nil_r|]. intros u d.
    rewrite bool_decide_false; [done|]. intros [Hu _]. by apply elem_of_nil in Hu. }
  cbn [forM_].
  set (c1 := set_diagnostics
    (<[UUID s := <[docURI := ds]> (default ∅ (diagnostics c !! UUID s))]> (diagnostics c)) c).
  set (c2 := mkController (diagnostics c1) (publish c1 ++ [(UUID s, docURI, ds)]) (reported c1) (runs c1)).
  assert (Hrun : apply_session publish_error docURI ds s c = (Ok tt, c2)).
  { unfold apply_session, sbind, modify_st, try_, PublishDiagnostics. fold c1.
    by destruct (publish_error _ _). }
  rewrite (sbind_ok _ _ _ _ _ Hrun). destruct (IH c2) as (c'&->&Hp&Hs). exists c'.
  split_and!; [done|rewrite Hp; cbn; by rewrite <- app_assoc|]. intros u d. rewrite Hs.
  assert (Hc2 : stored c2 u d = if bool_decide (u = UUID s ∧ d = docURI) then Some ds else stored c u d).
  { unfold stored. cbn. destruct (decide (u = UUID s)) as [->|Hu].
    - rewrite lookup_insert_eq. cbn. destruct (decide (d = docURI)) as [->|Hd].
      + by rewrite lookup_insert_eq, bool_decide_true.
      + rewrite lookup_insert_ne, bool_decide_false by naive_solver.
        by destruct (diagnostics c !! UUID s).
    - by rewrite lookup_insert_ne, bool_decide_false by naive_solver. }
  rewrite Hc2. repeat case_bool_decide; set_solver.
Qed.

(** [ApplyDiagnostics] replaces the diagnostics of the document in every
    session of the workspace, whatever its publication answers, publishes them
    once to each of these sessions, and changes those of no other session or
    document. *)
Theorem ApplyDiagnostics_applies workspaceRoot docURI ds c :
  repo_ok sessions →
  ∃ c' us, ApplyDiagnostics publish_error sessions workspaceRoot docURI ds c = (Ok tt, c') ∧
    NoDup us ∧
    (∀ u, u ∈ us ↔ ∃ s, repo_Get sessions u = Ok s ∧ WorkspaceRoot s = workspaceRoot) ∧
    publish c' = publish c ++ ((λ u, (u, docURI, ds)) <$> us) ∧
    ∀ u d, stored c' u d =
      if bool_decide (u ∈ us ∧ d = docURI) then Some ds else stored c u d.
Proof.
  intros Hok. destruct (repo_GetAll_spec sessions workspaceRoot Hok) as (ss&Hss&Hnd&Hin).
  destruct (apply_sessions docURI ds ss c) as (c'&Hrun&Hp&Hs).
  exists c', (UUID <$> ss). unfold ApplyDiagnostics. rewrite Hss. unfold sbind, lift_res.
  split_and!; [done|done| |by rewrite <- list_fmap_compose|done].
  intros u. rewrite list_elem_of_fmap. split.
  - intros (s&->&Hs'). apply Hin in Hs' as [??]. by exists s.
  - intros (s&Hg&Hw). destruct (repo_Get_cases sessions u Hok) as [(s'&Hs'&Hu)|Hn]; [|congruence].
    assert (s' = s) as -> by congruence. exists s. split; [done|]. apply Hin. by rewrite Hu.
Qed.
End proofs.

Definition sample_session : Session := mkSession 1 None None "/repo" "" [] true.

Lemma ApplyDiagnostics_applies_witness :
  ∃ c' (us : list uuid), ApplyDiagnostics (λ _ _, Some EEOF) (mkRepository {[1%N := SessionToModel sample_session]} 1)
      "/repo" "file:///repo/a" [] New = (Ok tt, c') ∧ stored c' 1%N "file:///repo/a" = Some [] ∧ 1%N ∈ us.
Proof.
  set (r := mkRepository {[1%N := SessionToModel sample_session]} 1).
  assert (Hok : repo_ok r).
  { apply repo_Set_ok with (r := Session.New) (s := Some sample_session); [|reflexivity]. done. }
  destruct (ApplyDiagnostics_applies (λ _ _, Some EEOF) r "/repo" "file:///repo/a" [] New Hok)
    as (c'&us&Hrun&_&Hus&_&Hs).
  assert (Hin : 1%N ∈ us) by (apply Hus; by exists sample_session).
  exists c', us. split_and!; [exact Hrun| |done]. by rewrite Hs, bool_decide_true.
Defined.
End Diagnostics.
