(* ===== verification/IndexNotifier.v ===== *)
(** * Notifications of index loads

    Models [src/ulsp/controller/scip/scip_notify.go]: one progress notification
    for each workspace in which indices are being loaded, with the files that
    are pending.  The manager of notifications is known by its interface, with
    laws that count the users of a handler: [StartNotification] adds one,
    [Done] removes one, and the channel of a handler that has a user is open.

    Shown: over every sequence of calls the notifications behave as a map from
    workspaces to non-empty sets of pending files, no message is sent to a
    closed handler, and the handlers in use are those of the map. *)

From stdpp Require Import base gmap list strings fin_maps pretty.
From Stdlib Require Import ZArith Lia.
From S2P Require Import Prelude Paths.

Local Open Scope Z_scope.

(** [notifier.Notification] *)
Record Notification := mkNotification {
  SenderToken : string;
  IdentifierToken : string;
  NPriority : Z;
  NMessage : string
}.

(** [notifier.NotificationManager] with the methods of [NotificationHandler]
    that senders use; a handler is a name.  [send] is [handler.Channel() <- n]. *)
Class NotificationManager (M : Type) := {
  StartNotification : string → string → GoM M N;
  send : N → Notification → GoM M unit;
  Done : N → GoM M unit
}.

(** The users that a handler has, in the states [mgr_ok] of the manager. *)
Class NotificationLaws (M : Type) `{NotificationManager M} := {
  mgr_ok : M → Prop;
  users : M → N → Z;
  users_nonneg m h : mgr_ok m → 0 ≤ users m h;
  StartNotification_law m ws title : mgr_ok m →
    (∃ h m', StartNotification ws title m = (Ok h, m') ∧ mgr_ok m' ∧
      ∀ h', users m' h' = users m h' + if bool_decide (h' = h) then 1 else 0) ∨
    (∃ e m', StartNotification ws title m = (Err e, m') ∧ mgr_ok m' ∧
      ∀ h', users m' h' = users m h');
  send_law m h n : mgr_ok m → 0 < users m h →
    ∃ m', send h n m = (Ok tt, m') ∧ mgr_ok m' ∧ ∀ h', users m' h' = users m h';
  Done_law m h : mgr_ok m → 0 < users m h →
    ∃ m', Done h m = (Ok tt, m') ∧ mgr_ok m' ∧
      ∀ h', users m' h' = users m h' - if bool_decide (h' = h) then 1 else 0
}.

Inductive IndexLoadStatus := IndexLoadSuccess | IndexLoadError.
#[export] Instance IndexLoadStatus_eq_dec : EqDecision IndexLoadStatus.
Proof. solve_decision. Defined.
Definition status_string (s : IndexLoadStatus) : string :=
  match s with IndexLoadSuccess => "done" | IndexLoadError => "error" end.

Record notificationState := mkNotificationState {
  handler : N;
  processed : Z;
  pending : gset string
}.

Record IndexNotifier (M : Type) := mkIndexNotifier {
  notifiers : M;
  activeNotifications : gmap string notificationState
}.
Arguments mkIndexNotifier {M} _ _.
Arguments notifiers {M} _.
Arguments activeNotifications {M} _.

Section notifier.
Context {M : Type} `{NotificationManager M}.

Definition NewIndexNotifier (m : M) : IndexNotifier M := mkIndexNotifier m ∅.

Definition on_manager {A} (m : GoM M A) : GoM (IndexNotifier M) A := λ n,
  let '(r, m') := m (notifiers n) in (r, mkIndexNotifier m' (activeNotifications n)).
Definition set_active (f : gmap string notificationState → gmap string notificationState)
    : GoM (IndexNotifier M) unit :=
  modify_st (λ n, mkIndexNotifier (notifiers n) (f (activeNotifications n))).

Definition newNotification (text : string) : Notification := mkNotification "scip" "scip" 1 text.

(** The percentage that is shown. *)
Definition progress (state : notificationState) : Z :=
  let totalFiles := Z.of_nat (size (pending state)) + processed state in
  if 0 <? totalFiles then Z.quot (processed state * 100) totalFiles else 0.

Definition notifyProgress (state : notificationState) (filePath : string) : GoM (IndexNotifier M) unit :=
  on_manager (send (handler state)
    (newNotification (pretty (progress state) +:+ "% (" +:+ FileBase filePath +:+ ")"))).

Definition trackFileInternal (workspaceRoot filePath : string) (showProgress : bool)
    : GoM (IndexNotifier M) unit :=
  n <- get_st;;
  state <- (match activeNotifications n !! workspaceRoot with
            | Some state => sret state
            | None =>
              h <- on_manager (StartNotification workspaceRoot "Loading indices");;
              sret (mkNotificationState h 0 ∅)
            end);;
  let state := mkNotificationState (handler state) (processed state) ({[filePath]} ∪ pending state) in
  set_active (<[workspaceRoot := state]>) ;;;
  if showProgress then notifyProgress state filePath else sret tt.

Definition TrackFile (workspaceRoot filePath : string) : GoM (IndexNotifier M) unit :=
  trackFileInternal workspaceRoot filePath false.

Definition NotifyStart (workspaceRoot filePath : string) : GoM (IndexNotifier M) unit :=
  trackFileInternal workspaceRoot filePath true.

Definition NotifyComplete (workspaceRoot filePath : string) (status : IndexLoadStatus)
    : GoM (IndexNotifier M) unit :=
  n <- get_st;;
  match activeNotifications n !! workspaceRoot with
  | None => throw (EText ("no notification handler found for workspace " +:+ workspaceRoot))
  | Some state =>
    let state := mkNotificationState (handler state) (int64 (processed state + 1))
      (pending state ∖ {[filePath]}) in
    set_active (<[workspaceRoot := state]>) ;;;
    (if bool_decide (status ≠ IndexLoadSuccess) then
       on_manager (send (handler state) (newNotification
         ("Failed to load " +:+ FileBase filePath +:+ ": " +:+ status_string status)))
     else sret tt) ;;;
    notifyProgress state filePath ;;;
    if bool_decide (pending state = ∅) then
      on_manager (send (handler state) (newNotification
        ("Completed loading indices (" +:+ pretty (processed state) +:+ " files)"))) ;;;
      set_active (delete workspaceRoot) ;;;
      on_manager (Done (handler state))
    else sret tt
  end.

(** ** Traces *)

Inductive NotifierEvent :=
  | EvTrackFile (workspaceRoot filePath : string)
  | EvNotifyStart (workspaceRoot filePath : string)
  | EvNotifyComplete (workspaceRoot filePath : string) (status : IndexLoadStatus).

Definition notifier_step (ev : NotifierEvent) : GoM (IndexNotifier M) unit :=
  match ev with
  | EvTrackFile ws f => TrackFile ws f
  | EvNotifyStart ws f => NotifyStart ws f
  | EvNotifyComplete ws f status => NotifyComplete ws f status
  end.

Fixpoint run_events (evs : list NotifierEvent) (n : IndexNotifier M)
    : list (NotifierEvent * gores unit) * IndexNotifier M :=
  match evs with
  | [] => ([], n)
  | ev :: evs' =>
    let '(r, n1) := notifier_step ev n in
    let '(rs, n2) := run_events evs' n1 in
    ((ev, r) :: rs, n2)
  end.
End notifier.
Arguments run_events {M _} _ _.

(** ** Pending files *)

Abbreviation Pending := (gmap string (gset string)).

(** A call that returned an error has no effect. *)
Definition pending_step (p : Pending) (x : NotifierEvent * gores unit) : Pending :=
  match x with
  | (EvTrackFile ws f, Ok _) | (EvNotifyStart ws f, Ok _) =>
    <[ws := {[f]} ∪ default ∅ (p !! ws)]> p
  | (EvNotifyComplete ws f _, Ok _) =>
    let rest := default ∅ (p !! ws) ∖ {[f]} in
    if bool_decide (rest = ∅) then delete ws p else <[ws := rest]> p
  | _ => p
  end.

Section proofs.
Context {M : Type} `{NotificationLaws M}.
Implicit Types n : IndexNotifier M.

Definition pendings n : Pending := pending <$> activeNotifications n.
Definition uses (active : gmap string notificationState) (h : N) : Z :=
  Z.of_nat (size (filter (λ x, handler x.2 = h) active)).

(** The handlers have a user for each active notification, besides those that
    [u0] counts, and each active notification has a pending file. *)
Record balanced (u0 : N → Z) n : Prop := {
  bal_ok : mgr_ok (notifiers n);
  bal_users h : users (notifiers n) h = u0 h + uses (activeNotifications n) h;
  bal_pending ws s : activeNotifications n !! ws = Some s → pending s ≠ ∅
}.

Lemma uses_insert_new active ws s h :
  active !! ws = None →
  uses (<[ws := s]> active) h = uses active h + if bool_decide (h = handler s) then 1 else 0.
Proof.
  intros Hn. unfold uses. case_bool_decide as Hh.
  - rewrite map_filter_insert_True by done. rewrite map_size_insert_None; [lia|].
    apply map_lookup_filter_None. by left.
  - rewrite map_filter_insert_not' by naive_solver. lia.
Qed.

Lemma uses_delete active ws s h :
  active !! ws = Some s →
  uses (delete ws active) h = uses active h - if bool_decide (h = handler s) then 1 else 0.
Proof.
  intros Hs. rewrite <- (insert_id active ws s Hs) at 2. rewrite <- insert_delete_eq.
  rewrite uses_insert_new by apply lookup_delete_eq. lia.
Qed.

Lemma uses_insert active ws s s' h :
  active !! ws = Some s → handler s' = handler s → uses (<[ws := s']> active) h = uses active h.
Proof.
  intros Hs Hh. rewrite <- insert_delete_eq, uses_insert_new by apply lookup_delete_eq.
  rewrite (uses_delete _ _ _ _ Hs), Hh. lia.
Qed.

Lemma uses_pos active ws s : active !! ws = Some s → 0 < uses active (handler s).
Proof.
  intros Hs. pose proof (uses_delete active ws s (handler s) Hs) as Hd.
  rewrite bool_decide_true in Hd by done. unfold uses in *. lia.
Qed.

(** [n'] differs from [n] in the state of the manager only, not in its users. *)
Definition same_users n n' : Prop :=
  activeNotifications n' = activeNotifications n ∧ mgr_ok (notifiers n') ∧
  ∀ h, users (notifiers n') h = users (notifiers n) h.

Lemma send_ok n h msg :
  mgr_ok (notifiers n) → 0 < users (notifiers n) h →
  ∃ n', on_manager (send h msg) n = (Ok tt, n') ∧ same_users n n'.
Proof.
  intros Hok Hu. destruct (send_law _ _ msg Hok Hu) as (m'&Hs&Hm). unfold on_manager. rewrite Hs.
  by exists (mkIndexNotifier m' (activeNotifications n)).
Qed.

Lemma same_users_trans n1 n2 n3 : same_users n1 n2 → same_users n2 n3 → same_users n1 n3.
Proof. intros (H1&_&H2) (H3&?&H4). split_and!; [congruence|done|]. intros h. by rewrite H4. Qed.

Lemma balanced_same u0 n n' : same_users n n' → balanced u0 n → balanced u0 n'.
Proof.
  intros (Ha&?&Hu) [_ B1 B2]. split; [done|intros h; by rewrite Hu, Ha|]. intros ws s. rewrite Ha. apply B2.
Qed.

Section steps.
Context (u0 : N → Z) (Hu0 : ∀ h, 0 ≤ u0 h).

Lemma balanced_users n ws s :
  balanced u0 n → activeNotifications n !! ws = Some s → 0 < users (notifiers n) (handler s).
Proof.
  intros B Hs. rewrite (bal_users _ _ B). pose proof (uses_pos _ _ _ Hs). specialize (Hu0 (handler s)). lia.
Qed.

(** Adding a file to a notification that there is. *)
Lemma track_existing n ws s f (showProgress : bool) :
  balanced u0 n → activeNotifications n !! ws = Some s →
  let s' := mkNotificationState (handler s) (processed s) ({[f]} ∪ pending s) in
  ∃ n', (set_active (<[ws := s']>) ;;; if showProgress then notifyProgress s' f else sret tt) n
    = (Ok tt, n') ∧ balanced u0 n' ∧ activeNotifications n' = <[ws := s']> (activeNotifications n).
Proof.
  intros B Hs s'. set (n1 := mkIndexNotifier (notifiers n) (<[ws := s']> (activeNotifications n))).
  assert (B1 : balanced u0 n1).
  { split; [apply B| |].
    - intros h. cbn. by rewrite (uses_insert _ _ s), (bal_users _ _ B).
    - intros ws' t. cbn. intros [[<- <-]|[_ Ht]]%lookup_insert_Some; [cbn; set_solver|].
      by apply (bal_pending _ _ B) in Ht. }
  change (∃ n', (if showProgress then notifyProgress s' f else sret tt) n1 = (Ok tt, n') ∧
    balanced u0 n' ∧ activeNotifications n' = activeNotifications n1).
  destruct showProgress; [|by exists n1].
  destruct (send_ok n1 (handler s') (newNotification
    (pretty (progress s') +:+ "% (" +:+ FileBase f +:+ ")"))) as (n'&Hrun&Hsame).
  { apply B1. }
  { apply (balanced_users n1 ws s' B1). apply lookup_insert_eq. }
  exists n'. split_and!; [exact Hrun|by eapply balanced_same|apply Hsame].
Qed.

Lemma track_ok n ws f (showProgress : bool) :
  balanced u0 n →
  ∃ r n', trackFileInternal ws f showProgress n = (r, n') ∧ balanced u0 n' ∧
    ((r = Ok tt ∧ pendings n' = <[ws := {[f]} ∪ default ∅ (pendings n !! ws)]> (pendings n)) ∨
     ((∃ e, r = Err e) ∧ pendings n' = pendings n)).
Proof.
  intros B. unfold trackFileInternal. rewrite sbind_get.
  destruct (activeNotifications n !! ws) as [s|] eqn:Hs.
  { rewrite sbind_ret. destruct (track_existing n ws s f showProgress B Hs) as (n'&Hrun&B'&Ha).
    exists (Ok tt), n'. split_and!; [exact Hrun|done|]. left. split; [done|].
    unfold pendings. by rewrite Ha, fmap_insert, lookup_fmap, Hs. }
  unfold sbind at 1, sbind at 1, on_manager.
  destruct (StartNotification_law (notifiers n) ws "Loading indices" (bal_ok _ _ B))
    as [(h&m'&->&Hok&Hm)|(e&m'&->&Hok&Hm)].
  2:{ eexists _, _. split_and!; [reflexivity| |by right; split; [eexists|]].
      by apply (balanced_same u0 n). }
  cbn [sret handler processed pending].
  set (s0 := mkNotificationState h 0 {[f]}).
  set (n0 := mkIndexNotifier m' (<[ws := s0]> (activeNotifications n))).
  assert (B0 : balanced u0 n0).
  { split; [done| |].
    - intros h'. cbn. rewrite Hm, (bal_users _ _ B), uses_insert_new by done. cbn. lia.
    - intros ws' t. cbn. intros [[<- <-]|[_ Ht]]%lookup_insert_Some; [cbn; set_solver|].
      by apply (bal_pending _ _ B) in Ht. }
  assert (Hs0 : activeNotifications n0 !! ws = Some s0) by apply lookup_insert_eq.
  destruct (track_existing n0 ws s0 f showProgress B0 Hs0) as (n'&Hrun&B'&Ha).
  exists (Ok tt), n'. split_and!; [|done|].
  - rewrite <- Hrun. unfold set_active, sbind, modify_st. cbn.
    rewrite insert_insert_eq. by replace ({[f]} ∪ {[f]}) with ({[f]} ∪ ∅ : gset string) by set_solver.
  - left. split; [done|]. unfold pendings. rewrite Ha. cbn.
    rewrite insert_insert_eq, fmap_insert, lookup_fmap, Hs. cbn. f_equal. set_solver.
Qed.

(** The messages that [NotifyComplete] sends before it looks at what is left. *)
Lemma complete_messages n s' f status :
  mgr_ok (notifiers n) → 0 < users (notifiers n) (handler s') →
  ∃ n', ((if bool_decide (status ≠ IndexLoadSuccess) then
       on_manager (send (handler s') (newNotification
         ("Failed to load " +:+ FileBase f +:+ ": " +:+ status_string status)))
     else sret tt) ;;; notifyProgress s' f) n = (Ok tt, n') ∧ same_users n n'.
Proof.
  intros Hok Hu.
  assert (∃ n1, (if bool_decide (status ≠ IndexLoadSuccess) then
       on_manager (send (handler s') (newNotification
         ("Failed to load " +:+ FileBase f +:+ ": " +:+ status_string status)))
     else sret tt) n = (Ok tt, n1) ∧ same_users n n1) as (n1&Hrun1&Hs1).
  { case_bool_decide; [by apply send_ok|by exists n]. }
  rewrite (sbind_ok _ _ _ _ _ Hrun1). unfold notifyProgress.
  destruct (send_ok n1 (handler s') (newNotification
    (pretty (progress s') +:+ "% (" +:+ FileBase f +:+ ")"))) as (n2&Hrun2&Hs2).
  { apply Hs1. }
  { by rewrite (proj2 (proj2 Hs1)). }
  exists n2. split; [done|]. by eapply same_users_trans.
Qed.

(** The end of a notification without pending files. *)
Lemma complete_last n ws s msg :
  mgr_ok (notifiers n) →
  (∀ h, users (notifiers n) h = u0 h + uses (activeNotifications n) h) →
  activeNotifications n !! ws = Some s →
  ∃ n', (on_manager (send (handler s) msg) ;;;
         set_active (delete ws) ;;; on_manager (Done (handler s))) n = (Ok tt, n') ∧
    activeNotifications n' = delete ws (activeNotifications n) ∧ mgr_ok (notifiers n') ∧
    ∀ h, users (notifiers n') h = u0 h + uses (activeNotifications n') h.
Proof.
  intros Hok Hn Hs.
  assert (Hu : 0 < users (notifiers n) (handler s)).
  { rewrite Hn. pose proof (uses_pos _ _ _ Hs). specialize (Hu0 (handler s)). lia. }
  destruct (send_ok n (handler s) msg Hok Hu) as (n1&Hrun1&Ha1&Hok1&Hu1).
  rewrite (sbind_ok _ _ _ _ _ Hrun1).
  change (∃ n', on_manager (Done (handler s))
    (mkIndexNotifier (notifiers n1) (delete ws (activeNotifications n1))) = (Ok tt, n') ∧
    activeNotifications n' = delete ws (activeNotifications n) ∧ mgr_ok (notifiers n') ∧
    ∀ h, users (notifiers n') h = u0 h + uses (activeNotifications n') h).
  rewrite <- Hu1 in Hu. destruct (Done_law _ _ Hok1 Hu) as (m'&Hd&Hok'&Hm).
  unfold on_manager. cbn [notifiers activeNotifications]. rewrite Hd, Ha1. eexists. split_and!; [done..|].
  intros h. cbn. rewrite Hm, Hu1, Hn, (uses_delete _ _ _ _ Hs). lia.
Qed.

Lemma complete_ok n ws f status :
  balanced u0 n →
  ∃ r n', NotifyComplete ws f status n = (r, n') ∧ balanced u0 n' ∧
    ((r = Ok tt ∧ pendings n' = pending_step (pendings n) (EvNotifyComplete ws f status, Ok tt)) ∨
     ((∃ e, r = Err e) ∧ pendings n' = pendings n)).
Proof.
  intros B. unfold NotifyComplete. rewrite sbind_get.
  destruct (activeNotifications n !! ws) as [s|] eqn:Hs.
  2:{ eexists _, n. split_and!; [reflexivity|done|right]. split; [by eexists|done]. }
  cbv zeta. set (s' := mkNotificationState _ _ _).
  set (n1 := mkIndexNotifier (notifiers n) (<[ws := s']> (activeNotifications n))).
  assert (Hn1 : ∀ h, users (notifiers n1) h = u0 h + uses (activeNotifications n1) h).
  { intros h. cbn. by rewrite (uses_insert _ _ s), (bal_users _ _ B). }
  assert (Hws : pendings n !! ws = Some (pending s)) by (unfold pendings; by rewrite lookup_fmap, Hs).
  rewrite (sbind_ok _ _ _ tt n1) by done.
  destruct (complete_messages n1 s' f status) as (n2&Hrun2&Ha2&Hok2&Hu2).
  { apply B. }
  { by apply (balanced_users n ws s B). }
  rewrite <- sbind_assoc.
  rewrite (sbind_ok _ _ _ _ _ Hrun2).
  assert (Hs2 : activeNotifications n2 !! ws = Some s') by (rewrite Ha2; apply lookup_insert_eq).
  assert (Hn2 : ∀ h, users (notifiers n2) h = u0 h + uses (activeNotifications n2) h).
  { intros h. by rewrite Hu2, Hn1, Ha2. }
  clear Hrun2. case_bool_decide as Hp.
  - destruct (complete_last n2 ws s' (newNotification ("Completed loading indices (" +:+
      pretty (processed s') +:+ " files)")) Hok2 Hn2 Hs2) as (n'&Hrun&Ha&Hok&Hu).
    exists (Ok tt), n'. split_and!; [exact Hrun| |left].
    + split; [done..|]. intros ws' t. rewrite Ha, Ha2. cbn. rewrite delete_insert_eq.
      intros [_ Ht]%lookup_delete_Some. by apply (bal_pending _ _ B) in Ht.
    + split; [done|]. cbn. rewrite Hws, bool_decide_true by done. unfold pendings.
      rewrite Ha, Ha2. cbn. by rewrite delete_insert_eq, fmap_delete.
  - exists (Ok tt), n2. split_and!; [done| |left].
    + split; [done..|]. intros ws' t. rewrite Ha2. cbn.
      intros [[<- <-]|[_ Ht]]%lookup_insert_Some; [done|]. by apply (bal_pending _ _ B) in Ht.
    + split; [done|]. cbn. rewrite Hws, bool_decide_false by done. unfold pendings.
      rewrite Ha2. cbn. by rewrite fmap_insert.
Qed.

Lemma pending_step_err p ev e : pending_step p (ev, Err e) = p.
Proof. by destruct ev. Qed.

Lemma notifier_step_ok n ev :
  balanced u0 n →
  ∃ r n', notifier_step ev n = (r, n') ∧ balanced u0 n' ∧ (r = Ok tt ∨ ∃ e, r = Err e) ∧
    pendings n' = pending_step (pendings n) (ev, r).
Proof.
  intros B.
  assert (∃ r n', notifier_step ev n = (r, n') ∧ balanced u0 n' ∧
    ((r = Ok tt ∧ pendings n' = pending_step (pendings n) (ev, Ok tt)) ∨
     ((∃ e, r = Err e) ∧ pendings n' = pendings n))) as (r&n'&Hrun&B'&Hr).
  { destruct ev as [ws f|ws f|ws f status]; [by apply track_ok|by apply track_ok|by apply complete_ok]. }
  exists r, n'. split_and!; [done..| |].
  - destruct Hr as [[-> _]|[? _]]; [by left|by right].
  - destruct Hr as [[-> ?]|[[e ->] ?]]; [done|by rewrite pending_step_err].
Qed.
End steps.

Lemma run_events_ok u0 evs n :
  (∀ h, 0 ≤ u0 h) → balanced u0 n →
  ∃ rs n', run_events evs n = (rs, n') ∧ rs.*1 = evs ∧
    Forall (λ x, x.2 = Ok tt ∨ ∃ e, x.2 = Err e) rs ∧
    pendings n' = foldl pending_step (pendings n) rs ∧ balanced u0 n'.
Proof.
  intros Hu0. revert n. induction evs as [|ev evs IH]; intros n B.
  - exists [], n. split_and!; [done|done|by apply Forall_nil|done..].
  - destruct (notifier_step_ok u0 Hu0 n ev B) as (r&n1&Hrun&B1&Hr&Hp).
    destruct (IH n1 B1) as (rs&n'&Hruns&Hevs&Hrs&Hps&B').
    exists ((ev, r) :: rs), n'. cbn. rewrite Hrun, Hruns.
    split_and!; [done|by rewrite Hevs|by constructor| |done]. by rewrite Hps, Hp.
Qed.

(** Over every sequence of calls, from a notifier without notifications:
    each call returns, an error has no effect, the notifications are a map from
    workspaces to the files tracked and not completed, none is left without a
    pending file, and the handlers have gained exactly the users that the active
    notifications stand for, so that a workspace whose files are all completed
    has given its handler back. *)
Theorem IndexNotifier_refines (m : M) evs (Hm : mgr_ok m) :
  ∃ rs n', run_events evs (NewIndexNotifier m) = (rs, n') ∧ rs.*1 = evs ∧
    Forall (λ x, x.2 = Ok tt ∨ ∃ e, x.2 = Err e) rs ∧
    pendings n' = foldl pending_step ∅ rs ∧ map_Forall (λ _ p, p ≠ ∅) (pendings n') ∧
    ∀ h, users (notifiers n') h = users m h + uses (activeNotifications n') h.
Proof.
  destruct (run_events_ok (users m) evs (NewIndexNotifier m)) as (rs&n'&Hrun&Hevs&Hrs&Hp&B).
  - intros h. by apply users_nonneg.
  - split; [done|intros h; cbn; unfold uses; rewrite map_filter_empty, map_size_empty; lia|].
    intros ws s. cbn. by rewrite lookup_empty.
  - exists rs, n'. split_and!; [done..| |apply (bal_users _ _ B)].
    intros ws p. unfold pendings. rewrite lookup_fmap. intros (s&Hs&->)%fmap_Some.
    by apply (bal_pending _ _ B) in Hs.
Qed.
End proofs.

(** ** A manager in which each call starts a handler of its own *)

Definition open_handlers : Type := gset N.
#[export] Instance simple_manager : NotificationManager open_handlers := {|
  StartNotification _ _ := λ m, let h := fresh (C := gset N) m in (Ok h, {[h]} ∪ m);
  send h _ := λ m, (if bool_decide (h ∈ m) then Ok tt else Panic, m);
  Done h := λ m, (if bool_decide (h ∈ m) then Ok tt else Panic, m ∖ {[h]})
|}.
#[export] Instance simple_manager_laws : NotificationLaws open_handlers.
Proof.
  refine {| mgr_ok _ := True; users m h := if bool_decide (h ∈ m) then 1 else 0 |}.
  - intros m h _. by case_bool_decide.
  - intros m ws title _. left. eexists _, _. split_and!; [reflexivity|done|]. intros h'. cbv zeta.
    pose proof (is_fresh (C := gset N) m). repeat case_bool_decide; try lia; set_solver.
  - intros m h n _ Hu. cbn. destruct (decide (h ∈ m)) as [Hin|Hin]; [|by rewrite bool_decide_false in Hu].
    exists m. by rewrite bool_decide_true.
  - intros m h _ Hu. cbn. destruct (decide (h ∈ m)) as [Hin|Hin]; [|by rewrite bool_decide_false in Hu].
    exists (m ∖ {[h]}). rewrite bool_decide_true by done. split_and!; [done..|].
    intros h'. repeat case_bool_decide; try lia; set_solver.
Defined.

(** A file that is tracked, loaded with an error and completed. *)
Definition sample_events : list NotifierEvent :=
  [EvTrackFile "/w" "/w/.scip/a.scip"; EvTrackFile "/w" "/w/.scip/b.scip";
   EvNotifyStart "/w" "/w/.scip/a.scip"; EvNotifyComplete "/w" "/w/.scip/a.scip" IndexLoadError;
   EvNotifyComplete "/v" "/v/c.scip" IndexLoadSuccess;
   EvNotifyStart "/w" "/w/.scip/b.scip"; EvNotifyComplete "/w" "/w/.scip/b.scip" IndexLoadSuccess].
Example sample_events_run :
  let '(rs, n) := run_events sample_events (NewIndexNotifier (∅ : open_handlers)) in
  rs.*2 = [Ok tt; Ok tt; Ok tt; Ok tt;
           Err (EText "no notification handler found for workspace /v"); Ok tt; Ok tt] ∧
  activeNotifications n = ∅ ∧ notifiers n = ∅.
Proof. by vm_compute. Qed.

Lemma IndexNotifier_refines_witness :
  ∃ rs n', run_events sample_events (NewIndexNotifier (∅ : open_handlers)) = (rs, n') ∧
    ∀ h, users (notifiers n') h = users (∅ : open_handlers) h + uses (activeNotifications n') h.
Proof.
  destruct (IndexNotifier_refines (∅ : open_handlers) sample_events) as (rs&n'&Hrun&_&_&_&_&Hu).
  { exact I. }
  by exists rs, n'.
Defined.
