(* ===== verification/PersistentNotifier.v ===== *)
(** * Persistent notifications

    Models [src/ulsp/internal/persistent-notifier/manager.go] and [notifier.go]:
    the manager keeps one handler for each workspace and title, a handler is
    shared by its users, consolidates the updates that they send over its
    channel and shows them in the IDE sessions of the workspace, and is cleaned
    up once no user is left.

    Each handler runs two goroutines; they, the callers and the changes of the
    session repository interleave.  The model cuts the code where another
    goroutine can run in between: at the critical sections of the two mutexes,
    at the channel operations and at the wait group ([action], [act]); the calls
    that one of these pieces makes to the IDE gateway are not taken apart.  The
    counters of users are unbounded integers: [int] would have to be counted
    past [2^63].

    Shown here: what [captureUpdate] keeps and shows, in every order in which Go
    ranges over the maps.  The interleavings are in [PersistentNotifierProof]. *)

From stdpp Require Import base gmap list strings sorting fin_maps.
From Stdlib Require Import ZArith Lia.
From S2P Require Import Prelude Session IndexNotifier.

Local Open Scope Z_scope.

Module Persistent.

(** The capacity of a handler's channel. *)
Definition _bufferSize : nat := 20.

(** [protocol.ProgressParams] and the calls of the IDE gateway. *)
Inductive ProgressValue :=
  | WorkDoneProgressBegin (title message : string) (percentage : Z)
  | WorkDoneProgressReport (message : string) (percentage : Z)
  | WorkDoneProgressEnd.
Inductive GatewayCall :=
  | WorkDoneProgressCreate (token : uuid)
  | Progress (token : uuid) (value : ProgressValue).

(** Where the goroutines of [handleUpdates] are: the one that receives is at its
    [select], drains the channel or has returned; the one that cleans up is at
    [senderWg.Wait()], at [Delete], at the send on [closeCh], at the close of the
    channel, before the end of the notifications, or has returned. *)
Inductive receiver_pc := RSelect | RDrain | RReturned.
Inductive cleaner_pc := CWait | CDelete | CSignal | CClose | CEnd | CReturned.
#[export] Instance receiver_pc_eq_dec : EqDecision receiver_pc.
Proof. solve_decision. Defined.
#[export] Instance cleaner_pc_eq_dec : EqDecision cleaner_pc.
Proof. solve_decision. Defined.

Record notificationHandlerImpl := mkHandler {
  workspaceRoot : string;
  id : string;
  isClosed : bool;
  token : uuid;
  notificationsBySender : gmap string (gmap string Notification);
  channel : list Notification;       (** what the channel holds *)
  channelClosed : bool;              (** [close(h.channel)] *)
  closeChClosed : bool;              (** [close(h.closeCh)] *)
  senderCount : Z;
  senderWg : Z;
  receiver : receiver_pc;
  cleaner : cleaner_pc
}.

Definition set_capture (m : gmap string (gmap string Notification)) (h : notificationHandlerImpl) :=
  mkHandler (workspaceRoot h) (id h) (isClosed h) (token h) m (channel h)
    (channelClosed h) (closeChClosed h) (senderCount h) (senderWg h) (receiver h) (cleaner h).
Definition set_channel (c : list Notification) (h : notificationHandlerImpl) :=
  mkHandler (workspaceRoot h) (id h) (isClosed h) (token h) (notificationsBySender h) c
    (channelClosed h) (closeChClosed h) (senderCount h) (senderWg h) (receiver h) (cleaner h).
Definition set_senders (count wg : Z) (h : notificationHandlerImpl) :=
  mkHandler (workspaceRoot h) (id h) (isClosed h) (token h) (notificationsBySender h) (channel h)
    (channelClosed h) (closeChClosed h) count wg (receiver h) (cleaner h).
Definition set_pcs (r : receiver_pc) (c : cleaner_pc) (h : notificationHandlerImpl) :=
  mkHandler (workspaceRoot h) (id h) (isClosed h) (token h) (notificationsBySender h) (channel h)
    (channelClosed h) (closeChClosed h) (senderCount h) (senderWg h) r c.
(** [h.isClosed = true; close(h.channel)] *)
Definition close_channel (h : notificationHandlerImpl) :=
  mkHandler (workspaceRoot h) (id h) true (token h) (notificationsBySender h) (channel h)
    true (closeChClosed h) (senderCount h) (senderWg h) (receiver h) (cleaner h).
(** [close(h.closeCh)] *)
Definition close_closeCh (h : notificationHandlerImpl) :=
  mkHandler (workspaceRoot h) (id h) (isClosed h) (token h) (notificationsBySender h) (channel h)
    (channelClosed h) true (senderCount h) (senderWg h) (receiver h) (cleaner h).

(** ** The count of senders *)

Definition IsClosed (h : notificationHandlerImpl) : bool := senderCount h <=? 0.

Definition Add (h : notificationHandlerImpl) : notificationHandlerImpl :=
  if senderCount h <=? 0 then h else set_senders (senderCount h + 1) (senderWg h) h.

(** [senderWg.Done()] panics when the counter becomes negative. *)
Definition Done (h : notificationHandlerImpl) : gores notificationHandlerImpl :=
  let count := senderCount h - 1 in
  if count =? 0 then
    if senderWg h - 1 <? 0 then Panic else Ok (set_senders count (senderWg h - 1) h)
  else Ok (set_senders count (senderWg h) h).

(** ** Consolidation of the updates *)

(** Go ranges over a map in some order. *)
Class RangeOrder := { range : ∀ {A : Type}, gmap string A → list (string * A) }.
Class RangeOrderLaws `{RangeOrder} := {
  range_perm {A} (m : gmap string A) : range m ≡ₚ map_to_list m
}.
#[export] Instance range_sorted : RangeOrder := {| range A m := map_to_list m |}.
#[export] Instance range_sorted_laws : RangeOrderLaws.
Proof. by split. Qed.

(** The first half of [captureUpdate]: an empty message removes the update of
    its sender and identifier, any other replaces it. *)
Definition record_update (update : Notification) (m : gmap string (gmap string Notification))
    : gmap string (gmap string Notification) :=
  let s := SenderToken update in
  if bool_decide (NMessage update = "") then
    match m !! s with
    | Some sender =>
      let sender' := delete (IdentifierToken update) sender in
      if bool_decide (sender' = ∅) then delete s m else <[s := sender']> m
    | None => m
    end
  else
    let sender := default ∅ (m !! s) in
    <[s := <[IdentifierToken update := update]> sender]> m.

(** One step of the loop that keeps the update of the lowest priority. *)
Definition condense_step (condensed : gmap string Notification) (msg : Notification)
    : gmap string Notification :=
  match condensed !! IdentifierToken msg with
  | Some existing =>
    if NPriority existing >? NPriority msg then <[IdentifierToken msg := msg]> condensed else condensed
  | None => <[IdentifierToken msg := msg]> condensed
  end.

Section capture.
Context `{RangeOrder}.

Definition condensedByPriority (m : gmap string (gmap string Notification)) : gmap string Notification :=
  foldl (λ c sender, foldl condense_step c (range sender).*2) ∅ (range m).*2.

Definition combine (condensed : gmap string Notification) : string :=
  let combinedMessage := NMessage <$> (range condensed).*2 in
  match combinedMessage with
  | [m] => m
  | _ => "[" +:+ String.concat ", " (merge_sort String.le combinedMessage) +:+ "]"
  end.

Definition captureUpdate (update : Notification) (h : notificationHandlerImpl)
    : string * notificationHandlerImpl :=
  let m := record_update update (notificationsBySender h) in
  (combine (condensedByPriority m), set_capture m h).
End capture.

(** ** The manager *)

(** [startingAt] is set while a [StartNotification] that found a handler is
    between its two critical sections of the handler's mutex; it holds the
    manager's mutex.  [gatewayCalls] are the calls made to the IDE gateway. *)
Record manager (R : Type) := mkManager {
  sessions : R;
  managers : gmap string N;
  handlers : gmap N notificationHandlerImpl;
  startingAt : option N;
  gatewayCalls : list (uuid * GatewayCall);
  uuids : N                          (** ids taken from [factory.UUID] *)
}.
Arguments mkManager {R} _ _ _ _ _ _.
Arguments sessions {R} _.
Arguments managers {R} _.
Arguments handlers {R} _.
Arguments startingAt {R} _.
Arguments gatewayCalls {R} _.
Arguments uuids {R} _.

Section manager_ops.
Context {R : Type} `{Repository R} `{RangeOrder}.
(** [factory.UUID] and the outcome of a call to the IDE gateway. *)
Context (factory_UUID : N → uuid).
Context (ide : list (uuid * GatewayCall) → uuid → GatewayCall → option error).
Notation M := (manager R).

Definition NewNotificationManager (r : R) : M := mkManager r ∅ ∅ None [] 0%N.

Definition set_managers (f : gmap string N → gmap string N) (m : M) : M :=
  mkManager (sessions m) (f (managers m)) (handlers m) (startingAt m) (gatewayCalls m) (uuids m).
Definition set_handler (h : N) (x : notificationHandlerImpl) (m : M) : M :=
  mkManager (sessions m) (managers m) (<[h := x]> (handlers m)) (startingAt m) (gatewayCalls m) (uuids m).
Definition set_starting (o : option N) (m : M) : M :=
  mkManager (sessions m) (managers m) (handlers m) o (gatewayCalls m) (uuids m).

(** A method of a handler. *)
Definition on_handler {A} (h : N) (f : notificationHandlerImpl → gores (A * notificationHandlerImpl))
    : GoM M A := λ m,
  match handlers m !! h with
  | None => (Panic, m)
  | Some x =>
    match f x with
    | Ok (a, x') => (Ok a, set_handler h x' m)
    | Err e => (Err e, m)
    | Panic => (Panic, m)
    | Fuel => (Fuel, m)
    end
  end.
Definition read_handler (h : N) : GoM M notificationHandlerImpl := on_handler h (λ x, Ok (x, x)).

Definition gateway (session : uuid) (c : GatewayCall) : GoM M unit := λ m,
  (match ide (gatewayCalls m) session c with Some e => Err e | None => Ok tt end,
   mkManager (sessions m) (managers m) (handlers m) (startingAt m)
     (gatewayCalls m ++ [(session, c)]) (uuids m)).

Definition initNotification (tok : uuid) (session : Session) (title : string) : GoM M unit :=
  gateway (UUID session) (WorkDoneProgressCreate tok) ;;;
  gateway (UUID session) (Progress tok (WorkDoneProgressBegin title "" 0)).
Definition updateNotification (tok : uuid) (session : Session) (progress : string) (percentage : Z)
    : GoM M unit :=
  gateway (UUID session) (Progress tok (WorkDoneProgressReport progress percentage)).
Definition endNotification (tok : uuid) (session : Session) : GoM M unit :=
  gateway (UUID session) (Progress tok WorkDoneProgressEnd).

Definition GetAllSessions (ws : string) : GoM M (list Session) := λ m,
  (repo_GetAllFromWorkspaceRoot (sessions m) ws, m).

(** [for _, session := range sessions { _ = f(session) }] *)
Definition for_sessions (l : list Session) (f : Session → GoM M unit) : GoM M unit :=
  forM_ l (λ s, try_ (f s) ;;; sret tt).

Definition broadcastUpdate (h : N) (update : Notification) : GoM M unit :=
  latestUpdate <- on_handler h (λ x, Ok (captureUpdate update x));;
  x <- read_handler h;;
  r <- try_ (GetAllSessions (workspaceRoot x));;
  match r with
  | inl _ => sret tt
  | inr l => for_sessions l (λ s, updateNotification (token x) s latestUpdate 0)
  end.

(** [handleUpdates] starts the two goroutines. *)
Definition handleUpdates (x : notificationHandlerImpl) : notificationHandlerImpl :=
  set_pcs RSelect CWait x.

Definition NewNotificationHandler (ws title notificationID : string) : GoM M N :=
  m <- get_st;;
  let x := mkHandler ws notificationID false (factory_UUID (uuids m)) ∅ [] false false 1 1
    RReturned CReturned in
  modify_st (λ m, mkManager (sessions m) (managers m) (handlers m) (startingAt m)
    (gatewayCalls m) (uuids m + 1)%N) ;;;
  l <- GetAllSessions ws;;
  for_sessions l (λ s, initNotification (token x) s title) ;;;
  m <- get_st;;
  let h := fresh (C := gset N) (dom (handlers m)) in
  modify_st (set_handler h (handleUpdates x)) ;;;
  sret h.

Definition deleteIfClosed (nid : string) : GoM M unit :=
  m <- get_st;;
  match managers m !! nid with
  | Some mgr =>
    x <- read_handler mgr;;
    if IsClosed x then modify_st (set_managers (delete nid)) else sret tt
  | None => sret tt
  end.

Definition Delete (nid : string) : GoM M unit := deleteIfClosed nid.

(** [StartNotification] up to its second critical section: a new handler, or the
    one to which a user is to be added. *)
Definition StartNotification_lookup (ws title : string) : GoM M (option N) :=
  let notificationID := ws +:+ "-" +:+ title in
  deleteIfClosed notificationID ;;;
  m <- get_st;;
  match managers m !! notificationID with
  | Some existing => modify_st (set_starting (Some existing)) ;;; sret None
  | None =>
    h <- NewNotificationHandler ws title notificationID;;
    modify_st (set_managers (<[notificationID := h]>)) ;;; sret (Some h)
  end.

(** The rest: [existing.Add(ctx); return existing, nil]. *)
Definition StartNotification_add : GoM M N :=
  m <- get_st;;
  match startingAt m with
  | None => lift_res Panic
  | Some existing =>
    on_handler existing (λ x, Ok (tt, Add x)) ;;;
    modify_st (set_starting None) ;;; sret existing
  end.

Definition StartNotification (ws title : string) : GoM M N :=
  r <- StartNotification_lookup ws title;;
  match r with
  | Some h => sret h
  | None => StartNotification_add
  end.

Definition handler_Done (h : N) : GoM M unit :=
  on_handler h (λ x, x' <-? Done x;; Ok (tt, x')).

(** A send on the channel of a handler that is not full. *)
Definition enqueue (h : N) (n : Notification) : GoM M unit :=
  on_handler h (λ x, if channelClosed x then Panic else Ok (tt, set_channel (channel x ++ [n]) x)).

(** ** The goroutines *)

Inductive goroutine_step :=
  | GReceive      (** the receiving goroutine takes an update at its [select] *)
  | GDrain        (** … in its last loop, or finds the channel closed and returns *)
  | GWaitDone     (** the cleaning goroutine passes [senderWg.Wait()] *)
  | GDelete       (** … calls [parentManager.Delete], which takes the manager's mutex *)
  | GSignal       (** both goroutines meet at [closeCh] *)
  | GClose        (** … marks the handler closed and closes the channel *)
  | GEnd.         (** … ends the notifications of all sessions *)

(** One step of a goroutine of the handler [h]; [None] when it is not at that
    point or has to wait. *)
Definition goroutine (g : goroutine_step) (h : N) (m : M) : option (gores unit * M) :=
  x ← handlers m !! h;
  match g with
  | GReceive =>
    guard (receiver x = RSelect);;
    match channel x with
    | update :: rest =>
      Some ((on_handler h (λ x, Ok (tt, set_channel rest x)) ;;; broadcastUpdate h update) m)
    | [] => guard (channelClosed x = true);; Some (Ok tt, m)
    end
  | GDrain =>
    guard (receiver x = RDrain);;
    match channel x with
    | update :: rest =>
      Some ((on_handler h (λ x, Ok (tt, set_channel rest x)) ;;; broadcastUpdate h update) m)
    | [] =>
      guard (channelClosed x = true);;
      Some (on_handler h (λ x, Ok (tt, close_closeCh (set_pcs RReturned (cleaner x) x))) m)
    end
  | GWaitDone =>
    guard (cleaner x = CWait ∧ senderWg x = 0);;
    Some (on_handler h (λ x, Ok (tt, set_pcs (receiver x)
      (if isClosed x then CReturned else CDelete) x)) m)
  | GDelete =>
    guard (cleaner x = CDelete ∧ startingAt m = None);;
    Some ((Delete (id x) ;;; on_handler h (λ x, Ok (tt, set_pcs (receiver x) CSignal x))) m)
  | GSignal =>
    guard (cleaner x = CSignal ∧ receiver x = RSelect);;
    Some (on_handler h (λ x, Ok (tt, set_pcs RDrain CClose x)) m)
  | GClose =>
    guard (cleaner x = CClose);;
    Some (on_handler h (λ x,
      if channelClosed x then Panic else Ok (tt, close_channel (set_pcs (receiver x) CEnd x))) m)
  | GEnd =>
    guard (cleaner x = CEnd);;
    Some ((r <- try_ (GetAllSessions (workspaceRoot x));;
           match r with
           | inl _ => sret tt
           | inr l => for_sessions l (endNotification (token x))
           end ;;;
           on_handler h (λ x, Ok (tt, set_pcs (receiver x) CReturned x))) m)
  end.

(** Everything that can happen: the two halves of [StartNotification], a send,
    [Done], a change of the session repository, a step of a goroutine.  The
    result names the handler that [StartNotification] returns. *)
Inductive action :=
  | AStart (ws title : string)
  | AStartAdd
  | ASend (h : N) (n : Notification)
  | ADone (h : N)
  | ASessions (r : R)
  | AGo (g : goroutine_step) (h : N).

Definition discard {A} (m : GoM M A) : GoM M (option N) := m ;;; sret None.

Definition act (a : action) (m : M) : option (gores (option N) * M) :=
  match a with
  | AStart ws title =>
    guard (startingAt m = None);; Some (StartNotification_lookup ws title m)
  | AStartAdd =>
    guard (is_Some (startingAt m));; Some ((h <- StartNotification_add;; sret (Some h)) m)
  | ASend h n =>
    x ← handlers m !! h;
    guard (channelClosed x = true ∨ (length (channel x) < _bufferSize)%nat);;
    Some (discard (enqueue h n) m)
  | ADone h => Some (discard (handler_Done h) m)
  | ASessions r =>
    Some (Ok None, mkManager r (managers m) (handlers m) (startingAt m) (gatewayCalls m) (uuids m))
  | AGo g h => r ← goroutine g h m; Some (discard (λ _, r) m)
  end.
End manager_ops.

(** ** What is kept and shown *)

(** The last update of a sender for an identifier. *)
Definition current (m : gmap string (gmap string Notification)) (s i : string) : option Notification :=
  m !! s ≫= (.!! i).

Record captured (m : gmap string (gmap string Notification)) : Prop := {
  captured_nonempty s sender : m !! s = Some sender → sender ≠ ∅;
  captured_keys s i n : current m s i = Some n →
    SenderToken n = s ∧ IdentifierToken n = i ∧ NMessage n ≠ ""
}.

Lemma current_empty s i : current ∅ s i = None.
Proof. unfold current. by rewrite lookup_empty. Qed.

Lemma captured_empty : captured ∅.
Proof. split; intros s; [intros ?; by rewrite lookup_empty|intros i n; by rewrite current_empty]. Qed.

Lemma record_update_current update m s i :
  current (record_update update m) s i =
  if decide (s = SenderToken update ∧ i = IdentifierToken update) then
    if decide (NMessage update = "") then None else Some update
  else current m s i.
Proof.
  unfold record_update, current.
  destruct (decide (s = SenderToken update ∧ i = IdentifierToken update)) as [[-> ->]|Hne];
    case_bool_decide as Hm.
  - destruct (m !! SenderToken update) as [sender|] eqn:Hs; [|rewrite Hs; by destruct (decide _)].
    case_bool_decide; rewrite ?lookup_delete_eq, ?lookup_insert_eq; cbn; [by destruct (decide _)|].
    rewrite lookup_delete_eq. by destruct (decide _).
  - rewrite lookup_insert_eq. cbn. rewrite lookup_insert_eq. by destruct (decide _).
  - destruct (m !! SenderToken update) as [sender|] eqn:Hs; [|done].
    destruct (decide (s = SenderToken update)) as [->|Hs'].
    + case_bool_decide as He.
      * rewrite lookup_delete_eq, Hs. cbn. assert (Hi : i ≠ IdentifierToken update) by naive_solver.
        rewrite <- (lookup_delete_ne sender (IdentifierToken update) i), He by done. by rewrite lookup_empty.
      * rewrite lookup_insert_eq, Hs. cbn. apply lookup_delete_ne. naive_solver.
    + case_bool_decide; by rewrite ?lookup_delete_ne, ?lookup_insert_ne by done.
  - destruct (decide (s = SenderToken update)) as [->|Hs'].
    + rewrite lookup_insert_eq. cbn. rewrite lookup_insert_ne by naive_solver.
      by destruct (m !! _).
    + by rewrite lookup_insert_ne by done.
Qed.

Lemma record_update_captured update m : captured m → captured (record_update update m).
Proof.
  intros C. split.
  - intros s sender. unfold record_update. case_bool_decide as Hm.
    + destruct (m !! SenderToken update) as [x|]; [|apply C].
      case_bool_decide as He; [intros [_ Hs]%lookup_delete_Some; by eapply captured_nonempty|].
      intros [[<- <-]|[_ Hs]]%lookup_insert_Some; [done|by eapply captured_nonempty].
    + intros [[<- <-]|[_ Hs]]%lookup_insert_Some; [apply insert_non_empty|by eapply captured_nonempty].
  - intros s i n. rewrite record_update_current.
    destruct (decide (_ ∧ _)) as [[-> ->]|_]; [|by apply C].
    destruct (decide _); [done|]. by intros [= <-].
Qed.

(** ** The updates of lowest priority *)

Section condense.
Context `{RangeOrderLaws}.

Definition all_updates (m : gmap string (gmap string Notification)) : list Notification :=
  (range m).*2 ≫= λ sender, (range sender).*2.

Lemma condensed_fold m : condensedByPriority m = foldl condense_step ∅ (all_updates m).
Proof.
  unfold condensedByPriority, all_updates. generalize (∅ : gmap string Notification).
  induction (range m).*2 as [|x l IH]; intros c; cbn; [done|]. by rewrite foldl_app, IH.
Qed.

Lemma range_elem {A} (m : gmap string A) x : x ∈ (range m).*2 ↔ ∃ k, m !! k = Some x.
Proof.
  rewrite range_perm, list_elem_of_fmap.
  split.
  - intros ([k y]&->&Hk). exists k. by apply elem_of_map_to_list in Hk.
  - intros (k&Hk). exists (k, x). by rewrite elem_of_map_to_list.
Qed.

Lemma all_updates_elem m n : n ∈ all_updates m ↔ ∃ s i, current m s i = Some n.
Proof.
  unfold all_updates, current. rewrite list_elem_of_bind. split.
  - intros (sender&Hn&Hs). rewrite range_elem in Hn. rewrite range_elem in Hs.
    destruct Hn as (i&Hi). destruct Hs as (s&Hs). exists s, i. by rewrite Hs.
  - intros (s&i&(sender&Hs&Hi)%bind_Some). exists sender. rewrite !range_elem. eauto.
Qed.

Lemma condense_step_lookup c msg i :
  condense_step c msg !! i =
  if decide (i = IdentifierToken msg) then
    match c !! i with
    | Some existing => Some (if NPriority existing >? NPriority msg then msg else existing)
    | None => Some msg
    end
  else c !! i.
Proof.
  unfold condense_step. destruct (decide (i = IdentifierToken msg)) as [->|Hne].
  - destruct (c !! IdentifierToken msg) as [e|] eqn:He; [|apply lookup_insert_eq].
    destruct (NPriority e >? NPriority msg); [apply lookup_insert_eq|done].
  - destruct (c !! IdentifierToken msg) as [e|]; [destruct (_ >? _)|]; by rewrite ?lookup_insert_ne.
Qed.

(** [shown] has, for each identifier with an update in [l], one of the lowest
    priority. *)
Definition lowest (l : list Notification) (shown : gmap string Notification) : Prop :=
  ∀ i, match shown !! i with
       | Some n => n ∈ l ∧ IdentifierToken n = i ∧
                   ∀ n', n' ∈ l → IdentifierToken n' = i → NPriority n ≤ NPriority n'
       | None => ∀ n', n' ∈ l → IdentifierToken n' ≠ i
       end.

Lemma elem_of_snoc {A} (x y : A) l : x ∈ l ++ [y] → x ∈ l ∨ x = y.
Proof. set_solver. Qed.

Lemma condense_lowest l : lowest l (foldl condense_step ∅ l).
Proof.
  induction l as [|msg l IH] using rev_ind; intros i; cbn.
  { rewrite lookup_empty. by intros n' ?%elem_of_nil. }
  rewrite foldl_snoc, condense_step_lookup. specialize (IH i).
  destruct (decide (i = IdentifierToken msg)) as [->|Hne].
  - destruct (foldl condense_step ∅ l !! IdentifierToken msg) as [e|].
    + destruct IH as (Hin&He&Hmin). destruct (Z.gtb_spec (NPriority e) (NPriority msg)).
      * split_and!; [set_solver|done|]. intros n' [Hn'| ->]%elem_of_snoc Hi; [|lia].
        specialize (Hmin _ Hn' Hi). lia.
      * split_and!; [set_solver|done|]. intros n' [Hn'| ->]%elem_of_snoc Hi; [by apply Hmin|lia].
    + split_and!; [set_solver|done|]. intros n' [Hn'| ->]%elem_of_snoc Hi; [|lia].
      by apply IH in Hn'.
  - destruct (foldl condense_step ∅ l !! i) as [e|].
    + destruct IH as (Hin&He&Hmin). split_and!; [set_solver|done|].
      intros n' [Hn'| ->]%elem_of_snoc Hi; [by apply Hmin|by subst].
    + intros n' [Hn'| ->]%elem_of_snoc; [by apply IH|done].
Qed.
End condense.

(** Without ties there is one such map. *)
Lemma lowest_unique l l' shown shown' :
  (∀ n, n ∈ l ↔ n ∈ l') →
  (∀ n n', n ∈ l → n' ∈ l → IdentifierToken n = IdentifierToken n' →
     NPriority n = NPriority n' → n = n') →
  lowest l shown → lowest l' shown' → shown = shown'.
Proof.
  intros Hl Hties L L'. apply map_eq. intros i. specialize (L i). specialize (L' i).
  destruct (shown !! i) as [n|], (shown' !! i) as [n'|]; [| | |done].
  - destruct L as (Hn&Hi&Hm), L' as (Hn'&Hi'&Hm'). rewrite <- Hl in Hn'. f_equal. apply Hties; [done..|congruence|].
    specialize (Hm n' Hn' Hi'). rewrite Hl in Hn. specialize (Hm' n Hn Hi). lia.
  - destruct L as (Hn&Hi&_). rewrite Hl in Hn. by apply L' in Hn.
  - destruct L' as (Hn&Hi&_). rewrite <- Hl in Hn. by apply L in Hn.
Qed.

(** The text for the messages [texts]. *)
Definition text_of (texts : list string) : string :=
  match texts with
  | [t] => t
  | _ => "[" +:+ String.concat ", " texts +:+ "]"
  end.

Lemma combine_text `{RangeOrderLaws} shown :
  combine shown = text_of (merge_sort String.le (NMessage <$> (range shown).*2)).
Proof.
  unfold combine. set (l := NMessage <$> _). unfold text_of.
  pose proof (merge_sort_Permutation String.le l) as Hp. destruct l as [|t [|t' l]].
  - by apply Permutation_nil_r in Hp as ->.
  - by apply Permutation_singleton_r in Hp as ->.
  - destruct (merge_sort String.le (t :: t' :: l)) as [|u [|u' v]]; [done| |done].
    by apply Permutation_length in Hp.
Qed.

(** [captureUpdate] keeps for each sender and identifier the last update, an
    empty message removing it, and shows for each identifier the message of an
    update of the lowest priority: alone when there is one identifier, otherwise
    as a sorted list, in whatever order Go ranges over its maps. *)
Theorem captureUpdate_correct `{RangeOrderLaws} update h
    (C : captured (notificationsBySender h)) :
  let '(text, h') := captureUpdate update h in
  let m' := notificationsBySender h' in
  captured m' ∧
  (∀ s i, current m' s i =
    if decide (s = SenderToken update ∧ i = IdentifierToken update) then
      if decide (NMessage update = "") then None else Some update
    else current (notificationsBySender h) s i) ∧
  ∃ shown texts,
    (∀ i, match shown !! i with
          | Some n => (∃ s, current m' s i = Some n) ∧
              ∀ s n', current m' s i = Some n' → NPriority n ≤ NPriority n'
          | None => ∀ s, current m' s i = None
          end) ∧
    texts ≡ₚ NMessage <$> (map_to_list (shown : gmap string Notification)).*2 ∧
    StronglySorted String.le texts ∧ text = text_of texts.
Proof.
  cbn. set (m' := record_update _ _).
  assert (C' : captured m') by by apply record_update_captured.
  split_and!; [done|by intros; apply record_update_current|].
  exists (condensedByPriority m'), (merge_sort String.le (NMessage <$> (range (condensedByPriority m')).*2)).
  split_and!; [|by rewrite merge_sort_Permutation, range_perm|apply (StronglySorted_merge_sort _)
    |apply combine_text].
  intros i. pose proof (condense_lowest (all_updates m') i) as L. rewrite <- condensed_fold in L.
  destruct (condensedByPriority m' !! i) as [n|].
  - destruct L as ((s&j&Hn)%all_updates_elem&Hi&Hmin).
    destruct (captured_keys _ C' _ _ _ Hn) as (_&Hj&_). split; [exists s; congruence|].
    intros s' n' Hn'. apply Hmin; [apply all_updates_elem; eauto|by apply C' in Hn' as (_&?&_)].
  - intros s. destruct (current m' s i) as [n|] eqn:Hn; [|done]. exfalso. apply (L n).
    + apply all_updates_elem. eauto.
    + by apply C' in Hn as (_&?&_).
Qed.

(** Where no two updates that are kept have the same identifier and the same
    priority, the text does not depend on the order in which Go ranges over the
    maps. *)
Theorem captureUpdate_order (R1 R2 : RangeOrder) (L1 : @RangeOrderLaws R1) (L2 : @RangeOrderLaws R2)
    update h
    (Hties : ∀ s s' i n n', let m' := record_update update (notificationsBySender h) in
      current m' s i = Some n → current m' s' i = Some n' → NPriority n = NPriority n' → n = n')
    (C : captured (notificationsBySender h)) :
  captureUpdate (H := R1) update h = captureUpdate (H := R2) update h.
Proof.
  unfold captureUpdate. f_equal. set (m' := record_update _ _) in *. cbv zeta in Hties.
  assert (C' : captured m') by by apply record_update_captured.
  assert (condensedByPriority (H := R1) m' = condensedByPriority (H := R2) m') as <-.
  { rewrite (condensed_fold (H := R1)), (condensed_fold (H := R2)).
    eapply lowest_unique; [| |apply condense_lowest|apply condense_lowest].
    - intros n. rewrite (all_updates_elem (H := R1)), (all_updates_elem (H := R2)). done.
    - intros n n' (s&i&Hn)%all_updates_elem (s'&i'&Hn')%all_updates_elem Hid Hp.
      destruct (captured_keys _ C' _ _ _ Hn) as (_&?&_).
      destruct (captured_keys _ C' _ _ _ Hn') as (_&?&_).
      apply (Hties s s' i); [done|congruence|done]. }
  rewrite (combine_text (H := R1)), (combine_text (H := R2)). f_equal.
  apply (StronglySorted_unique String.le); [apply (StronglySorted_merge_sort _)..|].
  by rewrite !merge_sort_Permutation, (range_perm (H := R1)), (range_perm (H := R2)).
Qed.

(** ** A sample *)

Definition update_of (sender ident : string) (priority : Z) (message : string) : Notification :=
  mkNotification sender ident priority message.
Definition sample_captured : gmap string (gmap string Notification) :=
  record_update (update_of "t2" "b.java" 1 "building b") (record_update (update_of "t1" "b.java" 2 "queued b")
    (record_update (update_of "t1" "a.java" 1 "building a") ∅)).
Definition sample_handler : notificationHandlerImpl :=
  mkHandler "/w" "/w-Indexing" false 7%N sample_captured [] false false 2 1 RSelect CWait.

Example sample_capture :
  (captureUpdate (update_of "t2" "b.java" 1 "indexing b") sample_handler).1 = "[building a, indexing b]" ∧
  (captureUpdate (update_of "t2" "b.java" 1 "") sample_handler).1 = "[building a, queued b]" ∧
  (captureUpdate (update_of "t1" "a.java" 1 "") sample_handler).1 = "building b".
Proof. by vm_compute. Qed.

Lemma sample_captured_ok : captured sample_captured.
Proof. by do 3 apply record_update_captured; apply captured_empty. Qed.

Lemma captureUpdate_correct_witness :
  let '(text, h') := captureUpdate (update_of "t2" "b.java" 1 "indexing b") sample_handler in
  captured (notificationsBySender h') ∧ text = "[building a, indexing b]".
Proof.
  pose proof (captureUpdate_correct (update_of "t2" "b.java" 1 "indexing b") sample_handler
    sample_captured_ok) as P.
  destruct (captureUpdate _ _) as [text h'] eqn:E. split; [apply P|].
  apply (f_equal fst) in E. cbn in E. rewrite <- E. by vm_compute.
Defined.

(** The order of the keys backwards. *)
Definition range_backwards : RangeOrder := {| range A m := reverse (map_to_list m) |}.
Lemma range_backwards_laws : @RangeOrderLaws range_backwards.
Proof. split. intros A m. apply reverse_Permutation. Qed.

Lemma captureUpdate_order_witness :
  captureUpdate (H := range_sorted) (update_of "t2" "b.java" 1 "indexing b") sample_handler =
  captureUpdate (H := range_backwards) (update_of "t2" "b.java" 1 "indexing b") sample_handler.
Proof.
  apply captureUpdate_order; [apply range_sorted_laws|apply range_backwards_laws| |apply sample_captured_ok].
  intros s s' i n n'. cbv zeta. unfold sample_handler, notificationsBySender, sample_captured.
  rewrite !record_update_current, !current_empty. cbn.
  repeat destruct (decide _); naive_solver.
Defined.

End Persistent.
