(* ===== verification/PersistentNotifierProof.v ===== *)
(** * Interleavings of the persistent notifications

    Theorems about [PersistentNotifier] over every interleaving of callers,
    goroutines and changes of the session repository: the invariant of handlers
    and manager, that senders never meet a closed channel unless the last [Done]
    comes between the two critical sections of a [StartNotification], that the
    goroutines of a handler without users end after showing all updates, and
    that the manager keeps the laws on which the notifier of index loads relies. *)

From stdpp Require Import base gmap list strings sorting fin_maps.
From Stdlib Require Import ZArith Lia.
From S2P Require Import Prelude Session IndexNotifier PersistentNotifier.

Local Open Scope Z_scope.

Module PersistentProof.
Import Persistent.

Section proofs.
Context {R : Type} `{RepositoryLaws R} `{RangeOrderLaws}.
Context (factory_UUID : N → uuid).
Context (ide : list (uuid * GatewayCall) → uuid → GatewayCall → option error).
Notation M := (manager R).
Notation act := (act factory_UUID ide).
Notation action := (action (R := R)).
Implicit Types m : M.

(** ** What the operations do to the manager *)

Definition add_calls (cs : list (uuid * GatewayCall)) m : M :=
  mkManager (sessions m) (managers m) (handlers m) (startingAt m) (gatewayCalls m ++ cs) (uuids m).

Lemma add_calls_nil m : add_calls [] m = m.
Proof. destruct m. unfold add_calls. cbn. by rewrite app_nil_r. Qed.
Lemma add_calls_app cs cs' m : add_calls cs' (add_calls cs m) = add_calls (cs ++ cs') m.
Proof. unfold add_calls. cbn. by rewrite app_assoc. Qed.

Lemma gateway_calls u c m : (gateway ide u c m).2 = add_calls [(u, c)] m.
Proof. done. Qed.

Lemma try_gateway u c m :
  (try_ (gateway ide u c) ;;; sret tt) m = (Ok tt, add_calls [(u, c)] m).
Proof. unfold sbind, try_, gateway. by destruct (ide _ _ _). Qed.

Lemma for_sessions_gateway l c m :
  for_sessions l (λ s, gateway ide (UUID s) c) m
  = (Ok tt, add_calls ((λ s, (UUID s, c)) <$> l) m).
Proof.
  unfold for_sessions. revert m. induction l as [|s l IH]; intros m; cbn [forM_ fmap list_fmap].
  - by rewrite add_calls_nil.
  - rewrite (sbind_ok _ _ _ _ _ (try_gateway (UUID s) c m)), IH. by rewrite add_calls_app.
Qed.

Lemma for_sessions_init l tok title m :
  ∃ cs, for_sessions l (λ s, initNotification ide tok s title) m = (Ok tt, add_calls cs m) ∧
    ∀ s, s ∈ l → (UUID s, WorkDoneProgressCreate tok) ∈ cs.
Proof.
  unfold for_sessions. revert m. induction l as [|s l IH]; intros m; cbn [forM_].
  { exists []. rewrite add_calls_nil. split; [done|]. by intros s ?%elem_of_nil. }
  assert (∃ cs, (try_ (initNotification ide tok s title) ;;; sret tt) m = (Ok tt, add_calls cs m) ∧
    (UUID s, WorkDoneProgressCreate tok) ∈ cs) as (cs&Hrun&Hin).
  { unfold initNotification, sbind, try_, gateway.
    destruct (ide (gatewayCalls m) _ _); [|destruct (ide _ _ _)]; eexists; (split; [|by left]);
      [reflexivity|unfold add_calls; cbn; by rewrite <- app_assoc..]. }
  rewrite (sbind_ok _ _ _ _ _ Hrun). destruct (IH (add_calls cs m)) as (cs'&->&Hin').
  exists (cs ++ cs'). rewrite add_calls_app. split; [done|]. set_solver.
Qed.

Lemma GetAll_ok m ws : repo_ok (sessions m) →
  ∃ l, GetAllSessions ws m = (Ok l, m) ∧ repo_GetAllFromWorkspaceRoot (sessions m) ws = Ok l.
Proof.
  intros Hok. destruct (repo_GetAll_spec (sessions m) ws Hok) as (l&Hl&_).
  exists l. unfold GetAllSessions. by rewrite Hl.
Qed.

(** The sessions of a workspace. *)
Definition sessions_of m (ws : string) : list Session :=
  match repo_GetAllFromWorkspaceRoot (sessions m) ws with Ok l => l | _ => [] end.

Lemma on_handler_ok {A} h x (f : notificationHandlerImpl → gores (A * notificationHandlerImpl)) a x' m :
  handlers m !! h = Some x → f x = Ok (a, x') → on_handler h f m = (Ok a, set_handler h x' m).
Proof. intros Hx Hf. unfold on_handler. by rewrite Hx, Hf. Qed.

Lemma set_handler_id h x m : handlers m !! h = Some x → set_handler h x m = m.
Proof. intros Hx. destruct m. unfold set_handler. cbn in *. by rewrite insert_id. Qed.
Lemma set_handler_twice h x x' m : set_handler h x' (set_handler h x m) = set_handler h x' m.
Proof. unfold set_handler. cbn. by rewrite insert_insert_eq. Qed.
Lemma set_handler_lookup h x m : handlers (set_handler h x m) !! h = Some x.
Proof. apply lookup_insert_eq. Qed.

Lemma read_handler_ok h x m : handlers m !! h = Some x → read_handler h m = (Ok x, m).
Proof.
  intros Hx. unfold read_handler. rewrite (on_handler_ok _ x _ x x) by done. by rewrite set_handler_id.
Qed.

(** A broadcast captures the update and reports to the sessions of the workspace. *)
Lemma broadcastUpdate_run h x update m :
  repo_ok (sessions m) → handlers m !! h = Some x →
  broadcastUpdate ide h update m =
  (Ok tt, add_calls ((λ s, (UUID s, Progress (token x)
      (WorkDoneProgressReport (captureUpdate update x).1 0))) <$> sessions_of m (workspaceRoot x))
    (set_handler h (captureUpdate update x).2 m)).
Proof.
  intros Hok Hx. unfold broadcastUpdate.
  rewrite (sbind_ok _ _ _ _ _ (on_handler_ok h x _ (captureUpdate update x).1
    (captureUpdate update x).2 m Hx eq_refl)).
  rewrite (sbind_ok _ _ _ _ _ (read_handler_ok h _ _ (set_handler_lookup _ _ _))).
  destruct (GetAll_ok (set_handler h (captureUpdate update x).2 m) (workspaceRoot x))
    as (l&Hl&Hl'); [done|].
  change (workspaceRoot (captureUpdate update x).2) with (workspaceRoot x).
  rewrite (sbind_try_ok _ _ _ _ _ Hl). unfold updateNotification.
  rewrite for_sessions_gateway. unfold sessions_of. cbn in Hl'. by rewrite Hl'.
Qed.

(** ** The invariant *)

Definition closed_pc (c : cleaner_pc) : bool :=
  match c with CEnd | CReturned => true | _ => false end.
Definition selecting_pc (c : cleaner_pc) : bool :=
  match c with CWait | CDelete | CSignal => true | _ => false end.

(** A handler: the wait group is held while there are users, the goroutines are
    at matching places, the channel is closed after the cleaner has closed it,
    and is empty once the receiver has returned. *)
Record handler_inv (x : notificationHandlerImpl) : Prop := {
  hi_wg : senderWg x = if 0 <? senderCount x then 1 else 0;
  hi_users : cleaner x ≠ CWait → senderCount x ≤ 0;
  hi_closed : channelClosed x = closed_pc (cleaner x);
  hi_isClosed : isClosed x = channelClosed x;
  hi_select : bool_decide (receiver x = RSelect) = selecting_pc (cleaner x);
  hi_returned : receiver x = RReturned → channelClosed x = true ∧ channel x = [];
  hi_closeCh : closeChClosed x = bool_decide (receiver x = RReturned);
  hi_captured : captured (notificationsBySender x);
  hi_buffer : (length (channel x) ≤ _bufferSize)%nat
}.

(** The manager: it knows handlers by their ids, and every handler that has
    users. *)
Record manager_inv m : Prop := {
  mi_sessions : repo_ok (sessions m);
  mi_handlers h x : handlers m !! h = Some x → handler_inv x;
  mi_managers nid h : managers m !! nid = Some h → ∃ x, handlers m !! h = Some x ∧ id x = nid;
  mi_known h x : handlers m !! h = Some x → 0 < senderCount x → managers m !! id x = Some h;
  mi_starting h : startingAt m = Some h → is_Some (handlers m !! h)
}.

Lemma New_inv r : repo_ok r → manager_inv (NewNotificationManager r).
Proof. intros Hr. split; cbn; [done|intros ??; by rewrite lookup_empty..|done]. Qed.

Lemma add_calls_inv cs m : manager_inv m → manager_inv (add_calls cs m).
Proof. by intros []; split. Qed.

Lemma set_starting_inv o m :
  manager_inv m → (∀ h, o = Some h → is_Some (handlers m !! h)) → manager_inv (set_starting o m).
Proof. by intros [] ?; split. Qed.

(** A handler may be changed to one with the same id, that has no new users. *)
Lemma set_handler_inv h x x' m :
  manager_inv m → handlers m !! h = Some x → handler_inv x' → id x' = id x →
  (0 < senderCount x' → 0 < senderCount x) → manager_inv (set_handler h x' m).
Proof.
  intros I Hx Hx' Hid Hc. split; cbn.
  - apply I.
  - intros h' y [[<- <-]|[_ Hy]]%lookup_insert_Some; [done|by eapply mi_handlers].
  - intros nid h' Hn. destruct (mi_managers _ I _ _ Hn) as (y&Hy&Hyid).
    destruct (decide (h' = h)) as [->|Hne].
    + exists x'. rewrite lookup_insert_eq. simplify_eq. by rewrite Hid.
    + exists y. by rewrite lookup_insert_ne.
  - intros h' y [[<- <-]|[_ Hy]]%lookup_insert_Some Hpos; [|by apply (mi_known _ I)].
    rewrite Hid. apply (mi_known _ I); auto.
  - intros h' Hs. destruct (decide (h' = h)) as [->|Hne];
      [by rewrite lookup_insert_eq|rewrite lookup_insert_ne by done; by apply I].
Qed.

Lemma Add_inv x : handler_inv x → handler_inv (Add x).
Proof.
  unfold Add. destruct (Z.leb_spec (senderCount x) 0) as [Hle|Hlt]; [done|]. intros [].
  split; cbn; try done.
  - rewrite hi_wg0. destruct (Z.ltb_spec 0 (senderCount x)), (Z.ltb_spec 0 (senderCount x + 1)); lia.
  - intros Hc. apply hi_users0 in Hc. lia.
Qed.

Lemma Done_run x : handler_inv x →
  ∃ wg, Done x = Ok (set_senders (senderCount x - 1) wg x) ∧
    handler_inv (set_senders (senderCount x - 1) wg x).
Proof.
  intros I. unfold Done. pose proof (hi_wg _ I) as Hwg.
  destruct (Z.eqb_spec (senderCount x - 1) 0) as [Hz|Hz].
  - destruct (Z.ltb_spec 0 (senderCount x)); [|lia]. rewrite Hwg. eexists. split; [reflexivity|].
    destruct I. split; cbn; try done; [|intros ?; lia]. by rewrite Hz.
  - eexists. split; [reflexivity|]. destruct I. split; cbn; try done.
    + rewrite Hwg. destruct (Z.ltb_spec 0 (senderCount x)), (Z.ltb_spec 0 (senderCount x - 1)); lia.
    + intros Hc. apply hi_users0 in Hc. lia.
Qed.

(** ** The calls *)

Lemma deleteIfClosed_run nid m :
  manager_inv m →
  ∃ m', deleteIfClosed nid m = (Ok tt, m') ∧ manager_inv m' ∧
    handlers m' = handlers m ∧ startingAt m' = startingAt m ∧ gatewayCalls m' = gatewayCalls m ∧
    sessions m' = sessions m ∧
    (∀ h, managers m' !! nid = Some h →
      ∃ x, handlers m !! h = Some x ∧ id x = nid ∧ 0 < senderCount x).
Proof.
  intros I. unfold deleteIfClosed. rewrite sbind_get.
  destruct (managers m !! nid) as [mgr|] eqn:Hn.
  2:{ exists m. split_and!; [done..|]. intros h. by rewrite Hn. }
  destruct (mi_managers _ I _ _ Hn) as (x&Hx&Hid).
  rewrite (sbind_ok _ _ _ _ _ (read_handler_ok _ _ _ Hx)). unfold IsClosed.
  destruct (Z.leb_spec (senderCount x) 0) as [Hle|Hlt].
  - eexists. split_and!; [reflexivity| |done..|cbn; intros h; by rewrite lookup_delete_eq].
    destruct I as [I1 I2 I3 I4 I5]. split; [done..| | |done]; cbn.
    + intros nid' h [_ Hh]%lookup_delete_Some. by apply I3.
    + intros h y Hy Hpos. rewrite lookup_delete_ne; [by apply I4|]. intros Hid'.
      specialize (I4 _ _ Hy Hpos). rewrite <- Hid', Hn in I4. simplify_eq. lia.
  - exists m. split_and!; [done..|]. intros h. rewrite Hn. intros [= <-]. by exists x.
Qed.

(** A new handler. *)
Lemma NewNotificationHandler_run ws title nid m :
  repo_ok (sessions m) →
  ∃ h x m', NewNotificationHandler factory_UUID ide ws title nid m = (Ok h, m') ∧
    handlers m !! h = None ∧ handlers m' = <[h := x]> (handlers m) ∧
    x = handleUpdates (mkHandler ws nid false (factory_UUID (uuids m)) ∅ [] false false 1 1
      RReturned CReturned) ∧
    managers m' = managers m ∧ startingAt m' = startingAt m ∧ sessions m' = sessions m ∧
    ∀ s, s ∈ sessions_of m ws →
      (UUID s, WorkDoneProgressCreate (token x)) ∈ gatewayCalls m'.
Proof.
  intros Hok. unfold NewNotificationHandler. rewrite sbind_get, sbind_modify. cbv zeta.
  set (x := mkHandler _ _ _ _ _ _ _ _ _ _ _ _). set (m1 := mkManager _ _ _ _ _ _).
  destruct (GetAll_ok m1 ws Hok) as (l&Hl&Hl').
  rewrite (sbind_ok _ _ _ _ _ Hl).
  destruct (for_sessions_init l (token x) title m1) as (cs&Hrun&Hcs).
  rewrite (sbind_ok _ _ _ _ _ Hrun), sbind_get, sbind_modify. cbv zeta.
  eexists _, (handleUpdates x), _. split_and!; [reflexivity| |done..|].
  - apply not_elem_of_dom. cbn. apply (is_fresh (C := gset N)).
  - intros s Hs. cbn. apply elem_of_app. right. apply Hcs. unfold sessions_of in Hs.
    cbn in Hl'. by rewrite Hl' in Hs.
Qed.

Lemma handleUpdates_inv ws nid tok :
  handler_inv (handleUpdates (mkHandler ws nid false tok ∅ [] false false 1 1 RReturned CReturned)).
Proof. split; cbn; try done; try apply captured_empty. unfold _bufferSize. lia. Qed.

Lemma StartNotification_lookup_run ws title m :
  manager_inv m → startingAt m = None →
  (∃ h x m', StartNotification_lookup factory_UUID ide ws title m = (Ok None, m') ∧ manager_inv m' ∧
     startingAt m' = Some h ∧ handlers m' = handlers m ∧ handlers m !! h = Some x ∧
     0 < senderCount x ∧ id x = ws +:+ "-" +:+ title) ∨
  (∃ h x m', StartNotification_lookup factory_UUID ide ws title m = (Ok (Some h), m') ∧ manager_inv m' ∧
     startingAt m' = None ∧ handlers m !! h = None ∧ handlers m' = <[h := x]> (handlers m) ∧
     senderCount x = 1 ∧ id x = ws +:+ "-" +:+ title).
Proof.
  intros I Hs. unfold StartNotification_lookup. cbv zeta. set (nid := ws +:+ "-" +:+ title).
  destruct (deleteIfClosed_run nid m I) as (m1&Hrun1&I1&Hh1&Hst1&_&_&Hopen).
  rewrite (sbind_ok _ _ _ _ _ Hrun1), sbind_get.
  destruct (managers m1 !! nid) as [h|] eqn:Hn.
  - left. destruct (Hopen h eq_refl) as (x&Hx&Hid&Hpos).
    eexists h, x, _. split_and!; [reflexivity| |done..].
    apply set_starting_inv; [done|]. intros ? [= <-]. rewrite Hh1. by eexists.
  - right. destruct (NewNotificationHandler_run ws title nid m1 (mi_sessions _ I1))
      as (h&x&m2&Hrun2&Hf&Hh2&Hx&Hm2&Hst2&Hses2&_).
    rewrite (sbind_ok _ _ _ _ _ Hrun2). rewrite Hh1 in Hf.
    eexists h, x, _. split_and!; [reflexivity| |by cbn; rewrite Hst2, Hst1|done|by cbn; rewrite Hh2, Hh1|by subst x..].
    destruct I1 as [J1 J2 J3 J4 J5]. rewrite Hh1 in *.
    split; cbn; rewrite ?Hh2, ?Hm2, ?Hst2, ?Hses2; [done| | | |].
    + intros h' y [[<- <-]|[_ Hy]]%lookup_insert_Some; [subst; apply handleUpdates_inv|by eapply J2].
    + intros nid' h' [[<- <-]|[_ Hy]]%lookup_insert_Some.
      * exists x. rewrite lookup_insert_eq. by subst.
      * destruct (J3 _ _ Hy) as (y&Hy'&?). exists y. rewrite lookup_insert_ne; [done|].
        intros ->. congruence.
    + intros h' y [[<- <-]|[Hne Hy]]%lookup_insert_Some Hpos.
      * subst x. apply lookup_insert_eq.
      * specialize (J4 _ _ Hy Hpos). rewrite lookup_insert_ne; [done|]. congruence.
    + rewrite Hst1, Hs. done.
Qed.

Lemma StartNotification_add_run h x m :
  manager_inv m → startingAt m = Some h → handlers m !! h = Some x →
  StartNotification_add m = (Ok h, set_starting None (set_handler h (Add x) m)) ∧
  manager_inv (set_starting None (set_handler h (Add x) m)).
Proof.
  intros I Hs Hx. split.
  - unfold StartNotification_add. rewrite sbind_get, Hs.
    by rewrite (sbind_ok _ _ _ _ _ (on_handler_ok _ _ (λ x, Ok (tt, Add x)) _ _ _ Hx eq_refl)).
  - apply set_starting_inv; [|done]. eapply set_handler_inv; [done|done|..].
    + apply Add_inv. by eapply mi_handlers.
    + unfold Add. by destruct (_ <=? _).
    + unfold Add. by destruct (Z.leb_spec (senderCount x) 0).
Qed.

Lemma handler_Done_run h x m :
  manager_inv m → handlers m !! h = Some x →
  ∃ x', handler_Done h m = (Ok tt, set_handler h x' m) ∧ senderCount x' = senderCount x - 1 ∧
    manager_inv (set_handler h x' m).
Proof.
  intros I Hx. destruct (Done_run x) as (wg&Hd&Hi); [by eapply mi_handlers|].
  eexists. split_and!.
  - unfold handler_Done. apply (on_handler_ok h x); [done|]. by rewrite Hd.
  - done.
  - eapply set_handler_inv; [done|done|done|done|]. cbn. lia.
Qed.

Lemma enqueue_run h x n m :
  manager_inv m → handlers m !! h = Some x → channelClosed x = false →
  (length (channel x) < _bufferSize)%nat →
  enqueue h n m = (Ok tt, set_handler h (set_channel (channel x ++ [n]) x) m) ∧
  manager_inv (set_handler h (set_channel (channel x ++ [n]) x) m).
Proof.
  intros I Hx Hc Hl. split; [apply (on_handler_ok h x); [done|by rewrite Hc]|].
  eapply set_handler_inv; [done|done| |done|done].
  destruct (mi_handlers _ I _ _ Hx). split; cbn; try done.
  - intros Hr. apply hi_returned0 in Hr as [? _]. congruence.
  - rewrite length_app. cbn. lia.
Qed.

(** ** The goroutines *)

(** How far the goroutines of a handler are from their end, in steps. *)
Definition cleaner_rank (c : cleaner_pc) : nat :=
  match c with CWait => 5 | CDelete => 4 | CSignal => 3 | CClose => 2 | CEnd => 1 | CReturned => 0 end.
Definition receiver_rank (r : receiver_pc) : nat :=
  match r with RSelect => 2 | RDrain => 1 | RReturned => 0 end.
Definition rank (x : notificationHandlerImpl) : nat :=
  length (channel x) + cleaner_rank (cleaner x) + receiver_rank (receiver x).

(** What a step of a goroutine leaves of its handler. *)
Record moved (x x' : notificationHandlerImpl) : Prop := {
  mv_id : id x' = id x;
  mv_ws : workspaceRoot x' = workspaceRoot x;
  mv_token : token x' = token x;
  mv_count : senderCount x' = senderCount x;
  mv_rank : (rank x' < rank x)%nat;
  mv_inv : handler_inv x'
}.

Lemma moved_inv h x x' cs m :
  manager_inv m → handlers m !! h = Some x → moved x x' →
  manager_inv (add_calls cs (set_handler h x' m)).
Proof.
  intros I Hx []. apply add_calls_inv. eapply set_handler_inv; try done. by rewrite mv_count0.
Qed.

Lemma moved_receive x update rest :
  handler_inv x → channel x = update :: rest →
  moved x (captureUpdate update (set_channel rest x)).2.
Proof.
  intros I Hc. split; cbn; try done.
  - unfold rank. cbn. rewrite Hc. cbn. lia.
  - destruct I. split; cbn; try done.
    + intros Hr. apply hi_returned0 in Hr as [_ ?]. congruence.
    + by apply record_update_captured.
    + rewrite Hc in hi_buffer0. cbn in hi_buffer0. lia.
Qed.

(** The receiving goroutine with an update at the front of the channel. *)
Lemma receive_run h x update rest m :
  manager_inv m → handlers m !! h = Some x → channel x = update :: rest →
  (on_handler h (λ x, Ok (tt, set_channel rest x)) ;;; broadcastUpdate ide h update) m =
  (Ok tt, add_calls ((λ s, (UUID s, Progress (token x)
      (WorkDoneProgressReport (captureUpdate update x).1 0))) <$> sessions_of m (workspaceRoot x))
    (set_handler h (captureUpdate update (set_channel rest x)).2 m)).
Proof.
  intros I Hx Hc.
  rewrite (sbind_ok _ _ _ _ _ (on_handler_ok _ _ (λ x, Ok (tt, set_channel rest x)) _ _ _ Hx eq_refl)).
  rewrite (broadcastUpdate_run h (set_channel rest x)); [|apply I|apply set_handler_lookup].
  by rewrite set_handler_twice.
Qed.

(** The steps of the cleaner and the end of the receiver. *)
Ltac move_solve :=
  intros I; intros; destruct I;
  match goal with x : notificationHandlerImpl |- _ => destruct x end;
  cbn in *; simplify_eq/=;
  split; cbn; [done..|unfold rank; cbn; lia|split; cbn; repeat case_bool_decide; naive_solver lia].

Lemma moved_wait x : handler_inv x →
  cleaner x = CWait → senderWg x = 0 → moved x (set_pcs (receiver x) CDelete x).
Proof.
  intros I Hc Hwg. pose proof (hi_wg _ I) as Hcount.
  assert (Hle : senderCount x ≤ 0) by (destruct (Z.ltb_spec 0 (senderCount x)); lia).
  revert I Hc Hle. clear. move_solve.
Qed.
Lemma moved_delete x : handler_inv x → cleaner x = CDelete → moved x (set_pcs (receiver x) CSignal x).
Proof. move_solve. Qed.
Lemma moved_signal x : handler_inv x →
  cleaner x = CSignal → receiver x = RSelect → moved x (set_pcs RDrain CClose x).
Proof. move_solve. Qed.
Lemma moved_close x : handler_inv x →
  cleaner x = CClose → moved x (close_channel (set_pcs (receiver x) CEnd x)).
Proof. move_solve. Qed.
Lemma moved_end x : handler_inv x → cleaner x = CEnd → moved x (set_pcs (receiver x) CReturned x).
Proof. move_solve. Qed.
Lemma moved_drained x : handler_inv x →
  receiver x = RDrain → channelClosed x = true → channel x = [] →
  moved x (close_closeCh (set_pcs RReturned (cleaner x) x)).
Proof. move_solve. Qed.

(** The outcome of a step that changes its handler alone. *)
Record goes (h : N) m (r : gores unit) m' : Prop := {
  go_ok : r = Ok tt;
  go_inv : manager_inv m';
  go_starting : startingAt m' = startingAt m;
  go_sessions : sessions m' = sessions m;
  go_moved : ∃ x x', handlers m !! h = Some x ∧ moved x x' ∧ handlers m' = <[h := x']> (handlers m)
}.

Lemma goes_moved h x x' cs m :
  manager_inv m → handlers m !! h = Some x → moved x x' →
  goes h m (Ok tt) (add_calls cs (set_handler h x' m)).
Proof. intros I Hx Hm. split; [done|by eapply moved_inv|done..|by exists x, x']. Qed.

Lemma goes_set h x x' m :
  manager_inv m → handlers m !! h = Some x → moved x x' → goes h m (Ok tt) (set_handler h x' m).
Proof. intros. rewrite <- (add_calls_nil (set_handler _ _ _)). by eapply goes_moved. Qed.

Lemma goes_delete h x m :
  manager_inv m → handlers m !! h = Some x → cleaner x = CDelete →
  let '(r, m') := (Delete (id x) ;;; on_handler h (λ x, Ok (tt, set_pcs (receiver x) CSignal x))) m in
  goes h m r m'.
Proof.
  intros I Hx Hc. unfold Delete.
  destruct (deleteIfClosed_run (id x) m I) as (m1&Hrun&I1&Hh&Hst&_&Hses&_).
  rewrite (sbind_ok _ _ _ _ _ Hrun). rewrite <- Hh in Hx.
  rewrite (on_handler_ok _ _ _ _ _ _ Hx eq_refl).
  destruct (goes_set h x (set_pcs (receiver x) CSignal x) m1 I1 Hx) as [? ? ? ? Hm].
  { apply moved_delete; [by eapply mi_handlers|done]. }
  split; [done..|by rewrite Hst in *|by rewrite Hses in *|by rewrite Hh in *].
Qed.

Lemma goes_end h x m :
  manager_inv m → handlers m !! h = Some x → cleaner x = CEnd →
  (r <- try_ (GetAllSessions (workspaceRoot x));;
   match r with
   | inl _ => sret tt
   | inr l => for_sessions l (endNotification ide (token x))
   end ;;;
   on_handler h (λ x, Ok (tt, set_pcs (receiver x) CReturned x))) m =
  (Ok tt, add_calls ((λ s, (UUID s, Progress (token x) WorkDoneProgressEnd)) <$>
      sessions_of m (workspaceRoot x)) (set_handler h (set_pcs (receiver x) CReturned x) m)).
Proof.
  intros I Hx Hc. destruct (GetAll_ok m (workspaceRoot x) (mi_sessions _ I)) as (l&Hl&Hl').
  rewrite (sbind_try_ok _ _ _ _ _ Hl).
  rewrite (sbind_ok _ _ _ _ _ (for_sessions_gateway l (Progress (token x) WorkDoneProgressEnd) m)).
  rewrite (on_handler_ok h x _ tt (set_pcs (receiver x) CReturned x)) by done.
  unfold sessions_of. by rewrite Hl'.
Qed.

(** A step of a goroutine never panics, keeps the invariant and comes closer to
    the end of the goroutines; the receiver never spins on a closed channel. *)
Lemma goroutine_run g h m r m' :
  manager_inv m → goroutine ide g h m = Some (r, m') → goes h m r m'.
Proof.
  intros I. unfold goroutine. intros (x&Hx&Hg)%bind_Some.
  pose proof (mi_handlers _ I _ _ Hx) as J.
  destruct g; apply bind_Some in Hg as (Hpc&_&Hg); simplify_eq.
  - destruct (channel x) as [|update rest] eqn:Hc.
    + apply bind_Some in Hg as (Hcl&_&_). pose proof (hi_select _ J) as Hs.
      rewrite (hi_closed _ J) in Hcl. rewrite Hpc in Hs. by destruct (cleaner x).
    + rewrite (receive_run h x) in Hg by done. simplify_eq.
      apply (goes_moved h x); [done..|]. by apply moved_receive.
  - destruct (channel x) as [|update rest] eqn:Hc.
    + apply bind_Some in Hg as (Hcl&_&Hg). rewrite (on_handler_ok _ _ _ _ _ _ Hx eq_refl) in Hg.
      simplify_eq. apply (goes_set h x); [done..|]. by apply moved_drained.
    + rewrite (receive_run h x) in Hg by done. simplify_eq.
      apply (goes_moved h x); [done..|]. by apply moved_receive.
  - destruct Hpc as [Hc Hwg]. rewrite (on_handler_ok _ _ _ _ _ _ Hx eq_refl) in Hg. simplify_eq.
    rewrite (hi_isClosed _ J), (hi_closed _ J), Hc. apply (goes_set h x); [done..|]. by apply moved_wait.
  - destruct Hpc as [Hc _]. pose proof (goes_delete h x m I Hx Hc) as Hd.
    by rewrite Hg in Hd.
  - destruct Hpc as [Hc Hr]. rewrite (on_handler_ok _ _ _ _ _ _ Hx eq_refl) in Hg. simplify_eq.
    apply (goes_set h x); [done..|]. by apply moved_signal.
  - rewrite (on_handler_ok h x _ tt (close_channel (set_pcs (receiver x) CEnd x))) in Hg;
      [|done|by rewrite (hi_closed _ J), Hpc].
    simplify_eq. apply (goes_set h x); [done..|]. by apply moved_close.
  - rewrite (goes_end h x) in Hg by done. simplify_eq.
    apply (goes_moved h x); [done..|]. by apply moved_end.
Qed.

(** A handler without users always has a goroutine that can run, until both
    have returned; [Delete] waits for a [StartNotification] to return. *)
Lemma goroutine_enabled h x m :
  manager_inv m → handlers m !! h = Some x → senderCount x ≤ 0 → startingAt m = None →
  (receiver x = RReturned ∧ cleaner x = CReturned) ∨ ∃ g r, goroutine ide g h m = Some r.
Proof.
  intros I Hx Hle Hst. pose proof (mi_handlers _ I _ _ Hx) as J. pose proof (hi_select _ J) as Hs.
  pose proof (hi_closed _ J) as Hcl. pose proof (hi_wg _ J) as Hwg.
  destruct (Z.ltb_spec 0 (senderCount x)); [lia|].
  assert (Hrun : ∀ g, is_Some (goroutine ide g h m) → ∃ g r, goroutine ide g h m = Some r).
  { intros g [r Hg]. eauto. }
  destruct (cleaner x) eqn:Hc; cbn in Hs;
    [apply bool_decide_eq_true in Hs; right..|right|right|apply bool_decide_eq_false in Hs].
  1: apply (Hrun GWaitDone). 2: apply (Hrun GDelete). 3: apply (Hrun GSignal).
  4: apply (Hrun GClose). 5: apply (Hrun GEnd).
  1-5: by unfold goroutine; rewrite Hx; cbn; rewrite option_guard_True by done; eexists.
  destruct (receiver x) eqn:Hr; [done| |by left].
  right. apply (Hrun GDrain). unfold goroutine. rewrite Hx. cbn.
  rewrite option_guard_True by done. cbn. destruct (channel x); [|by eexists].
  rewrite option_guard_True by done. by eexists.
Qed.

(** ** Every action *)

Definition action_ok (a : action) : Prop :=
  match a with ASessions r => repo_ok r | _ => True end.

(** The users of a handler, as it counts them. *)
Definition count m (h : N) : Z :=
  match handlers m !! h with Some x => senderCount x | None => 0 end.

Lemma count_set h x m h' :
  count (set_handler h x m) h' = if decide (h' = h) then senderCount x else count m h'.
Proof.
  unfold count. cbn. destruct (decide (h' = h)) as [->|Hne];
    [by rewrite lookup_insert_eq|by rewrite lookup_insert_ne].
Qed.

(** What an action does to the counts: a [StartNotification] that returns adds
    one user, unless the handler it found has been closed meanwhile. *)
Definition counted (a : action) (r : gores (option N)) m m' : Prop :=
  match a with
  | AStart ws title =>
    match r with
    | Ok (Some h) => count m h = 0 ∧ (∀ h', count m' h' = if decide (h' = h) then 1 else count m h') ∧
        startingAt m' = None
    | Ok None => (∀ h', count m' h' = count m h') ∧ ∃ h, startingAt m' = Some h ∧ 0 < count m h
    | _ => False
    end
  | AStartAdd =>
    ∃ h, r = Ok (Some h) ∧ startingAt m = Some h ∧ startingAt m' = None ∧
      ∀ h', count m' h' = if decide (h' = h) then (if 0 <? count m h then count m h + 1 else count m h)
        else count m h'
  | ASend h _ => (r = Ok None ∨ r = Panic ∧ count m h ≤ 0) ∧ (∀ h', count m' h' = count m h') ∧
      startingAt m' = startingAt m
  | ADone h => (r = Ok None ∨ r = Panic ∧ handlers m !! h = None) ∧
      (∀ h', count m' h' = if decide (h' = h) then (match r with Ok _ => count m h - 1 | _ => count m h end)
        else count m h') ∧
      startingAt m' = startingAt m
  | ASessions _ | AGo _ _ => r = Ok None ∧ (∀ h', count m' h' = count m h') ∧ startingAt m' = startingAt m
  end.

Lemma count_moved h x x' m m' :
  handlers m !! h = Some x → moved x x' → handlers m' = <[h := x']> (handlers m) →
  ∀ h', count m' h' = count m h'.
Proof.
  intros Hx Hm Hh h'. unfold count. rewrite Hh. destruct (decide (h' = h)) as [->|Hne].
  - rewrite lookup_insert_eq, Hx. apply Hm.
  - by rewrite lookup_insert_ne.
Qed.

Lemma act_start_run ws title m r m' :
  manager_inv m → act (AStart ws title) m = Some (r, m') →
  manager_inv m' ∧ counted (AStart ws title) r m m'.
Proof.
  intros I. cbn. intros (Hst&_&Hrun)%bind_Some.
  destruct (StartNotification_lookup_run ws title m I Hst)
    as [(h&x&m1&Hrun1&I1&Hst1&Hh&Hx&Hpos&_)|(h&x&m1&Hrun1&I1&Hst1&Hf&Hh&Hc&_)];
    rewrite Hrun1 in Hrun; simplify_eq; (split; [done|]).
  - split; [intros h'; unfold count; by rewrite Hh|]. exists h. split; [done|].
    unfold count. by rewrite Hx.
  - unfold count. rewrite Hf, Hh. split_and!; [done| |done]. intros h'.
    destruct (decide (h' = h)) as [->|Hne]; [by rewrite lookup_insert_eq|by rewrite lookup_insert_ne].
Qed.

Lemma act_add_run m r m' :
  manager_inv m → act AStartAdd m = Some (r, m') → manager_inv m' ∧ counted AStartAdd r m m'.
Proof.
  intros I. cbn. intros ([h Hst]&_&Hrun)%bind_Some.
  destruct (mi_starting _ I _ Hst) as [x Hx].
  destruct (StartNotification_add_run h x m I Hst Hx) as [Hadd I'].
  rewrite (sbind_ok _ _ _ _ _ Hadd) in Hrun. injection Hrun as <- <-. split; [done|].
  exists h. split_and!; [done..|]. intros h'.
  change (count (set_starting None (set_handler h (Add x) m)) h') with (count (set_handler h (Add x) m) h').
  rewrite count_set. destruct (decide (h' = h)) as [->|]; [|done]. unfold count. rewrite Hx.
  unfold Add. destruct (Z.leb_spec (senderCount x) 0), (Z.ltb_spec 0 (senderCount x)); cbn; lia.
Qed.

Lemma act_send_run h n m r m' :
  manager_inv m → act (ASend h n) m = Some (r, m') → manager_inv m' ∧ counted (ASend h n) r m m'.
Proof.
  intros I. cbn. intros (x&Hx&(Hroom&_&Hrun)%bind_Some)%bind_Some.
  pose proof (mi_handlers _ I _ _ Hx) as J. unfold discard in Hrun.
  destruct (channelClosed x) eqn:Hc.
  - assert (enqueue h n m = (Panic, m)) as Hp by (unfold enqueue, on_handler; by rewrite Hx, Hc).
    rewrite (sbind_panic _ _ _ _ Hp) in Hrun. injection Hrun as <- <-.
    split_and!; [done| |done..]. right. split; [done|]. unfold count. rewrite Hx.
    apply (hi_users _ J). rewrite (hi_closed _ J) in Hc. by destruct (cleaner x).
  - destruct Hroom as [?|Hroom]; [done|]. destruct (enqueue_run h x n m I Hx Hc Hroom) as [He I'].
    rewrite (sbind_ok _ _ _ _ _ He) in Hrun. injection Hrun as <- <-.
    split_and!; [done|by left| |done]. intros h'. rewrite count_set.
    destruct (decide (h' = h)) as [->|]; [|done]. unfold count. by rewrite Hx.
Qed.

Lemma act_done_run h m r m' :
  manager_inv m → act (ADone h) m = Some (r, m') → manager_inv m' ∧ counted (ADone h) r m m'.
Proof.
  intros I. cbn. unfold discard. intros [= Hrun].
  destruct (handlers m !! h) as [x|] eqn:Hx.
  - destruct (handler_Done_run h x m I Hx) as (x'&Hd&Hc&I').
    rewrite (sbind_ok _ _ _ _ _ Hd) in Hrun. injection Hrun as <- <-.
    split_and!; [done|by left| |done]. intros h'. rewrite count_set.
    destruct (decide (h' = h)) as [->|]; [|done]. unfold count. by rewrite Hx.
  - assert (handler_Done h m = (Panic, m)) as Hp by (unfold handler_Done, on_handler; by rewrite Hx).
    rewrite (sbind_panic _ _ _ _ Hp) in Hrun. injection Hrun as <- <-.
    split_and!; [done|by right| |done]. intros h'. by destruct (decide (h' = h)) as [->|].
Qed.

Lemma act_run a m r m' :
  manager_inv m → action_ok a → act a m = Some (r, m') → manager_inv m' ∧ counted a r m m'.
Proof.
  intros I Ha. destruct a as [ws title| |h n|h|s|g h].
  - by apply act_start_run.
  - by apply act_add_run.
  - by apply act_send_run.
  - by apply act_done_run.
  - intros [= <- <-]. split; [|done]. by destruct I; split.
  - cbn. intros ([r' m1]&Hg&Hr)%bind_Some. apply goroutine_run in Hg as [-> I' Hst _ (x&x'&Hx&Hm&Hh)]; [|done].
    unfold discard, sbind, sret in Hr. cbn in Hr. simplify_eq. split; [done|]. cbn. split_and!; [done| |done].
    by eapply count_moved.
Qed.

(** ** Interleavings *)

(** The users that have started and not given back a handler. *)
Definition held_after (a : action) (r : gores (option N)) (held : N → Z) (h : N) : Z :=
  held h + (match r with Ok (Some h') => if decide (h = h') then 1 else 0 | _ => 0 end)
    - (match a with ADone h' => if decide (h = h') then 1 else 0 | _ => 0 end).

(** Callers send on and give back only handlers that they hold. *)
Definition holds (held : N → Z) (a : action) : Prop :=
  match a with ASend h _ | ADone h => 0 < held h | _ => True end.
(** The last user of a handler does not leave while a [StartNotification] that
    found the handler is about to add one. *)
Definition orderly (held : N → Z) m (a : action) : Prop :=
  match a with ADone h => startingAt m = Some h → 1 < held h | _ => True end.

(** The states that callers, goroutines and repository reach. *)
Inductive reachable (rule : (N → Z) → M → action → Prop) : M → (N → Z) → Prop :=
  | reach_new r : repo_ok r → reachable rule (NewNotificationManager r) (λ _, 0)
  | reach_act m held a r m' :
      reachable rule m held → action_ok a → holds held a → rule held m a →
      act a m = Some (r, m') → r ≠ Panic → reachable rule m' (held_after a r held).

Lemma reachable_inv rule m held : reachable rule m held → manager_inv m.
Proof.
  induction 1 as [r Hr|m held a r m' _ I Ha _ _ Hact _]; [by apply New_inv|].
  by eapply act_run in Hact as [? _].
Qed.

Lemma reachable_counts m held :
  reachable orderly m held →
  (∀ h, held h = count m h ∧ 0 ≤ held h) ∧ ∀ h, startingAt m = Some h → 0 < held h.
Proof.
  induction 1 as [r Hr|m held a r m' Hre [IH IHs] Ha Hho Hor Hact Hp].
  { split; [|done]. intros h. unfold count. cbn. by rewrite lookup_empty. }
  pose proof (reachable_inv _ _ _ Hre) as I. apply act_run in Hact as [_ Hc]; [|done..].
  unfold held_after. destruct a as [ws title| |h n|h|s|g h]; cbn in *.
  - destruct r as [[h|]| | |]; [| |done..].
    + destruct Hc as (H0'&Hc&Hst). rewrite Hst. split; [|done]. intros h'. rewrite Hc.
      destruct (IH h'). destruct (decide (h' = h)) as [->|]; lia.
    + destruct Hc as (Hc&h&Hst&Hpos). rewrite Hst. split.
      * intros h'. rewrite Hc. destruct (IH h'). lia.
      * intros ? [= <-]. destruct (IH h). lia.
  - destruct Hc as (h&->&Hst&->&Hc). split; [|done]. intros h'. rewrite Hc.
    destruct (IH h'), (IH h). specialize (IHs _ Hst).
    destruct (Z.ltb_spec 0 (count m h)); [|lia]. destruct (decide (h' = h)) as [->|]; lia.
  - destruct Hc as ([->|[-> ?]]&Hc&->); [|done]. split; intros h'; [|intros Hst; specialize (IHs _ Hst); lia].
    rewrite Hc. destruct (IH h'). lia.
  - destruct Hc as ([->|[-> ?]]&Hc&Hst'); [|done]. rewrite Hst'. split.
    + intros h'. rewrite Hc. destruct (IH h'). destruct (decide (h' = h)) as [->|]; lia.
    + intros h' Hst. specialize (IHs _ Hst). destruct (decide (h' = h)) as [->|]; [|lia].
      specialize (Hor Hst). lia.
  - destruct Hc as (->&Hc&->). split; intros h'; [|intros Hst; specialize (IHs _ Hst); lia].
    rewrite Hc. destruct (IH h'). lia.
  - destruct Hc as (->&Hc&->). split; intros h'; [|intros Hst; specialize (IHs _ Hst); lia].
    rewrite Hc. destruct (IH h'). lia.
Qed.

(** C17: In every interleaving of callers, goroutines and repository, in which the
    last user of a handler does not leave between the two critical sections of a
    [StartNotification] that found it: nothing panics, no send meets a closed
    channel, each handler counts exactly the users that hold it, and all holders
    for one workspace and title share the handler that the manager knows. *)
Theorem notifications_safe m held
    (Hre : reachable orderly m held) :
  (∀ a r m', action_ok a → holds held a → act a m = Some (r, m') → r ≠ Panic) ∧
  (∀ h, 0 < held h → ∃ x, handlers m !! h = Some x ∧ senderCount x = held h ∧
     channelClosed x = false ∧ managers m !! id x = Some h) ∧
  (∀ h x, handlers m !! h = Some x → held h = 0 → IsClosed x = true).
Proof.
  pose proof (reachable_inv _ _ _ Hre) as I. destruct (reachable_counts _ _ Hre) as [Hc Hs].
  assert (Hheld : ∀ h, 0 < held h → ∃ x, handlers m !! h = Some x ∧ senderCount x = held h).
  { intros h Hpos. destruct (Hc h) as [He _]. unfold count in He.
    destruct (handlers m !! h) as [x|]; [by exists x|lia]. }
  split_and!.
  - intros a r m' Ha Hho Hact ->. apply act_run in Hact as [_ Hr]; [|done..].
    destruct a as [ws title| |h n|h|s|g h]; cbn in *; [done|by destruct Hr as (?&?&_)| | |by destruct Hr..].
    + destruct Hr as ([?|[_ Hle]]&_); [done|]. destruct (Hc h). lia.
    + destruct Hr as ([?|[_ Hn]]&_); [done|]. destruct (Hheld h Hho) as (x&?&_). congruence.
  - intros h Hpos. destruct (Hheld h Hpos) as (x&Hx&Hcount). exists x.
    pose proof (mi_handlers _ I _ _ Hx) as J. split_and!; [done..| |apply (mi_known _ I); [done|lia]].
    rewrite (hi_closed _ J). destruct (cleaner x) eqn:Hcl; try done;
      (assert (senderCount x ≤ 0) by (apply (hi_users _ J); by rewrite Hcl)); lia.
  - intros h x Hx Hz. destruct (Hc h) as [He _]. unfold count in He. rewrite Hx in He.
    unfold IsClosed. apply Z.leb_le. lia.
Qed.

(** ** The end of a handler *)

(** Steps of the goroutines of one handler. *)
Inductive goroutines (h : N) : nat → M → M → Prop :=
  | go_none m : goroutines h 0 m m
  | go_step n g m r m1 m2 :
      goroutine ide g h m = Some (r, m1) → goroutines h n m1 m2 → goroutines h (S n) m m2.

Lemma goroutines_moved h n m m' x :
  manager_inv m → handlers m !! h = Some x → goroutines h n m m' →
  ∃ x', handlers m' !! h = Some x' ∧ (rank x' + n ≤ rank x)%nat ∧ senderCount x' = senderCount x ∧
    manager_inv m' ∧ startingAt m' = startingAt m ∧
    ∀ h', h' ≠ h → handlers m' !! h' = handlers m !! h'.
Proof.
  intros I Hx Hg. revert I x Hx. induction Hg as [m|n g m r m1 m2 Hg _ IH]; intros I x Hx.
  { exists x. split_and!; [done|lia|done..]. }
  apply goroutine_run in Hg as [_ I1 Hst _ (y&y'&Hy&Hm&Hh)]; [|done]. simplify_eq.
  destruct (IH I1 y') as (x'&?&?&?&?&?&Hne); [rewrite Hh; apply lookup_insert_eq|].
  exists x'. destruct Hm. split_and!; [done|lia|congruence|done|congruence|].
  intros h' Hh'. by rewrite Hne, Hh, lookup_insert_ne.
Qed.

Lemma goroutines_finish h m x :
  manager_inv m → handlers m !! h = Some x → senderCount x ≤ 0 → startingAt m = None →
  ∃ n m' x', goroutines h n m m' ∧ handlers m' !! h = Some x' ∧
    receiver x' = RReturned ∧ cleaner x' = CReturned.
Proof.
  remember (rank x) as k eqn:Hk. revert m x Hk.
  induction (lt_wf k) as [k _ IH]; intros m x -> I Hx Hle Hst.
  destruct (goroutine_enabled h x m I Hx Hle Hst) as [[Hr Hc]|(g&[r m1]&Hg)].
  { exists 0%nat, m, x. by split; [constructor|]. }
  pose proof Hg as Hg'. apply goroutine_run in Hg as [_ I1 Hst1 _ (y&y'&Hy&Hm&Hh)]; [|done]. simplify_eq.
  destruct Hm. destruct (IH (rank y') mv_rank0 m1 y') as (n&m'&x'&Hn&?&?&?); [done|done|..|by rewrite Hst1|].
  - rewrite Hh. apply lookup_insert_eq.
  - lia.
  - exists (S n), m', x'. split; [by econstructor|done].
Qed.

(** C18: The goroutines of a handler that has no user left end: from any state
    that is reached, with no [StartNotification] in progress, their steps come
    to an end after at most [rank] steps, in whatever order they run, and they
    stop only when both have returned; then the channel is closed and the
    receiver has taken every update out of it. *)
Theorem handler_ends rule m held h x
    (Hre : reachable rule m held) (Hx : handlers m !! h = Some x)
    (Hc : IsClosed x = true) (Hst : startingAt m = None) :
  (∀ n m', goroutines h n m m' → (n ≤ rank x)%nat) ∧
  (∀ n m', goroutines h n m m' →
    (∀ g, goroutine ide g h m' = None) →
    ∃ x', handlers m' !! h = Some x' ∧ receiver x' = RReturned ∧ cleaner x' = CReturned ∧
      channelClosed x' = true ∧ closeChClosed x' = true ∧ channel x' = []) ∧
  ∃ n m', goroutines h n m m' ∧ ∀ g, goroutine ide g h m' = None.
Proof.
  pose proof (reachable_inv _ _ _ Hre) as I.
  assert (Hle : senderCount x ≤ 0) by (unfold IsClosed in Hc; lia). split_and!.
  - intros n m' Hg. destruct (goroutines_moved h n m m' x I Hx Hg) as (x'&?&?&_). lia.
  - intros n m' Hg Hstop. destruct (goroutines_moved h n m m' x I Hx Hg) as (x'&Hx'&_&Hcx&I'&Hst'&_).
    destruct (goroutine_enabled h x' m' I' Hx') as [[Hr Hcl]|(g&r&Hgo)]; [lia|by rewrite Hst'|..].
    2:{ by rewrite Hstop in Hgo. }
    pose proof (mi_handlers _ I' _ _ Hx') as J. destruct (hi_returned _ J Hr) as [??].
    exists x'. split_and!; try done. by rewrite (hi_closeCh _ J), Hr.
  - destruct (goroutines_finish h m x I Hx Hle Hst) as (n&m'&x'&Hg&Hx'&Hr&Hcl).
    exists n, m'. split; [done|]. intros g. unfold goroutine. rewrite Hx'. cbn.
    destruct g;
      [rewrite (option_guard_False (receiver x' = _)); [done|congruence]..| | | | |];
      (rewrite option_guard_False; [done|]; intuition congruence).
Qed.

(** ** The manager under a scheduler *)

(** Goroutines run between the calls as a scheduler has it; a step that is not
    enabled is skipped. *)
Fixpoint run_goroutines (l : list (goroutine_step * N)) m : M :=
  match l with
  | [] => m
  | (g, h) :: l' =>
    match goroutine ide g h m with
    | Some (_, m') => run_goroutines l' m'
    | None => run_goroutines l' m
    end
  end.

(** A send on a full channel waits for the receiving goroutine. *)
Definition send_wait (h : N) (n : Notification) : GoM M unit := λ m,
  match handlers m !! h with
  | None => (Panic, m)
  | Some x =>
    if channelClosed x || bool_decide (length (channel x) < _bufferSize)%nat then enqueue h n m
    else match goroutine ide GReceive h m with
         | Some (Ok _, m') => enqueue h n m'
         | Some (r, m') => (r, m')
         | None => (Fuel, m)
         end
  end.

Definition between_calls m : Prop := manager_inv m ∧ startingAt m = None.
Definition handler_users m (h : N) : Z := Z.max 0 (count m h).

Lemma run_goroutines_ok l m :
  between_calls m → between_calls (run_goroutines l m) ∧ ∀ h, count (run_goroutines l m) h = count m h.
Proof.
  revert m. induction l as [|[g h] l IH]; intros m [I Hst]; cbn; [done|].
  destruct (goroutine ide g h m) as [[r m1]|] eqn:Hg; [|by apply IH].
  apply goroutine_run in Hg as [_ I1 Hst1 _ (x&x'&Hx&Hm&Hh)]; [|done].
  destruct (IH m1) as [? Hc]; [split; [done|congruence]|]. split; [done|].
  intros h'. rewrite Hc. by eapply count_moved.
Qed.

Lemma StartNotification_run ws title m :
  between_calls m →
  ∃ h m', StartNotification factory_UUID ide ws title m = (Ok h, m') ∧ between_calls m' ∧
    ∀ h', handler_users m' h' = handler_users m h' + if bool_decide (h' = h) then 1 else 0.
Proof.
  intros [I Hst]. unfold StartNotification, handler_users.
  destruct (StartNotification_lookup_run ws title m I Hst)
    as [(h&x&m1&Hrun1&I1&Hst1&Hh&Hx&Hpos&_)|(h&x&m1&Hrun1&I1&Hst1&Hf&Hh&Hc&_)];
    rewrite (sbind_ok _ _ _ _ _ Hrun1).
  - rewrite <- Hh in Hx. destruct (StartNotification_add_run h x m1 I1 Hst1 Hx) as [Hadd I'].
    assert (Hcm : ∀ h', count m1 h' = count m h') by (intros; unfold count; by rewrite Hh).
    eexists h, _. split_and!; [exact Hadd|done..|]. intros h'.
    change (count (set_starting None (set_handler h (Add x) m1)) h')
      with (count (set_handler h (Add x) m1) h').
    rewrite count_set, <- Hcm. unfold Add.
    destruct (Z.leb_spec (senderCount x) 0); [lia|]. unfold count.
    destruct (decide (h' = h)) as [->|Hne].
    + rewrite Hx, bool_decide_true by done. cbn. lia.
    + rewrite bool_decide_false by done. lia.
  - eexists h, _. split_and!; [done..|]. intros h'. unfold count. rewrite Hh.
    destruct (decide (h' = h)) as [->|Hne].
    + rewrite lookup_insert_eq, Hf, bool_decide_true by done. lia.
    + rewrite lookup_insert_ne, bool_decide_false by done. lia.
Qed.

Lemma users_handler m h : 0 < handler_users m h → ∃ x, handlers m !! h = Some x ∧ 0 < senderCount x.
Proof.
  unfold handler_users, count. destruct (handlers m !! h) as [x|]; [|lia]. exists x. split; [done|lia].
Qed.

Lemma users_open m h x :
  manager_inv m → handlers m !! h = Some x → 0 < senderCount x →
  channelClosed x = false ∧ receiver x = RSelect.
Proof.
  intros I Hx Hpos. pose proof (mi_handlers _ I _ _ Hx) as J.
  assert (Hc : cleaner x = CWait).
  { destruct (decide (cleaner x = CWait)) as [|Hne]; [done|]. apply (hi_users _ J) in Hne. lia. }
  split; [by rewrite (hi_closed _ J), Hc|]. pose proof (hi_select _ J) as Hs. rewrite Hc in Hs.
  by apply bool_decide_eq_true in Hs.
Qed.

Lemma send_wait_run h n m :
  between_calls m → 0 < handler_users m h →
  ∃ m', send_wait h n m = (Ok tt, m') ∧ between_calls m' ∧ ∀ h', count m' h' = count m h'.
Proof.
  intros [I Hst] Hu. destruct (users_handler _ _ Hu) as (x&Hx&Hpos).
  destruct (users_open m h x I Hx Hpos) as [Hopen Hsel]. unfold send_wait. rewrite Hx, Hopen. cbn.
  assert (Henq : ∀ m0 x0, manager_inv m0 → startingAt m0 = None → handlers m0 !! h = Some x0 →
    senderCount x0 = senderCount x → (length (channel x0) < _bufferSize)%nat →
    ∃ m', enqueue h n m0 = (Ok tt, m') ∧ between_calls m' ∧ ∀ h', count m' h' = count m0 h').
  { intros m0 x0 I0 Hst0 Hx0 Hc0 Hl. destruct (users_open m0 h x0 I0 Hx0) as [Ho _]; [lia|].
    destruct (enqueue_run h x0 n m0 I0 Hx0 Ho Hl) as [He I'].
    eexists. split_and!; [exact He|done|]. intros h'. rewrite count_set.
    destruct (decide (h' = h)) as [->|]; [|done]. unfold count. by rewrite Hx0. }
  case_bool_decide as Hl; [by eapply Henq|].
  destruct (goroutine ide GReceive h m) as [[r m1]|] eqn:Hg.
  - pose proof Hg as Hg'.
    apply goroutine_run in Hg as [-> I1 Hst1 _ (y&y'&Hy&Hm&Hh)]; [|done]. simplify_eq.
    assert (Hx1 : handlers m1 !! h = Some y') by (rewrite Hh; apply lookup_insert_eq).
    destruct (Henq m1 y' I1) as (m'&He&?&Hc); [congruence|done|apply Hm| |].
    { unfold goroutine in Hg'. rewrite Hx in Hg'. cbn in Hg'. rewrite option_guard_True in Hg' by done.
      destruct (channel x) as [|u rest] eqn:Hch; [cbn in Hl; unfold _bufferSize in Hl; lia|].
      cbn in Hg'. rewrite (receive_run h x u rest) in Hg' by done. simplify_eq. cbn in Hh.
      apply (f_equal (.!! h)) in Hh. rewrite !lookup_insert_eq in Hh. simplify_eq. cbn.
      pose proof (hi_buffer _ (mi_handlers _ I _ _ Hx)) as Hb. rewrite Hch in Hb. cbn in Hb. lia. }
    exists m'. split_and!; [done..|]. intros h'. rewrite Hc. by eapply count_moved.
  - exfalso. unfold goroutine in Hg. rewrite Hx in Hg. cbn in Hg. rewrite option_guard_True in Hg by done.
    destruct (channel x); [cbn in Hl; unfold _bufferSize in Hl; lia|done].
Qed.

Lemma Done_users h m :
  between_calls m → 0 < handler_users m h →
  ∃ m', handler_Done h m = (Ok tt, m') ∧ between_calls m' ∧
    ∀ h', handler_users m' h' = handler_users m h' - if bool_decide (h' = h) then 1 else 0.
Proof.
  intros [I Hst] Hu. destruct (users_handler _ _ Hu) as (x&Hx&Hpos).
  destruct (handler_Done_run h x m I Hx) as (x'&Hrun&Hc&I').
  eexists. split_and!; [exact Hrun|done|]. intros h'. unfold handler_users. rewrite count_set.
  destruct (decide (h' = h)) as [->|Hne].
  - rewrite bool_decide_true by done. unfold count. rewrite Hx. lia.
  - rewrite bool_decide_false by done. lia.
Qed.

Section scheduled.
Context (sched : M → list (goroutine_step * N)).

Definition after_goroutines {A} (f : GoM M A) : GoM M A := λ m, f (run_goroutines (sched m) m).

#[local] Instance persistent_manager : NotificationManager M := {|
  IndexNotifier.StartNotification ws title := after_goroutines (StartNotification factory_UUID ide ws title);
  send h n := after_goroutines (send_wait h n);
  IndexNotifier.Done h := after_goroutines (handler_Done h)
|}.

#[local] Instance persistent_manager_laws : NotificationLaws M.
Proof.
  refine {| mgr_ok := between_calls; users := handler_users |}.
  - intros m h _. unfold handler_users. lia.
  - intros m ws title Hb. destruct (run_goroutines_ok (sched m) m Hb) as [Hb' Hc].
    destruct (StartNotification_run ws title _ Hb') as (h&m'&Hrun&Hb2&Hu).
    left. exists h, m'. split_and!; [exact Hrun|done|]. intros h'. rewrite Hu.
    unfold handler_users at 1. by rewrite Hc.
  - intros m h n Hb Hu. destruct (run_goroutines_ok (sched m) m Hb) as [Hb' Hc].
    destruct (send_wait_run h n _ Hb') as (m'&Hrun&Hb2&Hc').
    { unfold handler_users. by rewrite Hc. }
    exists m'. split_and!; [exact Hrun|done|]. intros h'. unfold handler_users. by rewrite Hc', Hc.
  - intros m h Hb Hu. destruct (run_goroutines_ok (sched m) m Hb) as [Hb' Hc].
    destruct (Done_users h _ Hb') as (m'&Hrun&Hb2&Hu').
    { unfold handler_users. by rewrite Hc. }
    exists m'. split_and!; [exact Hrun|done|]. intros h'. rewrite Hu'. unfold handler_users at 1. by rewrite Hc.
Defined.

(** The handler of each active notification is open, with one user for each
    notification that it has. *)
Definition open_handlers_of (n : IndexNotifier M) : Prop :=
  ∀ ws s, activeNotifications n !! ws = Some s →
    ∃ x, handlers (notifiers n) !! handler s = Some x ∧ channelClosed x = false ∧
      senderCount x = uses (activeNotifications n) (handler s).

(** C19: The notifier of index loads over this manager: for every sequence of
    calls and every schedule of the goroutines in between, each call returns
    without a panic, the notifications are the files tracked and not completed,
    and a handler is open exactly for the workspaces that have one. *)
Theorem IndexNotifier_over_manager (r : R) evs (Hr : repo_ok r) :
  ∃ rs n', run_events evs (NewIndexNotifier (NewNotificationManager r)) = (rs, n') ∧ rs.*1 = evs ∧
    Forall (λ x, x.2 = Ok tt ∨ ∃ e, x.2 = Err e) rs ∧
    pendings n' = foldl pending_step ∅ rs ∧ open_handlers_of n'.
Proof.
  assert (B : between_calls (NewNotificationManager r)) by by split; [apply New_inv|].
  destruct (run_events_ok (λ _, 0) evs (NewIndexNotifier (NewNotificationManager r)))
    as (rs&n'&Hrun&Hevs&Hrs&Hp&B').
  { done. }
  { split; [exact B| |by intros ws s; cbn; rewrite lookup_empty].
    intros h. cbn. unfold handler_users, count, uses. cbn. by rewrite lookup_empty, map_filter_empty, map_size_empty. }
  exists rs, n'. split_and!; [done..|]. intros ws s Hs.
  pose proof (bal_users _ _ B' (handler s)) as Hu. pose proof (uses_pos _ _ _ Hs) as Hpos. cbn in Hu.
  destruct (users_handler (notifiers n') (handler s)) as (x&Hx&Hx0); [lia|].
  destruct (users_open _ _ _ (proj1 (bal_ok _ _ B')) Hx Hx0) as [Ho _].
  exists x. split_and!; [done..|]. unfold handler_users, count in Hu. rewrite Hx in Hu. lia.
Qed.
End scheduled.

(** ** Concrete interleavings *)

(** The actions in order, each by a caller that holds its handler. *)
Fixpoint play (acts : list action) m (held : N → Z) : option (M * (N → Z)) :=
  match acts with
  | [] => Some (m, held)
  | a :: acts' =>
    if (match a with ASend h _ | ADone h => 0 <? held h | _ => true end) then
      match act a m with
      | Some (Panic, _) | None => None
      | Some (r, m') => play acts' m' (held_after a r held)
      end
    else None
  end.

Lemma play_reachable rule acts m held m' held' :
  (∀ held m a, a ∈ acts → rule held m a) → Forall action_ok acts →
  reachable rule m held → play acts m held = Some (m', held') → reachable rule m' held'.
Proof.
  intros Hrule Hok. revert m held. induction acts as [|a acts IH]; intros m held Hre; cbn.
  { by intros [= <- <-]. }
  apply Forall_cons in Hok as [Ha Hok].
  destruct (match a with ASend h _ | ADone h => 0 <? held h | _ => true end) eqn:Hh; [|done].
  destruct (act a m) as [[r m1]|] eqn:Hact; [|done]. intros Hplay.
  assert (Hr : r ≠ Panic) by (intros ->; done).
  apply (IH ltac:(set_solver) Hok m1 (held_after a r held)); [|by destruct r].
  eapply reach_act; [done|done| |apply Hrule; by left|done|done].
  destruct a; cbn in *; by try apply Z.ltb_lt.
Qed.
End proofs.

Section samples.

Definition sample_session : Session := mkSession 5%N None None "/w" "" [] true.
Definition sample_repository : repository := mkRepository {[5%N := SessionToModel sample_session]} 1.
Lemma sample_repository_ok : repo_ok sample_repository.
Proof. split; [|done]. by apply map_Forall_singleton. Qed.

Definition sample_new : manager repository := NewNotificationManager sample_repository.
Definition quiet_ide (_ : list (uuid * GatewayCall)) (_ : uuid) (_ : GatewayCall) : option error := None.
Notation act := (act (R := repository) (λ n, n) quiet_ide).
Notation play := (play (R := repository) (λ n, n) quiet_ide).
Notation reachable := (reachable (R := repository) (λ n, n) quiet_ide).

Definition building : Notification := mkNotification "t" "a.java" 1 "building".

(** Where a sequence of actions leads. *)
Definition played (acts : list (action (R := repository))) : bool :=
  match play acts sample_new (λ _, 0) with Some _ => true | None => false end.
Definition end_state (acts : list (action (R := repository))) : manager repository :=
  match play acts sample_new (λ _, 0) with Some (m, _) => m | None => sample_new end.
Definition end_held (acts : list (action (R := repository))) : N → Z :=
  match play acts sample_new (λ _, 0) with Some (_, held) => held | None => λ _, 0 end.

Lemma played_reachable rule acts :
  (∀ held m a, a ∈ acts → rule held m a) → Forall action_ok acts → played acts = true →
  reachable rule (end_state acts) (end_held acts).
Proof.
  intros Hrule Hok. unfold played, end_state, end_held.
  destruct (play acts sample_new (λ _, 0)) as [[m held]|] eqn:Hp; [|done]. intros _.
  eapply play_reachable; [done|done|apply reach_new, sample_repository_ok|exact Hp].
Qed.

(** One user starts a notification, a second looks it up, the first leaves, the
    second adds itself, and the goroutine cleans up. *)
Definition racing : list (action (R := repository)) :=
  [AStart "/w" "Indexing"; AStart "/w" "Indexing"; ADone 0%N; AStartAdd;
   AGo GWaitDone 0%N; AGo GDelete 0%N; AGo GSignal 0%N; AGo GClose 0%N].

(** Without that order of [Done] a user that keeps to the rules panics: when
    the last user leaves between the check of [deleteIfClosed] and the [Add] of a
    [StartNotification], the handler that is returned is closed, and a send of
    its new user is a send on a closed channel. *)
Theorem StartNotification_race :
  ∃ m held m', reachable (λ _ _ _, True) m held ∧ 0 < held 0%N ∧
    act (ASend 0%N building) m = Some (Panic, m').
Proof.
  exists (end_state racing), (end_held racing), (end_state racing). split_and!.
  - apply played_reachable; [done|by repeat constructor|by vm_compute].
  - by vm_compute.
  - by vm_compute.
Qed.

(** An update is in the channel when the only user leaves. *)
Definition leaving : list (action (R := repository)) :=
  [AStart "/w" "Indexing"; ASend 0%N building; ADone 0%N;
   AGo GWaitDone 0%N; AGo GDelete 0%N; AGo GSignal 0%N; AGo GClose 0%N; AGo GEnd 0%N; AGo GDrain 0%N].

(** The end of a notification can reach the IDE before its last update: the
    goroutine that cleans up does not wait for the one that drains the channel. *)
Theorem end_before_update :
  ∃ m held, reachable (λ _ _ _, True) m held ∧
    gatewayCalls m =
      [(5%N, WorkDoneProgressCreate 0%N); (5%N, Progress 0%N (WorkDoneProgressBegin "Indexing" "" 0));
       (5%N, Progress 0%N WorkDoneProgressEnd);
       (5%N, Progress 0%N (WorkDoneProgressReport "building" 0))].
Proof.
  exists (end_state leaving), (end_held leaving). split; [|by vm_compute].
  apply played_reachable; [done|by repeat constructor|by vm_compute].
Qed.

(** Two users share a handler. *)
Definition sharing : list (action (R := repository)) :=
  [AStart "/w" "Indexing"; AStart "/w" "Indexing"; AStartAdd; ASend 0%N building].

Lemma notifications_safe_witness :
  ∃ x, handlers (end_state sharing) !! 0%N = Some x ∧ senderCount x = 2 ∧ channelClosed x = false.
Proof.
  destruct (notifications_safe (λ n, n) quiet_ide (end_state sharing) (end_held sharing)) as (_&P&_).
  - apply played_reachable; [|by repeat constructor|by vm_compute].
    intros held m a Ha. by repeat (apply elem_of_cons in Ha as [->|Ha]; [done|]); apply elem_of_nil in Ha.
  - destruct (P 0%N) as (x&Hx&Hc&Ho&_); [by vm_compute|]. exists x. split_and!; [done| |done].
    rewrite Hc. by vm_compute.
Defined.

Lemma handler_ends_witness :
  ∃ n m', goroutines (R := repository) quiet_ide 0%N n (end_state (take 3 leaving)) m' ∧
    ∀ g, goroutine quiet_ide g 0%N m' = None.
Proof.
  destruct (handlers (end_state (take 3 leaving)) !! 0%N) as [x|] eqn:Hx.
  - destruct (handler_ends (λ n, n) quiet_ide (λ _ _ _, True) (end_state (take 3 leaving))
      (end_held (take 3 leaving)) 0%N x) as (_&_&P); [|done|..|exact P].
    + apply played_reachable; [done|by repeat constructor|by vm_compute].
    + apply (f_equal (λ o, match o with Some x => IsClosed x | None => true end)) in Hx.
      rewrite <- Hx. by vm_compute.
    + by vm_compute.
  - apply (f_equal (λ o, match o with Some _ => true | None => false end)) in Hx. by vm_compute in Hx.
Defined.

(** The goroutines of the first handler run as far as they can before each call. *)
Definition eager (_ : manager repository) : list (goroutine_step * N) :=
  (λ g, (g, 0%N)) <$> [GReceive; GWaitDone; GDelete; GSignal; GClose; GDrain; GEnd].

Lemma IndexNotifier_over_manager_witness :
  ∃ rs n', run_events (H := persistent_manager (λ n, n) quiet_ide eager) sample_events
      (NewIndexNotifier sample_new) = (rs, n') ∧ rs.*1 = sample_events.
Proof.
  destruct (IndexNotifier_over_manager (λ n, n) quiet_ide eager sample_repository sample_events
    sample_repository_ok) as (rs&n'&Hrun&Hevs&_).
  exists rs, n'. exact (conj Hrun Hevs).
Defined.
End samples.
End PersistentProof.
