(* ===== verification/Capabilities.v ===== *)
(** * Capabilities of the server

    Models [src/ulsp/mapper/lsp_lifecycle.go]: how the plugins add what they
    provide to the result of [initialize], one after the other.  The options
    that a plugin passes are never nil. *)

From stdpp Require Import base list strings sets.
From Stdlib Require Import Lia.
From S2P Require Import Prelude.

(** A provider of type [interface{}]: the options of its kind, or a value of
    another type. *)
Inductive Provider := ProviderOptions (WorkDoneProgress : bool) | ProviderOther.

Record CodeActionOptions := mkCodeActionOptions {
  CodeActionKinds : option (list string);
  ResolveProvider : bool
}.
Inductive CodeActionProvider := CodeActionOptionsProvider (o : CodeActionOptions) | CodeActionOther.

(** The scheme and glob of [protocol.FileOperationFilter] as one value. *)
Abbreviation FileOperationFilter := string (only parsing).
Abbreviation Registration := (option (list FileOperationFilter)) (only parsing).

(** [ServerCapabilitiesWorkspaceFileOperations]; a registration is a pointer to
    its filters. *)
Record FileOperations := mkFileOperations {
  DidCreate : Registration; WillCreate : Registration;
  DidRename : Registration; WillRename : Registration;
  DidDelete : Registration; WillDelete : Registration
}.

Record ServerCapabilities := mkCapabilities {
  FileOps : option (option FileOperations);   (** [Workspace] and its [FileOperations] *)
  CodeActions : option CodeActionProvider;
  CodeLensProvider : option bool;             (** [ResolveProvider] *)
  DefinitionProvider : option Provider;
  DeclarationProvider : option Provider;
  ImplementationProvider : option Provider;
  TypeDefinitionProvider : option Provider;
  ReferencesProvider : option Provider;
  HoverProvider : option Provider;
  DocumentSymbolProvider : option Provider;
  ExecuteCommandProvider : option (option (list string))   (** [Commands] *)
}.

Definition no_capabilities : ServerCapabilities :=
  mkCapabilities None None None None None None None None None None None.

(** ** Providers that are ensured *)

Definition ensure_provider (p : option Provider) (workDoneProgress : bool) : option Provider :=
  let p := match p with None => Some (ProviderOptions false) | _ => p end in
  if workDoneProgress then
    match p with
    | Some (ProviderOptions _) => Some (ProviderOptions true)
    | _ => Some (ProviderOptions true)
    end
  else p.

Definition InitializeResultEnsureDefinitionProvider (c : ServerCapabilities) (w : bool) :=
  mkCapabilities (FileOps c) (CodeActions c) (CodeLensProvider c)
    (ensure_provider (DefinitionProvider c) w) (DeclarationProvider c) (ImplementationProvider c)
    (TypeDefinitionProvider c) (ReferencesProvider c) (HoverProvider c) (DocumentSymbolProvider c)
    (ExecuteCommandProvider c).
Definition InitializeResultEnsureDeclarationProvider (c : ServerCapabilities) (w : bool) :=
  mkCapabilities (FileOps c) (CodeActions c) (CodeLensProvider c) (DefinitionProvider c)
    (ensure_provider (DeclarationProvider c) w) (ImplementationProvider c)
    (TypeDefinitionProvider c) (ReferencesProvider c) (HoverProvider c) (DocumentSymbolProvider c)
    (ExecuteCommandProvider c).
Definition InitializeResultEnsureImplementationProvider (c : ServerCapabilities) (w : bool) :=
  mkCapabilities (FileOps c) (CodeActions c) (CodeLensProvider c) (DefinitionProvider c)
    (DeclarationProvider c) (ensure_provider (ImplementationProvider c) w)
    (TypeDefinitionProvider c) (ReferencesProvider c) (HoverProvider c) (DocumentSymbolProvider c)
    (ExecuteCommandProvider c).
Definition InitializeResultEnsureTypeDefinitionProvider (c : ServerCapabilities) (w : bool) :=
  mkCapabilities (FileOps c) (CodeActions c) (CodeLensProvider c) (DefinitionProvider c)
    (DeclarationProvider c) (ImplementationProvider c) (ensure_provider (TypeDefinitionProvider c) w)
    (ReferencesProvider c) (HoverProvider c) (DocumentSymbolProvider c) (ExecuteCommandProvider c).
Definition InitializeResultEnsureReferencesProvider (c : ServerCapabilities) (w : bool) :=
  mkCapabilities (FileOps c) (CodeActions c) (CodeLensProvider c) (DefinitionProvider c)
    (DeclarationProvider c) (ImplementationProvider c) (TypeDefinitionProvider c)
    (ensure_provider (ReferencesProvider c) w) (HoverProvider c) (DocumentSymbolProvider c)
    (ExecuteCommandProvider c).
Definition InitializeResultEnsureHoverProvider (c : ServerCapabilities) (w : bool) :=
  mkCapabilities (FileOps c) (CodeActions c) (CodeLensProvider c) (DefinitionProvider c)
    (DeclarationProvider c) (ImplementationProvider c) (TypeDefinitionProvider c)
    (ReferencesProvider c) (ensure_provider (HoverProvider c) w) (DocumentSymbolProvider c)
    (ExecuteCommandProvider c).
Definition InitializeResultEnsureDocumentSymbolProvider (c : ServerCapabilities) (w : bool) :=
  mkCapabilities (FileOps c) (CodeActions c) (CodeLensProvider c) (DefinitionProvider c)
    (DeclarationProvider c) (ImplementationProvider c) (TypeDefinitionProvider c)
    (ReferencesProvider c) (HoverProvider c) (ensure_provider (DocumentSymbolProvider c) w)
    (ExecuteCommandProvider c).

Definition InitializeResultEnsureCodeLensProvider (c : ServerCapabilities) (enableResolveProvider : bool)
    : ServerCapabilities :=
  let p := default false (CodeLensProvider c) in
  mkCapabilities (FileOps c) (CodeActions c) (Some (if enableResolveProvider then true else p))
    (DefinitionProvider c) (DeclarationProvider c) (ImplementationProvider c)
    (TypeDefinitionProvider c) (ReferencesProvider c) (HoverProvider c) (DocumentSymbolProvider c)
    (ExecuteCommandProvider c).

(** ** Options that are merged *)

(** The loops over [seen]: all of [xs], and those of [ys] that are not in [xs]. *)
Definition append_unseen (xs ys : list string) : list string :=
  xs ++ List.filter (λ y, bool_decide (y ∉ xs)) ys.

Definition set_code_actions (c : ServerCapabilities) p : ServerCapabilities :=
  mkCapabilities (FileOps c) p (CodeLensProvider c) (DefinitionProvider c) (DeclarationProvider c)
    (ImplementationProvider c) (TypeDefinitionProvider c) (ReferencesProvider c) (HoverProvider c)
    (DocumentSymbolProvider c) (ExecuteCommandProvider c).

Definition InitializeResultAppendCodeActionProvider (c : ServerCapabilities)
    (newOptions : CodeActionOptions) : gores ServerCapabilities :=
  match CodeActions c with
  | None => Ok (set_code_actions c (Some (CodeActionOptionsProvider newOptions)))
  | Some CodeActionOther =>
    Err (EText "CodeActionProvider does not match expected type of *protocol.CodeActionOptions")
  | Some (CodeActionOptionsProvider current) =>
    let kinds :=
      match CodeActionKinds newOptions with
      | None => CodeActionKinds current
      | Some new =>
        match CodeActionKinds current with
        | None => Some new
        | Some old => Some (append_unseen old new)
        end
      end in
    Ok (set_code_actions c (Some (CodeActionOptionsProvider
      (mkCodeActionOptions kinds (if ResolveProvider newOptions then true else ResolveProvider current)))))
  end.

Definition set_commands (c : ServerCapabilities) p : ServerCapabilities :=
  mkCapabilities (FileOps c) (CodeActions c) (CodeLensProvider c) (DefinitionProvider c)
    (DeclarationProvider c) (ImplementationProvider c) (TypeDefinitionProvider c)
    (ReferencesProvider c) (HoverProvider c) (DocumentSymbolProvider c) p.

(** The loop over the new commands: the first that is there already fails. *)
Fixpoint append_commands (seen combined new : list string) : gores (list string) :=
  match new with
  | [] => Ok combined
  | cmd :: new' =>
    if bool_decide (cmd ∈ seen) then
      Err (EText ("command " +:+ cmd +:+ " in ExecuteCommandOptions already exists and cannot be duplicated"))
    else append_commands seen (combined ++ [cmd]) new'
  end.

(** The options are their commands. *)
Definition InitializeResultAppendExecuteCommandProvider (c : ServerCapabilities)
    (newOptions : option (list string)) : gores ServerCapabilities :=
  match ExecuteCommandProvider c with
  | None => Ok (set_commands c (Some newOptions))
  | Some current =>
    match newOptions with
    | None => Ok c
    | Some new =>
      match current with
      | None => Ok (set_commands c (Some (Some new)))
      | Some old =>
        combined <-? append_commands old old new;;
        Ok (set_commands c (Some (Some combined)))
      end
    end
  end.

(** ** File operations *)

Definition AppendFileOperationRegistrationOptions (primary secondary : Registration)
    : list FileOperationFilter :=
  match primary, secondary with
  | None, None => []
  | None, Some ys => ys
  | Some xs, None => xs
  | Some xs, Some ys => append_unseen xs ys
  end.

Definition append_registration (primary secondary : Registration) : Registration :=
  match primary, secondary with
  | None, None => None
  | _, _ => Some (AppendFileOperationRegistrationOptions primary secondary)
  end.

Definition no_operations : FileOperations := mkFileOperations None None None None None None.

Definition AppendServerCapabilitiesWorkspaceFileOperations (primary secondary : option FileOperations)
    : FileOperations :=
  match primary, secondary with
  | None, None => no_operations
  | Some p, None => p
  | None, Some s => s
  | Some p, Some s =>
    mkFileOperations (append_registration (DidCreate p) (DidCreate s))
      (append_registration (WillCreate p) (WillCreate s))
      (append_registration (DidRename p) (DidRename s))
      (append_registration (WillRename p) (WillRename s))
      (append_registration (DidDelete p) (DidDelete s))
      (append_registration (WillDelete p) (WillDelete s))
  end.

Definition InitalizeResultAppendServerCapabilitiesWorkspaceFileOperations (c : ServerCapabilities)
    (workspaceFileOperations : option FileOperations) : ServerCapabilities :=
  let fileOperations := default no_operations (default None (FileOps c)) in
  mkCapabilities
    (Some (Some (AppendServerCapabilitiesWorkspaceFileOperations (Some fileOperations)
      workspaceFileOperations)))
    (CodeActions c) (CodeLensProvider c) (DefinitionProvider c) (DeclarationProvider c)
    (ImplementationProvider c) (TypeDefinitionProvider c) (ReferencesProvider c) (HoverProvider c)
    (DocumentSymbolProvider c) (ExecuteCommandProvider c).

(** ** What several plugins provide together *)

Lemma append_unseen_elem xs ys x : x ∈ append_unseen xs ys ↔ x ∈ xs ∨ x ∈ ys.
Proof.
  unfold append_unseen. rewrite elem_of_app, !list_elem_of_In, filter_In, <- !list_elem_of_In.
  rewrite bool_decide_eq_true. destruct (decide (x ∈ xs)); tauto.
Qed.

Lemma append_unseen_nodup xs ys : NoDup xs → NoDup ys → NoDup (append_unseen xs ys).
Proof.
  intros Hx Hy. unfold append_unseen. apply NoDup_app. split_and!; [done| |].
  - intros x Hin. rewrite list_elem_of_In, filter_In, bool_decide_eq_true. tauto.
  - apply NoDup_ListNoDup, List.NoDup_filter, NoDup_ListNoDup, Hy.
Qed.

Lemma append_commands_spec seen combined new :
  append_commands seen combined new = Ok (combined ++ new) ∧ (∀ x, x ∈ new → x ∉ seen) ∨
  (∃ e, append_commands seen combined new = Err e) ∧ ∃ x, x ∈ new ∧ x ∈ seen.
Proof.
  revert combined. induction new as [|cmd new IH]; intros combined; cbn.
  { left. rewrite app_nil_r. split; [done|]. intros x Hx. by apply elem_of_nil in Hx. }
  case_bool_decide as Hc; [right; split; [by eexists|exists cmd; split; [by left|done]]|].
  destruct (IH (combined ++ [cmd])) as [[-> Hn]|[He (x&Hx&Hs)]].
  - left. split; [by rewrite <- app_assoc|]. set_solver.
  - right. split; [done|]. exists x. split; [by right|done].
Qed.

(** The commands that two plugins add in turn. *)
Definition add_both (cmds1 cmds2 : list string) : gores ServerCapabilities :=
  c1 <-? InitializeResultAppendExecuteCommandProvider no_capabilities (Some cmds1);;
  InitializeResultAppendExecuteCommandProvider c1 (Some cmds2).

(** The commands of two plugins are accepted if and only if they have none
    in common; then the server has exactly the commands of both, each once when
    each plugin names its commands once. *)
Theorem execute_commands_unique cmds1 cmds2 :
  ((∃ c, add_both cmds1 cmds2 = Ok c) ↔ ∀ x, x ∈ cmds1 → x ∉ cmds2) ∧
  ∀ c, add_both cmds1 cmds2 = Ok c →
    ExecuteCommandProvider c = Some (Some (cmds1 ++ cmds2)) ∧
    (NoDup cmds1 → NoDup cmds2 → NoDup (cmds1 ++ cmds2)).
Proof.
  unfold add_both. cbn.
  destruct (append_commands_spec cmds1 cmds1 cmds2) as [[-> Hn]|[[e ->] (x&Hx&Hs)]]; cbn.
  - split.
    + split; [set_solver|by eexists].
    + intros c [= <-]. split; [done|]. intros. apply NoDup_app. set_solver.
  - split; [|done]. split; [by intros (?&?)|]. intros Hd. by destruct (Hd x).
Qed.

(** The kinds of code actions and the file operations of two plugins are united:
    nothing is lost and nothing is there twice. *)
Theorem code_actions_united c old new r1 r2 :
  CodeActions c = Some (CodeActionOptionsProvider (mkCodeActionOptions (Some old) r1)) →
  ∃ c' kinds,
    InitializeResultAppendCodeActionProvider c (mkCodeActionOptions (Some new) r2) = Ok c' ∧
    CodeActions c' = Some (CodeActionOptionsProvider (mkCodeActionOptions (Some kinds) (r1 || r2))) ∧
    (∀ k, k ∈ kinds ↔ k ∈ old ∨ k ∈ new) ∧ (NoDup old → NoDup new → NoDup kinds).
Proof.
  intros Hc. unfold InitializeResultAppendCodeActionProvider. rewrite Hc. cbn. eexists _, _.
  split_and!; [reflexivity|by destruct r1, r2|apply append_unseen_elem|apply append_unseen_nodup].
Qed.

Theorem file_operations_united p s :
  let f := AppendServerCapabilitiesWorkspaceFileOperations (Some p) (Some s) in
  ∀ op, op ∈ [DidCreate; WillCreate; DidRename; WillRename; DidDelete; WillDelete] →
  (is_Some (op f) ↔ is_Some (op p) ∨ is_Some (op s)) ∧
  ∀ x, x ∈ default [] (op f) ↔ x ∈ default [] (op p) ∨ x ∈ default [] (op s).
Proof.
  cbn zeta.
  assert (Hreg : ∀ a b : Registration,
    (is_Some (append_registration a b) ↔ is_Some a ∨ is_Some b) ∧
    ∀ x, x ∈ default [] (append_registration a b) ↔ x ∈ default [] a ∨ x ∈ default [] b).
  { intros [xs|] [ys|]; cbn; split; try (rewrite <- !not_eq_None_Some; naive_solver); intros x;
      [apply append_unseen_elem|set_solver..]. }
  intros op Hop. repeat apply elem_of_cons in Hop as [->|Hop]; [apply Hreg..|]. by apply elem_of_nil in Hop.
Qed.

(** Ensuring a provider twice, in any order, is ensuring it once with both
    requests for progress. *)
Theorem ensure_provider_twice p w1 w2 :
  ensure_provider (ensure_provider p w1) w2 = ensure_provider p (w1 || w2) ∧
  ∃ q, ensure_provider p w1 = Some q ∧ (w1 = true → q = ProviderOptions true).
Proof. destruct p as [[[]|]|], w1, w2; cbn; split; try done; eexists; done. Qed.
