(* ===== verification/QuickActionsProof.v ===== *)
(** * The quick actions answer for the documents processed last

    Theorems about [QuickActions]: the store refines a map from the documents of
    sessions to what was processed last, over every sequence of requests; errors
    of an action are remembered with their version; the ends of runs. *)

From stdpp Require Import base gmap list strings fin_maps sorting.
From Stdlib Require Import ZArith Lia.
From S2P Require Import Prelude Protocol Session DocSync Capabilities ActionStore QuickActions.

Local Open Scope Z_scope.

Module QuickActionsProof.
Import QuickActions.

(** ** What the store has for a document *)

Record view := mkView {
  v_ranges : gmap Range (list ActionStore.CodeAction);
  v_lenses : list ActionStore.CodeLens;
  v_version : option Z
}.
Definition view_of (a : actionRangeStore) (u : uuid) (d : URI) : view :=
  mkView (default ∅ (actions a !! u ≫= (.!! d))) (default [] (codeLenses a !! u ≫= (.!! d)))
    (versions a !! u ≫= (.!! d)).
Definition no_view : view := mkView ∅ [] None.

(** [a'] has [v] for the document [d] of [u], and what [a] has otherwise. *)
Definition updates (a a' : actionRangeStore) (u : uuid) (d : URI) (v : view) : Prop :=
  ∀ u' d', view_of a' u' d' = if decide (u' = u ∧ d' = d) then v else view_of a u' d'.

Lemma updates_here a a' u d v : updates a a' u d v → view_of a' u d = v.
Proof. intros Hu. rewrite Hu. by destruct (decide _) as [|[]]. Qed.

Lemma updates_trans a1 a2 a3 u d v2 v3 : updates a1 a2 u d v2 → updates a2 a3 u d v3 → updates a1 a3 u d v3.
Proof. intros H1 H2 u' d'. rewrite H2, H1. by destruct (decide _). Qed.

Lemma updates_refl a u d : updates a a u d (view_of a u d).
Proof. intros u' d'. by destruct (decide _) as [[-> ->]|]. Qed.

Lemma lookup_bind_insert {A} (m : gmap uuid (gmap URI A)) u d x u' d' :
  <[u := <[d := x]> (at_key m u)]> m !! u' ≫= (.!! d')
  = if decide (u' = u ∧ d' = d) then Some x else m !! u' ≫= (.!! d').
Proof.
  destruct (decide (u' = u)) as [->|Hu].
  - rewrite lookup_insert_eq. cbn. unfold at_key. destruct (decide (d' = d)) as [->|Hd].
    + rewrite lookup_insert_eq. by destruct (decide _) as [|[]].
    + rewrite lookup_insert_ne by done. destruct (decide _) as [[??]|_]; [done|]. by destruct (m !! u).
  - rewrite lookup_insert_ne by done. by destruct (decide _) as [[??]|_].
Qed.

Lemma lookup_bind_same {A} (m : gmap uuid (gmap URI A)) u u' d' :
  <[u := at_key m u]> m !! u' ≫= (.!! d') = m !! u' ≫= (.!! d').
Proof.
  destruct (decide (u' = u)) as [->|Hu]; [|by rewrite lookup_insert_ne].
  rewrite lookup_insert_eq. unfold at_key. by destruct (m !! u).
Qed.

Lemma lookup_bind_alter {A} (m : gmap uuid (gmap URI A)) u d u' d' :
  alter (delete d) u m !! u' ≫= (.!! d') = if decide (u' = u ∧ d' = d) then None else m !! u' ≫= (.!! d').
Proof.
  destruct (decide (u' = u)) as [->|Hu].
  - rewrite lookup_alter_eq. destruct (m !! u) as [x|]; cbn; [|by destruct (decide _)].
    destruct (decide (d' = d)) as [->|Hd].
    + rewrite lookup_delete_eq. by destruct (decide _) as [|[]].
    + rewrite lookup_delete_ne by done. by destruct (decide _) as [[??]|_].
  - rewrite lookup_alter_ne by done. by destruct (decide _) as [[??]|_].
Qed.

Ltac view_solve :=
  intros u' d'; unfold view_of; cbn;
  rewrite ?lookup_bind_insert, ?lookup_bind_same, ?lookup_bind_alter;
  destruct (decide _) as [[-> ->]|]; try done.

Lemma AddCodeAction_view u d r x a :
  let v := view_of a u d in
  updates a (AddCodeAction u d r x a) u d
    (mkView (<[r := default [] (v_ranges v !! r) ++ [x]]> (v_ranges v)) (v_lenses v) (v_version v)).
Proof. intros v. view_solve. unfold at_key. by destruct (actions a !! u). Qed.

Lemma AddCodeLens_view u d l a :
  let v := view_of a u d in
  updates a (AddCodeLens u d l a) u d (mkView (v_ranges v) (v_lenses v ++ [l]) (v_version v)).
Proof. intros v. view_solve. unfold at_key. by destruct (codeLenses a !! u). Qed.

Lemma DeleteExisting_view u d a :
  updates a (DeleteExistingDocumentRanges u d a) u d (mkView ∅ [] (v_version (view_of a u d))).
Proof. view_solve. Qed.

Lemma ClearDocument_view u d a : updates a (ClearDocument u d a) u d no_view.
Proof. view_solve. Qed.

Definition newer (v : view) (version : Z) : bool :=
  match v_version v with Some current => negb (version <=? current) | None => true end.

Lemma SetVersion_view u d version a :
  let v := view_of a u d in
  (SetVersion u d version a).1 = newer v version ∧
  updates a (SetVersion u d version a).2 u d
    (mkView (v_ranges v) (v_lenses v) (if newer v version then Some version else v_version v)).
Proof.
  intros v. unfold SetVersion, newer, v, view_of. cbn.
  assert (E : at_key (versions a) u !! d = versions a !! u ≫= (.!! d))
    by (unfold at_key; by destruct (versions a !! u)).
  rewrite E. destruct (versions a !! u ≫= (.!! d)) as [current|] eqn:Hv; cbn.
  - destruct (version <=? current); (split; [done|]); cbn.
    + view_solve. by rewrite Hv.
    + rewrite insert_insert_eq. view_solve.
  - split; [done|]. cbn. rewrite insert_insert_eq. view_solve.
Qed.

Lemma DeleteSession_view u a u' d' :
  view_of (DeleteSession u a) u' d' =
  if decide (u' = u) then mkView ∅ [] (v_version (view_of a u' d')) else view_of a u' d'.
Proof.
  unfold view_of. cbn. destruct (decide (u' = u)) as [->|Hu].
  - by rewrite !lookup_delete_eq.
  - by rewrite !lookup_delete_ne.
Qed.

(** ** Processing a document *)

(** An action that processes every document and returns matches that the plugin
    accepts. *)
Definition match_ok (r : ActionResult) : Prop :=
  match r with
  | ResultCodeAction x => ActionKind (RangedAction x) ∈ SupportedCodeActionKinds
  | ResultCodeLens _ => True
  | ResultOther => False
  end.
Class ActionLaws (a : Action) := {
  ProcessDocument_ok doc : ∃ ms, ProcessDocument a doc = Ok ms ∧ Forall match_ok ms
}.

Definition matches_of (a : Action) (s : Session) (doc : TextDocumentItem) : list ActionResult :=
  if IsRelevantDocument a s doc then
    match ProcessDocument a doc with Ok ms => ms | _ => [] end
  else [].
Definition results (acts : list Action) (s : Session) (doc : TextDocumentItem) : list ActionResult :=
  acts ≫= λ a, matches_of a s doc.
Definition actions_in : list ActionResult → list CodeActionWithRange :=
  omap (λ r, match r with ResultCodeAction x => Some x | _ => None end).
Definition lenses_in : list ActionResult → list ActionStore.CodeLens :=
  omap (λ r, match r with ResultCodeLens l => Some l | _ => None end).

(** What is added to a view. *)
Definition add_results (v : view) (ms : list ActionResult) : view :=
  mkView (foldl (λ m x, <[ActionRange x := default [] (m !! ActionRange x) ++ [RangedAction x]]> m)
      (v_ranges v) (actions_in ms)) (v_lenses v ++ lenses_in ms) (v_version v).

Lemma add_results_app v ms ms' : add_results (add_results v ms) ms' = add_results v (ms ++ ms').
Proof.
  unfold add_results, actions_in, lenses_in. cbn. by rewrite !omap_app, foldl_app, (assoc_L (++)).
Qed.

(** [m] returns, adds the results to the ranges of a document and changes
    nothing else. *)
Definition adds (m : GoM controller unit) (u : uuid) (d : URI) (ms : list ActionResult) : Prop :=
  ∀ c, ∃ r, m c = (Ok tt, set_ranges r c) ∧
    updates (currentActionRanges c) r u d (add_results (view_of (currentActionRanges c) u d) ms).

Lemma set_ranges_twice r r' c : set_ranges r' (set_ranges r c) = set_ranges r' c.
Proof. done. Qed.

Lemma adds_nil u d : adds (sret tt) u d [].
Proof.
  intros c. exists (currentActionRanges c). split; [by destruct c|].
  replace (add_results _ []) with (view_of (currentActionRanges c) u d); [apply updates_refl|].
  unfold add_results. cbn. by rewrite app_nil_r.
Qed.

Lemma adds_seq m m' u d ms ms' : adds m u d ms → adds m' u d ms' → adds (m ;;; m') u d (ms ++ ms').
Proof.
  intros H1 H2 c. destruct (H1 c) as (r1&Hrun1&Hu1). destruct (H2 (set_ranges r1 c)) as (r2&Hrun2&Hu2).
  exists r2. rewrite (sbind_ok _ _ _ _ _ Hrun1), Hrun2. split; [done|]. cbn in Hu2.
  rewrite (updates_here _ _ _ _ _ Hu1), add_results_app in Hu2. by eapply updates_trans.
Qed.

Lemma add_match_adds u d r : match_ok r → adds (add_match u d r) u d [r].
Proof.
  intros Hr c. destruct r as [x|l|]; [| |done]; cbn [add_match].
  - rewrite bool_decide_true by done. eexists. split; [reflexivity|].
    unfold add_results. change (lenses_in [ResultCodeAction x]) with (@nil ActionStore.CodeLens).
    rewrite app_nil_r. apply AddCodeAction_view.
  - eexists. split; [reflexivity|]. apply AddCodeLens_view.
Qed.

Lemma add_matches_adds u d ms : Forall match_ok ms → adds (forM_ ms (add_match u d)) u d ms.
Proof.
  induction 1 as [|r ms Hr _ IH]; cbn [forM_]; [apply adds_nil|].
  apply (adds_seq _ _ _ _ [r]); [by apply add_match_adds|done].
Qed.

Lemma process_action_adds s d doc a : ActionLaws a → adds (process_action s d doc a) (UUID s) d (matches_of a s doc).
Proof.
  intros Ha. unfold process_action, matches_of. destruct (IsRelevantDocument a s doc); [|apply adds_nil].
  destruct (ProcessDocument_ok doc) as (ms&Hms&Hok). rewrite Hms. intros c.
  apply (add_matches_adds (UUID s) d ms Hok c).
Qed.

Lemma process_actions_adds s d doc acts :
  Forall ActionLaws acts → adds (forM_ acts (process_action s d doc)) (UUID s) d (results acts s doc).
Proof.
  induction 1 as [|a acts Ha _ IH]; cbn [forM_]; [apply adds_nil|].
  apply adds_seq; [by apply process_action_adds|exact IH].
Qed.

(** What a document shows when it has been processed. *)
Definition shown (acts : list Action) (s : Session) (doc : TextDocumentItem) : view :=
  mkView (ranges_of (actions_in (results acts s doc))) (lenses_in (results acts s doc)) (Some (Version doc)).

Section requests.
Context {R : Type} `{RepositoryLaws R} `{SortSliceLaws}.
Context (range_order : list (Range * list ActionStore.CodeAction) → list (Range * list ActionStore.CodeAction))
  (Horder : ∀ l, range_order l ≡ₚ l).

(** The effect of a refresh on the session [s] with actions that keep the laws. *)
Lemma refresh_run (sessions : R) GetTextDocument ctx d s acts c :
  repo_GetFromContext sessions ctx = Ok s → default [] (enabledActions c !! UUID s) = acts →
  Forall ActionLaws acts →
  (∃ doc, GetTextDocument ctx d = Ok doc) ∨ (∃ e, GetTextDocument ctx d = Err e ∧ is_document_not_found e = true) →
  ∃ r, refreshAvailableCodeActions sessions GetTextDocument ctx d c = (Ok tt, set_ranges r c) ∧
    updates (currentActionRanges c) r (UUID s) d
      (match GetTextDocument ctx d with
       | Ok doc => if newer (view_of (currentActionRanges c) (UUID s) d) (Version doc)
                   then shown acts s doc else view_of (currentActionRanges c) (UUID s) d
       | _ => view_of (currentActionRanges c) (UUID s) d
       end).
Proof.
  intros Hs Ha Hl Hdoc. unfold refreshAvailableCodeActions, get_session. rewrite Hs.
  unfold sbind at 1, lift_res, wrap_err. set (a := currentActionRanges c).
  destruct Hdoc as [[doc ->]|(e&->&->)].
  2:{ exists a. split; [by destruct c|apply updates_refl]. }
  destruct (SetVersion_view (UUID s) d (Version doc) a) as [Hnew Hver].
  unfold sbind at 1, on_ranges. fold a. destruct (SetVersion (UUID s) d (Version doc) a) as [b a1].
  cbn in Hnew, Hver. subst b. destruct (newer (view_of a (UUID s) d) (Version doc)) eqn:Hn; cbn [negb].
  2:{ exists a1. split; [done|]. exact Hver. }
  unfold sbind at 1, do_ranges, modify_st. cbn [currentActionRanges set_ranges].
  pose proof (DeleteExisting_view (UUID s) d a1) as Hdel.
  set (a2 := DeleteExistingDocumentRanges (UUID s) d a1) in *. rewrite sbind_get.
  change (enabledActions (set_ranges a2 (set_ranges a1 c))) with (enabledActions c). rewrite Ha.
  destruct (process_actions_adds s d doc acts Hl (set_ranges a2 c)) as (r&Hrun&Hr).
  exists r. rewrite set_ranges_twice, Hrun. split; [done|]. cbn in Hr.
  rewrite (updates_here _ _ _ _ _ Hver) in Hdel. rewrite (updates_here _ _ _ _ _ Hdel) in Hr.
  eapply updates_trans; [exact Hver|]. eapply updates_trans; [exact Hdel|exact Hr].
Qed.

(** ** The specification *)

(** For each document of a session: the version processed last, with the
    document and session as they were, unless the session has ended since. *)
Abbreviation Processed := (gmap (uuid * URI) (Z * option (Session * TextDocumentItem))).

Inductive request :=
  | QOpen (ctx : Context) (d : URI)
  | QSave (ctx : Context) (d : URI)
  | QClose (ctx : Context) (d : URI)
  | QEndSession (u : uuid)
  | QCodeAction (ctx : Context) (d : URI) (rng : Range) (result : list ActionStore.CodeAction)
  | QCodeLens (ctx : Context) (d : URI) (result : list ActionStore.CodeLens).

Inductive response :=
  | RDone
  | RCodeActions (l : list ActionStore.CodeAction)
  | RCodeLenses (l : list ActionStore.CodeLens).

(** A request is handled with the sessions and documents of its time. *)
Definition handle (q : request) (sessions : R) GetTextDocument : GoM controller response :=
  match q with
  | QOpen ctx d => didOpen sessions GetTextDocument ctx d ;;; sret RDone
  | QSave ctx d => didSave sessions GetTextDocument ctx d ;;; sret RDone
  | QClose ctx d => didClose sessions ctx d ;;; sret RDone
  | QEndSession u => endSession u ;;; sret RDone
  | QCodeAction ctx d rng result =>
    l <- codeAction range_order sessions GetTextDocument ctx d rng result;; sret (RCodeActions l)
  | QCodeLens ctx d result => l <- codeLens sessions GetTextDocument ctx d result;; sret (RCodeLenses l)
  end.

Definition refresh_spec (s : Session) (d : URI) (doc : gores TextDocumentItem) (p : Processed) : Processed :=
  match doc with
  | Ok doc =>
    if (match p !! (UUID s, d) with Some (v, _) => negb (Version doc <=? v) | None => true end)
    then <[(UUID s, d) := (Version doc, Some (s, doc))]> p else p
  | _ => p
  end.
Definition end_spec (u : uuid) (p : Processed) : Processed :=
  map_imap (λ k x, Some (if decide (k.1 = u) then (x.1, None) else x)) p.

Definition spec_step (s : Session) (q : request) (GetTextDocument : Context → URI → gores TextDocumentItem)
    (p : Processed) : Processed :=
  match q with
  | QOpen ctx d | QSave ctx d | QCodeAction ctx d _ _ | QCodeLens ctx d _ => refresh_spec s d (GetTextDocument ctx d) p
  | QClose _ d => delete (UUID s, d) p
  | QEndSession u => end_spec u p
  end.

Section trace.
(** The actions that are enabled for each session. *)
Context (enabled : gmap uuid (list Action)) (Henabled : map_Forall (λ _ acts, Forall ActionLaws acts) enabled).

Definition spec_view (p : Processed) (u : uuid) (d : URI) : view :=
  match p !! (u, d) with
  | None => no_view
  | Some (v, None) => mkView ∅ [] (Some v)
  | Some (v, Some (s, doc)) =>
    mkView (ranges_of (actions_in (results (default [] (enabled !! u)) s doc)))
      (lenses_in (results (default [] (enabled !! u)) s doc)) (Some v)
  end.

(** What a request answers, given the specification after it. *)
Definition answers (s : Session) (q : request) (p : Processed) (r : response) : Prop :=
  let found d := match p !! (UUID s, d) with
    | Some (_, Some (s', doc)) => results (default [] (enabled !! UUID s)) s' doc
    | _ => [] end in
  match q, r with
  | QCodeAction _ d rng result, RCodeActions l =>
    ∃ l', l = result ++ l' ∧ l' ≡ₚ overlapping rng (actions_in (found d)) ∧
      (Forall has_command l' → StronglySorted (before compareCodeActions) l')
  | QCodeLens _ d result, RCodeLenses l => l = result ++ lenses_in (found d)
  | (QOpen _ _ | QSave _ _ | QClose _ _ | QEndSession _), RDone => True
  | _, _ => False
  end.

Record implements (c : controller) (p : Processed) : Prop := {
  im_enabled : enabledActions c = enabled;
  im_views u d : view_of (currentActionRanges c) u d = spec_view p u d
}.

Lemma refresh_implements (sessions : R) GetTextDocument ctx d s c p :
  implements c p → repo_GetFromContext sessions ctx = Ok s →
  (∃ doc, GetTextDocument ctx d = Ok doc) ∨ (∃ e, GetTextDocument ctx d = Err e ∧ is_document_not_found e = true) →
  ∃ c', refreshAvailableCodeActions sessions GetTextDocument ctx d c = (Ok tt, c') ∧
    implements c' (refresh_spec s d (GetTextDocument ctx d) p).
Proof.
  intros [He Hv] Hs Hdoc. set (acts := default [] (enabled !! UUID s)).
  assert (Hl : Forall ActionLaws acts).
  { unfold acts. destruct (enabled !! UUID s) as [l|] eqn:E; [by apply (Henabled _ _ E)|constructor]. }
  destruct (refresh_run sessions GetTextDocument ctx d s acts c Hs) as (r&Hrun&Hr);
    [by rewrite He|done..|]. eexists. split; [exact Hrun|]. split; [done|]. cbn. intros u' d'. rewrite Hr.
  assert (Hn : ∀ v, newer (view_of (currentActionRanges c) (UUID s) d) v
    = match p !! (UUID s, d) with Some (v', _) => negb (v <=? v') | None => true end).
  { intros v. rewrite Hv. unfold newer, spec_view. by destruct (p !! _) as [[? [[??]|]]|]. }
  unfold refresh_spec. destruct (GetTextDocument ctx d) as [doc| | |];
    [|by destruct (decide _) as [[-> ->]|]; rewrite Hv..].
  rewrite Hn. destruct (match p !! (UUID s, d) with Some (v', _) => _ | None => true end).
  - unfold spec_view at 1. destruct (decide (u' = UUID s ∧ d' = d)) as [[-> ->]|Hne].
    + by rewrite lookup_insert_eq.
    + rewrite Hv. unfold spec_view. rewrite lookup_insert_ne; [done|]. intros [= <- <-]. by apply Hne.
  - by destruct (decide _) as [[-> ->]|]; rewrite Hv.
Qed.

Lemma cancel_frame l c :
  ∃ p x, forM_ l cancelPendingCmd c = (Ok tt, set_cmds p x c).
Proof.
  revert c. induction l as [|t l IH]; intros c; cbn [forM_].
  { exists (pendingCmds c), (cancelled c). by destruct c. }
  assert (∃ p x, cancelPendingCmd t c = (Ok tt, set_cmds p x c)) as (p&x&Hrun).
  { unfold cancelPendingCmd. rewrite sbind_get. case_bool_decide; [by eexists _, _|].
    exists (pendingCmds c), (cancelled c). by destruct c. }
  rewrite (sbind_ok _ _ _ _ _ Hrun). destruct (IH (set_cmds p x c)) as (p'&x'&->). by exists p', x'.
Qed.

Lemma end_implements u c p :
  implements c p → ∃ c', endSession u c = (Ok tt, c') ∧ implements c' (end_spec u p).
Proof.
  intros [He Hv]. unfold endSession, do_ranges. rewrite sbind_modify, sbind_get.
  set (c1 := set_ranges _ c). destruct (cancel_frame (GetInProgressActionRunTokens u (pendingActionRuns c1)) c1)
    as (q&x&Hrun).
  rewrite (sbind_ok _ _ _ _ _ Hrun). eexists. split; [reflexivity|]. split; [done|]. cbn.
  intros u' d'. rewrite DeleteSession_view, Hv. unfold spec_view, end_spec. rewrite map_lookup_imap.
  destruct (p !! (u', d')) as [[v o]|]; cbn; [|by destruct (decide _)].
  destruct (decide (u' = u)) as [->|]; [|done]. by destruct o as [[??]|].
Qed.

Lemma GetMatching_run u d rng a :
  ∃ l, GetMatchingCodeActions range_order u d rng a = Ok l ∧
    l ≡ₚ map_to_list (v_ranges (view_of a u d)) ≫= (λ x, if isLineOverlapping x.1 rng then x.2 else []) ∧
    (Forall has_command l → StronglySorted (before compareCodeActions) l).
Proof.
  unfold GetMatchingCodeActions, view_of. cbn.
  destruct (actions a !! u ≫= lookup d) as [m|]; cbn.
  2:{ exists []. rewrite map_to_list_empty. split_and!; [done..|]. constructor. }
  set (l := _ ≫= _). exists (sort_slice compareCodeActions l). split_and!; [done| |].
  - rewrite sort_slice_perm. unfold l. by rewrite Horder.
  - intros Hc. apply sort_slice_sorted, compare_transitive. by rewrite sort_slice_perm in Hc.
Qed.

Lemma spec_view_ranges p u d : v_ranges (spec_view p u d) =
  ranges_of (actions_in (match p !! (u, d) with
    | Some (_, Some (s', doc)) => results (default [] (enabled !! u)) s' doc | _ => [] end)).
Proof. unfold spec_view. by destruct (p !! (u, d)) as [[v [[??]|]]|]. Qed.
Lemma spec_view_lenses p u d : v_lenses (spec_view p u d) =
  lenses_in (match p !! (u, d) with
    | Some (_, Some (s', doc)) => results (default [] (enabled !! u)) s' doc | _ => [] end).
Proof. unfold spec_view. by destruct (p !! (u, d)) as [[v [[??]|]]|]. Qed.

(** The session of a request, and whether it can be served. *)
Definition request_session (q : request) (sessions : R) (s : Session) : Prop :=
  match q with
  | QOpen ctx _ | QSave ctx _ | QClose ctx _ | QCodeAction ctx _ _ _ | QCodeLens ctx _ _ =>
    repo_GetFromContext sessions ctx = Ok s
  | QEndSession _ => True
  end.
Definition request_document (q : request) (GetTextDocument : Context → URI → gores TextDocumentItem) : Prop :=
  match q with
  | QOpen ctx d | QSave ctx d | QCodeAction ctx d _ _ | QCodeLens ctx d _ =>
    (∃ doc, GetTextDocument ctx d = Ok doc) ∨ (∃ e, GetTextDocument ctx d = Err e ∧ is_document_not_found e = true)
  | _ => True
  end.

Lemma handle_step q (sessions : R) GetTextDocument s c p :
  implements c p → request_session q sessions s → request_document q GetTextDocument →
  ∃ r c', handle q sessions GetTextDocument c = (Ok r, c') ∧
    implements c' (spec_step s q GetTextDocument p) ∧
    answers s q (spec_step s q GetTextDocument p) r.
Proof.
  intros I Hs Hd. destruct q as [ctx d|ctx d|ctx d|u|ctx d rng result|ctx d result]; cbn [handle spec_step] in *.
  - destruct (refresh_implements sessions GetTextDocument ctx d s c p I Hs Hd) as (c'&Hrun&I').
    exists RDone, c'. unfold didOpen. by rewrite (sbind_ok _ _ _ _ _ Hrun).
  - destruct (refresh_implements sessions GetTextDocument ctx d s c p I Hs Hd) as (c'&Hrun&I').
    exists RDone, c'. unfold didSave. by rewrite (sbind_ok _ _ _ _ _ Hrun).
  - unfold didClose, get_session. cbn in Hs. rewrite Hs. eexists RDone, _. split_and!; [reflexivity| |done].
    destruct I as [He Hv]. split; [done|]. cbn. intros u' d'. rewrite ClearDocument_view.
    destruct (decide _) as [[-> ->]|Hne]; unfold spec_view; [by rewrite lookup_delete_eq|].
    rewrite lookup_delete_ne by (intros [= <- <-]; by apply Hne). apply Hv.
  - destruct (end_implements u c p I) as (c'&Hrun&I').
    exists RDone, c'. by rewrite (sbind_ok _ _ _ _ _ Hrun).
  - destruct (refresh_implements sessions GetTextDocument ctx d s c p I Hs Hd) as (c'&Hrun&I').
    unfold codeAction, get_session. cbn in Hs. rewrite Hs.
    destruct (GetMatching_run (UUID s) d rng (currentActionRanges c')) as (l&Hl&Hp&Hsort).
    exists (RCodeActions (result ++ l)), c'. split_and!; [|done|].
    + unfold sbind at 1 2. cbn [lift_res wrap_err].
      rewrite (sbind_ok _ _ _ _ _ (wrapM_ok _ _ _ _ _ Hrun)), sbind_get. by rewrite Hl.
    + exists l. split_and!; [done| |done]. rewrite Hp, (im_views _ _ I'), spec_view_ranges.
      apply ranges_of_overlapping.
  - destruct (refresh_implements sessions GetTextDocument ctx d s c p I Hs Hd) as (c'&Hrun&I').
    unfold codeLens, get_session. cbn in Hs. rewrite Hs.
    exists (RCodeLenses (result ++ v_lenses (view_of (currentActionRanges c') (UUID s) d))), c'.
    split_and!; [|done|cbn [answers]; by rewrite (im_views _ _ I'), spec_view_lenses].
    unfold sbind at 1 2. cbn [lift_res wrap_err].
    rewrite (sbind_ok _ _ _ _ _ (wrapM_ok _ _ _ _ _ Hrun)), sbind_get. unfold GetCodeLenses, view_of. cbn.
    by destruct (codeLenses (currentActionRanges c') !! UUID s ≫= lookup d).
Qed.

(** A sequence of requests, each with its session, sessions and documents. *)
Record arrival := mkArrival {
  ar_request : request; ar_session : Session; ar_sessions : R;
  ar_documents : Context → URI → gores TextDocumentItem
}.
Definition served (x : arrival) : Prop :=
  request_session (ar_request x) (ar_sessions x) (ar_session x) ∧
  request_document (ar_request x) (ar_documents x).

(** [rs] are the responses of the code to [xs] in order, from [c]. *)
Fixpoint run (xs : list arrival) (c : controller) : list (gores response) * controller :=
  match xs with
  | [] => ([], c)
  | x :: xs' =>
    let '(r, c1) := handle (ar_request x) (ar_sessions x) (ar_documents x) c in
    let '(rs, c2) := run xs' c1 in (r :: rs, c2)
  end.
Fixpoint spec_answers (xs : list arrival) (p : Processed) (rs : list (gores response)) : Prop :=
  match xs, rs with
  | [], [] => True
  | x :: xs', Ok r :: rs' =>
    let p' := spec_step (ar_session x) (ar_request x) (ar_documents x) p in
    answers (ar_session x) (ar_request x) p' r ∧ spec_answers xs' p' rs'
  | _, _ => False
  end.

Lemma run_answers xs c p : Forall served xs → implements c p → spec_answers xs p (run xs c).1.
Proof.
  intros Hx. revert c p. induction Hx as [|x xs [Hs Hd] _ IH]; intros c p I; [done|]. cbn [run].
  destruct (handle_step (ar_request x) (ar_sessions x) (ar_documents x) (ar_session x) c p I Hs Hd)
    as (r&c'&Hrun&I'&Ha).
  rewrite Hrun. specialize (IH c' _ I'). destruct (run xs c') as [rs c2]. by split.
Qed.

(** C22: Over every sequence of requests, with any changes of the sessions and
    documents in between, the code actions and lenses are those of the version
    of the document that was processed last: a version is processed when it is
    newer than the last one, the end of a document forgets it, the end of a
    session drops what was found; code actions are the ones whose lines overlap
    the range, sorted by command and title. *)
Theorem quick_actions_refine xs (Hserved : Forall served xs) :
  spec_answers xs ∅ (run xs (set_enabled enabled New)).1.
Proof.
  apply run_answers; [done|]. split; [done|]. intros u d. unfold spec_view. by rewrite lookup_empty.
Qed.
End trace.

(** ** Errors *)

(** The version of a document counts as processed before the actions have
    run: when one fails, the request returns its error, and every later request
    for the same or an older version answers without running the actions. *)
Theorem failed_version_not_retried (sessions : R) GetTextDocument ctx d s doc a acts e c
    (Hs : repo_GetFromContext sessions ctx = Ok s) (Hdoc : GetTextDocument ctx d = Ok doc)
    (Hacts : enabledActions c !! UUID s = Some (a :: acts))
    (Hrel : IsRelevantDocument a s doc = true) (Hfail : ProcessDocument a doc = Err e)
    (Hnew : v_version (view_of (currentActionRanges c) (UUID s) d) = None) :
  ∃ c', refreshAvailableCodeActions sessions GetTextDocument ctx d c
      = (Err (EWrap "processing document for code action" e), c') ∧
    view_of (currentActionRanges c') (UUID s) d = mkView ∅ [] (Some (Version doc)) ∧
    ∃ c'', refreshAvailableCodeActions sessions GetTextDocument ctx d c' = (Ok tt, c'') ∧
      view_of (currentActionRanges c'') (UUID s) d = mkView ∅ [] (Some (Version doc)).
Proof.
  assert (Hrefresh : ∀ c0, enabledActions c0 = enabledActions c →
    let v := view_of (currentActionRanges c0) (UUID s) d in
    ∃ c1, refreshAvailableCodeActions sessions GetTextDocument ctx d c0
        = ((if newer v (Version doc) then Err (EWrap "processing document for code action" e) else Ok tt), c1) ∧
      enabledActions c1 = enabledActions c ∧
      view_of (currentActionRanges c1) (UUID s) d
      = if newer v (Version doc) then mkView ∅ [] (Some (Version doc)) else v).
  { intros c0 He v. unfold refreshAvailableCodeActions, get_session. rewrite Hs, Hdoc.
    unfold sbind at 1, lift_res, wrap_err. set (a0 := currentActionRanges c0) in *.
    destruct (SetVersion_view (UUID s) d (Version doc) a0) as [Hn Hver].
    unfold sbind at 1, on_ranges. fold a0. destruct (SetVersion (UUID s) d (Version doc) a0) as [b a1].
    cbn [fst snd] in Hn, Hver. subst b. fold v in Hver |- *. destruct (newer v (Version doc)); cbn [negb].
    - unfold sbind at 1, do_ranges, modify_st. rewrite sbind_get. cbn [currentActionRanges set_ranges enabledActions].
      rewrite He, Hacts. cbn [default from_option id forM_]. unfold process_action at 1. rewrite Hrel, Hfail.
      eexists. split_and!; [reflexivity|done|]. cbn [currentActionRanges set_ranges].
      rewrite (updates_here _ _ _ _ _ (DeleteExisting_view (UUID s) d a1)).
      by rewrite (updates_here _ _ _ _ _ Hver).
    - eexists. split_and!; [reflexivity|done|]. cbn. rewrite (updates_here _ _ _ _ _ Hver). by destruct v. }
  destruct (Hrefresh c eq_refl) as (c1&Hrun1&He1&Hv1). cbv zeta in *.
  assert (newer (view_of (currentActionRanges c) (UUID s) d) (Version doc) = true) as Hn
    by (unfold newer; by rewrite Hnew).
  rewrite Hn in Hrun1, Hv1. exists c1. split_and!; [done..|].
  destruct (Hrefresh c1 He1) as (c2&Hrun2&_&Hv2). rewrite Hv1 in Hrun2, Hv2.
  assert (newer (mkView ∅ [] (Some (Version doc))) (Version doc) = false) as Hn'
    by (unfold newer; cbn; by rewrite Z.leb_refl).
  rewrite Hn' in Hrun2, Hv2. by exists c2.
Qed.
End requests.

(** ** Runs *)

Section runs.
Context {R : Type} `{Repository R}.
Context (factory_UUID : N → uuid) (sessions : R).

(** The action that a command runs for a session, with its arguments. *)
Definition runs (c : controller) (ctx : Context) (params : ExecuteCommandParams)
    (s : Session) (a : Action) (args : string) : Prop :=
  repo_GetFromContext sessions ctx = Ok s ∧ ArgumentParams params = [RawJSON args] ∧
  List.find (λ a, bool_decide (CommandName a = CommandParam params))
    (default [] (enabledActions c !! UUID s)) = Some a.
Definition task (s : Session) (a : Action) (args : string) : taskIdentifier :=
  newTaskIdentifier (UUID s) (CommandName a) args.

Lemma exec_check_run c ctx params s a args :
  runs c ctx params s a args →
  exec_check sessions ctx params c
  = (Ok (if TokenExists (task s a args) (pendingActionRuns c) then None else Some (s, a, args)), c).
Proof.
  intros (Hs&Hargs&Ha). unfold exec_check, get_session. rewrite Hs. unfold sbind at 1. cbn [lift_res wrap_err].
  rewrite sbind_get, Ha, Hargs. by destruct (TokenExists _ _).
Qed.

Lemma DeleteInProgress_Add t token m : m !! t = None → DeleteInProgressAction t (AddInProgressAction t token m) = m.
Proof.
  intros Hm. unfold DeleteInProgressAction, AddInProgressAction. rewrite lookup_insert_eq.
  by apply delete_insert_id.
Qed.

(** C23: A command whose run is pending is not started again.  Otherwise its
    action runs once, between the messages of its progress, with a token of its
    own; however the action ends, the run is no longer pending, its context is
    cancelled and the end of the progress is sent.  Its cancel function stays in
    [pendingCmds] for good. *)
Theorem executeCommand_runs c ctx params s a args
    (Hruns : runs c ctx params s a args) :
  (TokenExists (task s a args) (pendingActionRuns c) = true →
    executeCommand factory_UUID sessions ctx params c = (Ok tt, c)) ∧
  (TokenExists (task s a args) (pendingActionRuns c) = false →
    ∀ info, ProvideWorkDoneProgressParams a ctx args = Ok info →
    let token := factory_UUID (uuids c) in
    let begin := match info with
      | Some p => [WorkDoneProgressCreate token; ProgressBegin token (InfoTitle p) (InfoMessage p)]
      | None => [] end in
    let '(r, es) := Execute a ctx token args (effects c ++ begin) in
    executeCommand factory_UUID sessions ctx params c
    = (r, mkController (enabledActions c) (pendingActionRuns c) ({[token]} ∪ pendingCmds c)
        (currentActionRanges c) ({[token]} ∪ cancelled c)
        (es ++ match info with Some _ => [ProgressEnd token] | None => [] end) (uuids c + 1)%N)) ∧
  (TokenExists (task s a args) (pendingActionRuns c) = false →
    ∀ e, ProvideWorkDoneProgressParams a ctx args = Err e →
    ∃ c', executeCommand factory_UUID sessions ctx params c = (Err e, c') ∧
      pendingActionRuns c' = pendingActionRuns c ∧ effects c' = effects c).
Proof.
  pose proof (exec_check_run c ctx params s a args Hruns) as Hcheck.
  unfold executeCommand. rewrite (sbind_ok _ _ _ _ _ Hcheck). clear Hcheck.
  assert (Hnone : TokenExists (task s a args) (pendingActionRuns c) = false →
    pendingActionRuns c !! task s a args = None).
  { unfold TokenExists. by destruct (_ !! _). }
  split_and!; intros Ht; rewrite Ht.
  - done.
  - intros info Hinfo. cbv zeta. specialize (Hnone Ht).
    destruct (Execute a ctx _ args _) as [r es] eqn:Hex.
    unfold sbind at 1, exec_add, exec_run, deferring. rewrite Hinfo.
    unfold sbind at 1. cbn [lift_res]. unfold startWorkDoneProgressMessage, effect, on_effects.
    destruct info as [p|]; cbn -[union]; rewrite ?app_nil_r, <- ?app_assoc in *; cbn -[union] in *;
      rewrite Hex; cbn -[union]; by rewrite (DeleteInProgress_Add _ _ _ Hnone).
  - intros e He. specialize (Hnone Ht). unfold sbind at 1, exec_add, exec_run, deferring. rewrite He. cbn.
    eexists. split_and!; [reflexivity| |done]. cbn. by rewrite (DeleteInProgress_Add _ _ _ Hnone).
Qed.

Lemma cancel_all l c :
  ∃ p x, forM_ l cancelPendingCmd c = (Ok tt, set_cmds p x c) ∧
    (∀ t, t ∈ p ↔ t ∈ pendingCmds c ∧ t ∉ l) ∧
    (∀ t, t ∈ x ↔ t ∈ cancelled c ∨ t ∈ l ∧ t ∈ pendingCmds c).
Proof.
  revert c. induction l as [|t l IH]; intros c; cbn [forM_].
  { exists (pendingCmds c), (cancelled c). split_and!; [by destruct c|set_solver..]. }
  assert (∃ p x, cancelPendingCmd t c = (Ok tt, set_cmds p x c) ∧
    p = pendingCmds c ∖ {[t]} ∧ ∀ t', t' ∈ x ↔ t' ∈ cancelled c ∨ t' = t ∧ t ∈ pendingCmds c) as (p&x&Hrun&Hp&Hx).
  { unfold cancelPendingCmd. rewrite sbind_get. case_bool_decide as Hin.
    - eexists _, _. split_and!; [reflexivity|done|]. set_solver.
    - exists (pendingCmds c), (cancelled c). split_and!; [by destruct c|set_solver..]. }
  rewrite (sbind_ok _ _ _ _ _ Hrun). destruct (IH (set_cmds p x c)) as (p'&x'&->&Hp'&Hx').
  exists p', x'. split; [done|]. cbn in Hp', Hx'. subst p. split; intros t'.
  - rewrite Hp'. set_solver.
  - rewrite Hx', Hx. destruct (decide (t' = t)) as [->|]; set_solver.
Qed.

Lemma endSession_run u c :
  ∃ c', endSession u c = (Ok tt, c') ∧
    pendingActionRuns c' = DeleteSessionRuns u (pendingActionRuns c) ∧
    (∀ t, t ∈ pendingCmds c' ↔
      t ∈ pendingCmds c ∧ t ∉ GetInProgressActionRunTokens u (pendingActionRuns c)) ∧
    (∀ t, t ∈ cancelled c' ↔
      t ∈ cancelled c ∨ t ∈ GetInProgressActionRunTokens u (pendingActionRuns c) ∧ t ∈ pendingCmds c).
Proof.
  unfold endSession, do_ranges. rewrite sbind_modify, sbind_get. set (c1 := set_ranges _ c).
  destruct (cancel_all (GetInProgressActionRunTokens u (pendingActionRuns c1)) c1) as (p&x&Hrun&Hp&Hx).
  rewrite (sbind_ok _ _ _ _ _ Hrun). by eexists.
Qed.

(** Both runs have stored their cancel functions. *)
Definition both_running (t1 t2 : uuid) (c : controller) : controller :=
  set_cmds ({[t1; t2]} ∪ pendingCmds c) (cancelled c) c.

(** The look at the pending runs and the entry of a run are separate critical
    sections: two requests for one command that both look first both run it, the
    second entry replaces the first, and the end of the session cancels only the
    second run. *)
Theorem executeCommand_race ctx params s a args
    (Hruns : runs (set_enabled {[UUID s := [a]]} New) ctx params s a args)
    (Hfresh : factory_UUID 0 ≠ factory_UUID 1) :
  let c := set_enabled {[UUID s := [a]]} New in
  let t1 := factory_UUID 0 in
  let t2 := factory_UUID 1 in
  exec_check sessions ctx params c = (Ok (Some (s, a, args)), c) ∧
  ∃ c1 c2 c3, exec_add factory_UUID s a args c = (Ok t1, c1) ∧
    exec_add factory_UUID s a args c1 = (Ok t2, c2) ∧
    endSession (UUID s) (both_running t1 t2 c2) = (Ok tt, c3) ∧
    t2 ∈ cancelled c3 ∧ t1 ∉ cancelled c3 ∧ t1 ∈ pendingCmds c3.
Proof.
  intros c t1 t2. split; [by rewrite (exec_check_run c ctx params s a args Hruns)|].
  destruct (exec_add factory_UUID s a args c) as [r1 c1] eqn:E1.
  destruct (exec_add factory_UUID s a args c1) as [r2 c2] eqn:E2.
  destruct (endSession_run (UUID s) (both_running t1 t2 c2)) as (c3&Hrun&_&Hp&Hx).
  exists c1, c2, c3. unfold exec_add in E1, E2. injection E1 as <- <-. injection E2 as <- <-.
  assert (Ht : GetInProgressActionRunTokens (UUID s) (AddInProgressAction (task s a args) t2
    (AddInProgressAction (task s a args) t1 ∅)) = [t2]).
  { unfold AddInProgressAction, GetInProgressActionRunTokens.
    rewrite insert_insert_eq, insert_empty, map_to_list_singleton. cbn. by rewrite bool_decide_true. }
  split_and!; [done|done|exact Hrun|..]; rewrite ?Hp, ?Hx;
    change (pendingActionRuns _) with (AddInProgressAction (task s a args) t2
      (AddInProgressAction (task s a args) t1 ∅)); rewrite Ht; cbn -[union]; set_solver.
Qed.
End runs.

(** ** Samples *)

Definition sample_session : Session := mkSession 5%N (Some 1%N) None "/w" "" [] true.
Definition sample_sessions : repository := mkRepository {[5%N := SessionToModel sample_session]} 1.
Definition sample_ctx : Context := mkContext (Some 5%N).
Definition sample_range : Range := mkRange (mkPosition 2 0) (mkPosition 3 4).
Definition sample_doc (v : Z) : TextDocumentItem := mkTextDocumentItem "file:///w/A.java" "java" v [].
Definition sample_docs (v : Z) (_ : Context) (_ : URI) : gores TextDocumentItem := Ok (sample_doc v).
(** An action that offers a code action, and one that fails. *)
Definition sample_action : Action := mkAction (λ _ _, true) "cmd" (λ _ _, true)
  (λ doc, Ok [ResultCodeAction (NewCodeActionWithRange sample_range "title" "cmd" Refactor argsEmpty)])
  (λ _ _ _ es, (Ok tt, es ++ [LogMessage "ran" MessageInfo]))
  (λ _ _, Ok (Some (mkProgressInfoParams "t" "m"))).
Definition failing_action : Action := mkAction (λ _ _, true) "cmd" (λ _ _, true)
  (λ doc, Err (EText "broken")) (λ _ _ _ es, (Ok tt, es)) (λ _ _, Ok None).
Definition sample_enabled : gmap uuid (list Action) := {[5%N := [sample_action]]}.
#[local] Instance sample_action_laws : ActionLaws sample_action.
Proof. split. intros doc. eexists. split; [reflexivity|]. constructor; [|constructor]. by left. Qed.

Definition sample_arrivals : list (arrival (R := repository)) :=
  (λ q, mkArrival q.1 sample_session sample_sessions (sample_docs q.2)) <$>
  [(QOpen sample_ctx "file:///w/A.java", 1);
   (QCodeAction sample_ctx "file:///w/A.java" (mkRange (mkPosition 3 0) (mkPosition 3 1)) [], 2);
   (QCodeLens sample_ctx "file:///w/A.java" [], 2);
   (QEndSession 5%N, 2);
   (QCodeAction sample_ctx "file:///w/A.java" (mkRange (mkPosition 3 0) (mkPosition 3 1)) [], 2)].
Example sample_answers :
  (run id sample_arrivals (set_enabled sample_enabled New)).1 =
  [Ok RDone; Ok (RCodeActions [NewCodeAction "title" "cmd" Refactor argsEmpty]); Ok (RCodeLenses []);
   Ok RDone; Ok (RCodeActions [])].
Proof. by vm_compute. Qed.

Lemma quick_actions_refine_witness :
  spec_answers sample_enabled sample_arrivals ∅ (run id sample_arrivals (set_enabled sample_enabled New)).1.
Proof.
  apply quick_actions_refine.
  - done.
  - apply map_Forall_singleton. constructor; [apply sample_action_laws|constructor].
  - repeat constructor; by eexists.
Defined.

Lemma failed_version_not_retried_witness :
  ∃ c', refreshAvailableCodeActions sample_sessions (sample_docs 7) sample_ctx "file:///w/A.java"
    (set_enabled {[5%N := [failing_action]]} New)
  = (Err (EWrap "processing document for code action" (EText "broken")), c').
Proof.
  destruct (failed_version_not_retried sample_sessions (sample_docs 7) sample_ctx "file:///w/A.java"
    sample_session (sample_doc 7) failing_action [] (EText "broken")
    (set_enabled {[5%N := [failing_action]]} New)) as (c'&Hrun&_); [done..|by exists c'].
Defined.

Lemma executeCommand_runs_witness :
  let c := set_enabled sample_enabled New in
  effects (executeCommand (λ n, n + 9)%N sample_sessions sample_ctx
    (mkExecuteCommandParams "cmd" [RawJSON "{}"]) c).2
  = [WorkDoneProgressCreate 9; ProgressBegin 9 "t" "m"; LogMessage "ran" MessageInfo; ProgressEnd 9].
Proof.
  intros c.
  destruct (executeCommand_runs (λ n, n + 9)%N sample_sessions c sample_ctx
    (mkExecuteCommandParams "cmd" [RawJSON "{}"]) sample_session sample_action "{}") as (_&P&_); [done|].
  by rewrite (P eq_refl _ eq_refl).
Defined.

Lemma executeCommand_race_witness :
  exec_check sample_sessions sample_ctx (mkExecuteCommandParams "cmd" [RawJSON "{}"])
    (set_enabled {[5%N := [sample_action]]} New)
  = (Ok (Some (sample_session, sample_action, "{}")), set_enabled {[5%N := [sample_action]]} New).
Proof.
  by destruct (executeCommand_race (λ n, n + 9)%N sample_sessions sample_ctx
    (mkExecuteCommandParams "cmd" [RawJSON "{}"]) sample_session sample_action "{}") as [P _].
Defined.
End QuickActionsProof.
