(* ===== verification/JavaUtils.v ===== *)
(** * Build targets of Java documents

    Models [src/ulsp/internal/java-utils/utils.go]: the directory of the nearest
    BUILD file above a document and the Bazel target of that directory.  The
    file system is a parameter.  The loop that climbs the directories has no
    bound in the code; the model gives it fuel.

    Shown: for a document below the workspace root the loop ends and finds the
    nearest directory with a BUILD file; for a document in another directory
    whose name begins with the name of the root it runs forever. *)

From stdpp Require Import base list strings.
From Stdlib Require Import ZArith Ascii Lia.
From S2P Require Import Prelude Protocol Paths.

Module JavaUtils.

Definition _targetSuffix : string := "...".

Definition isBuildFile (fileName : string) : bool :=
  bool_decide (fileName = "BUILD.bazel" ∨ fileName = "BUILD").

Definition NormalizeIDEClient (ideClient : string) : string :=
  if bool_decide (ideClient = "Visual Studio Code") then "vscode"
  else if bool_decide (ideClient = "Cursor") then "cursor"
  else ideClient.

(** [s[n:]] *)
Fixpoint string_drop (n : nat) (s : string) : string :=
  match n, s with
  | S n', String _ s' => string_drop n' s'
  | _, _ => s
  end.

(** [strings.SplitN(s, sep, 2)] *)
Fixpoint split_first (sep s : string) : option (string * string) :=
  if String.prefix sep s then Some ("", string_drop (String.length sep) s)
  else match s with
       | "" => None
       | String c s' => (λ p, (String c p.1, p.2)) <$> split_first sep s'
       end.
Definition SplitN2 (s sep : string) : list string :=
  match split_first sep s with Some (a, b) => [a; b] | None => [s] end.

Section java_utils.
(** [uri.Filename()], [fs.DirExists] and the names that [fs.ReadDir] gives. *)
Context (Filename : URI → string) (DirExists : string → gores bool)
  (ReadDir : string → gores (list string)).

(** The loop of [getBuildFile]. *)
Fixpoint climb (fuel : nat) (workspaceRoot currentDir : string) (includeBuildFile : bool)
    : gores string :=
  match fuel with
  | O => Fuel
  | S fuel' =>
    if bool_decide (currentDir = workspaceRoot) then
      Err (EText "no child directory contained a BUILD file")
    else
      children <-? ReadDir currentDir;;
      match List.find isBuildFile children with
      | Some childName =>
        Ok (if includeBuildFile then currentDir +:+ String slash childName else currentDir)
      | None => climb fuel' workspaceRoot (Dir currentDir) includeBuildFile
      end
  end.

Definition getBuildFile (fuel : nat) (workspaceRoot : string) (uri : URI) (includeBuildFile : bool)
    : gores string :=
  let filename := Filename uri in
  if negb (String.prefix workspaceRoot filename) then
    Err (EText ("uri " +:+ filename +:+ " is not a child of the workspace " +:+ workspaceRoot))
  else
    isDir <-? DirExists filename;;
    climb fuel workspaceRoot (if isDir then filename else Dir filename) includeBuildFile.

Definition GetJavaTarget (fuel : nat) (workspaceRoot : string) (docURI : URI) : gores string :=
  buildFileDir <-? getBuildFile fuel workspaceRoot docURI false;;
  match SplitN2 buildFileDir (workspaceRoot +:+ String slash "") with
  | [_; rest] => Ok (Join rest _targetSuffix)
  | _ => Err (EText "missing workspace root")
  end.

(** ** The nearest BUILD file *)

Definition has_build (dir : string) : bool :=
  match ReadDir dir with Ok children => existsb isBuildFile children | _ => false end.

(** The directory of the longest prefix of [rev] with a BUILD file, below the
    directory of [xs]; [rev] lists the elements from the last one on. *)
Fixpoint nearest (xs rev : list string) : option (list string) :=
  match rev with
  | [] => None
  | y :: rev' =>
    if has_build (abs_path (xs ++ reverse rev)) then Some (reverse rev) else nearest xs rev'
  end.

Lemma nearest_spec xs rev zs :
  nearest xs rev = Some zs ↔
  ∃ below, reverse rev = zs ++ below ∧ zs ≠ [] ∧ has_build (abs_path (xs ++ zs)) = true ∧
    ∀ b1 b2, below = b1 ++ b2 → b1 ≠ [] → has_build (abs_path (xs ++ zs ++ b1)) = false.
Proof.
  induction rev as [|y rev IH]; cbn [nearest].
  { split; [done|]. intros (b&Hb&Hz&_). symmetry in Hb. by apply app_nil in Hb as [-> _]. }
  destruct (has_build (abs_path (xs ++ reverse (y :: rev)))) eqn:Hh.
  - split.
    + intros [= <-]. exists []. rewrite app_nil_r. split_and!; [done| |done|].
      * rewrite reverse_cons. by destruct (reverse rev).
      * intros b1 b2 Hb. symmetry in Hb. by apply app_nil in Hb as [-> _].
    + intros (b&Hb&Hz&_&Hnone). destruct b as [|x b]; [by rewrite app_nil_r in Hb; rewrite Hb|].
      exfalso. specialize (Hnone (x :: b) []). rewrite app_nil_r, <- Hb, Hh in Hnone. by discriminate Hnone.
  - rewrite IH. rewrite reverse_cons in *. split.
    + intros (b&Hb&Hz&Hzs&Hnone). exists (b ++ [y]). rewrite Hb, <- (assoc_L (++)).
      split_and!; [done..|]. intros b1 b2 Hb12 Hb1.
      destruct b2 as [|x b2 _] using rev_ind.
      * rewrite app_nil_r in Hb12. subst b1. rewrite (assoc_L (++) zs), <- Hb. done.
      * rewrite (assoc_L (++)) in Hb12. apply app_inj_tail in Hb12 as [-> _]. by eapply Hnone.
    + intros (b&Hb&Hz&Hzs&Hnone). destruct b as [|x b _] using rev_ind.
      * rewrite app_nil_r in Hb. rewrite Hb in Hh. congruence.
      * rewrite (assoc_L (++)) in Hb. apply app_inj_tail in Hb as [Hb ->]. exists b.
        split_and!; [done..|]. intros b1 b2 -> Hb1. apply (Hnone b1 (b2 ++ [x])); [|done].
        by rewrite (assoc_L (++)).
Qed.

Lemma find_existsb {A} (f : A → bool) l :
  match List.find f l with Some _ => existsb f l = true | None => existsb f l = false end.
Proof. induction l as [|x l IH]; cbn; [done|]. by destruct (f x). Qed.

Lemma abs_path_inj xs ys : path_elems xs → path_elems ys → abs_path xs = abs_path ys → xs = ys.
Proof.
  intros [Hxn Hxs] [Hyn Hys] E. rewrite <- (rel_elems_rooted xs Hxn Hxs), <- (rel_elems_rooted ys Hyn Hys).
  unfold abs_path in E. by rewrite E.
Qed.

Lemma climb_below fuel xs rev include :
  path_elems (xs ++ reverse rev) →
  (∀ b1 b2, reverse rev = b1 ++ b2 → b1 ≠ [] → ∃ l, ReadDir (abs_path (xs ++ b1)) = Ok l) →
  (length rev < fuel)%nat →
  match nearest xs rev with
  | Some zs => ∃ child, isBuildFile child = true ∧
      climb fuel (abs_path xs) (abs_path (xs ++ reverse rev)) include
      = Ok (if include then abs_path (xs ++ zs) +:+ String slash child else abs_path (xs ++ zs))
  | None => climb fuel (abs_path xs) (abs_path (xs ++ reverse rev)) include
      = Err (EText "no child directory contained a BUILD file")
  end.
Proof.
  intros Hp Hread Hf. revert fuel Hf. induction rev as [|y rev IH]; intros fuel Hf;
    (destruct fuel as [|fuel]; [cbn in Hf; lia|]); cbn [nearest climb].
  { by rewrite app_nil_r, bool_decide_true. }
  rewrite bool_decide_false.
  2:{ intros E. apply abs_path_inj in E; [|done|by apply path_elems_app in Hp as [? _]].
      apply (f_equal length) in E. rewrite length_app, length_reverse in E. cbn in E. lia. }
  destruct (Hread (reverse (y :: rev)) []) as (l&Hl); [by rewrite app_nil_r|by rewrite reverse_cons; destruct (reverse rev)|].
  unfold has_build. rewrite Hl. cbn [rbind]. pose proof (find_existsb isBuildFile l) as Hfind.
  destruct (List.find isBuildFile l) as [child|] eqn:Hc; rewrite Hfind.
  - exists child. split; [by apply List.find_some in Hc as [_ ?]|done].
  - rewrite reverse_cons, (assoc_L (++)) in Hp |- *. rewrite Dir_snoc by done. apply IH.
    + by apply path_elems_app in Hp as [? _].
    + intros b1 b2 Hb Hb1. apply (Hread b1 (b2 ++ [y])); [|done].
      by rewrite reverse_cons, Hb, (assoc_L (++)).
    + cbn in Hf. lia.
Qed.

(** ** Targets *)

Lemma join_slash_app xs ys :
  xs ≠ [] → ys ≠ [] → join_slash (xs ++ ys) = join_slash xs +:+ String slash (join_slash ys).
Proof.
  intros Hxs Hys. induction xs as [|x xs IH]; [done|]. destruct xs as [|x' xs].
  - by destruct ys.
  - change ((x :: x' :: xs) ++ ys) with (x :: (x' :: xs) ++ ys).
    change (join_slash (x :: (x' :: xs) ++ ys)) with (x +:+ String slash (join_slash ((x' :: xs) ++ ys))).
    rewrite IH by done. change (join_slash (x :: x' :: xs)) with (x +:+ String slash (join_slash (x' :: xs))).
    clear. induction x as [|c x IH]; [done|]. exact (f_equal (String c) IH).
Qed.

Lemma app_char c s t : (s +:+ String c "") +:+ t = s +:+ String c t.
Proof. induction s as [|d s IH]; [done|]. exact (f_equal (String d) IH). Qed.

Lemma app_empty s : s +:+ "" = s.
Proof. induction s as [|d s IH]; [done|]. exact (f_equal (String d) IH). Qed.

Lemma abs_path_app xs ys : xs ≠ [] → ys ≠ [] →
  abs_path (xs ++ ys) = (abs_path xs +:+ String slash "") +:+ join_slash ys.
Proof.
  intros Hxs Hys. rewrite app_char. unfold abs_path. by rewrite join_slash_app.
Qed.

Lemma prefix_app p q : String.prefix p (p +:+ q) = true.
Proof.
  induction p as [|c p IH]; [by destruct q|].
  change ((if ascii_dec c c then String.prefix p (p +:+ q) else false) = true).
  by destruct (ascii_dec c c).
Qed.
Lemma drop_app p q : string_drop (String.length p) (p +:+ q) = q.
Proof. by induction p. Qed.
Lemma SplitN2_prefix p q : p ≠ "" → SplitN2 (p +:+ q) p = [""; q].
Proof.
  intros Hp. unfold SplitN2. destruct p as [|c p]; [done|].
  change (split_first (String c p) (String c p +:+ q)) with
    (if String.prefix (String c p) (String c p +:+ q)
     then Some ("", string_drop (String.length (String c p)) (String c p +:+ q))
     else (λ r, (String c r.1, r.2)) <$> split_first (String c p) (p +:+ q)).
  by rewrite prefix_app, drop_app.
Qed.
Lemma Join_target zs : path_elems zs → zs ≠ [] → Join (join_slash zs) "..." = join_slash (zs ++ ["..."]).
Proof.
  intros [Hn Hs] Hne. unfold Join.
  assert (Hj : ∃ c s, join_slash zs = String c s).
  { destruct zs as [|z zs]; [done|]. inversion_clear Hn as [|?? [Hz _] _]. destruct z as [|c z]; [done|].
    destruct zs; cbn; eauto. }
  destruct Hj as (c&s&Hj). rewrite Hj, <- Hj. change (String slash "...") with (String slash (join_slash ["..."])).
  rewrite <- join_slash_app by done.
  pose proof (render_clean false (reverse (zs ++ ["..."]))) as Hr. rewrite reverse_involutive in Hr.
  unfold render in Hr. destruct (zs ++ ["..."]) as [|w ws] eqn:E; [by destruct zs|]. apply Hr.
  rewrite <- E, <- (app_nil_r (reverse _)). apply cleaned_app; [..|by apply (cleaned_up false 0)].
  - apply Forall_app. split; [done|]. by repeat constructor.
  - apply Forall_app. split; [done|]. by repeat constructor.
Qed.

Section target.
(** A document [file], or a directory without one, in the directory [dirs]
    below the workspace root, the directory of [root]. *)
Context (root dirs : list string) (file : option string) (uri : URI).
Context (Hroot : root ≠ []) (Hpath : path_elems (root ++ dirs ++ option_list file)).
Context (Hfile : Filename uri = abs_path (root ++ dirs ++ option_list file)).
Context (Hdir : DirExists (abs_path (root ++ dirs ++ option_list file)) = Ok (bool_decide (file = None))).
Context (Hread : ∀ b1 b2, dirs = b1 ++ b2 → b1 ≠ [] → ∃ l, ReadDir (abs_path (root ++ b1)) = Ok l).

Lemma getBuildFile_climbs fuel :
  getBuildFile fuel (abs_path root) uri false
  = climb fuel (abs_path root) (abs_path (root ++ dirs)) false.
Proof.
  unfold getBuildFile. rewrite Hfile, Hdir.
  assert (String.prefix (abs_path root) (abs_path (root ++ dirs ++ option_list file)) = true) as ->.
  { destruct (dirs ++ option_list file) as [|y ys].
    - rewrite app_nil_r. rewrite <- (app_empty (abs_path root)) at 2. apply prefix_app.
    - rewrite abs_path_app, app_char by done. apply prefix_app. }
  cbn [rbind negb]. destruct file as [f|].
  - change (option_list (Some f)) with [f] in *. rewrite bool_decide_false by done. rewrite (assoc_L (++)) in Hpath |- *. by rewrite Dir_snoc.
  - change (option_list (@None string)) with (@nil string). by rewrite bool_decide_true, app_nil_r.
Qed.

(** C25: For a document below the workspace root [GetJavaTarget] returns, within
    one step for each directory between them: the target of the nearest
    directory above the document that has a BUILD file, or an error when there
    is none below the root. *)
Theorem GetJavaTarget_nearest fuel (Hfuel : (length dirs < fuel)%nat) :
  (∀ zs below, dirs = zs ++ below → zs ≠ [] → has_build (abs_path (root ++ zs)) = true →
    (∀ b1 b2, below = b1 ++ b2 → b1 ≠ [] → has_build (abs_path (root ++ zs ++ b1)) = false) →
    GetJavaTarget fuel (abs_path root) uri = Ok (join_slash (zs ++ ["..."]))) ∧
  ((∀ zs below, dirs = zs ++ below → zs ≠ [] → has_build (abs_path (root ++ zs)) = false) →
    GetJavaTarget fuel (abs_path root) uri = Err (EText "no child directory contained a BUILD file")).
Proof.
  assert (Hp : path_elems (root ++ dirs)).
  { rewrite (assoc_L (++)) in Hpath. by apply path_elems_app in Hpath as [? _]. }
  pose proof (climb_below fuel root (reverse dirs) false) as Hc. rewrite reverse_involutive in Hc.
  rewrite length_reverse in Hc. specialize (Hc Hp Hread Hfuel).
  pose proof (nearest_spec root (reverse dirs)) as Hn. rewrite reverse_involutive in Hn.
  unfold GetJavaTarget. rewrite getBuildFile_climbs. split.
  - intros zs below Hz Hne Hb Hnone. assert (E : nearest root (reverse dirs) = Some zs) by (apply Hn; eauto).
    rewrite E in Hc. destruct Hc as (child&_&->). cbn [rbind].
    rewrite abs_path_app, SplitN2_prefix by (done || by destruct root).
    rewrite Join_target; [done| |done]. subst dirs. apply path_elems_app in Hp as [_ Hp].
    by apply path_elems_app in Hp as [? _].
  - intros Hnone. destruct (nearest root (reverse dirs)) as [zs|]; [|by rewrite Hc].
    destruct (proj1 (Hn zs) eq_refl) as (below&Hz&Hne&Hb&_). by rewrite (Hnone zs below) in Hb.
Qed.
End target.

(** ** Directories beside the root *)

Lemma climb_away fuel workspaceRoot rev include :
  path_elems (reverse rev) →
  (∀ b1 b2, reverse rev = b1 ++ b2 → abs_path b1 ≠ workspaceRoot) →
  (∀ b1 b2, reverse rev = b1 ++ b2 → ∃ l, ReadDir (abs_path b1) = Ok l ∧ existsb isBuildFile l = false) →
  climb fuel workspaceRoot (abs_path (reverse rev)) include = Fuel.
Proof.
  revert rev. induction fuel as [|fuel IH]; intros rev Hp Hroot Hread; [done|]. cbn [climb].
  rewrite bool_decide_false by (apply (Hroot _ []); by rewrite app_nil_r).
  destruct (Hread (reverse rev) []) as (l&->&Hl); [by rewrite app_nil_r|]. cbn [rbind].
  pose proof (find_existsb isBuildFile l) as Hfind. destruct (List.find isBuildFile l); [congruence|].
  destruct rev as [|y rev].
  - change (Dir (abs_path (reverse []))) with (abs_path (reverse [])). by apply IH.
  - rewrite reverse_cons in *. rewrite Dir_snoc by done. apply IH.
    + by apply path_elems_app in Hp as [? _].
    + intros b1 b2 Hb. apply (Hroot b1 (b2 ++ [y])). by rewrite Hb, (assoc_L (++)).
    + intros b1 b2 Hb. apply (Hread b1 (b2 ++ [y])). by rewrite Hb, (assoc_L (++)).
Qed.

(** The check that a document is in the workspace compares strings: for a
    document outside the root whose path begins with the root's, such as one of
    [/repo2] in the workspace [/repo], with no BUILD file above it, the loop
    climbs to the root of the file system and never ends. *)
Theorem GetJavaTarget_diverges fuel workspaceRoot dirs file uri
    (Hpath : path_elems (dirs ++ [file])) (Hfile : Filename uri = abs_path (dirs ++ [file]))
    (Hprefix : String.prefix workspaceRoot (abs_path (dirs ++ [file])) = true)
    (Hdir : DirExists (abs_path (dirs ++ [file])) = Ok false)
    (Houtside : ∀ b1 b2, dirs = b1 ++ b2 → abs_path b1 ≠ workspaceRoot)
    (Hread : ∀ b1 b2, dirs = b1 ++ b2 →
      ∃ l, ReadDir (abs_path b1) = Ok l ∧ existsb isBuildFile l = false) :
  GetJavaTarget fuel workspaceRoot uri = Fuel.
Proof.
  unfold GetJavaTarget, getBuildFile. rewrite Hfile, Hprefix, Hdir. cbn [negb rbind].
  rewrite Dir_snoc by done.
  pose proof (climb_away fuel workspaceRoot (reverse dirs) false) as Hc. rewrite reverse_involutive in Hc.
  rewrite Hc; [done|by apply path_elems_app in Hpath as [? _]|done..].
Qed.
End java_utils.

(** ** Samples *)

Definition sample_filename (uri : URI) : string := string_drop 7 uri.
Definition no_dirs (_ : string) : gores bool := Ok false.
Definition sample_tree (dir : string) : gores (list string) :=
  Ok (if bool_decide (dir = "/repo/lib") then ["BUILD.bazel"; "src"]
      else if bool_decide (dir = "/repo") then ["BUILD"; "lib"] else ["x"]).

Example sample_target :
  GetJavaTarget sample_filename no_dirs sample_tree 9 "/repo" "file:///repo/lib/src/A.java" = Ok "lib/..." ∧
  GetJavaTarget sample_filename no_dirs sample_tree 9 "/repo" "file:///repo/app/A.java"
  = Err (EText "no child directory contained a BUILD file") ∧
  GetJavaTarget sample_filename no_dirs sample_tree 9 "/repo" "file:///tmp/A.java"
  = Err (EText "uri /tmp/A.java is not a child of the workspace /repo").
Proof. by vm_compute. Qed.

Lemma prefix_cases (l b1 b2 : list string) : l = b1 ++ b2 → b1 = take (length b1) l ∧ (length b1 ≤ length l)%nat.
Proof. intros ->. rewrite take_app_length, length_app. split; [done|lia]. Qed.

Lemma GetJavaTarget_nearest_witness :
  GetJavaTarget sample_filename no_dirs sample_tree 9 (abs_path ["repo"]) "file:///repo/lib/src/A.java"
  = Ok "lib/...".
Proof.
  assert (P : path_elems (["repo"] ++ ["lib"; "src"] ++ option_list (Some "A.java")))
    by by split; repeat constructor.
  destruct (GetJavaTarget_nearest sample_filename no_dirs sample_tree ["repo"] ["lib"; "src"]
    (Some "A.java") "file:///repo/lib/src/A.java" ltac:(done) P eq_refl eq_refl
    ltac:(by intros b1 b2 _ _; eexists) 9 ltac:(cbn; lia)) as [Q _].
  apply (Q ["lib"] ["src"]); [done..|]. intros b1 b2 Hb Hne.
  destruct (prefix_cases _ _ _ Hb) as [Hb1 Hl]. destruct b1 as [|b [|]]; [done| |cbn in Hl; lia].
  cbn in Hb1. by injection Hb1 as ->.
Defined.

Lemma GetJavaTarget_diverges_witness :
  GetJavaTarget sample_filename no_dirs sample_tree 1000 "/repo" "file:///repo2/A.java" = Fuel.
Proof.
  assert (P : path_elems (["repo2"] ++ ["A.java"])) by by split; repeat constructor.
  apply (GetJavaTarget_diverges sample_filename no_dirs sample_tree 1000 "/repo" ["repo2"] "A.java"
    "file:///repo2/A.java" P); [done..| |].
  - intros b1 b2 Hb. destruct (prefix_cases _ _ _ Hb) as [Hb1 Hl].
    destruct b1 as [|b [|]]; [done| |cbn in Hl; lia]. cbn in Hb1. by injection Hb1 as ->.
  - intros b1 b2 Hb. destruct (prefix_cases _ _ _ Hb) as [Hb1 Hl].
    destruct b1 as [|b [|]]; [by eexists| |cbn in Hl; lia]. cbn in Hb1. injection Hb1 as ->. by eexists.
Defined.

End JavaUtils.
