(* ===== verification/JavaActions.v ===== *)
(** * The Java actions

    Models [src/ulsp/controller/quick-actions/actions-java] — building a target,
    running a test, its coverage, the two links to the test explorer and the
    sync of a file — and [FindAllStringMatches] of [src/ulsp/mapper/document.go]
    by which they find their places in a document.

    Parameters: the two regular expressions by the matches that Go's [regexp]
    finds, the JSON codec of the arguments, the file system, the environment, the
    client's name, and the errors of the gateway and of the executor.

    Shown: every action finds its lenses and code actions in every document
    without an error, and the command of a lens, run with the lens's arguments,
    starts Bazel on the target of the document; without client information in
    [initialize] it panics. *)

From stdpp Require Import base gmap list strings.
From Stdlib Require Import ZArith Ascii Lia.
From S2P Require Import Prelude Protocol Paths Session Utf8 TextOffset TextEdits Capabilities ActionStore QuickActions QuickActionsProof JavaUtils.

Local Open Scope Z_scope.

Module JavaActions.
Import QuickActions JavaUtils.

Inductive Regex := _regexpJavaClassHeader | _regexpJavaTest.
#[export] Instance Regex_eq_dec : EqDecision Regex.
Proof. solve_decision. Defined.
Definition NumSubexp (r : Regex) : nat :=
  match r with _regexpJavaClassHeader => 1 | _regexpJavaTest => 2 end.

(** Go's [regexp] and [encoding/json] *)
Class JavaLibs := {
  FindAllStringSubmatch : Regex → bytes → list (list string);
  FindAllStringIndex : Regex → bytes → list (Z * Z);
  Marshal : Arguments → string;
  UnmarshalJavaBuild : string → gores (URI * string);
  UnmarshalJavaTestRun : string → gores (URI * string * string);   (** document, class, method *)
  UnmarshalJavaSync : string → gores URI
}.
(** Both searches find the same matches, in the text; a match has its text and
    one string for each group.  The arguments are read back as they were written. *)
Class JavaLibsLaws `{JavaLibs} := {
  submatch_shape r text : Forall (λ m, length m = S (NumSubexp r)) (FindAllStringSubmatch r text);
  submatch_index r text : length (FindAllStringSubmatch r text) = length (FindAllStringIndex r text);
  index_range r text : Forall (λ p, 0 ≤ p.1 ≤ p.2 ∧ p.2 ≤ zlen text) (FindAllStringIndex r text);
  unmarshal_build d c : UnmarshalJavaBuild (Marshal (argsJavaBuild d c)) = Ok (d, c);
  unmarshal_test d c m : UnmarshalJavaTestRun (Marshal (argsJavaTestRun d c m)) = Ok (d, c, m);
  unmarshal_sync d : UnmarshalJavaSync (Marshal (argsJavaSync d)) = Ok d
}.

(** ** Matches *)

Record RegexMatchResult := mkRegexMatchResult {
  MatchRange : Range; TextMatch : string; CapturingGroups : list string
}.

(** [result[i]] from [ranges[i]] and [textSubmatches[i]] *)
Fixpoint match_results (ranges : list TextEdit) (textSubmatches : list (list string))
    : gores (list RegexMatchResult) :=
  match ranges with
  | [] => Ok []
  | r :: ranges' =>
    match textSubmatches with
    | (text :: groups) :: textSubmatches' =>
      rest <-? match_results ranges' textSubmatches';;
      Ok (mkRegexMatchResult (EditRange r) text groups :: rest)
    | _ => Panic
    end
  end.

Definition FindAllStringMatches `{JavaLibs} (regExp : Regex) (text : bytes) : gores (list RegexMatchResult) :=
  let textSubmatches := FindAllStringSubmatch regExp text in
  let indexMatches := FindAllStringIndex regExp text in
  match EditOffsetsToTextEdits text ((λ p, mkEditOffset p.1 p.2 []) <$> indexMatches) with
  | Ok ranges => match_results ranges textSubmatches
  | Err _ => Ok []
  | Panic => Panic
  | Fuel => Fuel
  end.

(** [for _, match := range matches { result = append(result, f(match)) }] *)
Fixpoint for_matches (matches : list RegexMatchResult) (f : RegexMatchResult → gores ActionResult)
    : gores (list ActionResult) :=
  match matches with
  | [] => Ok []
  | m :: matches' => x <-? f m;; rest <-? for_matches matches' f;; Ok (x :: rest)
  end.

(** ** What the actions use *)

Definition CmdName (name : string) : string := "ulsp.quick-actions." +:+ name.
Definition _bazelRelPath : string := "tools/bazel".
Definition _endMessage : string := "Command completed".

Section actions.
Context `{JavaLibs} {R : Type} `{Repository R} (sessions : R).
Context (Filename : URI → string) (DirExists : string → gores bool)
  (ReadDir : string → gores (list string)) (fuel : nat).
(** [os.Environ()] and the name in the [ClientInfo] of the parameters at a pointer *)
Context (Environ : list string) (ClientInfoName : N → option string).
(** the errors of the gateway and of the executor, and [err.Error()] *)
Context (GetLogMessageWriter : string → option error) (LogMessageError : string → option error)
  (ShowMessageError : string → option error) (WriteError : string → option error)
  (RunError : Cmd → option error) (error_text : error → string).

Notation ExecM := (GoM (list Effect)).

Definition outcome (e : option error) : gores unit := match e with Some e => Err e | None => Ok tt end.
Definition emit (e : Effect) (r : option error) : ExecM unit := λ es, (outcome r, es ++ [e]).
Definition log_message (msg : string) (t : MessageType) : ExecM unit := emit (LogMessage msg t) (LogMessageError msg).

Definition java_document (document : TextDocumentItem) : bool := bool_decide (LanguageID document = "java").

(** [s.InitializeParams.ClientInfo.Name] *)
Definition client_name (s : Session) : gores string :=
  match InitializeParams s ≫= ClientInfoName with Some n => Ok n | None => Panic end.
Definition IsVSCodeBased (name : string) : bool :=
  bool_decide (name = "Visual Studio Code" ∨ name = "Cursor").

(** The end that the three commands have in common: log the command line, run
    it, log its error or the end. *)
Definition run_logged (writer startMessage endMessage : string) (cmd : Cmd) : ExecM unit :=
  wrapM "logging message"
    (log_message (startMessage +:+ String.concat " " (CmdPath cmd :: CmdArgs cmd)) MessageInfo) ;;;
  r <- try_ (emit (RunCommand cmd) (RunError cmd));;
  match r with
  | inl err =>
    _ <- try_ (log_message ("Error during run: " +:+ error_text err) MessageError);;
    throw err
  | inr _ => wrapM "logging message" (emit (WriteLog writer endMessage) (WriteError endMessage))
  end.

(** The environment of the commands. *)
Definition command_env (workspaceRoot : string) : list string :=
  Environ ++ ["WORKSPACE_ROOT=" +:+ workspaceRoot; "PROJECT_ROOT=" +:+ workspaceRoot].

(** ** Build *)

Definition build_ProcessDocument (document : TextDocumentItem) : gores (list ActionResult) :=
  matches <-? FindAllStringMatches _regexpJavaClassHeader (Text document);;
  for_matches matches (λ m,
    className <-? go_index (CapturingGroups m) 0;;
    Ok (ResultCodeLens (NewCodeLens (MatchRange m) "Build" (CmdName "javabuild")
      (argsJavaBuild (DocURI document) className)))).

Definition build_prepareCommandAndEnv (workspaceRoot target ideClient : string) : Cmd :=
  let ldaTag := "--tool_tag=" +:+ NormalizeIDEClient ideClient +:+ ":actions:build" in
  mkCmd (Join workspaceRoot _bazelRelPath) ["build"; target; ldaTag] workspaceRoot (command_env workspaceRoot).

Definition build_Execute (ctx : Context) (token : uuid) (args : string) : ExecM unit :=
  s <- lift_res (wrap_err "getting session from context" (repo_GetFromContext sessions ctx));;
  resultArgs <- lift_res (wrap_err "unmarshalling args" (UnmarshalJavaBuild args));;
  lift_res (wrap_err "getting writer" (outcome (GetLogMessageWriter "javabuild"))) ;;;
  target <- lift_res (GetJavaTarget Filename DirExists ReadDir fuel (WorkspaceRoot s) resultArgs.1);;
  client <- lift_res (client_name s);;
  run_logged "javabuild" "Building Java Target: " _endMessage
    (build_prepareCommandAndEnv (WorkspaceRoot s) target client).

Definition build_ProvideWorkDoneProgressParams (ctx : Context) (args : string)
    : gores (option ProgressInfoParams) :=
  s <-? wrap_err "getting session from context" (repo_GetFromContext sessions ctx);;
  resultArgs <-? wrap_err "unmarshalling args" (UnmarshalJavaBuild args);;
  let file := FileBase (Filename resultArgs.1) in
  target <-? GetJavaTarget Filename DirExists ReadDir fuel (WorkspaceRoot s) resultArgs.1;;
  Ok (Some (mkProgressInfoParams ("Building File " +:+ file) ("Building target " +:+ target))).

Definition ActionJavaBuild : Action := mkAction
  (λ s config, EnableJavaSupport config) (CmdName "javabuild") (λ s document, java_document document)
  build_ProcessDocument build_Execute build_ProvideWorkDoneProgressParams.

(** ** Test runs *)

Definition getTestCaseName (args : URI * string * string) : string :=
  let '(_, className, methodName) := args in
  if bool_decide (className ≠ "") then className else methodName.

Definition test_ProcessDocument (document : TextDocumentItem) : gores (list ActionResult) :=
  matches <-? FindAllStringMatches _regexpJavaTest (Text document);;
  for_matches matches (λ m,
    methodName <-? go_index (CapturingGroups m) 0;;
    className <-? go_index (CapturingGroups m) 1;;
    Ok (ResultCodeLens (NewCodeLens (MatchRange m) "Run Test" (CmdName "javatestrun")
      (argsJavaTestRun (DocURI document) className methodName)))).

Definition test_prepareCommandAndEnv (workspaceRoot target testCaseName ideClient : string) : Cmd :=
  let ldaTag := "--tool_tag=" +:+ NormalizeIDEClient ideClient +:+ ":actions:test" in
  let testFilter := "--test_filter=" +:+ testCaseName in
  mkCmd (Join workspaceRoot _bazelRelPath) ["test"; testFilter; target; ldaTag] workspaceRoot
    (command_env workspaceRoot).

Definition test_Execute (ctx : Context) (token : uuid) (args : string) : ExecM unit :=
  s <- lift_res (wrap_err "getting session from context" (repo_GetFromContext sessions ctx));;
  resultArgs <- lift_res (wrap_err "unmarshalling args" (UnmarshalJavaTestRun args));;
  lift_res (wrap_err "getting writer" (outcome (GetLogMessageWriter "javatestrun"))) ;;;
  let testCaseName := getTestCaseName resultArgs in
  target <- lift_res (GetJavaTarget Filename DirExists ReadDir fuel (WorkspaceRoot s) resultArgs.1.1);;
  client <- lift_res (client_name s);;
  run_logged "javatestrun" "Running Java Test: " _endMessage
    (test_prepareCommandAndEnv (WorkspaceRoot s) target testCaseName client) ;;;
  emit (ShowMessage ("Completed test " +:+ testCaseName) MessageInfo)
    (ShowMessageError ("Completed test " +:+ testCaseName)).

Definition test_ShouldEnable (s : Session) (monorepo : MonorepoConfigEntry) : bool :=
  match InitializeParams s ≫= ClientInfoName with
  | None => false
  | Some name => EnableJavaSupport monorepo && negb (IsVSCodeBased name)
  end.

Definition ActionJavaTestRun : Action := mkAction
  test_ShouldEnable (CmdName "javatestrun") (λ s document, java_document document)
  test_ProcessDocument test_Execute (λ ctx args, Ok None).

(** ** Coverage *)

Definition coverage_ProcessDocument (document : TextDocumentItem) : gores (list ActionResult) :=
  matches <-? FindAllStringMatches _regexpJavaTest (Text document);;
  for_matches matches (λ m,
    methodName <-? go_index (CapturingGroups m) 0;;
    className <-? go_index (CapturingGroups m) 1;;
    let title := "Run Java Test Coverage: " +:+
      (if bool_decide (methodName = "") then className else methodName) in
    Ok (ResultCodeAction (NewCodeActionWithRange (MatchRange m) title (CmdName "javatestcoverage") Refactor
      (argsJavaTestRun (DocURI document) className methodName)))).

Definition coverage_prepareCommandAndEnv (workspaceRoot target testCaseName ideClient : string) : Cmd :=
  let ldaTag := "--tool_tag=" +:+ NormalizeIDEClient ideClient +:+ ":actions:codecov" in
  let testFilter := "--test_filter=" +:+ testCaseName in
  mkCmd (Join workspaceRoot _bazelRelPath)
    ["test"; testFilter; "--collect_code_coverage"; "--combined_report=lcov"; target; ldaTag]
    workspaceRoot (command_env workspaceRoot).

Definition coverage_Execute (ctx : Context) (token : uuid) (args : string) : ExecM unit :=
  s <- lift_res (wrap_err "getting session from context" (repo_GetFromContext sessions ctx));;
  resultArgs <- lift_res (wrap_err "unmarshalling args" (UnmarshalJavaTestRun args));;
  lift_res (wrap_err "getting writer" (outcome (GetLogMessageWriter "javatestcoverage"))) ;;;
  target <- lift_res (GetJavaTarget Filename DirExists ReadDir fuel (WorkspaceRoot s) resultArgs.1.1);;
  let testCaseName := getTestCaseName resultArgs in
  client <- lift_res (client_name s);;
  run_logged "javatestcoverage" "Running Java Test Coverage: " _endMessage
    (coverage_prepareCommandAndEnv (WorkspaceRoot s) target testCaseName client) ;;;
  emit (ShowMessage ("Completed code coverage for " +:+ testCaseName) MessageInfo)
    (ShowMessageError ("Completed code coverage for " +:+ testCaseName)).

Definition ActionJavaTestRunCoverage : Action := mkAction
  (λ s monorepo, EnableJavaSupport monorepo) (CmdName "javatestcoverage")
  (λ s document, java_document document) coverage_ProcessDocument coverage_Execute (λ ctx args, Ok None).

(** ** Test explorer *)

Definition explorer_ShouldEnable (s : Session) (monorepo : MonorepoConfigEntry) : bool :=
  match InitializeParams s ≫= ClientInfoName with
  | None => false
  | Some name => EnableJavaSupport monorepo && IsVSCodeBased name
  end.
Definition explorer_ProcessDocument (title command : string) (document : TextDocumentItem)
    : gores (list ActionResult) :=
  matches <-? FindAllStringMatches _regexpJavaTest (Text document);;
  for_matches matches (λ m, Ok (ResultCodeLens (NewCodeLens (MatchRange m) title command argsEmpty))).

Definition ActionJavaTestExplorer : Action := mkAction
  explorer_ShouldEnable "" (λ s document, java_document document)
  (explorer_ProcessDocument "Show Test Explorer" "workbench.view.extension.test")
  (λ ctx token args, throw (EText
    "action workbench.view.extension.test should be handled by the IDE and is not implemented in uLSP"))
  (λ ctx args, Ok None).

(** the text of the message that is logged *)
Context (_messageTestExplorerDetails : string).

Definition ActionJavaTestExplorerInfo : Action := mkAction
  explorer_ShouldEnable (CmdName "javatestexplorerinfo") (λ s document, java_document document)
  (explorer_ProcessDocument "Learn More" (CmdName "javatestexplorerinfo"))
  (λ ctx token args, _ <- try_ (log_message _messageTestExplorerDetails MessageWarning);; sret tt)
  (λ ctx args, Ok None).

(** ** Sync *)

Definition sync_ProcessDocument (document : TextDocumentItem) : gores (list ActionResult) :=
  matches <-? FindAllStringMatches _regexpJavaClassHeader (Text document);;
  for_matches matches (λ m,
    Ok (ResultCodeLens (NewCodeLens (MatchRange m) "Sync File" (CmdName "javasync")
      (argsJavaSync (DocURI document))))).

(** [strings.TrimPrefix] *)
Definition TrimPrefix (s prefix : string) : string :=
  if String.prefix prefix s then string_drop (String.length prefix) s else s.

Definition getRelativeFilePath (workspaceRoot : string) (document : URI) : gores string :=
  let curFilePath := Filename document in
  if negb (String.prefix workspaceRoot curFilePath) then Err (EText "invalid filepath to process")
  else Ok (TrimPrefix curFilePath (workspaceRoot +:+ String slash "")).

Definition sync_prepareCommandAndEnv (workspaceRoot filepath : string) : Cmd :=
  mkCmd (Join workspaceRoot "tools/scip/scip_sync.sh") ["--filepath"; filepath] workspaceRoot
    (command_env workspaceRoot).

Definition sync_Execute (ctx : Context) (token : uuid) (args : string) : ExecM unit :=
  s <- lift_res (wrap_err "getting session from context" (repo_GetFromContext sessions ctx));;
  document <- lift_res (wrap_err "unmarshalling args" (UnmarshalJavaSync args));;
  lift_res (wrap_err "getting writer" (outcome (GetLogMessageWriter "javasync"))) ;;;
  filepath <- lift_res (getRelativeFilePath (WorkspaceRoot s) document);;
  run_logged "javasync" "Syncing Index for file: " "Command completed"
    (sync_prepareCommandAndEnv (WorkspaceRoot s) filepath).

Definition sync_ProvideWorkDoneProgressParams (ctx : Context) (args : string)
    : gores (option ProgressInfoParams) :=
  s <-? wrap_err "getting session from context" (repo_GetFromContext sessions ctx);;
  document <-? wrap_err "unmarshalling args" (UnmarshalJavaSync args);;
  filepath <-? getRelativeFilePath (WorkspaceRoot s) document;;
  Ok (Some (mkProgressInfoParams ("Syncing file " +:+ FileBase filepath) "...")).

Definition ActionJavaSync : Action := mkAction
  (λ s monorepo, EnableJavaSupport monorepo) (CmdName "javasync") (λ s document, java_document document)
  sync_ProcessDocument sync_Execute sync_ProvideWorkDoneProgressParams.

Definition allActions : list Action :=
  [ActionJavaTestRun; ActionJavaTestRunCoverage; ActionJavaBuild; ActionJavaTestExplorer;
   ActionJavaTestExplorerInfo; ActionJavaSync].

(** ** What the actions find *)

Context `{!JavaLibsLaws}.

Lemma edits_of_matches text ps acc :
  Forall (λ p : Z * Z, 0 ≤ p.1 ≤ p.2 ∧ p.2 ≤ zlen text) ps →
  ∃ es, EditOffsetsToTextEdits_loop (NewTextOffsetMapper text) ((λ p, mkEditOffset p.1 p.2 []) <$> ps) acc
      = Ok (acc ++ es) ∧
    Forall2 (λ p e, OffsetPosition (NewTextOffsetMapper text) p.1 = Ok (RStart (EditRange e)) ∧
                    OffsetPosition (NewTextOffsetMapper text) p.2 = Ok (REnd (EditRange e))) ps es.
Proof.
  intros Hp. revert acc. induction Hp as [|[a b] ps [Ha Hb] _ IH]; intros acc.
  { exists []. rewrite app_nil_r. by split. }
  rewrite fmap_cons. cbn [EditOffsetsToTextEdits_loop].
  cbn in Ha, Hb. destruct (proj1 (OffsetPosition_total (NewTextOffsetMapper text) a)) as [p1 Hp1]; [cbn; lia|].
  destruct (proj1 (OffsetPosition_total (NewTextOffsetMapper text) b)) as [p2 Hp2]; [cbn; lia|].
  cbn [edit_start edit_end edit_text fst snd]. rewrite Hp1, Hp2. cbn [rbind].
  destruct (IH (acc ++ [rangeToTextEdit (PositionsToRange p1 p2) []])) as (es&->&Hes).
  eexists. split; [by rewrite <- (assoc_L (++))|]. by constructor.
Qed.

(** The matches are those of the expression, at the positions of their ends. *)
Lemma FindAllStringMatches_run regExp text :
  ∃ ms, FindAllStringMatches regExp text = Ok ms ∧
    Forall (λ m, length (CapturingGroups m) = NumSubexp regExp) ms ∧
    Forall2 (λ p m, OffsetPosition (NewTextOffsetMapper text) p.1 = Ok (RStart (MatchRange m)) ∧
                    OffsetPosition (NewTextOffsetMapper text) p.2 = Ok (REnd (MatchRange m)))
      (FindAllStringIndex regExp text) ms ∧
    (λ m, TextMatch m :: CapturingGroups m) <$> ms = FindAllStringSubmatch regExp text.
Proof.
  unfold FindAllStringMatches, EditOffsetsToTextEdits.
  destruct (edits_of_matches text (FindAllStringIndex regExp text) []) as (es&->&Hes); [apply index_range|]. cbn [app].
  pose proof (submatch_shape regExp text) as Hs. pose proof (submatch_index regExp text) as Hl.
  revert Hl Hs. generalize (FindAllStringSubmatch regExp text).
  induction Hes as [|p e ps es Hpe _ IH]; intros subs Hl Hs.
  { exists []. destruct subs; [|done]. cbn. split_and!; [done|constructor..|done]. }
  destruct subs as [|[|t groups] subs]; [done|by inversion Hs|]. inversion Hs as [|?? Hg Hs']; subst.
  destruct (IH subs) as (ms&Hms&H1'&H2'&H3'); [by injection Hl|done|].
  cbn [match_results]. rewrite Hms. eexists. split_and!; [reflexivity|..].
  - constructor; [|done]. cbn in Hg |- *. by injection Hg.
  - by constructor.
  - cbn. by rewrite H3'.
Qed.

Lemma for_matches_run ms f (P : RegexMatchResult → ActionResult → Prop) :
  (∀ m, m ∈ ms → ∃ x, f m = Ok x ∧ P m x) → ∃ xs, for_matches ms f = Ok xs ∧ Forall2 P ms xs.
Proof.
  induction ms as [|m ms IH]; intros Hf; cbn; [by exists []|].
  destruct (Hf m) as (x&->&Hx); [by left|]. destruct IH as (xs&->&Hxs); [intros m' Hm'; apply Hf; by right|].
  exists (x :: xs). split; [done|by constructor].
Qed.

Lemma go_index_groups (l : list string) n i : length l = n → (i < n)%nat → ∃ x, go_index l (Z.of_nat i) = Ok x ∧ l !! i = Some x.
Proof.
  intros Hl Hi. unfold go_index. rewrite bool_decide_true, Nat2Z.id by lia.
  destruct (lookup_lt_is_Some_2 l i) as [x Hx]; [lia|]. rewrite Hx. by exists x.
Qed.

Lemma process_run regExp document f (P : RegexMatchResult → ActionResult → Prop) :
  (∀ m, length (CapturingGroups m) = NumSubexp regExp → ∃ x, f m = Ok x ∧ P m x) →
  ∃ ms xs, FindAllStringMatches regExp (Text document) = Ok ms ∧
    (matches <-? FindAllStringMatches regExp (Text document);; for_matches matches f) = Ok xs ∧ Forall2 P ms xs.
Proof.
  intros Hf. destruct (FindAllStringMatches_run regExp (Text document)) as (ms&Hms&Hg&_).
  rewrite Hms. destruct (for_matches_run ms f P) as (xs&Hxs&HP).
  { intros m Hm. apply Hf. rewrite Forall_forall in Hg. by apply Hg. }
  by exists ms, xs.
Qed.

(** The lenses of the build action. *)
Lemma build_ProcessDocument_run document :
  ∃ ms xs, FindAllStringMatches _regexpJavaClassHeader (Text document) = Ok ms ∧
    build_ProcessDocument document = Ok xs ∧
    Forall2 (λ m x, ∃ c, CapturingGroups m = [c] ∧ x = ResultCodeLens (NewCodeLens (MatchRange m) "Build"
      (CmdName "javabuild") (argsJavaBuild (DocURI document) c))) ms xs.
Proof.
  apply process_run. intros m Hm. destruct (CapturingGroups m) as [|c [|]]; [done| |done]. by eexists; split; [|exists c].
Qed.

Lemma lawful_process regExp document f :
  (∀ m, length (CapturingGroups m) = NumSubexp regExp → ∃ x, f m = Ok x ∧ QuickActionsProof.match_ok x) →
  ∃ xs, (matches <-? FindAllStringMatches regExp (Text document);; for_matches matches f) = Ok xs ∧
    Forall QuickActionsProof.match_ok xs.
Proof.
  intros Hf. destruct (process_run regExp document f (λ _ x, QuickActionsProof.match_ok x) Hf) as (ms&xs&_&Hxs&HP).
  exists xs. split; [done|]. clear -HP. induction HP; by constructor.
Qed.

(** C24: Every Java action processes every document without an error and returns
    only code lenses and code actions of a kind that the plugin supports. *)
Theorem java_actions_lawful : Forall QuickActionsProof.ActionLaws allActions.
Proof.
  assert (H2g : ∀ m, length (CapturingGroups m) = NumSubexp _regexpJavaTest →
    ∃ a b, go_index (CapturingGroups m) 0 = Ok a ∧ go_index (CapturingGroups m) 1 = Ok b).
  { intros m Hm. destruct (CapturingGroups m) as [|a [|b [|]]]; [done..| |done]. by exists a, b. }
  repeat constructor; intros doc; apply lawful_process.
  - intros m (a&b&->&->)%H2g. by eexists.
  - intros m (a&b&->&->)%H2g. eexists. split; [done|]. cbn. by left.
  - intros m Hm. destruct (CapturingGroups m) as [|a [|]]; [done| |done]. by eexists.
  - intros m _. by eexists.
  - intros m _. by eexists.
  - intros m _. by eexists.
Qed.

(** ** What the commands run *)

Section run.
(** A session whose client gave its name, and calls that succeed. *)
Context (ctx : Context) (s : Session) (client : string) (token : uuid) (es : list Effect).
Context (Hs : repo_GetFromContext sessions ctx = Ok s) (Hclient : client_name s = Ok client).
Context (Hwriter : ∀ w, GetLogMessageWriter w = None) (Hlog : ∀ t, LogMessageError t = None)
  (Hwrite : ∀ t, WriteError t = None) (Hshow : ∀ t, ShowMessageError t = None).

(** What a run leaves: its command line, the command, and the end or its error. *)
Definition logged_run (writer startMessage endMessage : string) (cmd : Cmd) : list Effect :=
  LogMessage (startMessage +:+ String.concat " " (CmdPath cmd :: CmdArgs cmd)) MessageInfo :: RunCommand cmd ::
  match RunError cmd with
  | Some err => [LogMessage ("Error during run: " +:+ error_text err) MessageError]
  | None => [WriteLog writer endMessage]
  end.

Lemma run_logged_run writer startMessage endMessage cmd es0 :
  run_logged writer startMessage endMessage cmd es0
  = (outcome (RunError cmd), es0 ++ logged_run writer startMessage endMessage cmd).
Proof.
  unfold run_logged, logged_run, log_message, sbind, wrapM, try_, emit, throw.
  rewrite Hlog. cbn -[String.concat]. destruct (RunError cmd) as [err|]; cbn -[String.concat];
    rewrite ?Hlog, ?Hwrite; cbn -[String.concat]; by rewrite <- !app_assoc.
Qed.

(** The command of a code lens that the build action shows in a document, run
    with the arguments of the lens, builds the target of that document with
    Bazel in the workspace root of the session and logs the end or the error of
    the run. *)
Theorem build_lens_runs document lens results target
    (Hproc : ProcessDocument ActionJavaBuild document = Ok results) (Hlens : ResultCodeLens lens ∈ results)
    (Htarget : GetJavaTarget Filename DirExists ReadDir fuel (WorkspaceRoot s) (DocURI document) = Ok target) :
  ∃ args, LensCommand lens = Some (mkCommand "Build" (CommandName ActionJavaBuild) [args]) ∧
    let cmd := mkCmd (Join (WorkspaceRoot s) "tools/bazel")
      ["build"; target; "--tool_tag=" +:+ NormalizeIDEClient client +:+ ":actions:build"]
      (WorkspaceRoot s) (command_env (WorkspaceRoot s)) in
    Execute ActionJavaBuild ctx token (Marshal args) es
    = (outcome (RunError cmd),
       es ++ logged_run "javabuild" "Building Java Target: " "Command completed" cmd).
Proof.
  destruct (build_ProcessDocument_run document) as (ms&xs&_&Hxs&HP). cbn in Hproc. rewrite Hxs in Hproc.
  injection Hproc as <-. apply list_elem_of_lookup in Hlens as [i Hi].
  destruct (Forall2_lookup_r _ _ _ _ _ HP Hi) as (m&_&c&_&[= ->]).
  eexists. split; [reflexivity|]. cbv zeta. cbn [Execute ActionJavaBuild]. unfold build_Execute.
  rewrite Hs, unmarshal_build. unfold sbind, lift_res, wrap_err. rewrite Hwriter. cbn [outcome fst].
  rewrite Htarget, Hclient. apply run_logged_run.
Qed.

End run.

(** A client may leave [clientInfo] out of its [initialize] request: the build
    action is enabled for such a session all the same, and its command panics
    when it reads the client's name. *)
Theorem build_panics_without_client ctx s args document className target config token es
    (Hs : repo_GetFromContext sessions ctx = Ok s)
    (Hclient : InitializeParams s ≫= ClientInfoName = None)
    (Hargs : UnmarshalJavaBuild args = Ok (document, className))
    (Hwriter : GetLogMessageWriter "javabuild" = None)
    (Htarget : GetJavaTarget Filename DirExists ReadDir fuel (WorkspaceRoot s) document = Ok target) :
  ShouldEnable ActionJavaBuild s config = EnableJavaSupport config ∧
  Execute ActionJavaBuild ctx token args es = (Panic, es).
Proof.
  split; [done|]. cbn [Execute ActionJavaBuild]. unfold build_Execute.
  rewrite Hs, Hargs. unfold sbind, lift_res, wrap_err. rewrite Hwriter. cbn [outcome fst].
  rewrite Htarget. unfold client_name. by rewrite Hclient.
Qed.

(** The actions that a session in a repository with Java support gets: a
    client based on VS Code gets the test explorer, another one the test runs,
    and one without a name neither; coverage, builds and syncs are for all. *)
Theorem enabled_java_actions s config (Hjava : EnableJavaSupport config = true) :
  CommandName <$> List.filter (λ a, ShouldEnable a s config) allActions =
  match InitializeParams s ≫= ClientInfoName with
  | None => CmdName <$> ["javatestcoverage"; "javabuild"; "javasync"]
  | Some name =>
    if IsVSCodeBased name
    then [CmdName "javatestcoverage"; CmdName "javabuild"; ""; CmdName "javatestexplorerinfo"; CmdName "javasync"]
    else CmdName <$> ["javatestrun"; "javatestcoverage"; "javabuild"; "javasync"]
  end.
Proof.
  unfold allActions. cbn -[CmdName EnableJavaSupport IsVSCodeBased].
  unfold test_ShouldEnable, explorer_ShouldEnable.
  destruct (InitializeParams s ≫= ClientInfoName) as [name|];
    repeat (rewrite Hjava; cbn -[CmdName EnableJavaSupport IsVSCodeBased]); [|done].
  by destruct (IsVSCodeBased name).
Qed.
End actions.

(** ** A sample of the libraries *)

(** A string with its end marked, followed by another. *)
Fixpoint mark (s rest : string) : string :=
  match s with
  | "" => String "e"%char rest
  | String c s' => String "c"%char (String c (mark s' rest))
  end.
Fixpoint unmark (s : string) : option (string * string) :=
  match s with
  | String "e"%char rest => Some ("", rest)
  | String "c"%char (String c s') => (λ p, (String c p.1, p.2)) <$> unmark s'
  | _ => None
  end.
Lemma unmark_mark s rest : unmark (mark s rest) = Some (s, rest).
Proof. induction s as [|c s IH]; cbn; [done|]. by rewrite IH. Qed.

Definition read_json {A} (o : option A) : gores A :=
  match o with Some x => Ok x | None => Err (EText "invalid character") end.

(** The bytes of [class A]. *)
Definition class_a : bytes := [99; 108; 97; 115; 115; 32; 65].

#[local] Instance sample_libs : JavaLibs := {|
  FindAllStringSubmatch r text :=
    if bool_decide (r = _regexpJavaClassHeader ∧ text = class_a) then [["class A"; "A"]] else [];
  FindAllStringIndex r text :=
    if bool_decide (r = _regexpJavaClassHeader ∧ text = class_a) then [(0, 7)] else [];
  Marshal a :=
    match a with
    | argsJavaBuild d c => mark d c
    | argsJavaTestRun d c m => mark d (mark c m)
    | argsJavaSync d => d
    | argsEmpty => ""
    end;
  UnmarshalJavaBuild s := read_json (unmark s);
  UnmarshalJavaTestRun s := read_json (unmark s ≫= λ p, (λ q, (p.1, q.1, q.2)) <$> unmark p.2);
  UnmarshalJavaSync s := Ok s
|}.
#[local] Instance sample_libs_laws : JavaLibsLaws.
Proof.
  split; cbn.
  - intros r text. case_bool_decide as E; [|constructor]. destruct E as [-> ->]. by repeat constructor.
  - intros r text. by case_bool_decide.
  - intros r text. case_bool_decide as E; [|constructor]. destruct E as [-> ->].
    constructor; [|constructor]. by vm_compute.
  - intros d c. by rewrite unmark_mark.
  - intros d c m. rewrite unmark_mark. cbn. by rewrite unmark_mark.
  - done.
Qed.

Definition sample_doc : TextDocumentItem := mkTextDocumentItem "file:///repo/lib/src/A.java" "java" 1 class_a.
Definition sample_session : Session := mkSession 5%N (Some 1%N) None "/repo" "" [] true.
Definition sample_sessions : repository := mkRepository {[5%N := SessionToModel sample_session]} 1.
Definition sample_ctx : Context := mkContext (Some 5%N).
Definition no_error {A} (_ : A) : option error := None.
Notation sample_build := (ActionJavaBuild sample_sessions sample_filename no_dirs sample_tree 9 ["PATH=/bin"]
  (λ _, Some "Cursor") no_error no_error no_error no_error (λ _, "")).
Definition sample_args : Arguments := argsJavaBuild "file:///repo/lib/src/A.java" "A".
Definition sample_lens : ActionStore.CodeLens :=
  NewCodeLens (mkRange (mkPosition 0 0) (mkPosition 0 7)) "Build" (CmdName "javabuild") sample_args.

Lemma java_actions_lawful_witness :
  ∃ ms, ProcessDocument sample_build sample_doc = Ok ms ∧ Forall QuickActionsProof.match_ok ms.
Proof.
  pose proof (java_actions_lawful sample_sessions sample_filename no_dirs sample_tree 9 ["PATH=/bin"]
    (λ _, Some "Cursor") no_error no_error no_error no_error no_error (λ _, "") "") as P.
  rewrite Forall_forall in P. destruct (P sample_build) as [Q]; [by right; right; left|]. apply Q.
Defined.

Lemma build_lens_runs_witness :
  (Execute sample_build sample_ctx 1%N (Marshal sample_args) []).1 = Ok tt.
Proof.
  destruct (build_lens_runs sample_sessions sample_filename no_dirs sample_tree 9 ["PATH=/bin"]
    (λ _, Some "Cursor") no_error no_error no_error no_error (λ _, "") sample_ctx sample_session "Cursor" 1%N []
    ltac:(by vm_compute) eq_refl (λ _, eq_refl) (λ _, eq_refl) (λ _, eq_refl)
    sample_doc sample_lens [ResultCodeLens sample_lens] "lib/...") as (args&Hargs&P); [by vm_compute|by left|by vm_compute|].
  injection Hargs as <-. exact (f_equal fst P).
Defined.

Lemma build_panics_without_client_witness :
  Execute (ActionJavaBuild sample_sessions sample_filename no_dirs sample_tree 9 ["PATH=/bin"]
    (λ _, None) no_error no_error no_error no_error (λ _, "")) sample_ctx 1%N (Marshal sample_args) [] = (Panic, []).
Proof.
  apply (build_panics_without_client sample_sessions sample_filename no_dirs sample_tree 9 ["PATH=/bin"]
    (λ _, None) no_error no_error no_error no_error (λ _, "") sample_ctx sample_session (Marshal sample_args)
    "file:///repo/lib/src/A.java" "A" "lib/..." (mkMonorepoConfigEntry ["java"]) 1%N []); by vm_compute.
Defined.

Lemma enabled_java_actions_witness :
  length (List.filter (λ a, ShouldEnable a sample_session (mkMonorepoConfigEntry ["java"]))
    (allActions sample_sessions sample_filename no_dirs sample_tree 9 ["PATH=/bin"]
      (λ _, Some "Cursor") no_error no_error no_error no_error no_error (λ _, "") "")) = 5%nat.
Proof.
  pose proof (enabled_java_actions sample_sessions sample_filename no_dirs sample_tree 9 ["PATH=/bin"]
    (λ _, Some "Cursor") no_error no_error no_error no_error no_error (λ _, "") "" sample_session
    (mkMonorepoConfigEntry ["java"]) eq_refl) as P.
  apply (f_equal length) in P. by rewrite length_fmap in P.
Defined.
End JavaActions.
