(* ===== verification/ScipController.v ===== *)
(** * The SCIP controller

    Models [src/ulsp/controller/scip/scip.go], the plugin that owns a registry
    for each workspace: it loads the indices of the configured directories,
    reloads an index when its file changes, and answers the queries of the
    editor.  A query is asked at the position that the base version of the
    document has for the position in the editor, and the ranges of the answer
    are mapped back to the current versions of their documents.

    The state holds the registries over an index ([Registry]), the document
    store ([DocSync]), the diagnostics and the notifier of index loads.  When an
    index loads a document it calls back: the diagnostics of the document are
    applied and its base is reset.  The index records these calls; they run at
    the end of the operation of the registry that makes them, which does not
    look at what they change.

    Parameters are the file system, the file watcher, the order in which Go
    ranges over a map and in which the goroutines of a load run, and the number
    of CPUs.  The loads of one directory run one after the other. *)

From stdpp Require Import base gmap list strings fin_maps.
From Stdlib Require Import ZArith Lia.
From S2P Require Import Prelude Utf8 Protocol TextOffset TextEdits PositionMapper Session Plugins.
From S2P Require Import DocSync Scip Occurrences Paths Scanner Registry.
From S2P Require Import Diagnostics IndexNotifier Capabilities.

Local Open Scope Z_scope.

(** [strings.HasPrefix] and [strings.HasSuffix] *)
Definition HasPrefix (s p : string) : bool := String.prefix p s.
Definition HasSuffix (s p : string) : bool :=
  bool_decide (String.length p ≤ String.length s)%nat &&
  bool_decide (String.substring (String.length s - String.length p) (String.length p) s = p).

(** [entity.ScipConfig], of the entry of a monorepo. *)
Record ScipConfig := mkScipConfig {
  LoadFromBazel : bool;
  LoadFromDirectories : bool;
  Directories : list string
}.
Definition zero_config : ScipConfig := mkScipConfig false false [].

(** The callbacks that a registry can have: none, and that of the controller. *)
Definition no_callback : N := 0.
Definition document_callback : N := 1.

Record partialScipRegistry (S : Type) := mkRegistry {
  rWorkspaceRoot : string;
  rIndexFolder : string;
  rIndex : S
}.
Arguments mkRegistry {S} _ _ _.
Arguments rWorkspaceRoot {S} _.
Arguments rIndexFolder {S} _.
Arguments rIndex {S} _.

(** Messages shown in the editor. *)
Inductive Message :=
  | MessageFailedToLoad (failed : list string)
  | MessageFailedToReload (name : string) (e : error).

Record Hover := mkHover { HoverRange : option Range; HoverValue : string; HoverKind : string }.

Module Controller.

Record controller (S M : Type) := mkController {
  registries : gmap string (partialScipRegistry S);
  loadedIndices : gmap string string;
  documents : DocState;
  diagnostics : Diagnostics.controller;
  indexNotifier : IndexNotifier M;
  debounceTimers : gmap string N;           (** the timer of a file *)
  timers : gmap N string;                   (** the timers that run, and their files *)
  nextTimer : N;
  watched : list string;                    (** the directories given to the watcher *)
  watching : bool;                          (** [handleChanges] was started *)
  messages : list Message
}.
Arguments mkController {S M} _ _ _ _ _ _ _ _ _ _ _.
Arguments registries {S M} _.
Arguments loadedIndices {S M} _.
Arguments documents {S M} _.
Arguments diagnostics {S M} _.
Arguments indexNotifier {S M} _.
Arguments debounceTimers {S M} _.
Arguments timers {S M} _.
Arguments nextTimer {S M} _.
Arguments watched {S M} _.
Arguments watching {S M} _.
Arguments messages {S M} _.

Section controller.
Context {R S M : Type} `{Repository R} `{Index.PartialIndex S} `{CallbackLog S} `{NotificationManager M}.
Context `{Bindings} `{UriLib}.
(** [dmp.DiffMain] and the error of a publication of diagnostics *)
Context (DiffMain : bytes → bytes → list Diff) (publish_error : uuid → URI → option error).
(** the configuration *)
Context (configs : gmap MonorepoName ScipConfig).
(** [NewPartialLoadedIndex] *)
Context (newIndex : string → gores S).
(** the file system: names in a directory, contents of a file, a new directory *)
Context (ReadDir : string → gores (list string)) (ReadFile : string → gores bytes)
  (MkdirAll : string → gores unit).
(** [None] is a nil watcher, else the error of [Add]; whether there is a gateway *)
Context (watcher : option (string → option error)) (ideGateway : bool).
Context (numCPU : Z).
(** the order of [range] over a map, and of the goroutines of a load *)
Context (map_order : list string → list string)
  (schedule : list (string * string) → list (string * string)).
(** the sessions at the time of the call *)
Context (sessions : R).

Abbreviation CtrlM := (GoM (controller S M)).

Definition New (m : M) (docs : DocState) (diags : Diagnostics.controller) : controller S M :=
  mkController ∅ ∅ docs diags (NewIndexNotifier m) ∅ ∅ 0%N [] false [].

(** ** Parts of the state *)

Definition set_registries r (c : controller S M) : controller S M := mkController r (loadedIndices c) (documents c)
  (diagnostics c) (indexNotifier c) (debounceTimers c) (timers c) (nextTimer c) (watched c)
  (watching c) (messages c).
Definition set_loaded l (c : controller S M) : controller S M := mkController (registries c) l (documents c)
  (diagnostics c) (indexNotifier c) (debounceTimers c) (timers c) (nextTimer c) (watched c)
  (watching c) (messages c).
Definition set_timers d t n (c : controller S M) : controller S M := mkController (registries c) (loadedIndices c)
  (documents c) (diagnostics c) (indexNotifier c) d t n (watched c) (watching c) (messages c).
Definition set_watching w b (c : controller S M) : controller S M := mkController (registries c) (loadedIndices c)
  (documents c) (diagnostics c) (indexNotifier c) (debounceTimers c) (timers c) (nextTimer c) w b
  (messages c).
Definition set_docs d (c : controller S M) : controller S M := mkController (registries c) (loadedIndices c) d
  (diagnostics c) (indexNotifier c) (debounceTimers c) (timers c) (nextTimer c) (watched c)
  (watching c) (messages c).
Definition set_diags d (c : controller S M) : controller S M := mkController (registries c) (loadedIndices c)
  (documents c) d (indexNotifier c) (debounceTimers c) (timers c) (nextTimer c) (watched c)
  (watching c) (messages c).
Definition set_notifier n (c : controller S M) : controller S M := mkController (registries c) (loadedIndices c)
  (documents c) (diagnostics c) n (debounceTimers c) (timers c) (nextTimer c) (watched c)
  (watching c) (messages c).
Definition ShowMessage (m : Message) : CtrlM unit := modify_st (λ c,
  mkController (registries c) (loadedIndices c) (documents c) (diagnostics c) (indexNotifier c)
    (debounceTimers c) (timers c) (nextTimer c) (watched c) (watching c) (messages c ++ [m])).

Definition on_documents {A} (m : GoM DocState A) : CtrlM A := λ c,
  let '(r, d) := m (documents c) in (r, set_docs d c).
Definition on_diagnostics {A} (m : GoM Diagnostics.controller A) : CtrlM A := λ c,
  let '(r, d) := m (diagnostics c) in (r, set_diags d c).
(** The errors of the notifier are not looked at. *)
Definition on_notifier (m : GoM (IndexNotifier M) unit) : CtrlM unit := λ c,
  let '(r, n) := try_ m (indexNotifier c) in (_ <-? r;; Ok tt, set_notifier n c).

Definition from_context (ctx : Context) : CtrlM Session := lift_res (repo_GetFromContext sessions ctx).

(** The callback for a loaded document of the registry of [workspaceRoot]. *)
Definition document_loaded (workspaceRoot : string) (call : N * Model.Document) : CtrlM unit :=
  let '(callback, doc) := call in
  if (callback =? document_callback)%N then
    let docURI := Registry.GetURI workspaceRoot (Model.RelativePath doc) in
    _ <- try_ (on_diagnostics (Diagnostics.ApplyDiagnostics publish_error sessions workspaceRoot
           docURI (Model.Diagnostics doc)));;
    _ <- try_ (on_documents (ResetBase sessions workspaceRoot docURI));;
    sret tt
  else sret tt.

(** Runs an operation of the registry of a workspace, then the callbacks of the
    documents that it has loaded. *)
Definition on_registry {A} (workspaceRoot : string) (m : string → GoM S A) : CtrlM A := λ c,
  match registries c !! workspaceRoot with
  | None => (Panic, c)
  | Some reg =>
    let '(r, idx) := m (rWorkspaceRoot reg) (rIndex reg) in
    let reg' := mkRegistry (rWorkspaceRoot reg) (rIndexFolder reg) idx in
    let calls := drop (length (callback_calls (rIndex reg))) (callback_calls idx) in
    match forM_ calls (document_loaded (rWorkspaceRoot reg))
            (set_registries (<[workspaceRoot := reg']> (registries c)) c) with
    | (Ok _, c') => (r, c')
    | (Err e, c') => (Err e, c')
    | (Panic, c') => (Panic, c')
    | (Fuel, c') => (Fuel, c')
    end
  end.

Definition config (monorepo : MonorepoName) : ScipConfig := default zero_config (configs !! monorepo).

(** ** Registries and indices *)

(** The directory of the default configuration is looked up when the monorepo
    has one. *)
Definition createNewScipRegistry (workspaceRoot : string) (monorepo : MonorepoName)
    : gores (partialScipRegistry S) :=
  indexFolder <-?
    (match Directories (config monorepo) with
     | [] => Ok (Join workspaceRoot ".scip")
     | _ =>
       _ <-? go_index (Directories (config "_default")) 0;;
       d <-? go_index (Directories (config monorepo)) 0;;
       Ok (Join workspaceRoot d)
     end);;
  idx <-? newIndex indexFolder;;
  let '(r, idx) := Registry.SetDocumentLoadedCallback document_callback idx in
  _ <-? r;;
  Ok (mkRegistry workspaceRoot indexFolder idx).

Definition noHash : string := "nohash".

(** The hash of an index; the error is only logged by its caller. *)
Definition getSha (scipFile : string) : string :=
  match ReadFile (scipFile +:+ ".sha256") with
  | Ok sha => string_of_bytes sha
  | _ => noHash
  end.

Definition loadScipFile (workspaceRoot scipPath loadedSha : string) : CtrlM string :=
  let curSha := getSha scipPath in
  if bool_decide (curSha = loadedSha) then sret curSha
  else
    on_registry workspaceRoot (λ _, Registry.LoadIndexFile scipPath) ;;;
    sret curSha.

Definition loaded_sha (fPath : string) (c : controller S M) : string :=
  default "" (loadedIndices c !! fPath).

(** Loads one file, records its hash and reports its end; the error is returned
    as a value. *)
Definition load_and_notify (workspaceRoot fPath loadedSha : string) : CtrlM (option error) :=
  on_notifier (NotifyStart workspaceRoot fPath) ;;;
  r <- try_ (loadScipFile workspaceRoot fPath loadedSha);;
  status <- (match r with
             | inr sha => modify_st (λ c, set_loaded (<[fPath := sha]> (loadedIndices c)) c) ;;;
                          sret IndexLoadSuccess
             | inl _ => sret IndexLoadError
             end);;
  on_notifier (NotifyComplete workspaceRoot fPath status) ;;;
  sret (match r with inl e => Some e | inr _ => None end).

(** The goroutines of a load: the files that failed. *)
Fixpoint load_files (workspaceRoot : string) (files : list (string * string)) (failed : list string)
    : CtrlM (list string) :=
  match files with
  | [] => sret failed
  | (fPath, loadedSha) :: files' =>
    err <- load_and_notify workspaceRoot fPath loadedSha;;
    load_files workspaceRoot files' (if err then failed ++ [fPath] else failed)
  end.

(** The files of a directory with the hashes they were loaded with; each is
    tracked. *)
Fixpoint scip_files (workspaceRoot fDir : string) (names : list string) : CtrlM (list (string * string)) :=
  match names with
  | [] => sret []
  | name :: names' =>
    if HasSuffix name ".scip" then
      c <- get_st;;
      let fPath := Join fDir name in
      on_notifier (TrackFile workspaceRoot fPath) ;;;
      rest <- scip_files workspaceRoot fDir names';;
      sret ((fPath, loaded_sha fPath c) :: rest)
    else scip_files workspaceRoot fDir names'
  end.

(** A send on a channel from which nobody will receive: it does not return. *)
Definition blocked {A} : CtrlM A := lift_res Fuel.

(** One directory.  The slots of the semaphore are taken before the goroutine
    that frees them is started. *)
Definition load_directory (workspaceRoot d : string) (failed : list string) : CtrlM (list string) :=
  let fDir := Join workspaceRoot d in
  match ReadDir fDir with
  | Err _ => sret failed
  | Panic => lift_res Panic
  | Fuel => lift_res Fuel
  | Ok scips =>
    scipFiles <- scip_files workspaceRoot fDir scips;;
    failed <- (if (Registry.LoadConcurrency numCPU =? 0) && negb (bool_decide (scipFiles = [])) then blocked
               else load_files workspaceRoot (schedule scipFiles) failed);;
    match watcher with
    | Some _ => modify_st (λ c, set_watching (watched c ++ [fDir]) (watching c) c)
    | None => sret tt
    end ;;;
    sret failed
  end.

Fixpoint load_directories (workspaceRoot : string) (dirs failed : list string) : CtrlM (list string) :=
  match dirs with
  | [] => sret failed
  | d :: dirs' =>
    failed <- load_directory workspaceRoot d failed;;
    load_directories workspaceRoot dirs' failed
  end.

(** The registry of a workspace is made at the first load. *)
Definition ensure_registry (s : Session) : CtrlM unit :=
  c <- get_st;;
  match registries c !! WorkspaceRoot s with
  | Some _ => sret tt
  | None =>
    reg <- lift_res (createNewScipRegistry (WorkspaceRoot s) (Monorepo s));;
    modify_st (λ c, set_registries (<[WorkspaceRoot s := reg]> (registries c)) c)
  end.

Definition loadFromDirectories (ctx : Context) (dirs : list string) : CtrlM (list string) :=
  s <- from_context ctx;;
  ensure_registry s ;;;
  failed <- load_directories (WorkspaceRoot s) dirs [];;
  (match failed with
   | _ :: _ => if ideGateway then ShowMessage (MessageFailedToLoad failed) else sret tt
   | [] => sret tt
   end) ;;;
  sret failed.

Definition loadIndices (ctx : Context) (s : Session) : CtrlM unit :=
  match (match configs !! Monorepo s with Some cfg => Some cfg | None => configs !! "_default" end) with
  | None => sret tt
  | Some mCfg =>
    if LoadFromDirectories mCfg then
      _ <- loadFromDirectories ctx (Directories mCfg);; sret tt
    else sret tt
  end.

(** The directories of the monorepo are made and watched; the first error ends
    the loop. *)
Fixpoint watch_directories (workspaceRoot : string) (add : string → option error) (dirs : list string)
    : CtrlM unit :=
  match dirs with
  | [] => sret tt
  | d :: dirs' =>
    let scipDirPath := Join workspaceRoot d in
    lift_res (MkdirAll scipDirPath) ;;;
    modify_st (λ c, set_watching (watched c ++ [scipDirPath]) (watching c) c) ;;;
    match add scipDirPath with
    | Some e => throw e
    | None => watch_directories workspaceRoot add dirs'
    end
  end.

Definition initialized (ctx : Context) : CtrlM unit :=
  sesh <- from_context ctx;;
  c <- get_st;;
  let hasIndex := bool_decide (is_Some (registries c !! WorkspaceRoot sesh)) in
  modify_st (λ c, set_watching (watched c) true c) ;;;
  let rest := if hasIndex then sret tt else loadIndices ctx sesh in
  match watcher with
  | None => rest
  | Some add =>
    match configs !! Monorepo sesh with
    | None => sret tt
    | Some cfg => watch_directories (WorkspaceRoot sesh) add (Directories cfg) ;;; rest
    end
  end.

(** ** Changes of index files *)

(** The workspace of a file: the first in the order of [range] whose root is a
    prefix of its name. *)
Definition workspace_of (name : string) (c : controller S M) : option string :=
  List.find (HasPrefix name) (map_order (map_to_list (registries c)).*1).

Definition reloadIndex (name : string) : CtrlM unit :=
  c <- get_st;;
  if HasSuffix name ".scip" then
    match workspace_of name c with
    | None => sret tt
    | Some ws =>
      err <- load_and_notify ws name (loaded_sha name c);;
      match err with Some e => throw e | None => sret tt end
    end
  else sret tt.

(** [timer.Stop()] of a timer that has not fired. *)
Definition handleDebounce (name : string) : CtrlM unit :=
  if HasSuffix name ".scip" then
    c <- get_st;;
    (match workspace_of name c with
     | Some ws => on_notifier (TrackFile ws name)
     | None => sret tt
     end) ;;;
    modify_st (λ c,
      let running := match debounceTimers c !! name with
                     | Some timer => delete timer (timers c)
                     | None => timers c
                     end in
      set_timers (<[name := nextTimer c]> (debounceTimers c)) (<[nextTimer c := name]> running)
        (N.succ (nextTimer c)) c)
  else sret tt.

(** The function of a timer that fires. *)
Definition fire (timer : N) : CtrlM unit :=
  c <- get_st;;
  match timers c !! timer with
  | None => sret tt
  | Some name =>
    modify_st (λ c, set_timers (delete name (debounceTimers c)) (delete timer (timers c)) (nextTimer c) c) ;;;
    r <- try_ (reloadIndex name);;
    match r with
    | inl e => if ideGateway then ShowMessage (MessageFailedToReload name e) else sret tt
    | inr _ => sret tt
    end
  end.

(** An event of the watcher; [create] and [write] are the flags of its operation. *)
Definition handle_event (create write : bool) (name : string) : CtrlM unit :=
  if negb create && negb write then sret tt else handleDebounce name.

(** The end of [handleChanges]. *)
Definition close_watcher : CtrlM unit := modify_st (λ c,
  set_timers ∅ (map_fold (λ _ timer t, delete timer t) (timers c) (debounceTimers c)) (nextTimer c) c).

(** ** Positions *)

(** [None] is a nil position: the document is not open, or the position is in a
    new part of it. *)
Definition getBasePosition (ctx : Context) (doc : URI) (pos : Position) : CtrlM (option Position) :=
  mapper <- wrapM "getting position mapper" (on_documents (GetPositionMapper DiffMain sessions ctx doc));;
  match mapper with
  | None => sret None
  | Some m =>
    let* (basePos, isNew, err) := lift_res (MapCurrentPositionToBase m pos) in
    match err with
    | Some e => throw (EWrap "mapping position to base" e)
    | None => sret (if isNew : bool then None else Some basePos)
    end
  end.

Definition getLatestPosition (ctx : Context) (doc : URI) (pos : Position) : CtrlM Position :=
  mapper <- wrapM "getting position mapper" (on_documents (GetPositionMapper DiffMain sessions ctx doc));;
  match mapper with
  | None => sret pos
  | Some m =>
    let* (latestPos, err) := lift_res (MapBasePositionToCurrent m pos) in
    match err with
    | Some e => throw (EWrap "mapping position to current" e)
    | None => sret latestPos
    end
  end.

Definition getLatestRange (ctx : Context) (doc : URI) (rng : Range) : CtrlM Range :=
  latestStart <- try_ (getLatestPosition ctx doc (RStart rng));;
  match latestStart with
  | inl _ => sret rng
  | inr latestStart =>
    latestEnd <- try_ (getLatestPosition ctx doc (REnd rng));;
    match latestEnd with
    | inl _ => sret rng
    | inr latestEnd => sret (mkRange latestStart latestEnd)
    end
  end.

(** ** Queries

    [at_base ctx doc pos none k]: the start of the queries.  Without a registry
    or a base position the result is [none], else [k] is run with the workspace
    and the base position. *)
Definition at_base {A} (ctx : Context) (doc : URI) (pos : Position) (none : A)
    (k : string → Position → CtrlM A) : CtrlM A :=
  sesh <- from_context ctx;;
  c <- get_st;;
  match registries c !! WorkspaceRoot sesh with
  | None => sret none
  | Some _ =>
    mappedPosition <- getBasePosition ctx doc pos;;
    match mappedPosition with
    | None => sret none
    | Some p => k (WorkspaceRoot sesh) p
    end
  end.

(** A definition without occurrence has a zero range; the occurrence of the
    origin is dereferenced. *)
Definition gotoDefinition (ctx : Context) (doc : URI) (pos : Position) (result : list LocationLink)
    : CtrlM (list LocationLink) :=
  at_base ctx doc pos result (λ ws mappedPosition,
    found <- wrapM "failed to get definition"
      (on_registry ws (λ root, Registry.Definition_ root doc mappedPosition));;
    match found with
    | None => sret result
    | Some (originOcc, definitionOcc) =>
      target <- (match Model.SOccurrence definitionOcc with
                 | Some occ => getLatestRange ctx (Model.SLocation definitionOcc)
                                 (ScipToProtocolRange (Model.ORange occ))
                 | None => sret zero_Range
                 end);;
      match Model.SOccurrence originOcc with
      | None => lift_res Panic
      | Some occ =>
        origin <- getLatestRange ctx doc (ScipToProtocolRange (Model.ORange occ));;
        sret (result ++ [mkLocationLink (Some origin) (Model.SLocation definitionOcc) target target])
      end
    end).

(** The loop of [references]. *)
Fixpoint latest_locations (ctx : Context) (baseLocations result : list Location) : CtrlM (list Location) :=
  match baseLocations with
  | [] => sret result
  | ref :: rest =>
    r <- getLatestRange ctx (LocURI ref) (LocRange ref);;
    latest_locations ctx rest (result ++ [mkLocation (LocURI ref) r])
  end.

Definition references (ctx : Context) (doc : URI) (pos : Position) (result : list Location)
    : CtrlM (list Location) :=
  at_base ctx doc pos result (λ ws mappedPosition,
    baseLocations <- wrapM "failed to get references"
      (on_registry ws (λ root, Registry.References root doc mappedPosition));;
    latest_locations ctx (default [] baseLocations) result).

(** [result] is nil for [None]. *)
Definition hover (ctx : Context) (doc : URI) (pos : Position) (result : option Hover)
    : CtrlM (option Hover) :=
  at_base ctx doc pos result (λ ws mappedPosition,
    let* (docs, occ) := wrapM "failed to get hover info"
      (on_registry ws (λ root, Registry.Hover root doc mappedPosition)) in
    if bool_decide (docs = "") then sret result
    else
      match occ, result with
      | Some occ, Some h =>
        rng <- (match HoverRange h with
                | Some rng => sret rng
                | None => getLatestRange ctx doc (ScipToProtocolRange (Model.ORange occ))
                end);;
        let value := if bool_decide (HoverValue h = "") then "" else HoverValue h +:+ newline in
        sret (Some (mkHover (Some rng) (value +:+ docs) "markdown"))
      | _, _ => lift_res Panic
      end).

(** The loop of [documentSymbol]. *)
Fixpoint latest_symbols (ctx : Context) (doc : URI) (symbols : list Model.SymbolOccurrence)
    (result : list DocumentSymbol) : CtrlM (list DocumentSymbol) :=
  match symbols with
  | [] => sret result
  | sym :: rest =>
    match Model.SInfo sym, Model.SOccurrence sym with
    | Some info, Some occ =>
      let protocolSymbol := ScipSymbolInformationToDocumentSymbol info occ in
      rng <- getLatestRange ctx doc (SymRange protocolSymbol);;
      selection <- getLatestRange ctx doc (SelectionRange protocolSymbol);;
      latest_symbols ctx doc rest (result ++
        [mkDocumentSymbol (SymName protocolSymbol) (Detail protocolSymbol) (SymKind protocolSymbol)
           rng selection])
    | _, _ => lift_res Panic
    end
  end.

Definition documentSymbol (ctx : Context) (doc : URI) (result : list DocumentSymbol)
    : CtrlM (list DocumentSymbol) :=
  sesh <- from_context ctx;;
  c <- get_st;;
  match registries c !! WorkspaceRoot sesh with
  | None => sret result
  | Some _ =>
    symbols <- wrapM "failed to get document symbol info"
      (on_registry (WorkspaceRoot sesh) (λ root, Registry.DocumentSymbols root doc));;
    latest_symbols ctx doc (default [] symbols) result
  end.

Definition didOpen (ctx : Context) (doc : URI) (text : string) : CtrlM unit :=
  sesh <- from_context ctx;;
  c <- get_st;;
  match registries c !! WorkspaceRoot sesh with
  | None => sret tt
  | Some _ =>
    _ <- try_ (on_registry (WorkspaceRoot sesh) (λ root, Registry.DidOpen root doc text));;
    sret tt
  end.

Definition didChange (ctx : Context) : CtrlM unit := sret tt.
Definition gotoDeclaration (ctx : Context) (result : list LocationLink) : CtrlM (list LocationLink) := sret result.
Definition gotoTypeDefinition (ctx : Context) (result : list LocationLink) : CtrlM (list LocationLink) := sret result.
Definition gotoImplementation (ctx : Context) (result : list LocationLink) : CtrlM (list LocationLink) := sret result.

(** ** Calls of other plugins *)

(** The workspace root, of the session when none is given. *)
Definition workspace_root (ctx : Context) (workspaceRoot : string) : CtrlM string :=
  if bool_decide (workspaceRoot = "") then s <- from_context ctx;; sret (WorkspaceRoot s)
  else sret workspaceRoot.

Definition GetDocumentSymbols (ctx : Context) (workspaceRoot : string) (uri : URI)
    : CtrlM (option (list Model.SymbolOccurrence)) :=
  ws <- workspace_root ctx workspaceRoot;;
  c <- get_st;;
  match registries c !! ws with
  | None => sret None
  | Some _ => on_registry ws (λ root, Registry.DocumentSymbols root uri)
  end.

Definition GetSymbolDefinitionOccurrence (ctx : Context) (workspaceRoot : string)
    (descriptors : list Model.Descriptor) (version : string) : CtrlM (option Model.SymbolOccurrence) :=
  ws <- workspace_root ctx workspaceRoot;;
  c <- get_st;;
  match registries c !! ws with
  | None => sret None
  | Some _ => on_registry ws (λ root, Registry.GetSymbolDefinitionOccurrence root descriptors version)
  end.
End controller.

(** ** The plugin *)

(** The result is nil for [None]. *)
Definition initialize (result : option ServerCapabilities) : option ServerCapabilities :=
  c ← result;
  let c := InitializeResultEnsureDefinitionProvider c false in
  let c := InitializeResultEnsureDeclarationProvider c false in
  let c := InitializeResultEnsureImplementationProvider c false in
  let c := InitializeResultEnsureReferencesProvider c false in
  let c := InitializeResultEnsureTypeDefinitionProvider c false in
  let c := InitializeResultEnsureHoverProvider c false in
  Some (InitializeResultEnsureDocumentSymbolProvider c false).

Definition StartupInfo `{ProtocolMethods} (ctx : Context) : gores PluginInfo :=
  Ok (mkPluginInfo
    {[MethodName Plugins.Initialize := PriorityRegular;
      MethodName Plugins.Initialized := PriorityAsync;
      MethodName Plugins.DidOpen := PriorityRegular;
      MethodName Plugins.DidChange := PriorityRegular;
      MethodName Plugins.GotoDefinition := PriorityHigh;
      MethodName Plugins.GotoDeclaration := PriorityHigh;
      MethodName Plugins.GotoTypeDefinition := PriorityHigh;
      MethodName Plugins.GotoImplementation := PriorityHigh;
      MethodName Plugins.References := PriorityHigh;
      MethodName Plugins.Hover := PriorityHigh;
      MethodName Plugins.DocumentSymbol := PriorityHigh]}
    (Some (mkMethods "scip"
      [Plugins.Initialize; Plugins.Initialized; Plugins.DidChange; Plugins.DidOpen;
       Plugins.GotoDeclaration; Plugins.GotoDefinition; Plugins.GotoTypeDefinition;
       Plugins.GotoImplementation; Plugins.References; Plugins.Hover; Plugins.DocumentSymbol]))
    "scip" None).
End Controller.
