(* ===== verification/ScipControllerProof.v ===== *)
(** * Correctness of the SCIP controller

    The queries of the controller answer for the text that the editor shows:
    they are asked at the base position of the position given, and the ranges of
    the answers are those of the current versions of the documents; the bases of
    exactly the documents that the index brings to memory are reset.  The loads
    of indices are shown to call [LoadIndexFile] on every index whose hash has
    changed. *)

From stdpp Require Import base gmap list strings fin_maps.
From Stdlib Require Import ZArith Lia.
From S2P Require Import Prelude Utf8 Protocol TextOffset TextEdits PositionMapper Session Plugins.
From S2P Require Import DocSync DocSyncSpec DocSyncProof Scip Occurrences Paths Scanner.
From S2P Require Import Registry RegistryProof Diagnostics IndexNotifier Capabilities ScipController.

Local Open Scope Z_scope.

(** ** Positions of an open document *)

Section positions.
Context (DiffMain : bytes → bytes → list Diff).

Definition entry_base (e : AEntry) : bytes := default (Text (aDocument e)) (aBase e).

(** The mapper of a document, [None] for one that is not open. *)
Definition mapper_of (e : option AEntry) : option documentPositionMapper :=
  (λ e, NewPositionMapper DiffMain (entry_base e) (Text (aDocument e))) <$> e.

(** The position in the base version; none in a new part of the text. *)
Definition base_position (e : option AEntry) (pos : Position) : option Position :=
  m ← mapper_of e;
  match MapCurrentPositionToBase m pos with
  | Ok (p, false, None) => Some p
  | _ => None
  end.

(** The position in the current version; none for a position that the base
    does not have. *)
Definition latest_position (e : option AEntry) (pos : Position) : option Position :=
  match mapper_of e with
  | None => Some pos
  | Some m => match MapBasePositionToCurrent m pos with Ok (p, None) => Some p | _ => None end
  end.

(** The range in the current version, the given one if it cannot be mapped. *)
Definition latest_range (e : option AEntry) (rng : Range) : Range :=
  match latest_position e (RStart rng), latest_position e (REnd rng) with
  | Some a, Some b => mkRange a b
  | _, _ => rng
  end.

Definition entry_fits (e : AEntry) : Prop := lines_fit (entry_base e) ∧ lines_fit (Text (aDocument e)).

Lemma MapBasePositionToCurrent_cases e pos :
  DiffMain_law DiffMain → entry_fits e → 0 ≤ Line pos →
  (∃ p, MapBasePositionToCurrent (NewPositionMapper DiffMain (entry_base e) (Text (aDocument e))) pos
     = Ok (p, None)) ∨
  (∃ p x, MapBasePositionToCurrent (NewPositionMapper DiffMain (entry_base e) (Text (aDocument e))) pos
     = Ok (p, Some x)).
Proof.
  intros Hlaw [Hb Ht] Hp. unfold MapBasePositionToCurrent.
  destruct (mapPosition_cases DiffMain (entry_base e) (Text (aDocument e)) pos false Hlaw Hb Ht Hp)
    as [(q&del&->)|(x&_&->)]; cbn; eauto.
Qed.

(** A document whose base was reset is mapped as it is. *)
Lemma latest_range_aclear e rng : latest_range (Some (aclear e)) rng = rng.
Proof.
  unfold latest_range, latest_position, mapper_of, entry_base. cbn.
  rewrite NewPositionMapper_same. by destruct rng.
Qed.
End positions.

Lemma ScipToProtocolRange_lines `{Bindings} rng :
  0 ≤ Line (RStart (ScipToProtocolRange rng)) ∧ 0 ≤ Line (REnd (ScipToProtocolRange rng)).
Proof.
  unfold ScipToProtocolRange. destruct (NewRange rng) as [p| | |]; cbn; [|done..].
  pose proof (uint32_range (Line (Scip.Start p))). pose proof (uint32_range (Line (Scip.End p))). lia.
Qed.

(** ** The reset of bases *)

Section reset.
Context {R : Type} `{RepositoryLaws R} (sessions : R).

Lemma a_reset_sessions doc ss (st : AState) :
  ∃ st', forM_ ss (λ s, modify_st (λ st, set_adocs (alter (alter aclear doc) (UUID s) (adocs st)) st)) st
      = (Ok tt, st') ∧
    (∀ u d, aget u d st' =
      if bool_decide (u ∈ UUID <$> ss ∧ d = doc) then aclear <$> aget u d st else aget u d st) ∧
    ∀ u, is_Some (adocs st' !! u) ↔ is_Some (adocs st !! u).
Proof.
  revert st. induction ss as [|s ss IH]; intros st.
  { exists st. split_and!; [done| |done]. intros u d. rewrite bool_decide_false; [done|].
    intros [Hu _]. by apply elem_of_nil in Hu. }
  cbn [forM_]. unfold sbind at 1, modify_st at 1.
  set (st1 := set_adocs (alter (alter aclear doc) (UUID s) (adocs st)) st).
  destruct (IH st1) as (st'&->&Hget&Hsome). exists st'. split; [done|].
  assert (H1 : ∀ u d, aget u d st1 =
    if bool_decide (u = UUID s ∧ d = doc) then aclear <$> aget u d st else aget u d st).
  { intros u d. unfold aget. cbn. destruct (decide (u = UUID s)) as [->|Hu].
    - rewrite lookup_alter_eq. destruct (adocs st !! UUID s) as [m|]; cbn; [|by case_bool_decide].
      destruct (decide (d = doc)) as [->|Hd].
      + by rewrite lookup_alter_eq, bool_decide_true.
      + by rewrite lookup_alter_ne, bool_decide_false by naive_solver.
    - by rewrite lookup_alter_ne, bool_decide_false by naive_solver. }
  split.
  - intros u d. rewrite Hget, H1, fmap_cons.
    assert (Hcons : (u ∈ UUID s :: (UUID <$> ss) ∧ d = doc) ↔
      (u = UUID s ∧ d = doc) ∨ (u ∈ UUID <$> ss ∧ d = doc)) by (rewrite elem_of_cons; tauto).
    rewrite (bool_decide_ext _ _ Hcons), bool_decide_or.
    do 2 case_bool_decide; cbn; try done. by destruct (aget u d st).
  - intros u. rewrite Hsome. cbn. by rewrite lookup_alter_is_Some.
Qed.
End reset.

(** ** The documents of a session *)

Section documents.
Context {R : Type} `{RepositoryLaws R} (sessions : R) (DiffMain : bytes → bytes → list Diff).

(** The store is well formed and knows the session, and the texts of its
    documents have less than 2^32 lines. *)
Record docs_ok (s : Session) (d : DocState) : Prop := {
  do_wf : wf DiffMain d;
  do_session : is_Some (adocs (abs d) !! UUID s);
  do_fits doc e : aget (UUID s) doc (abs d) = Some e → entry_fits e
}.

Lemma docs_ok_abs s d d' : docs_ok s d → wf DiffMain d' → abs d' = abs d → docs_ok s d'.
Proof. intros [H1 H2 H3] Hwf Ha. by split; rewrite ?Ha. Qed.

Lemma GetPositionMapper_ok ctx s doc d :
  docs_ok s d → repo_GetFromContext sessions ctx = Ok s →
  ∃ d', GetPositionMapper DiffMain sessions ctx doc d
      = (Ok (mapper_of DiffMain (aget (UUID s) doc (abs d))), d') ∧ wf DiffMain d' ∧ abs d' = abs d.
Proof.
  intros Hok Hs. pose proof (sim_GetPositionMapper DiffMain sessions ctx doc d (do_wf _ _ Hok)) as Hsim.
  destruct (GetPositionMapper DiffMain sessions ctx doc d) as [r d']. destruct Hsim as [Hwf Ha].
  exists d'. destruct (do_session _ _ Hok) as [m Hm]. revert Ha Hm.
  generalize (abs d), (abs d'). intros a a' Ha Hm. revert Ha.
  unfold a_getPositionMapper, try_, sbind, asession, lift_res, aentry, aget. rewrite Hs, Hm. cbn.
  destruct (m !! doc) as [e|]; cbn; intros [= <- <-]; by split_and!.
Qed.

(** A document that was loaded has its base reset. *)
Definition reset_base (loaded : list URI) (doc : URI) (e : option AEntry) : option AEntry :=
  if bool_decide (doc ∈ loaded) then aclear <$> e else e.

Lemma reset_base_app l1 l2 doc e : reset_base l2 doc (reset_base l1 doc e) = reset_base (l1 ++ l2) doc e.
Proof.
  unfold reset_base. rewrite (bool_decide_ext _ _ (elem_of_app l1 l2 doc)), bool_decide_or.
  do 2 case_bool_decide; cbn; try done. by destruct e.
Qed.

Lemma reset_base_ext l l' doc e : (doc ∈ l ↔ doc ∈ l') → reset_base l doc e = reset_base l' doc e.
Proof. intros Hl. unfold reset_base. by rewrite (bool_decide_ext _ _ Hl). Qed.

Lemma entry_fits_reset loaded doc e e' :
  (∀ e0, e = Some e0 → entry_fits e0) → reset_base loaded doc e = Some e' → entry_fits e'.
Proof.
  unfold reset_base. intros He. case_bool_decide; [|apply He].
  intros (e0&He0&->)%fmap_Some. destruct (He _ He0) as [_ ?]. by split.
Qed.

Lemma ResetBase_ok s ws doc d :
  repo_ok sessions → repo_Get sessions (UUID s) = Ok s → WorkspaceRoot s = ws → docs_ok s d →
  ∃ d', ResetBase sessions ws doc d = (Ok tt, d') ∧ docs_ok s d' ∧
    ∀ doc', aget (UUID s) doc' (abs d') = reset_base [doc] doc' (aget (UUID s) doc' (abs d)).
Proof.
  intros Hrepo Hs Hws Hok. pose proof (sim_ResetBase DiffMain sessions ws doc d (do_wf _ _ Hok)) as Hsim.
  destruct (ResetBase sessions ws doc d) as [r d']. destruct Hsim as [Hwf Ha].
  destruct (repo_GetAll_spec sessions ws Hrepo) as (ss&Hss&_&Hin).
  destruct (a_reset_sessions doc ss (abs d)) as (st'&Hrun&Hget&Hsome).
  assert (r = Ok tt ∧ abs d' = st') as [-> Habs].
  { revert Ha. unfold a_resetBase. rewrite Hss. unfold sbind at 1, lift_res. rewrite Hrun.
    by intros [= <- <-]. }
  assert (Hall : ∀ doc', aget (UUID s) doc' (abs d') = reset_base [doc] doc' (aget (UUID s) doc' (abs d))).
  { intros doc'. rewrite Habs, Hget. unfold reset_base.
    assert (UUID s ∈ UUID <$> ss) by (apply list_elem_of_fmap; exists s; split; [done|by apply Hin]).
    repeat case_bool_decide; try done; set_solver. }
  exists d'. split_and!; [done| |done]. split; [done| |].
  - rewrite Habs, Hsome. apply (do_session _ _ Hok).
  - intros doc' e He. rewrite Hall in He. revert He. apply entry_fits_reset, (do_fits _ _ Hok).
Qed.
End documents.

(** ** Queries *)

Section queries.
Context {R S M : Type} `{RepositoryLaws R}.
Context {I : Index.PartialIndex S} {C : CallbackLog S} {V : Index.View S} {B : Bindings} {L : Index.Laws S}.
Context {U : UriLib}.
Context (DiffMain : bytes → bytes → list Diff) (publish_error : uuid → URI → option error) (sessions : R).
Context (HDiff : DiffMain_law DiffMain) (Hrepo : repo_ok sessions).
(** the session of the request *)
Context (ctx : Context) (s : Session) (Hctx : repo_GetFromContext sessions ctx = Ok s).
Implicit Types c : Controller.controller S M.

(** The document as the session has it open. *)
Definition entry c (doc : URI) : option AEntry := aget (UUID s) doc (abs (Controller.documents c)).

(** [c'] differs from [c] in the cached mappers only. *)
Record same_view c c' : Prop := {
  sv_registries : Controller.registries c' = Controller.registries c;
  sv_docs : docs_ok DiffMain s (Controller.documents c');
  sv_entry doc : entry c' doc = entry c doc
}.

Lemma same_view_trans c1 c2 c3 : same_view c1 c2 → same_view c2 c3 → same_view c1 c3.
Proof. intros [? ? E1] [? ? E2]. split; [congruence|done|]. intros doc. by rewrite E2. Qed.

Lemma session_get : repo_Get sessions (UUID s) = Ok s.
Proof.
  rewrite repo_GetFromContext_spec in Hctx. destruct (ContextToSessionUUID ctx) as [u| | |]; try done.
  cbn in Hctx. destruct (repo_Get_cases sessions u Hrepo) as [(s'&Hs'&Hu)|Hn]; [|congruence].
  assert (s' = s) as -> by congruence. by rewrite Hu.
Qed.

Lemma mapper_ok c doc :
  docs_ok DiffMain s (Controller.documents c) →
  ∃ c', wrapM "getting position mapper"
      (Controller.on_documents (GetPositionMapper DiffMain sessions ctx doc)) c
    = (Ok (mapper_of DiffMain (entry c doc)), c') ∧ same_view c c'.
Proof.
  intros Hok. destruct (GetPositionMapper_ok sessions DiffMain ctx s doc _ Hok Hctx) as (d'&Hrun&Hwf&Ha).
  unfold wrapM, Controller.on_documents. rewrite Hrun. eexists. split; [reflexivity|]. split; cbn.
  - done.
  - by apply (docs_ok_abs _ _ (Controller.documents c)).
  - intros d. unfold entry. cbn. by rewrite Ha.
Qed.

Lemma getLatestPosition_ok c doc pos :
  docs_ok DiffMain s (Controller.documents c) → 0 ≤ Line pos →
  ∃ c', same_view c c' ∧
    ((∃ p, latest_position DiffMain (entry c doc) pos = Some p ∧
       Controller.getLatestPosition DiffMain sessions ctx doc pos c = (Ok p, c')) ∨
     (∃ x, latest_position DiffMain (entry c doc) pos = None ∧
       Controller.getLatestPosition DiffMain sessions ctx doc pos c = (Err x, c'))).
Proof.
  intros Hok Hp. destruct (mapper_ok c doc Hok) as (c'&Hrun&Hsv). exists c'. split; [done|].
  unfold Controller.getLatestPosition. rewrite (sbind_ok _ _ _ _ _ Hrun). unfold latest_position.
  destruct (entry c doc) as [e|] eqn:He; cbn; [|left; by eexists].
  destruct (MapBasePositionToCurrent_cases DiffMain e pos HDiff (do_fits _ _ _ Hok doc e He) Hp)
    as [(p&Hm)|(p&x&Hm)]; rewrite Hm; unfold sbind, lift_res; [left|right]; by eexists.
Qed.

Lemma getLatestRange_ok c doc rng :
  docs_ok DiffMain s (Controller.documents c) → 0 ≤ Line (RStart rng) ∧ 0 ≤ Line (REnd rng) →
  ∃ c', Controller.getLatestRange DiffMain sessions ctx doc rng c
      = (Ok (latest_range DiffMain (entry c doc) rng), c') ∧ same_view c c'.
Proof.
  intros Hok [Hl1 Hl2]. unfold Controller.getLatestRange, latest_range.
  destruct (getLatestPosition_ok c doc (RStart rng) Hok Hl1) as (c1&Hsv1&[(p1&->&Hrun1)|(x&->&Hrun1)]).
  2:{ rewrite (sbind_try_err _ _ _ _ _ Hrun1). by exists c1. }
  rewrite (sbind_try_ok _ _ _ _ _ Hrun1).
  destruct (getLatestPosition_ok c1 doc (REnd rng) (sv_docs _ _ Hsv1) Hl2)
    as (c2&Hsv2&[(p2&Hp2&Hrun2)|(x&Hp2&Hrun2)]); rewrite (sv_entry _ _ Hsv1) in Hp2; rewrite Hp2.
  - rewrite (sbind_try_ok _ _ _ _ _ Hrun2). exists c2. split; [done|]. by eapply same_view_trans.
  - rewrite (sbind_try_err _ _ _ _ _ Hrun2). exists c2. split; [done|]. by eapply same_view_trans.
Qed.

Lemma getBasePosition_ok c doc pos p :
  docs_ok DiffMain s (Controller.documents c) → base_position DiffMain (entry c doc) pos = Some p →
  ∃ c', Controller.getBasePosition DiffMain sessions ctx doc pos c = (Ok (Some p), c') ∧ same_view c c'.
Proof.
  intros Hok Hp. destruct (mapper_ok c doc Hok) as (c'&Hrun&Hsv). exists c'. split; [|done].
  unfold Controller.getBasePosition. rewrite (sbind_ok _ _ _ _ _ Hrun). revert Hp. unfold base_position.
  destruct (mapper_of DiffMain (entry c doc)) as [m|]; [|done]. cbn [mbind option_bind].
  destruct (MapCurrentPositionToBase m pos) as [[[q []] [x|]]| | |] eqn:Hm; try done.
  by intros [= ->].
Qed.

(** ** Loaded documents *)

(** The documents that the callbacks of the controller are called with. *)
Definition loaded_uris (root : string) (calls : list (N * Model.Document)) : list URI :=
  calls ≫= λ '(callback, doc),
    if (callback =? document_callback)%N then [Registry.GetURI root (Model.RelativePath doc)] else [].

(** The bases of the documents in [loaded] are reset. *)
Record after_loads (loaded : list URI) c c' : Prop := {
  al_docs : docs_ok DiffMain s (Controller.documents c');
  al_entry doc : entry c' doc = reset_base loaded doc (entry c doc)
}.

(** [c'] differs from [c] in documents and diagnostics only. *)
Definition frame c c' : Prop :=
  c' = Controller.set_docs (Controller.documents c')
         (Controller.set_diags (Controller.diagnostics c') c).

Lemma frame_trans c1 c2 c3 : frame c1 c2 → frame c2 c3 → frame c1 c3.
Proof. unfold frame. intros H1 H2. rewrite H2. rewrite H1. reflexivity. Qed.

Lemma document_loaded_ok c call :
  docs_ok DiffMain s (Controller.documents c) →
  ∃ c', Controller.document_loaded publish_error sessions (WorkspaceRoot s) call c = (Ok tt, c') ∧
    frame c c' ∧ after_loads (loaded_uris (WorkspaceRoot s) [call]) c c'.
Proof.
  intros Hok. destruct call as [callback doc]. unfold Controller.document_loaded, loaded_uris. cbn [mbind list_bind].
  destruct (callback =? document_callback)%N.
  2:{ exists c. split_and!; [done|by destruct c|]. split; [done|]. intros d. unfold reset_base.
      by rewrite bool_decide_false by apply not_elem_of_nil. }
  set (docURI := Registry.GetURI (WorkspaceRoot s) (Model.RelativePath doc)).
  destruct (repo_GetAll_spec sessions (WorkspaceRoot s) Hrepo) as (ss&Hss&_&_).
  destruct (Diagnostics.apply_sessions publish_error docURI (Model.Diagnostics doc) ss
    (Controller.diagnostics c)) as (ds&Hds&_&_).
  assert (H1 : Controller.on_diagnostics (Diagnostics.ApplyDiagnostics publish_error sessions
    (WorkspaceRoot s) docURI (Model.Diagnostics doc)) c = (Ok tt, Controller.set_diags ds c)).
  { unfold Controller.on_diagnostics, Diagnostics.ApplyDiagnostics. rewrite Hss.
    unfold sbind at 1, lift_res. by rewrite Hds. }
  rewrite (sbind_try_ok _ _ _ _ _ H1).
  destruct (ResetBase_ok sessions DiffMain s (WorkspaceRoot s) docURI (Controller.documents c))
    as (d'&Hd'&Hok'&Hget); [done|by apply session_get|done..|].
  assert (H2 : Controller.on_documents (ResetBase sessions (WorkspaceRoot s) docURI)
    (Controller.set_diags ds c) = (Ok tt, Controller.set_docs d' (Controller.set_diags ds c))).
  { unfold Controller.on_documents. cbn [Controller.documents Controller.set_diags]. by rewrite Hd'. }
  rewrite (sbind_try_ok _ _ _ _ _ H2). eexists. split_and!; [reflexivity|done|]. by split.
Qed.

Lemma documents_loaded_ok c calls :
  docs_ok DiffMain s (Controller.documents c) →
  ∃ c', forM_ calls (Controller.document_loaded publish_error sessions (WorkspaceRoot s)) c = (Ok tt, c') ∧
    frame c c' ∧ after_loads (loaded_uris (WorkspaceRoot s) calls) c c'.
Proof.
  revert c. induction calls as [|call calls IH]; intros c Hok.
  { exists c. split_and!; [done|by destruct c|]. split; [done|]. intros d. unfold reset_base.
    by rewrite bool_decide_false by apply not_elem_of_nil. }
  destruct (document_loaded_ok c call Hok) as (c1&Hrun1&Hreg1&A1).
  destruct (IH c1 (al_docs _ _ _ A1)) as (c2&Hrun2&Hreg2&A2).
  exists c2. cbn [forM_]. rewrite (sbind_ok _ _ _ _ _ Hrun1).
  split_and!; [done|by eapply frame_trans|]. split; [apply A2|]. intros d. rewrite (al_entry _ _ _ A2), (al_entry _ _ _ A1), reset_base_app.
  f_equal. unfold loaded_uris. cbn. destruct call. by rewrite app_nil_r.
Qed.

(** An operation of the registry of the session's workspace. *)
Lemma on_registry_ok {A} c reg (m : string → GoM S A) r idx :
  docs_ok DiffMain s (Controller.documents c) →
  Controller.registries c !! WorkspaceRoot s = Some reg → rWorkspaceRoot reg = WorkspaceRoot s →
  m (WorkspaceRoot s) (rIndex reg) = (r, idx) →
  ∃ c', Controller.on_registry publish_error sessions (WorkspaceRoot s) m c = (r, c') ∧
    after_loads (loaded_uris (WorkspaceRoot s)
      (drop (length (callback_calls (rIndex reg))) (callback_calls idx))) c c' ∧
    frame (Controller.set_registries
      (<[WorkspaceRoot s := mkRegistry (WorkspaceRoot s) (rIndexFolder reg) idx]>
         (Controller.registries c)) c) c'.
Proof.
  intros Hok Hreg Hroot Hm. unfold Controller.on_registry. rewrite Hreg, Hroot, Hm.
  set (c1 := Controller.set_registries _ c).
  destruct (documents_loaded_ok c1 (drop (length (callback_calls (rIndex reg))) (callback_calls idx)))
    as (c'&Hrun&Hf&[? ?]); [done|].
  rewrite Hrun. eexists. split_and!; [reflexivity|by split|done].
Qed.

(** The URIs of the documents that a query for [paths] loads, where the
    controller has registered its callback. *)
Definition query_loads (idx : S) (paths : list string) : list URI :=
  if (Index.callback_of idx =? document_callback)%N
  then (λ b, Registry.GetURI (WorkspaceRoot s) (Model.RelativePath b)) <$> (Index.loads idx paths).*2 else [].

Lemma loaded_uris_elem root callback docs u :
  u ∈ loaded_uris root (pair callback <$> docs) ↔
  callback = document_callback ∧ ∃ b, b ∈ docs ∧ u = Registry.GetURI root (Model.RelativePath b).
Proof.
  unfold loaded_uris. rewrite list_elem_of_bind. setoid_rewrite list_elem_of_fmap. split.
  - intros ([cb b]&Hu&b'&[= -> ->]&Hb). destruct (N.eqb_spec callback document_callback); [|by apply elem_of_nil in Hu].
    apply list_elem_of_singleton in Hu. eauto.
  - intros [-> (b&Hb&->)]. exists (document_callback, b). rewrite N.eqb_refl. split; [by apply list_elem_of_singleton|eauto].
Qed.

Lemma after_loads_ext l l' c c' : (∀ u, u ∈ l ↔ u ∈ l') → after_loads l c c' → after_loads l' c c'.
Proof.
  intros Hl [A1 A2]. split; [done|]. intros doc. rewrite A2. by apply reset_base_ext.
Qed.

(** A query of the registry of the session's workspace. *)
Lemma on_query_ok {A} c reg (m : string → GoM S A) r idx paths :
  docs_ok DiffMain s (Controller.documents c) →
  Controller.registries c !! WorkspaceRoot s = Some reg → rWorkspaceRoot reg = WorkspaceRoot s →
  m (WorkspaceRoot s) (rIndex reg) = (r, idx) → Index.asks paths (rIndex reg) idx →
  ∃ c', Controller.on_registry publish_error sessions (WorkspaceRoot s) m c = (r, c') ∧
    after_loads (query_loads (rIndex reg) paths) c c' ∧
    frame (Controller.set_registries
      (<[WorkspaceRoot s := mkRegistry (WorkspaceRoot s) (rIndexFolder reg) idx]>
         (Controller.registries c)) c) c'.
Proof.
  intros Hok Hreg Hroot Hm [_ _ (new&Hcalls&Hnew)].
  destruct (on_registry_ok c reg m r idx Hok Hreg Hroot Hm) as (c'&Hrun&Hal&Hf). exists c'. split_and!; [done| |done].
  revert Hal. apply after_loads_ext. intros u. rewrite Hcalls, drop_app_length, loaded_uris_elem. unfold query_loads.
  destruct (N.eqb_spec (Index.callback_of (rIndex reg)) document_callback) as [He|Hne].
  - rewrite list_elem_of_fmap. setoid_rewrite Hnew. naive_solver.
  - rewrite elem_of_nil. naive_solver.
Qed.

Lemma after_loads_view loaded c c1 c2 c3 :
  same_view c c1 → after_loads loaded c1 c2 → same_view c2 c3 → after_loads loaded c c3.
Proof.
  intros V1 A V2. split; [apply V2|]. intros d. by rewrite (sv_entry _ _ V2), (al_entry _ _ _ A), (sv_entry _ _ V1).
Qed.

(** The start of a query that has a base position. *)
Lemma at_base_ok A c reg doc pos p :
  docs_ok DiffMain s (Controller.documents c) →
  Controller.registries c !! WorkspaceRoot s = Some reg →
  base_position DiffMain (entry c doc) pos = Some p →
  ∃ c1, same_view c c1 ∧ ∀ (none : A) k,
    Controller.at_base DiffMain sessions ctx doc pos none k c = k (WorkspaceRoot s) p c1.
Proof.
  intros Hok Hreg Hp. destruct (getBasePosition_ok c doc pos p Hok Hp) as (c1&Hrun&Hsv).
  exists c1. split; [done|]. intros none k. unfold Controller.at_base, Controller.from_context. rewrite Hctx.
  unfold sbind at 1, lift_res at 1. rewrite sbind_get, Hreg, (sbind_ok _ _ _ _ _ Hrun). done.
Qed.

(** The latest range of an occurrence in a document. *)
Definition occurrence_range c (doc : URI) (occ : Model.Occurrence) : Range :=
  latest_range DiffMain (entry c doc) (ScipToProtocolRange (Model.ORange occ)).

(** The link from an occurrence of [doc] to a definition. *)
Definition definition_link c (doc : URI) (occ : Model.Occurrence) (def : Model.SymbolOccurrence) : LocationLink :=
  let target := match Model.SOccurrence def with
                | Some o => occurrence_range c (Model.SLocation def) o
                | None => zero_Range
                end in
  mkLocationLink (Some (occurrence_range c doc occ)) (Model.SLocation def) target target.

Lemma target_range_ok c (def : Model.SymbolOccurrence) :
  docs_ok DiffMain s (Controller.documents c) →
  ∃ c', match Model.SOccurrence def with
        | Some occ => Controller.getLatestRange DiffMain sessions ctx (Model.SLocation def)
                        (ScipToProtocolRange (Model.ORange occ))
        | None => sret zero_Range
        end c = (Ok (match Model.SOccurrence def with
                     | Some o => occurrence_range c (Model.SLocation def) o
                     | None => zero_Range
                     end), c') ∧ same_view c c'.
Proof.
  intros Hok. destruct (Model.SOccurrence def) as [o|].
  - apply getLatestRange_ok; [done|apply ScipToProtocolRange_lines].
  - by exists c.
Qed.

Lemma same_view_link c c' doc occ def :
  same_view c c' → definition_link c' doc occ def = definition_link c doc occ def.
Proof.
  intros Hsv. unfold definition_link, occurrence_range. rewrite (sv_entry _ _ Hsv).
  destruct (Model.SOccurrence def); [|done]. by rewrite (sv_entry _ _ Hsv).
Qed.

Lemma gotoDefinition_ok c reg doc rel pos p bdoc occ sy pkg result :
  docs_ok DiffMain s (Controller.documents c) →
  Controller.registries c !! WorkspaceRoot s = Some reg → rWorkspaceRoot reg = WorkspaceRoot s →
  Index.ready (rIndex reg) → Registry.uriToRelativePath (WorkspaceRoot s) doc = Ok rel →
  Index.doc_of (rIndex reg) rel = Some bdoc →
  base_position DiffMain (entry c doc) pos = Some p →
  GetOccurrenceForPosition (Model.Occurrences bdoc) p = Ok (Some occ) →
  ParseScipSymbol (Model.OSymbol occ) = Ok sy → Scip.SPackage sy = Some pkg →
  Scip.Descriptors sy ≠ [] →
  ∃ c', after_loads (query_loads (rIndex reg) (definition_paths (rIndex reg) rel occ
          (ScipDescriptorsToModelDescriptors (Scip.Descriptors sy)) (Scip.Version pkg))) c c' ∧
    Controller.gotoDefinition DiffMain publish_error sessions ctx doc pos result c =
    (Ok (result ++
      match definition_at (WorkspaceRoot s) (rIndex reg) doc bdoc occ
              (ScipDescriptorsToModelDescriptors (Scip.Descriptors sy)) (Scip.Version pkg) with
      | Some (_, def) => [definition_link c' doc occ def]
      | None => []
      end), c').
Proof.
  intros Hok Hreg Hroot Hready Hrel Hdoc Hp Hocc Hsy Hpkg Hds. unfold Controller.gotoDefinition.
  destruct (at_base_ok (list LocationLink) c reg doc pos p Hok Hreg Hp) as (c1&V1&->).
  destruct (Definition_ok (WorkspaceRoot s) (rIndex reg) doc rel p bdoc occ sy pkg
    Hready Hrel Hdoc Hocc Hsy Hpkg Hds) as (idx&Hdef&_&Hasks).
  assert (Hreg1 : Controller.registries c1 !! WorkspaceRoot s = Some reg)
    by (by rewrite (sv_registries _ _ V1)).
  destruct (on_query_ok c1 reg (λ root, Registry.Definition_ root doc p) _ idx _ (sv_docs _ _ V1)
    Hreg1 Hroot Hdef Hasks) as (c2&Hrun2&A2&_).
  rewrite (sbind_ok _ _ _ _ _ (wrapM_ok "failed to get definition" _ _ _ _ Hrun2)).
  destruct (definition_at _ _ _ _ _ _ _) as [[src def]|] eqn:Hat.
  2:{ exists c2. rewrite app_nil_r. split; [|done]. apply (after_loads_view _ _ _ _ _ V1 A2).
      split; [done|apply A2|done]. }
  assert (Hsrc : Model.SOccurrence src = Some occ).
  { revert Hat. unfold definition_at. destruct (IsLocalSymbol _); [by intros [= <- _]|].
    destruct (definition_of _ _ _ _); [by intros [= <- _]|done]. }
  destruct (target_range_ok c2 def (al_docs _ _ _ A2)) as (c3&Hrun3&V3).
  rewrite (sbind_ok _ _ _ _ _ Hrun3), Hsrc.
  destruct (getLatestRange_ok c3 doc (ScipToProtocolRange (Model.ORange occ)) (sv_docs _ _ V3)
    (ScipToProtocolRange_lines _)) as (c4&Hrun4&V4).
  rewrite (sbind_ok _ _ _ _ _ Hrun4), (sv_entry _ _ V3).
  pose proof (same_view_trans _ _ _ V3 V4) as V24. exists c4.
  split; [by apply (after_loads_view _ _ _ _ _ V1 A2)|]. by rewrite (same_view_link _ _ _ _ _ V24).
Qed.

(** C6: In a workspace with a registry whose index is ready and knows the document,
    [gotoDefinition] at a position of it answers for the text in the editor.
    The position is mapped to the base version of the document; when the index has
    an occurrence of a global symbol there, the answer, after what the call was
    given, is a link from the range that this occurrence has now to the range that the definition of its symbol
    has now in its document, and nothing if the index knows no definition.  Of
    the document and that of the definition, those that the index did not have in
    memory are loaded, and exactly their bases are reset. *)
Theorem gotoDefinition_latest c reg doc rel pos p bdoc occ sy pkg result :
  docs_ok DiffMain s (Controller.documents c) →
  Controller.registries c !! WorkspaceRoot s = Some reg → rWorkspaceRoot reg = WorkspaceRoot s →
  Index.ready (rIndex reg) → Registry.uriToRelativePath (WorkspaceRoot s) doc = Ok rel →
  Index.doc_of (rIndex reg) rel = Some bdoc →
  base_position DiffMain (entry c doc) pos = Some p →
  GetOccurrenceForPosition (Model.Occurrences bdoc) p = Ok (Some occ) →
  ParseScipSymbol (Model.OSymbol occ) = Ok sy → Scip.SPackage sy = Some pkg →
  Scip.Descriptors sy ≠ [] →
  ∃ c', after_loads (query_loads (rIndex reg) (definition_paths (rIndex reg) rel occ
          (ScipDescriptorsToModelDescriptors (Scip.Descriptors sy)) (Scip.Version pkg))) c c' ∧
    Controller.gotoDefinition DiffMain publish_error sessions ctx doc pos result c =
    (Ok (result ++
      match definition_at (WorkspaceRoot s) (rIndex reg) doc bdoc occ
              (ScipDescriptorsToModelDescriptors (Scip.Descriptors sy)) (Scip.Version pkg) with
      | Some (_, def) => [definition_link c' doc occ def]
      | None => []
      end), c').
Proof. by apply gotoDefinition_ok. Qed.

(** ** References *)

Definition latest_location c (loc : Location) : Location :=
  mkLocation (LocURI loc) (latest_range DiffMain (entry c (LocURI loc)) (LocRange loc)).

Lemma latest_locations_ok c locs result :
  docs_ok DiffMain s (Controller.documents c) →
  Forall (λ loc, 0 ≤ Line (RStart (LocRange loc)) ∧ 0 ≤ Line (REnd (LocRange loc))) locs →
  ∃ c', Controller.latest_locations DiffMain sessions ctx locs result c
      = (Ok (result ++ (latest_location c <$> locs)), c') ∧ same_view c c'.
Proof.
  intros Hok Hl. revert c result Hok. induction Hl as [|loc locs Hloc Hl IH]; intros c result Hok.
  { exists c. rewrite app_nil_r. by split. }
  cbn [Controller.latest_locations].
  destruct (getLatestRange_ok c (LocURI loc) (LocRange loc) Hok Hloc) as (c1&Hrun1&V1).
  rewrite (sbind_ok _ _ _ _ _ Hrun1).
  destruct (IH c1 (result ++ [latest_location c loc]) (sv_docs _ _ V1)) as (c2&Hrun2&V2).
  exists c2. split; [|by eapply same_view_trans].
  etransitivity; [exact Hrun2|]. rewrite <- app_assoc. cbn. do 4 f_equal. apply list_fmap_ext.
  intros i x _. unfold latest_location. by rewrite (sv_entry _ _ V1).
Qed.

Lemma references_ok c reg doc rel pos p bdoc occ result :
  docs_ok DiffMain s (Controller.documents c) →
  Controller.registries c !! WorkspaceRoot s = Some reg → rWorkspaceRoot reg = WorkspaceRoot s →
  Index.ready (rIndex reg) → Registry.uriToRelativePath (WorkspaceRoot s) doc = Ok rel →
  Index.doc_of (rIndex reg) rel = Some bdoc →
  base_position DiffMain (entry c doc) pos = Some p →
  GetOccurrenceForPosition (Model.Occurrences bdoc) p = Ok (Some occ) →
  ∃ c' locs, after_loads (query_loads (rIndex reg) [rel]) c c' ∧
    Controller.references DiffMain publish_error sessions ctx doc pos result c
      = (Ok (result ++ locs), c') ∧
    ∀ loc, loc ∈ locs ↔
      ∃ base, loc = latest_location c' base ∧
        reference_location (WorkspaceRoot s) (rIndex reg) doc bdoc occ base.
Proof.
  intros Hok Hreg Hroot Hready Hrel Hdoc Hp Hocc. unfold Controller.references.
  destruct (at_base_ok (list Location) c reg doc pos p Hok Hreg Hp) as (c1&V1&->).
  destruct (References_ok (WorkspaceRoot s) (rIndex reg) doc rel p bdoc occ Hready Hrel Hdoc Hocc)
    as (locs&idx&Href&_&Hasks&Hlocs).
  assert (Hreg1 : Controller.registries c1 !! WorkspaceRoot s = Some reg)
    by (by rewrite (sv_registries _ _ V1)).
  destruct (on_query_ok c1 reg (λ root, Registry.References root doc p) _ idx _ (sv_docs _ _ V1)
    Hreg1 Hroot Href Hasks) as (c2&Hrun2&A2&_).
  rewrite (sbind_ok _ _ _ _ _ (wrapM_ok "failed to get references" _ _ _ _ Hrun2)).
  cbn [default from_option]. change (default [] (Some locs)) with locs.
  destruct (latest_locations_ok c2 locs result (al_docs _ _ _ A2)) as (c3&Hrun3&V3).
  { apply Forall_forall. intros loc Hin. apply Hlocs in Hin. revert Hin. unfold reference_location.
    destruct (IsLocalSymbol _); [intros (o&_&_&->)|intros (d&o&_&->)]; apply ScipToProtocolRange_lines. }
  exists c3, (latest_location c2 <$> locs).
  split_and!; [by apply (after_loads_view _ _ _ _ _ V1 A2)|exact Hrun3|]. intros loc.
  rewrite list_elem_of_fmap. setoid_rewrite Hlocs.
  assert (Heq : ∀ base, latest_location c3 base = latest_location c2 base).
  { intros base. unfold latest_location. by rewrite (sv_entry _ _ V3). }
  setoid_rewrite Heq. done.
Qed.

(** C7: In a workspace with a registry whose index is ready and knows the document,
    [references] at a position of it returns, after what it was given, a location for each occurrence of the symbol at the base position
    that the index has, at the range that it has now in its document.  The base
    of the document is reset exactly if the index did not have it in memory. *)
Theorem references_latest c reg doc rel pos p bdoc occ result :
  docs_ok DiffMain s (Controller.documents c) →
  Controller.registries c !! WorkspaceRoot s = Some reg → rWorkspaceRoot reg = WorkspaceRoot s →
  Index.ready (rIndex reg) → Registry.uriToRelativePath (WorkspaceRoot s) doc = Ok rel →
  Index.doc_of (rIndex reg) rel = Some bdoc →
  base_position DiffMain (entry c doc) pos = Some p →
  GetOccurrenceForPosition (Model.Occurrences bdoc) p = Ok (Some occ) →
  ∃ c' locs, after_loads (query_loads (rIndex reg) [rel]) c c' ∧
    Controller.references DiffMain publish_error sessions ctx doc pos result c
      = (Ok (result ++ locs), c') ∧
    ∀ loc, loc ∈ locs ↔
      ∃ base, loc = latest_location c' base ∧
        reference_location (WorkspaceRoot s) (rIndex reg) doc bdoc occ base.
Proof. by apply references_ok. Qed.
End queries.

(** ** Loading *)

Section loads.
Context {R S M : Type} `{RepositoryLaws R} {NM : NotificationManager M} {NL : NotificationLaws M}.
Context {I : Index.PartialIndex S} {C : CallbackLog S} {U : UriLib}.
Context (DiffMain : bytes → bytes → list Diff) (publish_error : uuid → URI → option error) (sessions : R).
Context (configs : gmap MonorepoName ScipConfig) (newIndex : string → gores S).
Context (ReadDir : string → gores (list string)) (ReadFile : string → gores bytes).
Context (watcher : option (string → option error)) (ideGateway : bool) (numCPU : Z).
Context (schedule : list (string * string) → list (string * string)).
Context (Hrepo : repo_ok sessions).
Context (ctx : Context) (s : Session) (Hctx : repo_GetFromContext sessions ctx = Ok s).
(** the load of an index and the listing of a directory return *)
Context (HLoad : ∀ f (idx : S), ∃ r idx', Index.LoadIndexFile f idx = (r, idx') ∧
  (r = Ok tt ∨ ∃ e, r = Err e)).
Context (HReadDir : ∀ d, (∃ names, ReadDir d = Ok names) ∨ ∃ e, ReadDir d = Err e).
Context (Hschedule : ∀ l, schedule l ≡ₚ l) (HCPU : 2 ≤ numCPU).
Context (u0 : N → Z) (Hu0 : ∀ h, 0 ≤ u0 h).
Implicit Types c : Controller.controller S M.

Abbreviation sha := (Controller.getSha ReadFile).
Abbreviation ws := (WorkspaceRoot s).

(** The calls of [LoadIndexFile] on an index, one after the other, and whether they
    succeed. *)
Inductive load_runs (idx : S) : list (string * bool) → S → Prop :=
  | runs_none : load_runs idx [] idx
  | runs_load l idx1 f r idx2 : load_runs idx l idx1 → Index.LoadIndexFile f idx1 = (r, idx2) →
    load_runs idx (l ++ [(f, match r with Ok _ => true | _ => false end)]) idx2.

Section loading.
(** the controller and the index of the registry at the start *)
Context (c0 : Controller.controller S M) (idx0 : S).

(** The file was loaded by one of the calls [l], or its hash was known. *)
Definition brought (l : list (string * bool)) (f : string) : Prop :=
  (f, true) ∈ l ∨ Controller.loaded_sha f c0 = sha f.

(** The parts of the controller that a load relies on, after the calls [l]. *)
Record load_ok (l : list (string * bool)) c : Prop := {
  lo_docs : docs_ok DiffMain s (Controller.documents c);
  lo_registry : ∃ reg, Controller.registries c !! ws = Some reg ∧ rWorkspaceRoot reg = ws ∧
    load_runs idx0 l (rIndex reg);
  lo_notifier : balanced u0 (Controller.indexNotifier c);
  lo_hashes f : Controller.loadedIndices c !! f = Controller.loadedIndices c0 !! f ∨
    Controller.loadedIndices c !! f = Some (sha f) ∧ brought l f
}.

Lemma brought_mono l l' f : l `prefix_of` l' → brought l f → brought l' f.
Proof. intros [k ->] [Hin|Hs]; [left; set_solver|by right]. Qed.

Lemma load_ok_frame l c c' : load_ok l c → docs_ok DiffMain s (Controller.documents c') →
  Controller.registries c' = Controller.registries c → balanced u0 (Controller.indexNotifier c') →
  Controller.loadedIndices c' = Controller.loadedIndices c → load_ok l c'.
Proof. intros [L1 L2 L3 L4] Hd Hr Hn Hi. split; [done|by rewrite Hr|done|by rewrite Hi]. Qed.

Lemma loaded_sha_brought l c f : load_ok l c → Controller.loaded_sha f c = sha f → brought l f.
Proof.
  intros Hl Hs. unfold Controller.loaded_sha in Hs. destruct (lo_hashes _ _ Hl f) as [Heq|[_ Hb]]; [|done].
  right. unfold Controller.loaded_sha. by rewrite <- Heq.
Qed.

Lemma on_notifier_ok l c ev :
  load_ok l c →
  ∃ c', Controller.on_notifier (notifier_step ev) c = (Ok tt, c') ∧ load_ok l c' ∧
    Controller.loadedIndices c' = Controller.loadedIndices c ∧
    Controller.messages c' = Controller.messages c.
Proof.
  intros Hl. destruct (notifier_step_ok u0 Hu0 _ ev (lo_notifier _ _ Hl)) as (r&n'&Hrun&B&Hr&_).
  unfold Controller.on_notifier, try_. rewrite Hrun.
  destruct Hr as [->|[e ->]]; eexists; (split_and!; [reflexivity|by apply (load_ok_frame l c); [|apply Hl|..]|done..]).
Qed.

(** A file is loaded, skipped because of its hash, or its load fails. *)
Lemma loadScipFile_ok l c f loadedSha :
  load_ok l c → (loadedSha = sha f → brought l f) →
  ∃ r c' l', Controller.loadScipFile publish_error ReadFile sessions ws f loadedSha c = (r, c') ∧
    l `prefix_of` l' ∧ load_ok l' c' ∧
    (r = Ok (sha f) ∧ brought l' f ∨ (∃ e, r = Err e) ∧ (f, false) ∈ l') ∧
    Controller.loadedIndices c' = Controller.loadedIndices c ∧
    Controller.messages c' = Controller.messages c.
Proof.
  intros Hl Hsame. unfold Controller.loadScipFile.
  case_bool_decide as Hsha. { eexists _, c, l. split_and!; [reflexivity|done|done|left; auto|done..]. }
  destruct (lo_registry _ _ Hl) as (reg&Hreg&Hroot&Hruns).
  destruct (HLoad f (rIndex reg)) as (r&idx&Hrun&Hr).
  destruct (on_registry_ok DiffMain publish_error sessions Hrepo ctx s Hctx c reg
    (λ _, Registry.LoadIndexFile f) r idx (lo_docs _ _ Hl) Hreg Hroot Hrun) as (c'&Hon&A&Hf).
  set (l' := l ++ [(f, match r with Ok _ => true | _ => false end)]).
  assert (Hpre : l `prefix_of` l') by (by eexists).
  assert (Hl' : load_ok l' c').
  { split; [apply A| | |].
    - rewrite Hf. cbn. rewrite lookup_insert_eq. eexists. split_and!; [done..|]. cbn. by eapply runs_load.
    - rewrite Hf. apply (lo_notifier _ _ Hl).
    - intros g. rewrite Hf. cbn. destruct (lo_hashes _ _ Hl g) as [?|[??]]; [by left|right].
      split; [done|by eapply brought_mono]. }
  destruct Hr as [->|[e ->]].
  - rewrite (sbind_ok _ _ _ _ _ Hon). eexists _, c', l'.
    split_and!; [reflexivity|done|done| |by rewrite Hf..]. left. split; [done|]. left. set_solver.
  - rewrite (sbind_err _ _ _ _ _ Hon). eexists _, c', l'.
    split_and!; [reflexivity|done|done| |by rewrite Hf..]. right. split; [by eexists|]. set_solver.
Qed.

Lemma load_and_notify_ok l c f loadedSha :
  load_ok l c → (loadedSha = sha f → brought l f) →
  ∃ err c' l', Controller.load_and_notify publish_error ReadFile sessions ws f loadedSha c = (Ok err, c') ∧
    l `prefix_of` l' ∧ load_ok l' c' ∧ Controller.messages c' = Controller.messages c ∧
    match err with
    | None => Controller.loadedIndices c' = <[f := sha f]> (Controller.loadedIndices c) ∧ brought l' f
    | Some _ => Controller.loadedIndices c' = Controller.loadedIndices c ∧ (f, false) ∈ l'
    end.
Proof.
  intros Hl Hsame. unfold Controller.load_and_notify.
  destruct (on_notifier_ok l c (EvNotifyStart ws f) Hl) as (c1&Hrun1&Hl1&Hi1&Hm1).
  rewrite (sbind_ok _ _ _ _ _ Hrun1).
  destruct (loadScipFile_ok l c1 f loadedSha Hl1 Hsame) as (r&c2&l'&Hrun2&Hpre&Hl2&Hr&Hi2&Hm2).
  destruct Hr as [[-> Hb]|[[e ->] Hfail]].
  - rewrite (sbind_try_ok _ _ _ _ _ Hrun2), sbind_assoc, sbind_modify, sbind_ret.
    set (c3 := Controller.set_loaded _ c2).
    assert (Hl3 : load_ok l' c3).
    { destruct Hl2 as [D1 D2 D3 D4]. split; [done..|]. intros g. cbn. destruct (decide (g = f)) as [->|Hne].
      - rewrite lookup_insert_eq. by right.
      - rewrite lookup_insert_ne by done. apply D4. }
    destruct (on_notifier_ok l' c3 (EvNotifyComplete ws f IndexLoadSuccess) Hl3) as (c4&Hrun4&Hl4&Hi4&Hm4).
    rewrite (sbind_ok _ _ _ _ _ Hrun4). eexists None, c4, l'.
    split_and!; [done|done|done|by rewrite Hm4, <- Hm1, <- Hm2|by rewrite Hi4, <- Hi1, <- Hi2|done].
  - rewrite (sbind_try_err _ _ _ _ _ Hrun2), sbind_ret.
    destruct (on_notifier_ok l' c2 (EvNotifyComplete ws f IndexLoadError) Hl2) as (c4&Hrun4&Hl4&Hi4&Hm4).
    rewrite (sbind_ok _ _ _ _ _ Hrun4). eexists (Some e), c4, l'. split_and!; [done|done|done|congruence..|done].
Qed.

(** A file is loaded, with its hash recorded, or its load failed. *)
Definition settled (failed : list string) (l : list (string * bool)) c (f : string) : Prop :=
  f ∈ failed ∧ (f, false) ∈ l ∨ Controller.loadedIndices c !! f = Some (sha f) ∧ brought l f.

(** What is settled stays so; a failure that is reported was one of a load. *)
Definition progress (failed failed' : list string) (l l' : list (string * bool)) c c' : Prop :=
  l `prefix_of` l' ∧ (∀ f, settled failed l c f → settled failed' l' c' f) ∧
  (∀ f, f ∈ failed' → f ∈ failed ∨ (f, false) ∈ l').

Lemma progress_refl failed l c : progress failed failed l l c c.
Proof. split_and!; auto. Qed.
Lemma progress_trans f1 f2 f3 l1 l2 l3 c1 c2 c3 :
  progress f1 f2 l1 l2 c1 c2 → progress f2 f3 l2 l3 c2 c3 → progress f1 f3 l1 l3 c1 c3.
Proof.
  intros (P1&H1&F1) (P2&H2&F2). split_and!; [by etransitivity|auto|]. intros f [Hf|?]%F2; [|auto].
  destruct (F1 f Hf) as [?|Hin]; [auto|right]. destruct P2 as [k ->]. set_solver.
Qed.

Lemma load_files_ok files failed l c :
  load_ok l c → Forall (λ x, x.2 = sha x.1 → brought l x.1) files →
  ∃ failed' l' c', Controller.load_files publish_error ReadFile sessions ws files failed c = (Ok failed', c') ∧
    load_ok l' c' ∧ Controller.messages c' = Controller.messages c ∧
    progress failed failed' l l' c c' ∧ Forall (settled failed' l' c') files.*1.
Proof.
  revert failed l c. induction files as [|[f h] files IH]; intros failed l c Hl Hf.
  { exists failed, l, c. split_and!; [done..|apply progress_refl|by apply Forall_nil]. }
  apply Forall_cons in Hf as [Hf Hfs]. cbn [Controller.load_files].
  destruct (load_and_notify_ok l c f h Hl Hf) as (err&c1&l1&Hrun1&Hpre&Hl1&Hm1&Hi1).
  rewrite (sbind_ok _ _ _ _ _ Hrun1).
  set (failed1 := if err then failed ++ [f] else failed).
  destruct (IH failed1 l1 c1 Hl1) as (failed'&l'&c'&Hrun&Hl'&Hm&Hp&Hs).
  { eapply Forall_impl; [exact Hfs|]. intros x Hx He. by eapply brought_mono, Hx. }
  assert (progress failed failed1 l l1 c c1 ∧ settled failed1 l1 c1 f) as [Hp1 Hf1].
  { unfold progress, settled, failed1. destruct err as [e|]; destruct Hi1 as [Hi1 Hb].
    - rewrite Hi1. split_and!; [done| | |left; set_solver].
      + intros g [[Hg Hin]|[Hg Hin]]; [left; destruct Hpre as [k ->]; set_solver|right].
        split; [done|by eapply brought_mono].
      + intros g [?|Hg]%elem_of_app; [by left|]. apply list_elem_of_singleton in Hg as ->. by right.
    - rewrite Hi1. split_and!; [done| |by left|right; by rewrite lookup_insert_eq].
      intros g [[Hg Hin]|[Hg Hin]]; [left; destruct Hpre as [k ->]; set_solver|right].
      destruct (decide (g = f)) as [->|]; [by rewrite lookup_insert_eq|rewrite lookup_insert_ne by done].
      split; [done|by eapply brought_mono]. }
  exists failed', l', c'. split_and!; [done|done|congruence|by eapply progress_trans|].
  constructor; [|done]. by apply Hp.
Qed.

Lemma scip_files_ok fDir names l c :
  load_ok l c →
  ∃ files c', Controller.scip_files ws fDir names c = (Ok files, c') ∧ load_ok l c' ∧
    Controller.loadedIndices c' = Controller.loadedIndices c ∧
    Controller.messages c' = Controller.messages c ∧
    Forall (λ x, x.2 = sha x.1 → brought l x.1) files ∧
    files.*1 = Join fDir <$> List.filter (λ name, HasSuffix name ".scip") names.
Proof.
  revert c. induction names as [|name names IH]; intros c Hl. { exists [], c. by split_and!. }
  cbn [Controller.scip_files List.filter]. destruct (HasSuffix name ".scip"); [|by apply IH].
  rewrite sbind_get.
  destruct (on_notifier_ok l c (EvTrackFile ws (Join fDir name)) Hl) as (c1&Hrun1&Hl1&Hi1&Hm1).
  rewrite (sbind_ok _ _ _ _ _ Hrun1).
  destruct (IH c1 Hl1) as (files&c2&Hrun2&Hl2&Hi2&Hm2&Hb&Hf).
  rewrite (sbind_ok _ _ _ _ _ Hrun2). eexists _, c2. split_and!; [reflexivity|done|congruence|congruence| |].
  - constructor; [|done]. cbn. intros Hs. exact (loaded_sha_brought l c _ Hl Hs).
  - cbn. by rewrite Hf.
Qed.

Abbreviation load_directory := (Controller.load_directory publish_error ReadDir ReadFile watcher numCPU
  schedule sessions).

(** The index files of a directory are settled. *)
Definition directory_settled (failed : list string) (l : list (string * bool)) c (d : string) : Prop :=
  ∀ names name, ReadDir (Join ws d) = Ok names → name ∈ names → HasSuffix name ".scip" = true →
    settled failed l c (Join (Join ws d) name).

Lemma load_directory_ok d failed l c :
  load_ok l c →
  ∃ failed' l' c', load_directory ws d failed c = (Ok failed', c') ∧ load_ok l' c' ∧
    Controller.messages c' = Controller.messages c ∧
    progress failed failed' l l' c c' ∧ directory_settled failed' l' c' d.
Proof.
  intros Hl. unfold Controller.load_directory, directory_settled.
  destruct (HReadDir (Join ws d)) as [[names ->]|[e ->]].
  2:{ exists failed, l, c. split_and!; [done..|apply progress_refl|by intros]. }
  destruct (scip_files_ok (Join ws d) names l c Hl) as (files&c1&Hrun1&Hl1&Hi1&Hm1&Hb&Hf).
  rewrite (sbind_ok _ _ _ _ _ Hrun1).
  assert (Hcpu : (Registry.LoadConcurrency numCPU =? 0) = false).
  { unfold Registry.LoadConcurrency. apply Z.eqb_neq. pose proof (Z.quot_le_lower_bound numCPU 2 1). lia. }
  rewrite Hcpu. cbn [andb].
  destruct (load_files_ok (schedule files) failed l c1 Hl1) as (failed'&l'&c2&Hrun2&Hl2&Hm2&Hp&Hs).
  { by rewrite Hschedule. }
  rewrite (sbind_ok _ _ _ _ _ Hrun2).
  set (c3 := match watcher with
             | Some _ => Controller.set_watching (Controller.watched c2 ++ [Join ws d]) (Controller.watching c2) c2
             | None => c2
             end).
  assert (Hc3 : load_ok l' c3 ∧ Controller.messages c3 = Controller.messages c2 ∧
    Controller.loadedIndices c3 = Controller.loadedIndices c2).
  { destruct Hl2. unfold c3. by destruct watcher. }
  destruct Hc3 as (Hl3&Hm3&Hi3). exists failed', l', c3. split_and!; [by unfold c3; destruct watcher|done|congruence| |].
  - destruct Hp as (Hp1&Hp2&Hp3). split_and!; [done| |done]. intros f Hset. unfold settled in *.
    rewrite Hi3. apply Hp2. by rewrite Hi1.
  - intros names' name [= <-] Hin Hsuf. unfold settled. rewrite Hi3.
    rewrite Forall_forall in Hs. apply Hs. rewrite (Hschedule files), Hf. apply list_elem_of_fmap.
    exists name. split; [done|]. apply list_elem_of_In, filter_In. by rewrite <- list_elem_of_In.
Qed.

Lemma load_directories_ok dirs failed l c :
  load_ok l c →
  ∃ failed' l' c', Controller.load_directories publish_error ReadDir ReadFile watcher numCPU schedule
      sessions ws dirs failed c = (Ok failed', c') ∧ load_ok l' c' ∧
    Controller.messages c' = Controller.messages c ∧
    progress failed failed' l l' c c' ∧ Forall (directory_settled failed' l' c') dirs.
Proof.
  revert failed l c. induction dirs as [|d dirs IH]; intros failed l c Hl.
  { exists failed, l, c. split_and!; [done..|apply progress_refl|by apply Forall_nil]. }
  cbn [Controller.load_directories].
  destruct (load_directory_ok d failed l c Hl) as (failed1&l1&c1&Hrun1&Hl1&Hm1&Hp1&Hd).
  rewrite (sbind_ok _ _ _ _ _ Hrun1).
  destruct (IH failed1 l1 c1 Hl1) as (failed'&l'&c'&Hrun&Hl'&Hm&Hp&Hs).
  exists failed', l', c'. split_and!; [done|done|congruence|by eapply progress_trans|].
  constructor; [|done]. intros names name Hn Hin Hsuf. apply Hp. by eapply Hd.
Qed.
End loading.

(** The registry of the workspace is there, or can be made. *)
Definition has_registry c : Prop :=
  match Controller.registries c !! ws with
  | Some reg => rWorkspaceRoot reg = ws
  | None => ∃ reg, Controller.createNewScipRegistry configs newIndex ws (Monorepo s) = Ok reg
  end.

Lemma createNewScipRegistry_root monorepo reg :
  Controller.createNewScipRegistry configs newIndex ws monorepo = Ok reg → rWorkspaceRoot reg = ws.
Proof.
  unfold Controller.createNewScipRegistry. destruct (match Directories _ with [] => _ | _ => _ end); try done.
  cbn [rbind]. destruct (newIndex _) as [idx| | |]; try done. cbn [rbind].
  destruct (Registry.SetDocumentLoadedCallback _ _) as [[[]| | |] idx']; try done. by intros [= <-].
Qed.

(** The index of the registry at the start of a load. *)
Definition first_index c : gores S :=
  match Controller.registries c !! ws with
  | Some reg => Ok (rIndex reg)
  | None => reg <-? Controller.createNewScipRegistry configs newIndex ws (Monorepo s);; Ok (rIndex reg)
  end.

Lemma ensure_registry_ok c :
  has_registry c → docs_ok DiffMain s (Controller.documents c) → balanced u0 (Controller.indexNotifier c) →
  ∃ idx c', first_index c = Ok idx ∧ Controller.ensure_registry configs newIndex s c = (Ok tt, c') ∧
    load_ok c idx [] c' ∧ Controller.messages c' = Controller.messages c.
Proof.
  unfold has_registry, first_index. intros Hr Hd Hn. unfold Controller.ensure_registry. rewrite sbind_get.
  destruct (Controller.registries c !! ws) as [reg|] eqn:Hreg.
  { exists (rIndex reg), c. split_and!; [done|done| |done].
    split; [done|exists reg; split_and!; [done..|constructor]|done|by left]. }
  destruct Hr as [reg Hnew]. rewrite Hnew. eexists _, _. split_and!; [reflexivity|reflexivity| |done].
  split; [done| |done|by left]. exists reg. cbn. rewrite lookup_insert_eq. split_and!; [done| |constructor].
  by eapply createNewScipRegistry_root.
Qed.


(** The hash of a file that was not loaded is the empty string: an index file
    with an empty hash file is taken as loaded. *)
Theorem loadScipFile_empty_hash f c :
  Controller.loadedIndices c !! f = None → ReadFile (f +:+ ".sha256") = Ok [] →
  Controller.loadScipFile publish_error ReadFile sessions ws f (Controller.loaded_sha f c) c = (Ok "", c).
Proof.
  intros Hn Hf. unfold Controller.loadScipFile, Controller.loaded_sha, Controller.getSha. by rewrite Hn, Hf.
Qed.
End loads.

(** ** An edited document *)

(** The texts [abc] and [zzabc], with the diffs between them. *)
Definition abc : bytes := [97; 98; 99].
Definition zzabc : bytes := [122; 122; 97; 98; 99].
Definition sample_diff (a b : bytes) : list Diff :=
  if bool_decide (a = abc ∧ b = zzabc) then [mkDiff DiffInsert [122; 122]; mkDiff DiffEqual abc]
  else if bool_decide (a = zzabc ∧ b = abc) then [mkDiff DiffDelete [122; 122]; mkDiff DiffEqual abc]
  else replace_all a b.
Lemma sample_diff_law : DiffMain_law sample_diff.
Proof.
  intros a b. unfold sample_diff. case_bool_decide as H1; [by destruct H1 as [-> ->]|].
  case_bool_decide as H2; [by destruct H2 as [-> ->]|]. apply replace_all_law.
Qed.

Definition editor_session : Session := mkSession 1 None None "/w" "" [] true.
Definition editor_sessions : repository := run_ops [OpSet editor_session].
Definition editor_ctx : Context := mkContext (Some 1%N).
Definition editor_events : list (repository * Event) :=
  [(editor_sessions, EvInitialize editor_ctx);
   (editor_sessions, EvDidOpen editor_ctx (mkTextDocumentItem "file:///w/x" "java" 1 abc));
   (editor_sessions, EvDidChange editor_ctx "file:///w/x" 2
      [mkChange (mkRange (mkPosition 0 0) (mkPosition 0 0)) [122; 122]])].
Definition editor_docs : DocState :=
  (run_trace sample_diff id (λ _, Ok []) (λ _, None) (λ _, "token") 100 editor_events init_state).2.
Definition editor_entry : AEntry :=
  mkAEntry (mkTextDocumentItem "file:///w/x" "java" 2 zzabc) [] true None (Some abc).

Lemma editor_docs_entries : adocs (abs editor_docs) = {[1%N := {["file:///w/x" := editor_entry]}]}.
Proof. vm_compute. reflexivity. Qed.

Lemma editor_docs_ok : docs_ok sample_diff editor_session editor_docs.
Proof.
  split.
  - pose proof (run_trace_simulates sample_diff id (λ _, Ok []) (λ _, None) (λ _, "token") 100
      editor_events init_state (wf_init sample_diff)) as Hsim.
    unfold editor_docs. destruct (run_trace _ _ _ _ _ _ _ _). apply Hsim.
  - rewrite editor_docs_entries. by eexists.
  - intros doc e. unfold aget. rewrite editor_docs_entries.
    rewrite (lookup_singleton_eq (M := gmap uuid)). cbn [mbind option_bind].
    rewrite lookup_singleton_Some. intros [_ <-]. by split.
Qed.

Abbreviation loaded_index := PartialIndex.PartialLoadedIndex (only parsing).
Definition editor_state : Controller.controller loaded_index open_handlers :=
  Controller.set_registries {["/w" := mkRegistry "/w" "/w/.scip" sample_registry]}
    (Controller.New ∅ editor_docs Diagnostics.New).

Lemma editor_repo_ok : repo_ok editor_sessions.
Proof. apply repo_Set_ok with (r := New) (s := Some editor_session); [|reflexivity]. done. Qed.

(** The position is that of [b]; the symbol has moved by two characters. *)
Definition moved : Range := mkRange (mkPosition 0 2) (mkPosition 0 5).
Example editor_definition :
  (Controller.gotoDefinition sample_diff (λ _ _, None) editor_sessions editor_ctx "file:///w/x"
    (mkPosition 0 3) [] editor_state).1 = Ok [mkLocationLink (Some moved) "file:///w/x" moved moved].
Proof. vm_compute. reflexivity. Qed.
Example editor_new_text :
  (Controller.gotoDefinition sample_diff (λ _ _, None) editor_sessions editor_ctx "file:///w/x"
    (mkPosition 0 1) [] editor_state).1 = Ok [].
Proof. vm_compute. reflexivity. Qed.

Lemma gotoDefinition_latest_witness :
  ∃ c', after_loads sample_diff editor_session [] editor_state c' ∧
    Controller.gotoDefinition sample_diff (λ _ _, None) editor_sessions editor_ctx "file:///w/x"
      (mkPosition 0 3) [] editor_state =
    (Ok [definition_link sample_diff editor_session c' "file:///w/x" sample_def
           (Model.mkSymbolOccurrence "file:///w/x" (Some sample_def)
              (Some PrefixTreeProof.sample_info))], c').
Proof.
  destruct (gotoDefinition_latest (B := simple_bindings) (U := simple_uri) sample_diff (λ _ _, None)
    editor_sessions sample_diff_law editor_repo_ok editor_ctx editor_session eq_refl editor_state
    (mkRegistry "/w" "/w/.scip" sample_registry) "file:///w/x" "x" (mkPosition 0 3) (mkPosition 0 1)
    RegistryProof.sample_doc sample_def
    (Scip.mkSymbol "scip" (Some (Scip.mkPackage "m" "p" "1")) [Scip.mkDescriptor "a" 1 ""])
    (Scip.mkPackage "m" "p" "1") [] editor_docs_ok eq_refl eq_refl sample_ready eq_refl eq_refl
    ltac:(vm_compute; reflexivity) eq_refl eq_refl eq_refl ltac:(discriminate)) as (c'&A&Hrun).
  exists c'. split; [|exact Hrun]. revert A.
  match goal with |- after_loads _ _ ?l _ _ → _ => replace l with (@nil URI) by (vm_compute; reflexivity) end. exact id.
Defined.

Lemma references_latest_witness :
  ∃ c' locs, after_loads sample_diff editor_session [] editor_state c' ∧
    Controller.references sample_diff (λ _ _, None) editor_sessions editor_ctx "file:///w/x"
      (mkPosition 0 3) [] editor_state = (Ok locs, c').
Proof.
  destruct (references_latest (B := simple_bindings) (U := simple_uri) sample_diff (λ _ _, None)
    editor_sessions sample_diff_law editor_repo_ok editor_ctx editor_session eq_refl editor_state
    (mkRegistry "/w" "/w/.scip" sample_registry) "file:///w/x" "x" (mkPosition 0 3) (mkPosition 0 1)
    RegistryProof.sample_doc sample_def [] editor_docs_ok eq_refl eq_refl sample_ready eq_refl eq_refl
    ltac:(vm_compute; reflexivity) eq_refl) as (c'&locs&A&Hrun&_).
  exists c', locs. split; [|exact Hrun]. revert A.
  match goal with |- after_loads _ _ ?l _ _ → _ => replace l with (@nil URI) by (vm_compute; reflexivity) end. exact id.
Defined.

(** ** Loads of a directory *)

(** An index that keeps the names of the files it has loaded; [b.scip] is
    broken. *)
Definition file_list : Type := list string.
#[export] Instance file_list_ops : Index.PartialIndex file_list := {|
  Index.SetDocumentLoadedCallback _ := sret tt;
  Index.LoadIndex _ _ := sret tt;
  Index.LoadIndexFile f := λ l, if HasSuffix f "b.scip" then (Err EEOF, l) else (Ok tt, l ++ [f]);
  Index.LoadDocument _ := sret None;
  Index.write_document _ _ := sret tt;
  Index.GetSymbolInformation _ := sret None;
  Index.GetSymbolInformationFromDescriptors _ _ := sret None;
  Index.References _ := sret None;
  Index.Implementations _ := sret []
|}.
#[export] Instance file_list_log : CallbackLog file_list := {| callback_calls _ := [] |}.

Definition sample_configs : gmap MonorepoName ScipConfig :=
  {["_default" := mkScipConfig false true [".scip"]]}.
Definition sample_dir (d : string) : gores (list string) :=
  if bool_decide (d = "/w/.scip") then Ok ["a.scip"; "b.scip"; "notes"] else Err EEOF.
Definition no_file (f : string) : gores bytes := Err EEOF.
Definition empty_state : Controller.controller file_list open_handlers :=
  Controller.New ∅ editor_docs Diagnostics.New.
Definition load_sample :=
  Controller.loadFromDirectories (λ _ _, None) sample_configs (λ _, Ok ([] : file_list)) sample_dir
    no_file None true 4 reverse editor_sessions editor_ctx [".scip"; "none"] empty_state.

Example load_sample_result :
  load_sample.1 = Ok ["/w/.scip/b.scip"] ∧
  Controller.loadedIndices load_sample.2 = {["/w/.scip/a.scip" := "nohash"]} ∧
  rIndex <$> Controller.registries load_sample.2 !! "/w" = Some ["/w/.scip/a.scip"] ∧
  activeNotifications (Controller.indexNotifier load_sample.2) = ∅.
Proof. vm_compute. done. Qed.

Lemma empty_balanced : balanced (users (∅ : open_handlers)) (NewIndexNotifier (∅ : open_handlers)).
Proof.
  split; [done| |by intros ws' n]. intros h. unfold uses. cbn. rewrite map_filter_empty, map_size_empty. lia.
Qed.

