(* ===== verification/ScipWatch.v ===== *)
(** * Changes of index files

    The debouncing of file events by the SCIP controller over every sequence of
    events, and behaviours of its loads that the configuration or the machine
    can bring about: a registry that cannot be made, a load that never returns,
    an index that is not loaded again or is loaded into another workspace. *)

From stdpp Require Import base gmap list strings fin_maps.
From Stdlib Require Import ZArith Lia.
From S2P Require Import Prelude Utf8 Protocol TextOffset TextEdits PositionMapper Session Plugins.
From S2P Require Import DocSync DocSyncSpec DocSyncProof Scip Occurrences Paths Scanner.
From S2P Require Import Registry RegistryProof Diagnostics IndexNotifier ScipController ScipControllerProof.

Local Open Scope Z_scope.

Section watch.
Context {R S M : Type} `{Repository R} `{Index.PartialIndex S} `{CallbackLog S} `{NotificationLaws M}.
Context `{UriLib}.
Context (publish_error : uuid → URI → option error) (ReadFile : string → gores bytes).
Context (ideGateway : bool) (map_order : list string → list string) (sessions : R).
Context (u0 : N → Z) (Hu0 : ∀ h, 0 ≤ u0 h).
Implicit Types c : Controller.controller S M.

(** ** Operations that leave the timers alone *)

Definition timers_of c := (Controller.debounceTimers c, Controller.timers c, Controller.nextTimer c).

Definition keeps_timers {A} (m : GoM (Controller.controller S M) A) : Prop :=
  ∀ c, balanced u0 (Controller.indexNotifier c) →
    timers_of (m c).2 = timers_of c ∧ balanced u0 (Controller.indexNotifier (m c).2).

Lemma keeps_timers_bind {A B} (m : GoM (Controller.controller S M) A) (k : A → GoM _ B) :
  keeps_timers m → (∀ a, keeps_timers (k a)) → keeps_timers (sbind m k).
Proof.
  intros Hm Hk c Hb. specialize (Hm c Hb). unfold sbind.
  destruct (m c) as [[a| | |] c']; cbn in *; [|done..].
  destruct Hm as [Hm1 Hm2]. destruct (Hk a c' Hm2) as [Hk1 Hk2]. by rewrite Hk1.
Qed.
Lemma keeps_timers_try {A} (m : GoM (Controller.controller S M) A) : keeps_timers m → keeps_timers (try_ m).
Proof. intros Hm c Hb. specialize (Hm c Hb). unfold try_. by destruct (m c) as [[] c']. Qed.
Lemma keeps_timers_lift {A} (r : gores A) : keeps_timers (lift_res r).
Proof. done. Qed.
Lemma keeps_timers_forM {A} (l : list A) body :
  (∀ x, keeps_timers (body x)) → keeps_timers (forM_ l body).
Proof. intros Hb. induction l; [done|]. by apply keeps_timers_bind. Qed.

Lemma keeps_timers_documents {A} (m : GoM DocState A) : keeps_timers (Controller.on_documents m).
Proof. intros c Hb. unfold Controller.on_documents. by destruct (m _). Qed.
Lemma keeps_timers_diagnostics {A} (m : GoM Diagnostics.controller A) :
  keeps_timers (Controller.on_diagnostics m).
Proof. intros c Hb. unfold Controller.on_diagnostics. by destruct (m _). Qed.
Lemma on_notifier_step ev c :
  balanced u0 (Controller.indexNotifier c) →
  ∃ c', Controller.on_notifier (notifier_step ev) c = (Ok tt, c') ∧ timers_of c' = timers_of c ∧
    balanced u0 (Controller.indexNotifier c').
Proof.
  intros Hb. destruct (notifier_step_ok u0 Hu0 _ ev Hb) as (r&n'&Hrun&B&Hr&_).
  unfold Controller.on_notifier, try_. rewrite Hrun.
  destruct Hr as [->|[e ->]]; eexists; (split_and!; [reflexivity|done..]).
Qed.
Lemma keeps_timers_notifier ev : keeps_timers (Controller.on_notifier (notifier_step ev)).
Proof. intros c Hb. by destruct (on_notifier_step ev c Hb) as (c'&->&?). Qed.

Hint Resolve keeps_timers_bind keeps_timers_try keeps_timers_lift keeps_timers_forM
  keeps_timers_documents keeps_timers_diagnostics : go.

Lemma keeps_timers_loaded root call :
  keeps_timers (Controller.document_loaded publish_error sessions root call).
Proof.
  destruct call as [callback doc]. unfold Controller.document_loaded. destruct (_ =? _)%N; [|done].
  apply keeps_timers_bind; [auto with go|]. intros _. apply keeps_timers_bind; [auto with go|done].
Qed.

Lemma keeps_timers_registry {A} ws (m : string → GoM S A) :
  keeps_timers (Controller.on_registry publish_error sessions ws m).
Proof.
  intros c Hb. unfold Controller.on_registry. destruct (Controller.registries c !! ws) as [reg|]; [|done].
  destruct (m _ _) as [r idx]. set (c1 := Controller.set_registries _ c). set (calls := drop _ _).
  pose proof (keeps_timers_forM calls (Controller.document_loaded publish_error sessions (rWorkspaceRoot reg))
    (keeps_timers_loaded _) c1 Hb) as Hk.
  by destruct (forM_ calls _ c1) as [[] c'].
Qed.

Lemma keeps_timers_load ws f sha :
  keeps_timers (Controller.load_and_notify publish_error ReadFile sessions ws f sha).
Proof.
  apply keeps_timers_bind; [apply (keeps_timers_notifier (EvNotifyStart ws f))|].
  intros _. apply keeps_timers_bind.
  - apply keeps_timers_try. unfold Controller.loadScipFile. case_bool_decide; [done|].
    apply keeps_timers_bind; [apply keeps_timers_registry|done].
  - intros r. apply keeps_timers_bind; [by destruct r|]. intros status.
    apply keeps_timers_bind; [apply (keeps_timers_notifier (EvNotifyComplete ws f status))|done].
Qed.

Lemma keeps_timers_reload name :
  keeps_timers (Controller.reloadIndex publish_error ReadFile map_order sessions name).
Proof.
  intros c Hb. unfold Controller.reloadIndex. rewrite sbind_get. destruct (HasSuffix name ".scip"); [|done].
  destruct (Controller.workspace_of map_order name c) as [ws|]; [|done].
  apply (keeps_timers_bind (Controller.load_and_notify publish_error ReadFile sessions ws name _));
    [apply keeps_timers_load|by intros [e|]|done].
Qed.

(** ** Timers *)

(** A file has at most one timer that runs, the one recorded for it. *)
Record timers_ok c : Prop := {
  to_running name t : Controller.timers c !! t = Some name ↔ Controller.debounceTimers c !! name = Some t;
  to_next t : is_Some (Controller.timers c !! t) → (t < Controller.nextTimer c)%N
}.

Lemma timers_ok_same c c' : timers_of c' = timers_of c → timers_ok c → timers_ok c'.
Proof. unfold timers_of. intros [= E1 E2 E3] [T1 T2]. split; rewrite ?E1, ?E2, ?E3; done. Qed.

Inductive WatchEvent :=
  | EvFile (create write : bool) (name : string)   (** an event of the watcher *)
  | EvFire (name : string)                         (** the timer of a file fires *)
  | EvClose.                                       (** the end of the watch *)

(** The state after an event, whatever it returns. *)
Definition watch_step (ev : WatchEvent) c : Controller.controller S M :=
  match ev with
  | EvFile create write name => (Controller.handle_event map_order create write name c).2
  | EvFire name =>
    match Controller.debounceTimers c !! name with
    | Some t => (Controller.fire publish_error ReadFile ideGateway map_order sessions t c).2
    | None => c
    end
  | EvClose => (Controller.close_watcher c).2
  end.

(** The files with a change that was not acted on. *)
Definition changed_step (files : gset string) (ev : WatchEvent) : gset string :=
  match ev with
  | EvFile create write name => if (create || write) && HasSuffix name ".scip" then {[name]} ∪ files else files
  | EvFire name => files ∖ {[name]}
  | EvClose => ∅
  end.

Definition watch_ok c : Prop := timers_ok c ∧ balanced u0 (Controller.indexNotifier c).

(** The timers after an event for an index file. *)
Definition restart (name : string) c : Controller.controller S M :=
  let running := match Controller.debounceTimers c !! name with
                 | Some timer => delete timer (Controller.timers c)
                 | None => Controller.timers c
                 end in
  Controller.set_timers (<[name := Controller.nextTimer c]> (Controller.debounceTimers c))
    (<[Controller.nextTimer c := name]> running) (N.succ (Controller.nextTimer c)) c.

Lemma restart_ok name c : timers_ok c → timers_ok (restart name c).
Proof.
  intros [T1 T2].
  assert (Hnext : ∀ t n, Controller.timers c !! t = Some n → t ≠ Controller.nextTimer c).
  { intros t n Ht ->. specialize (T2 (Controller.nextTimer c) ltac:(by eexists)). lia. }
  set (running := match Controller.debounceTimers c !! name with
                  | Some timer => delete timer (Controller.timers c) | None => Controller.timers c end).
  assert (Hrun : ∀ t n, running !! t = Some n ↔ Controller.timers c !! t = Some n ∧ n ≠ name).
  { intros t n. unfold running. destruct (Controller.debounceTimers c !! name) as [t0|] eqn:H0'.
    - rewrite lookup_delete_Some. split.
      + intros [Hne Ht]. split; [done|]. intros ->. apply T1 in Ht. congruence.
      + intros [Ht Hne]. split; [|done]. intros ->. apply T1 in H0'. congruence.
    - split; [|by intros [? _]]. intros Ht. split; [done|]. intros ->. apply T1 in Ht. congruence. }
  split; cbn; fold running.
  - intros n t. rewrite !lookup_insert_Some, Hrun, <- T1. split.
    + intros [[<- <-]|[Hne [Ht Hn]]]; [by left|by right].
    + intros [[<- <-]|[Hne Ht]]; [by left|right]. split; [|done]. by apply not_eq_sym, (Hnext _ n).
  - intros t [n Hn]. apply lookup_insert_Some in Hn as [[<- _]|[_ Hn]]; [lia|].
    apply Hrun in Hn as [Hn _]. specialize (T2 t ltac:(by eexists)). lia.
Qed.

Lemma handleDebounce_ok name c :
  watch_ok c → HasSuffix name ".scip" = true →
  ∃ c1, Controller.handleDebounce map_order name c = (Ok tt, restart name c1) ∧
    timers_of c1 = timers_of c ∧ watch_ok c1.
Proof.
  intros [Ht Hb] Hs. unfold Controller.handleDebounce. rewrite Hs, sbind_get.
  destruct (Controller.workspace_of map_order name c) as [ws|].
  - destruct (on_notifier_step (EvTrackFile ws name) c Hb) as (c1&Hrun&Htc&Hb1).
    rewrite (sbind_ok _ _ _ _ _ Hrun). exists c1. split_and!; [done..|].
    split; [by apply (timers_ok_same c)|done].
  - exists c. split_and!; [done..|]. by split.
Qed.

Lemma fire_ok name t c :
  watch_ok c → Controller.debounceTimers c !! name = Some t →
  let c' := (Controller.fire publish_error ReadFile ideGateway map_order sessions t c).2 in
  watch_ok c' ∧ Controller.debounceTimers c' = delete name (Controller.debounceTimers c).
Proof.
  intros [[T1 T2] Hb] Hn. pose proof Hn as Hrun. apply T1 in Hrun.
  unfold Controller.fire. rewrite sbind_get, Hrun, sbind_modify.
  set (c1 := Controller.set_timers _ _ _ c).
  assert (Hok1 : timers_ok c1).
  { split; cbn.
    - intros n u. rewrite !lookup_delete_Some, <- T1. split; intros [Hne Hu]; (split; [|done]).
      + intros ->. apply T1 in Hu. congruence.
      + intros ->. congruence.
    - intros u [n Hu]. apply lookup_delete_Some in Hu as [_ Hu]. apply T2. by eexists. }
  match goal with |- context [sbind ?a ?k c1] => set (m := sbind a k) end.
  assert (Hm : keeps_timers m).
  { apply keeps_timers_bind; [apply keeps_timers_try, keeps_timers_reload|].
    intros [e|[]]; [|done]. by destruct ideGateway. }
  destruct (Hm c1 Hb) as [Htc Hb']. split; [split; [by apply (timers_ok_same c1)|done]|].
  by injection Htc as -> _ _.
Qed.

Lemma stop_all (d : gmap string N) (t : gmap N string) :
  (∀ name u, t !! u = Some name → d !! name = Some u) →
  map_fold (λ (_ : string) timer (t : gmap N string), delete timer t) t d = ∅.
Proof.
  intros Hd. apply map_empty. intros u.
  assert (Hfold : ∀ u x,
    map_fold (λ (_ : string) timer (t : gmap N string), delete timer t) t d !! u = Some x →
    t !! u = Some x ∧ ∀ name, d !! name ≠ Some u).
  { clear. apply (map_fold_weak_ind (λ r d, ∀ u x, r !! u = Some x →
      t !! u = Some x ∧ ∀ name, d !! name ≠ Some u)).
    - intros u x Hu. split; [done|]. intros name. by rewrite lookup_empty.
    - intros name v d' r _ IH u x Hu. apply lookup_delete_Some in Hu as [Hne Hu].
      destruct (IH u x Hu) as [Ht Hno]. split; [done|]. intros n.
      rewrite lookup_insert_Some. intros [[_ ?]|[_ Hn]]; [done|by destruct (Hno n)]. }
  destruct (map_fold _ t d !! u) as [x|] eqn:Hu; [|done].
  destruct (Hfold u x Hu) as [Ht Hno]. by destruct (Hno x), (Hd x u Ht).
Qed.

Lemma watch_step_ok ev c :
  watch_ok c →
  watch_ok (watch_step ev c) ∧
  dom (Controller.debounceTimers (watch_step ev c)) = changed_step (dom (Controller.debounceTimers c)) ev.
Proof.
  intros Hok. destruct ev as [create write name|name|]; cbn [watch_step changed_step].
  - unfold Controller.handle_event. destruct (HasSuffix name ".scip") eqn:Hs.
    + destruct (handleDebounce_ok name c Hok Hs) as (c1&Hrun&Htc&[Ht1 Hb1]).
      destruct create, write; cbn; try done; rewrite Hrun; cbn [snd];
        (split; [split; [by apply restart_ok|done]|]; injection Htc as E1 _ _; cbn;
         rewrite E1; by rewrite dom_insert_L).
    + unfold Controller.handleDebounce. rewrite Hs. by destruct create, write.
  - destruct (Controller.debounceTimers c !! name) as [t|] eqn:Hn.
    + destruct (fire_ok name t c Hok Hn) as [Hok' ->]. split; [done|]. by rewrite dom_delete_L.
    + split; [done|]. apply not_elem_of_dom in Hn. set_solver.
  - destruct Hok as [[T1 T2] Hb]. split; [|by cbn; rewrite dom_empty_L]. split; [|done].
    assert (Hstop : Controller.timers (Controller.close_watcher c).2 = ∅).
    { cbn. apply stop_all. intros n u. by rewrite T1. }
    split; rewrite Hstop; cbn.
    + intros n t. by rewrite !lookup_empty.
    + intros t [n Hn]. by rewrite lookup_empty in Hn.
Qed.

(** Over every sequence of file events, firing timers and the end of the
    watch, each index file has one running timer if it was created or written
    since its timer last fired, and none otherwise: a burst of events leads to
    one reload. *)
Theorem debounce_one_timer evs c :
  watch_ok c →
  let c' := foldl (λ c ev, watch_step ev c) c evs in
  (∀ name t, Controller.timers c' !! t = Some name ↔ Controller.debounceTimers c' !! name = Some t) ∧
  dom (Controller.debounceTimers c') = foldl changed_step (dom (Controller.debounceTimers c)) evs.
Proof.
  revert c. induction evs as [|ev evs IH]; intros c Hok.
  - split; [apply Hok|done].
  - destruct (watch_step_ok ev c Hok) as [Hok' Hdom]. cbn [foldl]. rewrite <- Hdom. by apply IH.
Qed.
End watch.

(** ** Loads that do not happen *)

Section no_load.
Context {R S M : Type} `{Repository R} `{Index.PartialIndex S} `{CallbackLog S} `{NotificationLaws M}.
Context `{UriLib}.
Context (publish_error : uuid → URI → option error) (configs : gmap MonorepoName ScipConfig).
Context (newIndex : string → gores S).
Context (ReadDir : string → gores (list string)) (ReadFile : string → gores bytes)
  (MkdirAll : string → gores unit).
Context (watcher : option (string → option error)) (ideGateway : bool) (numCPU : Z).
Context (map_order : list string → list string)
  (schedule : list (string * string) → list (string * string)) (sessions : R).
Context (ctx : Context) (s : Session) (Hctx : repo_GetFromContext sessions ctx = Ok s).
Implicit Types c : Controller.controller S M.

Abbreviation loadFromDirectories := (Controller.loadFromDirectories publish_error configs newIndex
  ReadDir ReadFile watcher ideGateway numCPU schedule sessions).

(** When the monorepo of a session has index directories but the default
    configuration has none, the first load of a workspace panics: the directory
    of the default configuration is looked up before that of the monorepo. *)
Theorem loadFromDirectories_needs_default dirs c :
  Controller.registries c !! WorkspaceRoot s = None →
  Directories (Controller.config configs (Monorepo s)) ≠ [] →
  Directories (Controller.config configs "_default") = [] →
  loadFromDirectories ctx dirs c = (Panic, c).
Proof.
  intros Hreg Hdirs Hdef. unfold Controller.loadFromDirectories, Controller.from_context. rewrite Hctx.
  unfold sbind at 1, lift_res at 1. unfold Controller.ensure_registry. rewrite sbind_assoc, sbind_get, Hreg.
  unfold Controller.createNewScipRegistry. rewrite Hdef. by destruct (Directories _).
Qed.

Lemma scip_files_nonempty (u0 : N → Z) ws fDir names c name :
  (∀ h, 0 ≤ u0 h) → balanced u0 (Controller.indexNotifier c) →
  name ∈ names → HasSuffix name ".scip" = true →
  ∃ files c', Controller.scip_files ws fDir names c = (Ok files, c') ∧ files ≠ [].
Proof.
  intros Hu0. revert c. induction names as [|n names IH]; intros c Hb Hin Hs; [by apply elem_of_nil in Hin|].
  assert (Hok : ∀ c, balanced u0 (Controller.indexNotifier c) →
    ∃ files c', Controller.scip_files ws fDir names c = (Ok files, c')).
  { clear -Hu0. induction names as [|n names IH]; intros c Hb; [by eexists _, _|].
    cbn [Controller.scip_files]. destruct (HasSuffix n ".scip"); [|by apply IH]. rewrite sbind_get.
    destruct (on_notifier_step u0 Hu0 (EvTrackFile ws (Join fDir n)) c Hb) as (c1&Hrun&_&Hb1).
    rewrite (sbind_ok _ _ _ _ _ Hrun). destruct (IH c1 Hb1) as (files&c2&Hrun2).
    rewrite (sbind_ok _ _ _ _ _ Hrun2). by eexists _, _. }
  cbn [Controller.scip_files]. destruct (HasSuffix n ".scip") eqn:Hn.
  - rewrite sbind_get.
    destruct (on_notifier_step u0 Hu0 (EvTrackFile ws (Join fDir n)) c Hb) as (c1&Hrun&_&Hb1).
    rewrite (sbind_ok _ _ _ _ _ Hrun). destruct (Hok c1 Hb1) as (files&c2&Hrun2).
    rewrite (sbind_ok _ _ _ _ _ Hrun2). by eexists _, _.
  - apply IH; [done| |done]. apply elem_of_cons in Hin as [->|]; [congruence|done].
Qed.

(** On a machine with one CPU a load of a directory that has an index file
    never returns: the semaphore has no slot, and its first slot is awaited
    before the goroutine that would free it is started. *)
Theorem loadFromDirectories_blocks (u0 : N → Z) c reg d dirs names name :
  numCPU = 1 → (∀ h, 0 ≤ u0 h) → balanced u0 (Controller.indexNotifier c) →
  Controller.registries c !! WorkspaceRoot s = Some reg →
  ReadDir (Join (WorkspaceRoot s) d) = Ok names → name ∈ names → HasSuffix name ".scip" = true →
  (loadFromDirectories ctx (d :: dirs) c).1 = Fuel.
Proof.
  intros Hcpu Hu0 Hb Hreg Hdir Hin Hs.
  unfold Controller.loadFromDirectories, Controller.from_context. rewrite Hctx.
  unfold sbind at 1, lift_res at 1. unfold Controller.ensure_registry. rewrite sbind_assoc, sbind_get, Hreg, sbind_ret.
  cbn [Controller.load_directories]. unfold Controller.load_directory. rewrite Hdir.
  destruct (scip_files_nonempty u0 (WorkspaceRoot s) (Join (WorkspaceRoot s) d) names c name Hu0 Hb Hin Hs)
    as (files&c1&Hrun&Hne).
  rewrite !sbind_assoc, (sbind_ok _ _ _ _ _ Hrun), Hcpu, bool_decide_false by done. reflexivity.
Qed.

(** With a file watcher, a session whose monorepo has no configuration of
    its own gets no registry, whatever the default configuration is. *)
Theorem initialized_ignores_default add c :
  watcher = Some add → configs !! Monorepo s = None →
  Controller.initialized publish_error configs newIndex ReadDir ReadFile MkdirAll watcher ideGateway
    numCPU schedule sessions ctx c
  = (Ok tt, Controller.set_watching (Controller.watched c) true c).
Proof.
  intros Hw Hcfg. unfold Controller.initialized, Controller.from_context. rewrite Hctx.
  unfold sbind at 1, lift_res at 1. rewrite sbind_get, sbind_modify, Hw, Hcfg. done.
Qed.

Lemma keeps_registries_bind {A B} (m : GoM (Controller.controller S M) A) (k : A → GoM _ B) c :
  (∀ c, Controller.registries (m c).2 = Controller.registries c) →
  (∀ a c, Controller.registries (k a c).2 = Controller.registries c) →
  Controller.registries (sbind m k c).2 = Controller.registries c.
Proof.
  intros Hm Hk. specialize (Hm c). unfold sbind. destruct (m c) as [[] c']; cbn in *; try done. by rewrite Hk.
Qed.
Lemma keeps_registries_notifier (m : GoM (IndexNotifier M) unit) c :
  Controller.registries (Controller.on_notifier m c).2 = Controller.registries c.
Proof. unfold Controller.on_notifier. by destruct (try_ m _). Qed.

(** A load with the recorded hash does not touch the registries. *)
Lemma load_same_hash ws f c :
  Controller.registries (Controller.load_and_notify publish_error ReadFile sessions ws f
    (Controller.getSha ReadFile f) c).2 = Controller.registries c.
Proof.
  apply keeps_registries_bind; [apply keeps_registries_notifier|]. intros _ c1.
  unfold Controller.loadScipFile. rewrite bool_decide_true by done.
  apply keeps_registries_bind; [done|]. intros r c2. apply keeps_registries_bind; [by destruct r|].
  intros status c3. apply keeps_registries_bind; [apply keeps_registries_notifier|done].
Qed.

(** An index file without a hash file is loaded once: a change of the file
    after a load that succeeded leaves the registries as they are. *)
Theorem reloadIndex_without_hash name c :
  (∀ b, ReadFile (name +:+ ".sha256") ≠ Ok b) →
  Controller.loadedIndices c !! name = Some Controller.noHash →
  Controller.registries (Controller.reloadIndex publish_error ReadFile map_order sessions name c).2
  = Controller.registries c.
Proof.
  intros Hsha Hl. assert (Hget : Controller.getSha ReadFile name = Controller.noHash).
  { unfold Controller.getSha. destruct (ReadFile _) as [b| | |] eqn:Hb; try done. by destruct (Hsha b). }
  unfold Controller.reloadIndex. rewrite sbind_get. destruct (HasSuffix name ".scip"); [|done].
  destruct (Controller.workspace_of map_order name c) as [ws|]; [|done].
  unfold Controller.loaded_sha. rewrite Hl. cbn [default from_option id]. rewrite <- Hget.
  pose proof (load_same_hash ws name c) as Hk. unfold sbind.
  destruct (Controller.load_and_notify _ _ _ _ _ _ c) as [[[e|]| | |] c']; exact Hk.
Qed.
End no_load.

(** A root that is a prefix of another one claims its files in some order. *)
Theorem workspace_of_prefix {S M : Type} (a b : partialScipRegistry S) (c : Controller.controller S M) :
  Controller.registries c = {["/repo" := a; "/repo2" := b]} →
  ∃ map_order : list string → list string, (∀ l, map_order l ≡ₚ l) ∧
    Controller.workspace_of map_order "/repo2/.scip/a.scip" c = Some "/repo".
Proof.
  intros Hc.
  assert (Hl : (map_to_list (Controller.registries c)).*1 ≡ₚ ["/repo"; "/repo2"]).
  { rewrite Hc. rewrite map_to_list_insert by done. by rewrite map_to_list_singleton. }
  exists (λ l, if bool_decide (l ≡ₚ ["/repo"; "/repo2"]) then ["/repo"; "/repo2"] else l). split.
  - intros l. by case_bool_decide.
  - unfold Controller.workspace_of. by rewrite bool_decide_true.
Qed.

(** ** Instances *)

Definition burst : list WatchEvent :=
  [EvFile true false "/w/.scip/a.scip"; EvFile false true "/w/.scip/a.scip";
   EvFile false true "/w/.scip/c.scip"; EvFile false true "/w/.scip/a.scip"; EvFire "/w/.scip/c.scip"].

Lemma debounce_one_timer_witness :
  let c' := foldl (λ c ev, watch_step (λ _ _, None) no_file true id editor_sessions ev c) empty_state burst in
  dom (Controller.debounceTimers c') = {["/w/.scip/a.scip"]}.
Proof.
  destruct (debounce_one_timer (λ _ _, None) no_file true id editor_sessions
    (users (∅ : open_handlers)) ltac:(intros h; by apply users_nonneg) burst empty_state) as [_ Hdom].
  - split; [|apply empty_balanced]. split; [done|]. by intros t [n Hn].
  - cbv zeta. rewrite Hdom. vm_compute. reflexivity.
Defined.

Definition repo_configs : gmap MonorepoName ScipConfig := {["" := mkScipConfig false true [".scip"]]}.

Lemma loadFromDirectories_needs_default_witness :
  Controller.loadFromDirectories (λ _ _, None) repo_configs (λ _, Ok ([] : file_list)) sample_dir
    no_file None true 4 reverse editor_sessions editor_ctx [".scip"] empty_state = (Panic, empty_state).
Proof.
  by apply (loadFromDirectories_needs_default (H := memory_repository) (λ _ _, None) repo_configs (λ _, Ok ([] : file_list))
    sample_dir no_file None true 4 reverse editor_sessions editor_ctx editor_session eq_refl [".scip"]).
Defined.

Lemma loadFromDirectories_blocks_witness :
  (Controller.loadFromDirectories (λ _ _, None) sample_configs (λ _, Ok ([] : file_list)) sample_dir
    no_file None true 1 reverse editor_sessions editor_ctx [".scip"]
    (Controller.set_registries {["/w" := mkRegistry "/w" "/w/.scip" []]} empty_state)).1 = Fuel.
Proof.
  apply (loadFromDirectories_blocks (H := memory_repository) (λ _ _, None) sample_configs (λ _, Ok ([] : file_list))
    sample_dir no_file None true 1 reverse editor_sessions editor_ctx editor_session eq_refl
    (users (∅ : open_handlers)) (Controller.set_registries {["/w" := mkRegistry "/w" "/w/.scip" []]} empty_state)
    (mkRegistry "/w" "/w/.scip" []) ".scip" [] ["a.scip"; "b.scip"; "notes"] "a.scip");
    [done|intros h; by apply users_nonneg|apply empty_balanced|done|done|by left|done].
Defined.

Lemma initialized_ignores_default_witness :
  Controller.initialized (λ _ _, None) sample_configs (λ _, Ok ([] : file_list)) sample_dir
    no_file (λ _, Ok tt) (Some (λ _, None)) true 4 reverse editor_sessions editor_ctx empty_state
  = (Ok tt, Controller.set_watching [] true empty_state).
Proof.
  by apply (initialized_ignores_default (H := memory_repository) (λ _ _, None) sample_configs (λ _, Ok ([] : file_list))
    sample_dir no_file (λ _, Ok tt) (Some (λ _, None)) true 4 reverse editor_sessions editor_ctx
    editor_session eq_refl (λ _, None)).
Defined.

Lemma reloadIndex_without_hash_witness :
  Controller.registries (Controller.reloadIndex (λ _ _, None) no_file id editor_sessions
    "/w/.scip/a.scip" load_sample.2).2 = Controller.registries load_sample.2.
Proof.
  apply (reloadIndex_without_hash (λ _ _, None) no_file id editor_sessions); [done|].
  vm_compute. reflexivity.
Defined.
