(* ===== verification/Startup.v ===== *)
(** * The modelled plugins together

    The [StartupInfo] of the document store ([src/ulsp/controller/doc-sync]),
    and what the daemon makes of it together with those of the diagnostics and
    the SCIP controller: the plugins are valid, and the order in which they
    handle a request is that in which they depend on each other. *)

From stdpp Require Import base gmap list strings fin_maps.
From Stdlib Require Import ZArith Lia.
From S2P Require Import Prelude Session Plugins Diagnostics ScipController.

Local Open Scope Z_scope.

Module DocSyncPlugin.
Definition StartupInfo `{ProtocolMethods} (ctx : Context) : gores PluginInfo :=
  Ok (mkPluginInfo
    {[MethodName Initialize := PriorityHigh; MethodName Shutdown := PriorityAsync;
      MethodName DidOpen := PriorityHigh; MethodName DidChange := PriorityHigh;
      MethodName DidClose := PriorityAsync; MethodName DidSave := PriorityHigh;
      MethodName WillSaveWaitUntil := PriorityRegular; MethodEndSession := PriorityRegular]}
    (Some (mkMethods "doc-sync"
      [Initialize; Shutdown; DidOpen; DidChange; DidClose; DidSave; WillSaveWaitUntil; EndSession]))
    "doc-sync" None).
End DocSyncPlugin.

Section startup.
Context `{ProtocolMethods}.

(** A plugin whose priorities are given by the fields it implements is valid. *)
Lemma valid_plugin m name fields (ps : list (MethodField * Z)) :
  Priorities m = list_to_map (prod_map MethodName id <$> ps) → ps ≠ [] → NameKey m = name → name ≠ "" →
  PluginMethods m = Some (mkMethods name fields) → Forall (λ x, x.1 ∈ fields) ps → valid m.
Proof.
  intros Hp Hps Hn Hne Hm Hf. split_and!; [|congruence|].
  - rewrite Hp. destruct ps as [|[f p] ps]; [done|]. apply insert_non_empty.
  - eexists. split_and!; [exact Hm|done|]. intros key p Hk. rewrite Hp in Hk.
    apply elem_of_list_to_map_2, list_elem_of_fmap in Hk as ([f q]&[= -> ->]&Hin).
    exists f. split; [done|]. rewrite Forall_forall in Hf. by apply (Hf (f, q)).
Qed.

Definition diagnostics_priorities : list (MethodField * Z) :=
  [(Initialize, PriorityHigh); (Shutdown, PriorityAsync); (EndSession, PriorityRegular)].
Definition docsync_priorities : list (MethodField * Z) :=
  [(Initialize, PriorityHigh); (Shutdown, PriorityAsync); (DidOpen, PriorityHigh);
   (DidChange, PriorityHigh); (DidClose, PriorityAsync); (DidSave, PriorityHigh);
   (WillSaveWaitUntil, PriorityRegular); (EndSession, PriorityRegular)].
Definition scip_priorities : list (MethodField * Z) :=
  [(Initialize, PriorityRegular); (Initialized, PriorityAsync); (DidOpen, PriorityRegular);
   (DidChange, PriorityRegular); (GotoDefinition, PriorityHigh); (GotoDeclaration, PriorityHigh);
   (GotoTypeDefinition, PriorityHigh); (GotoImplementation, PriorityHigh);
   (References, PriorityHigh); (Plugins.Hover, PriorityHigh); (DocumentSymbol, PriorityHigh)].

(** The priority of a method in a list of fields. *)
Definition field_priority (ps : list (MethodField * Z)) (f : MethodField) : option Z :=
  snd <$> List.find (λ x, bool_decide (x.1 = f)) ps.

Lemma priorities_lookup ps f :
  (list_to_map (prod_map MethodName id <$> ps) : gmap string Z) !! MethodName f = field_priority ps f.
Proof.
  unfold field_priority. induction ps as [|[g p] ps IH]; cbn; [apply lookup_empty|].
  case_bool_decide as Hf; [subst; by rewrite lookup_insert_eq|].
  rewrite lookup_insert_ne; [exact IH|]. by intros ?%MethodName_inj.
Qed.

Definition plugin_infos (ctx : Context) : gores (list PluginInfo) :=
  a <-? Diagnostics.StartupInfo ctx;;
  b <-? DocSyncPlugin.StartupInfo ctx;;
  c <-? Controller.StartupInfo ctx;;
  Ok [a; b; c].

(** The plugins that handle a method: at once, and later. *)
Definition handled_by (f : MethodField) : option (list string * list string) :=
  match f with
  | Initialize => Some (["diagnostics"; "doc-sync"; "scip"], [])
  | Initialized => Some ([], ["scip"])
  | Shutdown => Some ([], ["diagnostics"; "doc-sync"])
  | EndSession => Some (["diagnostics"; "doc-sync"], [])
  | DidOpen | DidChange => Some (["doc-sync"; "scip"], [])
  | DidClose => Some ([], ["doc-sync"])
  | DidSave | WillSaveWaitUntil => Some (["doc-sync"], [])
  | GotoDefinition | GotoDeclaration | GotoTypeDefinition | GotoImplementation
  | References | Plugins.Hover | DocumentSymbol => Some (["scip"], [])
  | _ => None
  end.

Definition names (l : MethodLists) : list string * list string :=
  (PluginNameKey <$> Sync l, PluginNameKey <$> Async l).

(** The plugin [name] when its priority is [p]. *)
Definition pick (name : string) (priority : option Z) (p : Z) : list string :=
  if bool_decide (priority = Some p) then [name] else [].
Definition names_at (f : MethodField) : list string * list string :=
  let at_priority p := pick "diagnostics" (field_priority diagnostics_priorities f) p ++
    pick "doc-sync" (field_priority docsync_priorities f) p ++
    pick "scip" (field_priority scip_priorities f) p in
  (at_priority PriorityHigh ++ at_priority PriorityRegular, at_priority PriorityAsync).

(** The three plugins in terms of the fields they implement. *)
Lemma plugin_infos_ok ctx :
  ∃ a b c, plugin_infos ctx = Ok [a; b; c] ∧ Forall valid [a; b; c] ∧
    (∃ m, PluginMethods a = Some m ∧ PluginNameKey m = "diagnostics") ∧
    (∃ m, PluginMethods b = Some m ∧ PluginNameKey m = "doc-sync") ∧
    (∃ m, PluginMethods c = Some m ∧ PluginNameKey m = "scip") ∧
    ∀ f, Priorities a !! MethodName f = field_priority diagnostics_priorities f ∧
         Priorities b !! MethodName f = field_priority docsync_priorities f ∧
         Priorities c !! MethodName f = field_priority scip_priorities f.
Proof.
  eexists _, _, _. split; [reflexivity|]. cbn [Priorities]. rewrite <- MethodName_EndSession.
  split_and!; [|by eexists..|].
  - constructor; [|constructor; [|constructor; [|constructor]]].
    + eapply (valid_plugin _ _ _ diagnostics_priorities); [reflexivity|done|reflexivity|done|reflexivity|].
      apply (bool_decide_unpack _). vm_compute. exact I.
    + eapply (valid_plugin _ _ _ docsync_priorities); [reflexivity|done|reflexivity|done|reflexivity|].
      apply (bool_decide_unpack _). vm_compute. exact I.
    + eapply (valid_plugin _ _ _ scip_priorities); [reflexivity|done|reflexivity|done|reflexivity|].
      apply (bool_decide_unpack _). vm_compute. exact I.
  - intros f. by rewrite <- !priorities_lookup.
Qed.

(** The plugins for diagnostics, documents and SCIP indices are valid, and
    each method of the protocol is handled by exactly those of them that
    [handled_by] lists, in this order: a document is in the store before the
    SCIP plugin sees that it was opened or changed. *)
Theorem plugins_order ctx :
  ∃ infos rt, plugin_infos ctx = Ok infos ∧ PluginInfoToRuntimePrioritizedMethods infos = Ok rt ∧
    ∀ f, names <$> rt !! MethodName f = handled_by f.
Proof.
  destruct (plugin_infos_ok ctx) as (a&b&c&Hi&Hv&(ma&Ma&Na)&(mb&Mb&Nb)&(mc&Mc&Nc)&Hp).
  destruct (prioritized_ok _ Hv) as (rt&Hrt&Hl).
  exists [a; b; c], rt. split_and!; [done..|]. intros f. destruct (Hl (MethodName f)) as [Hyes Hno].
  destruct (Hp f) as (Ha&Hb&Hc).
  assert (Hh : handles [a; b; c] (MethodName f) ↔ is_Some (field_priority diagnostics_priorities f) ∨
    is_Some (field_priority docsync_priorities f) ∨ is_Some (field_priority scip_priorities f)).
  { unfold handles. rewrite !Exists_cons, Exists_nil, Ha, Hb, Hc. tauto. }
  assert (Hn : ∀ p, PluginNameKey <$> with_priority [a; b; c] (MethodName f) p =
    pick "diagnostics" (field_priority diagnostics_priorities f) p ++
    pick "doc-sync" (field_priority docsync_priorities f) p ++
    pick "scip" (field_priority scip_priorities f) p).
  { intros p. unfold with_priority, pick. cbn [omap list_omap].
    rewrite Ha, Hb, Hc, Ma, Mb, Mc, <- Na, <- Nb, <- Nc. by repeat case_bool_decide. }
  rewrite Hh in Hyes, Hno. clear -Hyes Hno Hn.
  assert (Hnames : names (lists_of [a; b; c] (MethodName f)) = names_at f).
  { unfold names, names_at, lists_of. cbn [Sync Async]. by rewrite fmap_app, !Hn. }
  destruct f; first [rewrite Hno by (vm_compute; by intros [[? [=]]|[[? [=]]|[? [=]]]]); reflexivity
    |rewrite Hyes by (vm_compute; eauto 6); cbn [fmap option_fmap option_map]; by rewrite Hnames].
Qed.
End startup.
