(* ===== verification/Indexer.v ===== *)
(** * The indexer plugin

    Models [src/ulsp/controller/indexer/indexer.go], [pending_cmd_store.go] and
    [java_indexer.go]: a document that is opened or saved is handed to the index
    script of its target, unless a run of that target is pending, which is then
    repeated.

    The handlers run in goroutines of their own.  The model cuts them at the
    critical sections of the store of pending commands and at the start and the
    end of the script ([pc], [cancel_pc], [step]); the store, the contexts that
    were cancelled and the calls made are the shared state.  The file system, the
    gateway's errors, the tokens and the outcome of the script are parameters. *)

From stdpp Require Import base gmap list strings fin_maps.
From Stdlib Require Import ZArith Lia.
From S2P Require Import Prelude Protocol Session Plugins Paths JavaUtils ActionStore QuickActions.

Local Open Scope Z_scope.

Module Indexer.

Definition _nameKey : string := "indexer".
Definition _syncMessage (file : string) : string := "Syncing index for file: " +:+ file.
Definition _javaIndexerRelativePath : string := "tools/scip/scip_sync.sh".
Definition _fpOpt : string := "--filepath".

(** ** The store of pending commands

    A [cancelFunc] is the context that it cancels. *)

Record cmdVal := mkCmdVal { token : string; cancelFunc : N; reindexing : bool }.
Abbreviation pendingCmdStore := (gmap string cmdVal).

Definition setPendingCmd (key : string) (cancel : N) (tok : string) (p : pendingCmdStore) : pendingCmdStore :=
  <[key := mkCmdVal tok cancel false]> p.
Definition getPendingCmd (key : string) (p : pendingCmdStore) : option cmdVal := p !! key.
Definition deletePendingCmd (key : string) (p : pendingCmdStore) : bool * pendingCmdStore :=
  match p !! key with
  | None => (false, p)
  | Some _ => (true, delete key p)
  end.
(** The contexts that are cancelled, and the store that is left. *)
Definition cleanSession (id : string) (p : pendingCmdStore) : list N * pendingCmdStore :=
  let mine := filter (λ x, String.prefix id x.1 = true) p in
  (cancelFunc <$> (map_to_list mine).*2, filter (λ x, String.prefix id x.1 = false) p).
Definition getContainingKey (tok : string) (p : pendingCmdStore) : gores string :=
  match List.find (λ x, bool_decide (token x.2 = tok)) (map_to_list p) with
  | Some (key, _) => Ok key
  | None => Err (EText "no key found for token")
  end.
Definition markForReindexing (key : string) (p : pendingCmdStore) : bool * pendingCmdStore :=
  match p !! key with
  | None => (false, p)
  | Some v => (true, <[key := mkCmdVal (token v) (cancelFunc v) true]> p)
  end.
Definition needsReindexing (key : string) (p : pendingCmdStore) : bool :=
  match p !! key with None => false | Some v => reindexing v end.

(** ** The environment of the script *)

(** The loop over the entries, which changes the slice in place. *)
Definition update_entry (wsRoot v : string) : string :=
  if String.prefix "PROJECT_ROOT=" v then "PROJECT_ROOT=" +:+ wsRoot
  else if String.prefix "WORKSPACE_ROOT=" v then "WORKSPACE_ROOT=" +:+ wsRoot
  else v.
Definition UpdateEnv (env : list string) (wsRoot : string) : list string :=
  let workspaceUpdated := existsb (String.prefix "WORKSPACE_ROOT=") env in
  let projectUpdated := existsb (String.prefix "PROJECT_ROOT=") env in
  let env := update_entry wsRoot <$> env in
  let env := if workspaceUpdated then env else env ++ ["WORKSPACE_ROOT=" +:+ wsRoot] in
  if projectUpdated then env else env ++ ["PROJECT_ROOT=" +:+ wsRoot].

(** ** The state *)

Inductive pc :=
  | PCheck                                   (** at [getPendingCmd] *)
  | PMark                                    (** at [markForReindexing] *)
  | PSet                                     (** at [setPendingCmd] *)
  | PRun (tok : string) (cancel : N)         (** in [SyncIndex] *)
  | PNeeds (cancel : N)                      (** at [needsReindexing] *)
  | PDelete (again : bool) (cancel : N)      (** at [deletePendingCmd] *)
  | PReturned.
(** [workDoneProgressCancel]: at [getContainingKey], [getPendingCmd], [deletePendingCmd] *)
Inductive cancel_pc := CKey (tok : string) | CGet (key : string) | CDelete (key : string) | CReturned.

Inductive goroutine :=
  | Sync (indexer : Session) (key : string) (doc : TextDocumentItem) (ctx : Context) (at_ : pc)
  | Cancel (at_ : cancel_pc).

Inductive Effect :=
  | WorkDoneProgressCreate (ctx : Context) (tok : string)
  | ProgressBegin (ctx : Context) (tok title : string)
  | ProgressEnd (ctx : Context) (tok : string)
  | RunCommand (key : string) (cmd : QuickActions.Cmd)
  | WriteOutput (text : string).

(** [indexer] has the session for which a java indexer was made. *)
Record controller := mkController {
  indexer : gmap uuid Session;
  hasOutputWriter : bool;
  pendingCmds : pendingCmdStore;
  goroutines : list goroutine;
  contexts : N;                (** contexts made so far *)
  cancelled : gset N;
  effects : list Effect
}.

Definition New : controller := mkController ∅ false ∅ [] 0 ∅ [].

Definition set_indexer i w c := mkController i w (pendingCmds c) (goroutines c) (contexts c) (cancelled c) (effects c).
Definition set_pending p c := mkController (indexer c) (hasOutputWriter c) p (goroutines c) (contexts c) (cancelled c) (effects c).
Definition set_goroutines g c := mkController (indexer c) (hasOutputWriter c) (pendingCmds c) g (contexts c) (cancelled c) (effects c).
Definition set_contexts n s c := mkController (indexer c) (hasOutputWriter c) (pendingCmds c) (goroutines c) n s (effects c).
Definition add_effects e c := mkController (indexer c) (hasOutputWriter c) (pendingCmds c) (goroutines c) (contexts c) (cancelled c) (effects c ++ e).

Section indexer.
Context {R : Type} `{Repository R} (sessions : R).
Context (config : gmap MonorepoName QuickActions.MonorepoConfigEntry).
(** [uuid.String()], the n-th token, [filepath.Base(uri.Filename())] *)
Context (uuid_String : uuid → string) (new_token : N → string) (base_name : URI → string).
Context (Filename : URI → string) (DirExists : string → gores bool) (ReadDir : string → gores (list string)).
(** the bound of the search for a BUILD file, the errors of the gateway, of the
    script and of the log file, and the document store *)
Context (fuel : nat) (gateway : Context → option error) (run : QuickActions.Cmd → option error)
  (setupOutputWriter : gores unit) (GetTextDocument : Context → URI → gores TextDocumentItem).

Abbreviation M := (GoM controller).

(** ** [StartupInfo] *)

(** [configs.RelevantJavaRepos()] *)
Definition RelevantJavaRepos : gset MonorepoName :=
  dom (filter (λ x, QuickActions.EnableJavaSupport x.2 = true) config).

Definition StartupInfo `{ProtocolMethods} (ctx : Context) : gores PluginInfo :=
  Ok (mkPluginInfo
    (list_to_map [(MethodName Plugins.Initialize, PriorityRegular); (MethodName Plugins.Initialized, PriorityAsync);
      (MethodName Plugins.DidOpen, PriorityAsync); (MethodName Plugins.DidSave, PriorityAsync);
      (MethodName Plugins.DidClose, PriorityAsync); (MethodName Plugins.EndSession, PriorityRegular);
      (MethodName Plugins.WorkDoneProgressCancel, PriorityRegular)])
    (Some (mkMethods _nameKey [Plugins.Initialize; Plugins.Initialized; Plugins.DidSave; Plugins.DidOpen;
      Plugins.DidClose; Plugins.EndSession; Plugins.WorkDoneProgressCancel]))
    _nameKey (Some RelevantJavaRepos)).

(** ** The java indexer of a session *)

Definition indexer_path (s : Session) : string := Join (WorkspaceRoot s) _javaIndexerRelativePath.
Definition sync_command (s : Session) (doc : TextDocumentItem) : QuickActions.Cmd :=
  QuickActions.mkCmd (indexer_path s) [_fpOpt; Filename (DocURI doc)] (WorkspaceRoot s)
    (UpdateEnv (Env s) (WorkspaceRoot s)).
Definition IsRelevantDocument (document : TextDocumentItem) : bool :=
  bool_decide (LanguageID document = "java") || bool_decide (LanguageID document = "scala").
Definition GetUniqueIndexKey (s : Session) (document : TextDocumentItem) : gores string :=
  target <-? JavaUtils.GetJavaTarget Filename DirExists ReadDir fuel (WorkspaceRoot s) (DocURI document);;
  Ok (uuid_String (UUID s) +:+ "_" +:+ target).

(** ** Progress *)

Definition sendIndexStartNotification (ctx : Context) (tok filename : string) : list Effect :=
  WorkDoneProgressCreate ctx tok ::
  match gateway ctx with
  | Some _ => []
  | None => [ProgressBegin ctx tok (_syncMessage filename)]
  end.
Definition sendIndexEndNotification (ctx : Context) (tok : string) : list Effect := [ProgressEnd ctx tok].

(** ** Handlers *)

Definition spawn (g : goroutine) (c : controller) : controller := set_goroutines (goroutines c ++ [g]) c.
Definition goto (i : nat) (g : goroutine) (c : controller) : controller :=
  set_goroutines (<[i := g]> (goroutines c)) c.

Definition initialize (ctx : Context) : M unit :=
  s <- wrapM "initializing" (lift_res (repo_GetFromContext sessions ctx));;
  if default false (QuickActions.EnableJavaSupport <$> config !! Monorepo s) then
    c <- get_st;;
    _ <- (if hasOutputWriter c then sret tt else wrapM "setting up log file" (lift_res setupOutputWriter));;
    modify_st (λ c, set_indexer (<[UUID s := s]> (indexer c)) true c)
  else sret tt.

(** [syncIndex] up to its first look at the store. *)
Definition syncIndex (ctx : Context) (doc : TextDocumentItem) : M unit :=
  s <- wrapM "initializing" (lift_res (repo_GetFromContext sessions ctx));;
  c <- get_st;;
  match indexer c !! UUID s with
  | None => sret tt
  | Some idx =>
    if IsRelevantDocument doc then
      cmdKey <- try_ (lift_res (GetUniqueIndexKey idx doc));;
      match cmdKey with
      | inl _ => sret tt
      | inr cmdKey => modify_st (spawn (Sync idx cmdKey doc ctx PCheck))
      end
    else sret tt
  end.

Definition didOpen (ctx : Context) (doc : TextDocumentItem) : M unit := syncIndex ctx doc.
Definition didSave (ctx : Context) (uri : URI) : M unit :=
  doc <- lift_res (GetTextDocument ctx uri);;
  syncIndex ctx doc.

Definition endSession (id : uuid) : M unit := modify_st (λ c,
  let '(cs, p) := cleanSession (uuid_String id) (pendingCmds c) in
  set_contexts (contexts c) (list_to_set cs ∪ cancelled c) (set_pending p c)).

Definition workDoneProgressCancel (tok : string) : M unit := modify_st (spawn (Cancel (CKey tok))).

(** [startIndexingOperation] of the goroutine [i] in a new context of [ctx] *)
Definition startIndexingOperation (i : nat) (idx : Session) (key : string) (doc : TextDocumentItem)
    (ctx : Context) (c : controller) : controller :=
  let tok := new_token (contexts c) in
  let cancel := contexts c in
  goto i (Sync idx key doc ctx (PRun tok cancel))
    (add_effects (sendIndexStartNotification ctx tok (base_name (DocURI doc)) ++
                  [RunCommand key (sync_command idx doc)])
      (set_contexts (contexts c + 1)%N (cancelled c)
        (set_pending (setPendingCmd key cancel tok (pendingCmds c)) c))).

(** A step of the goroutine [i], from one critical section to the next.  An
    operation ends with its deferred calls: the progress is ended, then the run
    is repeated in a background context if the store says so. *)
Definition step (i : nat) : M unit := λ c,
  match goroutines c !! i with
  | Some (Sync idx key doc ctx PCheck) =>
    match getPendingCmd key (pendingCmds c) with
    | Some _ => (Ok tt, goto i (Sync idx key doc ctx PMark) c)
    | None => (Ok tt, goto i (Sync idx key doc ctx PSet) c)
    end
  | Some (Sync idx key doc ctx PMark) =>
    (Ok tt, goto i (Sync idx key doc ctx PReturned)
              (set_pending (markForReindexing key (pendingCmds c)).2 c))
  | Some (Sync idx key doc ctx PSet) => (Ok tt, startIndexingOperation i idx key doc ctx c)
  | Some (Sync idx key doc ctx (PRun tok cancel)) =>
    let out := match run (sync_command idx doc) with
               | Some _ => [WriteOutput "Error during run"]
               | None => []
               end in
    (Ok tt, goto i (Sync idx key doc ctx (PNeeds cancel))
              (add_effects (out ++ sendIndexEndNotification ctx tok) c))
  | Some (Sync idx key doc ctx (PNeeds cancel)) =>
    (Ok tt, goto i (Sync idx key doc ctx (PDelete (needsReindexing key (pendingCmds c)) cancel)) c)
  | Some (Sync idx key doc ctx (PDelete again cancel)) =>
    let c := set_pending (deletePendingCmd key (pendingCmds c)).2 c in
    if again then (Ok tt, goto i (Sync idx key doc (mkContext None) PSet) c)
    else (Ok tt, goto i (Sync idx key doc ctx PReturned)
                   (set_contexts (contexts c) ({[cancel]} ∪ cancelled c) c))
  | Some (Cancel (CKey tok)) =>
    match getContainingKey tok (pendingCmds c) with
    | Ok key => (Ok tt, goto i (Cancel (CGet key)) c)
    | _ => (Ok tt, goto i (Cancel CReturned) c)
    end
  | Some (Cancel (CGet key)) =>
    match getPendingCmd key (pendingCmds c) with
    | None => (Panic, c)                     (** [cancelFunc] is nil *)
    | Some v => (Ok tt, goto i (Cancel (CDelete key))
                          (set_contexts (contexts c) ({[cancelFunc v]} ∪ cancelled c) c))
    end
  | Some (Cancel (CDelete key)) =>
    (Ok tt, goto i (Cancel CReturned) (set_pending (deletePendingCmd key (pendingCmds c)).2 c))
  | Some (Sync _ _ _ _ PReturned) | Some (Cancel CReturned) | None => (Ok tt, c)
  end.
End indexer.
End Indexer.
