(* ===== verification/IndexerProof.v ===== *)
(** * The indexer: changes that are indexed, and changes that are lost

    Over the handlers of [Indexer].  If the critical sections of an arrival and
    those at the end of a run are not interleaved with others, and no run is
    cancelled and no session ends, no change of a target is lost
    and no target is indexed twice at a time ([indexer_no_lost_change]).  The
    code does not rule such interleavings out: one in which a change is lost, one
    in which a cancellation panics and one in which a target is indexed twice at a
    time are given ([indexer_races]). *)

From stdpp Require Import base gmap list strings fin_maps pretty.
From Stdlib Require Import ZArith Lia Ascii.
From S2P Require Import Prelude Protocol Session Plugins Paths JavaUtils ActionStore QuickActions Indexer.

Local Open Scope Z_scope.

Module IndexerProof.
Import Indexer.

(** ** The store *)

(** A key is that of a session: the session's id with a target.  The strings of
    ids all have one length, so none is a prefix of another. *)
Section clean.
Context (uuid_String : uuid → string)
  (Hfree : ∀ u v s, String.prefix (uuid_String u) (uuid_String v +:+ s) = true → u = v).

Definition key_of (u : uuid) (target : string) : string := uuid_String u +:+ "_" +:+ target.

(** The end of a session cancels and removes exactly the pending commands of
    the session. *)
Theorem cleanSession_exact u (p : pendingCmdStore) :
  (∀ k v, p !! k = Some v → ∃ w target, k = key_of w target) →
  let '(cs, p') := cleanSession (uuid_String u) p in
  (∀ w target, p' !! key_of w target = if decide (w = u) then None else p !! key_of w target) ∧
  (∀ k, is_Some (p' !! k) → is_Some (p !! k)) ∧
  ∀ n, n ∈ cs ↔ ∃ target v, p !! key_of u target = Some v ∧ cancelFunc v = n.
Proof.
  intros Hkeys. unfold cleanSession.
  assert (Hpre : ∀ w target, String.prefix (uuid_String u) (key_of w target) = bool_decide (w = u)).
  { intros w target. unfold key_of. case_bool_decide as Hd.
    - subst. apply JavaUtils.prefix_app.
    - destruct (String.prefix _ _) eqn:Hp; [|done]. by apply Hfree in Hp. }
  split_and!.
  - intros w target. rewrite map_lookup_filter. destruct (p !! key_of w target) as [v|]; cbn; [|by case_decide].
    rewrite Hpre. repeat case_decide; repeat case_bool_decide; try done.
    all: by destruct (guard _) eqn:Hg; simplify_option_eq.
  - intros k [v Hv]. apply map_lookup_filter_Some in Hv as [? _]. by eexists.
  - intros n. rewrite list_elem_of_fmap. setoid_rewrite list_elem_of_fmap. split.
    + intros (v&->&[k v']&->&Hin). apply elem_of_map_to_list in Hin.
      apply map_lookup_filter_Some in Hin as [Hv Hp]. cbn in *.
      destruct (Hkeys k v' Hv) as (w&target&->). rewrite Hpre in Hp. apply bool_decide_eq_true in Hp as ->.
      by exists target, v'.
    + intros (target&v&Hv&<-). exists v. split; [done|]. exists (key_of u target, v). split; [done|].
      apply elem_of_map_to_list, map_lookup_filter_Some. split; [done|]. cbn. rewrite Hpre.
      by apply bool_decide_eq_true.
Qed.
End clean.

(** ** The environment of the script *)

Lemma prefix_true p v : String.prefix p v = true → ∃ t, v = p +:+ t.
Proof.
  revert v. induction p as [|x p IH]; intros v.
  - intros _. by exists v.
  - destruct v as [|y v]; [done|]. change ((if ascii_dec x y then String.prefix p v else false) = true
      → ∃ t, String y v = String x (p +:+ t)).
    destruct (ascii_dec x y) as [->|]; [|done]. intros [t ->]%IH. by exists t.
Qed.
Definition root_entry (v : string) : bool :=
  String.prefix "WORKSPACE_ROOT=" v || String.prefix "PROJECT_ROOT=" v.

Lemma update_entry_other root v : root_entry v = false → update_entry root v = v.
Proof. unfold root_entry, update_entry. intros [-> ->]%orb_false_iff. done. Qed.
Lemma update_entry_root root v :
  root_entry v = true →
  update_entry root v = "WORKSPACE_ROOT=" +:+ root ∨ update_entry root v = "PROJECT_ROOT=" +:+ root.
Proof.
  unfold root_entry, update_entry. destruct (String.prefix "PROJECT_ROOT=" v); [by right|].
  rewrite orb_false_r. intros ->. by left.
Qed.
Lemma update_entry_is_root root v : root_entry (update_entry root v) = root_entry v.
Proof.
  destruct (root_entry v) eqn:Hv; [|by rewrite update_entry_other].
  unfold root_entry. apply orb_true_iff.
  destruct (update_entry_root root v Hv) as [->| ->]; [left|right]; apply JavaUtils.prefix_app.
Qed.

(** The environment of the script names the workspace in both of its variables and
    in no other way, and keeps all other variables in their order. *)
Theorem UpdateEnv_sets env root :
  Forall (λ v, root_entry v = true → v = "WORKSPACE_ROOT=" +:+ root ∨ v = "PROJECT_ROOT=" +:+ root)
    (UpdateEnv env root) ∧
  ("WORKSPACE_ROOT=" +:+ root) ∈ UpdateEnv env root ∧ ("PROJECT_ROOT=" +:+ root) ∈ UpdateEnv env root ∧
  filter (λ v, root_entry v = false) (UpdateEnv env root) = filter (λ v, root_entry v = false) env.
Proof.
  assert (Hf : filter (λ v, root_entry v = false) (update_entry root <$> env)
    = filter (λ v, root_entry v = false) env).
  { induction env as [|v env IH]; [done|]. cbn [fmap list_fmap].
    destruct (root_entry v) eqn:Hv.
    - rewrite !filter_cons_False by (rewrite ?update_entry_is_root; congruence). done.
    - rewrite !filter_cons_True by (rewrite ?update_entry_is_root; congruence).
      by rewrite update_entry_other, IH. }
  assert (Ha : Forall (λ v, root_entry v = true → v = "WORKSPACE_ROOT=" +:+ root ∨ v = "PROJECT_ROOT=" +:+ root)
    (update_entry root <$> env)).
  { apply Forall_fmap, Forall_true. intros v Hv. cbn in Hv. rewrite update_entry_is_root in Hv.
    by apply update_entry_root. }
  assert (Hw : existsb (String.prefix "WORKSPACE_ROOT=") env = true →
    ("WORKSPACE_ROOT=" +:+ root) ∈ (update_entry root <$> env)).
  { intros (v&Hin&Hv)%existsb_exists. apply list_elem_of_fmap. exists v. split; [|by apply list_elem_of_In].
    unfold update_entry. rewrite Hv. destruct (String.prefix "PROJECT_ROOT=" v) eqn:Hp; [|done].
    apply prefix_true in Hv as [t ->]. done. }
  assert (Hp : existsb (String.prefix "PROJECT_ROOT=") env = true →
    ("PROJECT_ROOT=" +:+ root) ∈ (update_entry root <$> env)).
  { intros (v&Hin&Hv)%existsb_exists. apply list_elem_of_fmap. exists v. split; [|by apply list_elem_of_In].
    unfold update_entry. by rewrite Hv. }
  assert (Hn : ∀ v, root_entry v = true → filter (λ v, root_entry v = false) [v] = []).
  { intros v Hv. by rewrite filter_cons_False by congruence. }
  unfold UpdateEnv.
  destruct (existsb (String.prefix "WORKSPACE_ROOT=") env), (existsb (String.prefix "PROJECT_ROOT=") env);
    rewrite ?filter_app, ?Forall_app, ?elem_of_app, ?list_elem_of_singleton, ?Forall_singleton, ?Hf;
    (split_and!; try done; try (by auto); try (by rewrite !Hn, ?app_nil_r by (unfold root_entry; by rewrite JavaUtils.prefix_app, ?orb_true_r))).
Qed.

(** ** Changes and runs *)

Section runs.
Context {R : Type} `{Repository R} (sessions : R).
Context (uuid_String : uuid → string) (new_token : N → string) (base_name : URI → string).
Context (Filename : URI → string) (DirExists : string → gores bool) (ReadDir : string → gores (list string)).
Context (fuel : nat) (gateway : Context → option error) (run : QuickActions.Cmd → option error).

Abbreviation stepG := (step new_token base_name Filename gateway run).
Abbreviation arriveG := (syncIndex sessions uuid_String Filename DirExists ReadDir fuel).

(** A document that is opened or saved ([CArrive]); the end of the script of a
    goroutine ([CFinish]). *)
Inductive cevent := CArrive (ctx : Context) (doc : TextDocumentItem) | CFinish (i : nat).

(** What happened to a target: a change of a document, the start of a run. *)
Inductive entry := Change (key : string) | Start (key : string).
Definition entry_key (e : entry) : string := match e with Change k | Start k => k end.
#[local] Instance entry_eq_dec : EqDecision entry.
Proof. solve_decision. Defined.

(** The goroutine [i] takes [n] steps. *)
Fixpoint steps (n : nat) (i : nat) (c : controller) : controller :=
  match n with O => c | S n' => steps n' i (stepG i c).2 end.

Definition running_key (g : goroutine) : option string :=
  match g with Sync _ key _ _ (PRun _ _) => Some key | _ => None end.
Definition goroutine_key (g : goroutine) : option string :=
  match g with Sync _ key _ _ _ => Some key | _ => None end.

(** An arrival passes through its critical sections at once, and so does the end
    of a run with the start of the next one. *)
Definition cstep (s : controller * list entry) (ev : cevent) : controller * list entry :=
  let '(c, log) := s in
  match ev with
  | CArrive ctx doc =>
    let c1 := (arriveG ctx doc c).2 in
    let n := length (goroutines c) in
    match goroutines c1 !! n ≫= goroutine_key with
    | None => (c1, log)
    | Some key =>
      let c2 := steps 2 n c1 in
      (c2, log ++ Change key :: (if bool_decide (goroutines c2 !! n ≫= running_key = Some key) then [Start key] else []))
    end
  | CFinish i =>
    match goroutines c !! i ≫= running_key with
    | None => (c, log)
    | Some key =>
      let c1 := steps 4 i c in
      (c1, log ++ (if bool_decide (goroutines c1 !! i ≫= running_key = Some key) then [Start key] else []))
    end
  end.

(** What happened last to a target. *)
Definition last_of (key : string) (log : list entry) : option entry :=
  last (filter (λ e, entry_key e = key) log).

Record indexer_ok (c : controller) (log : list entry) : Prop := {
  (** every goroutine runs a script or has returned *)
  ok_pcs i g : goroutines c !! i = Some g → ∃ idx key doc ctx,
    (∃ tok n, g = Sync idx key doc ctx (PRun tok n)) ∨ g = Sync idx key doc ctx PReturned;
  (** no target is indexed twice at a time, and the pending targets are those
      that are indexed *)
  ok_one i j key : goroutines c !! i ≫= running_key = Some key →
    goroutines c !! j ≫= running_key = Some key → i = j;
  ok_pending key : is_Some (pendingCmds c !! key) ↔ ∃ i, goroutines c !! i ≫= running_key = Some key;
  (** a target has a change that no run has started after only while it is
      indexed, and then it is marked *)
  ok_marked key v : pendingCmds c !! key = Some v →
    last_of key log = Some (if reindexing v then Change key else Start key);
  ok_clean key : pendingCmds c !! key = None → last_of key log ≠ Some (Change key)
}.

Lemma last_of_app key l k :
  last_of key (l ++ k) = match last_of key k with Some e => Some e | None => last_of key l end.
Proof.
  unfold last_of. rewrite filter_app, last_app. by destruct (last (filter _ k)).
Qed.
Lemma last_of_ne key key' e : entry_key e = key' → key ≠ key' → last_of key [e] = None.
Proof. intros <- Hne. unfold last_of. rewrite filter_cons_False by done. done. Qed.
Lemma last_of_eq key e : entry_key e = key → last_of key [e] = Some e.
Proof. intros He. unfold last_of. by rewrite filter_cons_True. Qed.

Lemma insert_last {X} (gs : list X) g g' : <[length gs := g']> (gs ++ [g]) = gs ++ [g'].
Proof. rewrite insert_app_r_alt by done. by rewrite Nat.sub_diag. Qed.
Lemma lookup_last {X} (gs : list X) g : (gs ++ [g]) !! length gs = Some g.
Proof. by rewrite lookup_app_r, Nat.sub_diag. Qed.

(** An arrival at a target that is pending, and at one that is not. *)
Lemma arrival_pending c idx key doc ctx v :
  pendingCmds c !! key = Some v →
  steps 2 (length (goroutines c)) (spawn (Sync idx key doc ctx PCheck) c) =
  set_goroutines (goroutines c ++ [Sync idx key doc ctx PReturned])
    (set_pending (<[key := mkCmdVal (token v) (cancelFunc v) true]> (pendingCmds c)) c).
Proof.
  intros Hv. unfold steps, spawn, step, goto, getPendingCmd, markForReindexing, set_goroutines. cbn.
  rewrite lookup_last. rewrite Hv. cbn. rewrite insert_last, lookup_last. cbn. by rewrite Hv, insert_last.
Qed.
Lemma arrival_new c idx key doc ctx :
  pendingCmds c !! key = None →
  ∃ tok e, steps 2 (length (goroutines c)) (spawn (Sync idx key doc ctx PCheck) c) =
  set_goroutines (goroutines c ++ [Sync idx key doc ctx (PRun tok (contexts c))])
    (add_effects e (set_contexts (contexts c + 1)%N (cancelled c)
      (set_pending (<[key := mkCmdVal tok (contexts c) false]> (pendingCmds c)) c))).
Proof.
  intros Hv. unfold steps, spawn, step, startIndexingOperation, goto, getPendingCmd, set_goroutines. cbn.
  rewrite lookup_last. rewrite Hv. cbn. rewrite insert_last, lookup_last. cbn. rewrite insert_last. by eexists _, _.
Qed.

(** The steps at the end of a run. *)
Lemma step_run c i idx key doc ctx tok n :
  goroutines c !! i = Some (Sync idx key doc ctx (PRun tok n)) →
  ∃ e, (stepG i c).2 = goto i (Sync idx key doc ctx (PNeeds n)) (add_effects e c).
Proof. intros Hi. unfold step. rewrite Hi. by eexists. Qed.
Lemma step_needs c i idx key doc ctx n :
  goroutines c !! i = Some (Sync idx key doc ctx (PNeeds n)) →
  (stepG i c).2 = goto i (Sync idx key doc ctx (PDelete (needsReindexing key (pendingCmds c)) n)) c.
Proof. intros Hi. unfold step. by rewrite Hi. Qed.
Lemma step_delete c i idx key doc ctx b n v :
  goroutines c !! i = Some (Sync idx key doc ctx (PDelete b n)) → pendingCmds c !! key = Some v →
  ∃ cs, (stepG i c).2 = goto i (if b then Sync idx key doc (mkContext None) PSet else Sync idx key doc ctx PReturned)
    (set_contexts (contexts c) cs (set_pending (delete key (pendingCmds c)) c)).
Proof.
  intros Hi Hv. unfold step, deletePendingCmd. rewrite Hi, Hv.
  destruct b; [exists (cancelled c)|eexists]; reflexivity.
Qed.
Lemma step_set c i idx key doc ctx :
  goroutines c !! i = Some (Sync idx key doc ctx PSet) →
  (stepG i c).2 = startIndexingOperation new_token base_name Filename gateway i idx key doc ctx c.
Proof. intros Hi. unfold step. by rewrite Hi. Qed.
Lemma step_returned c i idx key doc ctx :
  goroutines c !! i = Some (Sync idx key doc ctx PReturned) → (stepG i c).2 = c.
Proof. intros Hi. unfold step. by rewrite Hi. Qed.

Lemma goto_lookup c i g : (i < length (goroutines c))%nat → goroutines (goto i g c) !! i = Some g.
Proof. intros Hlt. cbn. by rewrite list_lookup_insert_eq. Qed.
Lemma goto_goto c i g g' : goto i g' (goto i g c) = goto i g' c.
Proof. unfold goto, set_goroutines. cbn. by rewrite list_insert_insert_eq. Qed.

(** The end of a run of a target that is marked, and of one that is not. *)
Lemma finish_eq c i idx key doc ctx tok n v :
  goroutines c !! i = Some (Sync idx key doc ctx (PRun tok n)) → pendingCmds c !! key = Some v →
  ∃ g, goroutines (steps 4 i c) = <[i := g]> (goroutines c) ∧
    if reindexing v then
      ∃ tok' n', g = Sync idx key doc (mkContext None) (PRun tok' n') ∧
        pendingCmds (steps 4 i c) = <[key := mkCmdVal tok' n' false]> (pendingCmds c)
    else g = Sync idx key doc ctx PReturned ∧ pendingCmds (steps 4 i c) = delete key (pendingCmds c).
Proof.
  intros Hi Hv. assert (Hlt : (i < length (goroutines c))%nat) by by eapply lookup_lt_Some.
  cbn [steps]. destruct (step_run c i idx key doc ctx tok n Hi) as [e ->].
  rewrite (step_needs (goto i (Sync idx key doc ctx (PNeeds n)) (add_effects e c)) i idx key doc ctx n)
    by by apply goto_lookup.
  rewrite goto_goto. cbn [pendingCmds goto set_goroutines add_effects].
  assert (needsReindexing key (pendingCmds c) = reindexing v) as -> by (unfold needsReindexing; by rewrite Hv).
  destruct (step_delete (goto i (Sync idx key doc ctx (PDelete (reindexing v) n)) (add_effects e c)) i idx key doc
    ctx (reindexing v) n v) as [cs ->]; [by apply goto_lookup|done|].
  destruct (reindexing v).
  - rewrite (step_set _ i idx key doc (mkContext None)).
    2:{ apply goto_lookup. cbn. by rewrite length_insert. }
    eexists. cbn. rewrite !list_insert_insert_eq. split; [done|]. eexists _, _. split; [done|].
    unfold setPendingCmd. by rewrite insert_delete_eq.
  - rewrite (step_returned _ i idx key doc ctx).
    2:{ apply goto_lookup. cbn. by rewrite length_insert. }
    eexists. cbn. by rewrite !list_insert_insert_eq.
Qed.

Lemma running_app gs g i key :
  (gs ++ [g]) !! i ≫= running_key = Some key ↔
  gs !! i ≫= running_key = Some key ∨ (i = length gs ∧ running_key g = Some key).
Proof.
  destruct (decide (i < length gs)%nat) as [Hlt|Hge].
  - rewrite lookup_app_l by done. split; [by left|]. intros [?|[-> _]]; [done|lia].
  - rewrite lookup_app_r by lia. rewrite (lookup_ge_None_2 gs i) by lia.
    destruct (i - length gs)%nat as [|k] eqn:Hk; cbn.
    + split; [right; split; [lia|done]|]. by intros [?|[_ ?]].
    + split; [done|]. intros [?|[-> _]]; [done|lia].
Qed.
Lemma running_insert gs g i j key : (i < length gs)%nat →
  <[i := g]> gs !! j ≫= running_key = Some key ↔
  (j ≠ i ∧ gs !! j ≫= running_key = Some key) ∨ (j = i ∧ running_key g = Some key).
Proof.
  intros Hlt. destruct (decide (j = i)) as [->|Hne].
  - rewrite list_lookup_insert_eq by done. cbn. naive_solver.
  - rewrite list_lookup_insert_ne by done. naive_solver.
Qed.

(** Each kind of step keeps the invariant. *)
Lemma ok_mark c c' log idx key doc ctx v :
  indexer_ok c log → pendingCmds c !! key = Some v →
  goroutines c' = goroutines c ++ [Sync idx key doc ctx PReturned] →
  pendingCmds c' = <[key := mkCmdVal (token v) (cancelFunc v) true]> (pendingCmds c) →
  indexer_ok c' (log ++ [Change key]).
Proof.
  intros [K1 K2 K3 K4 K5] Hv Hg Hp. split; rewrite ?Hg, ?Hp.
  - intros i g [Hi|[_ Hi]]%lookup_app_Some; [by eapply K1|].
    apply list_lookup_singleton_Some in Hi as [_ <-]. eexists _, _, _, _. by right.
  - intros i j k. rewrite !running_app. cbn. naive_solver.
  - intros k. setoid_rewrite running_app. cbn. rewrite lookup_insert_is_Some.
    specialize (K3 k). destruct (decide (k = key)) as [->|]; naive_solver.
  - intros k w. rewrite last_of_app. intros [[<- <-]|[Hne Hw]]%lookup_insert_Some.
    + by rewrite (last_of_eq key (Change key)).
    + rewrite (last_of_ne k key (Change key)) by done. by apply K4.
  - intros k [Hk Hne]%lookup_insert_None. rewrite last_of_app, (last_of_ne k key (Change key)) by done.
    by apply K5.
Qed.

Lemma ok_start c c' log idx key doc ctx tok n :
  indexer_ok c log → pendingCmds c !! key = None →
  goroutines c' = goroutines c ++ [Sync idx key doc ctx (PRun tok n)] →
  pendingCmds c' = <[key := mkCmdVal tok n false]> (pendingCmds c) →
  indexer_ok c' (log ++ [Change key; Start key]).
Proof.
  intros [K1 K2 K3 K4 K5] Hv Hg Hp.
  assert (Hno : ∀ i, goroutines c !! i ≫= running_key ≠ Some key).
  { intros i Hi. destruct (proj2 (K3 key)) as [? ?]; [by eexists|congruence]. }
  split; rewrite ?Hg, ?Hp.
  - intros i g [Hi|[_ Hi]]%lookup_app_Some; [by eapply K1|].
    apply list_lookup_singleton_Some in Hi as [_ <-]. eexists _, _, _, _. left. by eexists _, _.
  - intros i j k. rewrite !running_app. cbn. intros [Hi|[-> Hi]] [Hj|[-> Hj]]; simplify_eq; try done.
    + by eapply K2.
    + by destruct (Hno i).
    + by destruct (Hno j).
  - intros k. setoid_rewrite running_app. cbn. rewrite lookup_insert_is_Some.
    specialize (K3 k). destruct (decide (k = key)) as [->|]; naive_solver.
  - intros k w. change [Change key; Start key] with ([Change key] ++ [Start key]).
    rewrite (assoc_L (++)), last_of_app. intros [[<- <-]|[Hne Hw]]%lookup_insert_Some.
    + by rewrite (last_of_eq key (Start key)).
    + rewrite (last_of_ne k key (Start key)), last_of_app, (last_of_ne k key (Change key)) by done.
      by apply K4.
  - intros k [Hk Hne]%lookup_insert_None. change [Change key; Start key] with ([Change key] ++ [Start key]).
    rewrite (assoc_L (++)), last_of_app, (last_of_ne k key (Start key)), last_of_app,
      (last_of_ne k key (Change key)) by done. by apply K5.
Qed.

Lemma ok_again c c' log i idx key doc ctx ctx' tok tok' n n' v :
  indexer_ok c log → goroutines c !! i = Some (Sync idx key doc ctx (PRun tok n)) →
  pendingCmds c !! key = Some v →
  goroutines c' = <[i := Sync idx key doc ctx' (PRun tok' n')]> (goroutines c) →
  pendingCmds c' = <[key := mkCmdVal tok' n' false]> (pendingCmds c) →
  indexer_ok c' (log ++ [Start key]).
Proof.
  intros [K1 K2 K3 K4 K5] Hi Hv Hg Hp.
  assert (Hlt : (i < length (goroutines c))%nat) by by eapply lookup_lt_Some.
  assert (Hr : ∀ j k, <[i := Sync idx key doc ctx' (PRun tok' n')]> (goroutines c) !! j ≫= running_key = Some k
    ↔ goroutines c !! j ≫= running_key = Some k).
  { intros j k. rewrite running_insert by done. cbn. destruct (decide (j = i)) as [->|]; [|naive_solver].
    rewrite Hi. cbn. naive_solver. }
  split; rewrite ?Hg, ?Hp.
  - intros j g [(_&<-&_)|[_ Hj]]%list_lookup_insert_Some; [|by eapply K1].
    eexists _, _, _, _. left. by eexists _, _.
  - intros j j' k. rewrite !Hr. apply K2.
  - intros k. setoid_rewrite Hr. rewrite <- K3, lookup_insert_is_Some.
    destruct (decide (k = key)) as [->|]; [rewrite Hv|]; naive_solver.
  - intros k w. rewrite last_of_app. intros [[<- <-]|[Hne Hw]]%lookup_insert_Some.
    + by rewrite (last_of_eq key (Start key)).
    + rewrite (last_of_ne k key (Start key)) by done. by apply K4.
  - intros k [Hk Hne]%lookup_insert_None. rewrite last_of_app, (last_of_ne k key (Start key)) by done.
    by apply K5.
Qed.

Lemma ok_done c c' log i idx key doc ctx tok n v :
  indexer_ok c log → goroutines c !! i = Some (Sync idx key doc ctx (PRun tok n)) →
  pendingCmds c !! key = Some v → reindexing v = false →
  goroutines c' = <[i := Sync idx key doc ctx PReturned]> (goroutines c) →
  pendingCmds c' = delete key (pendingCmds c) →
  indexer_ok c' log.
Proof.
  intros [K1 K2 K3 K4 K5] Hi Hv Hre Hg Hp.
  assert (Hlt : (i < length (goroutines c))%nat) by by eapply lookup_lt_Some.
  assert (Hik : goroutines c !! i ≫= running_key = Some key) by by rewrite Hi.
  assert (Hr : ∀ j k, <[i := Sync idx key doc ctx PReturned]> (goroutines c) !! j ≫= running_key = Some k
    ↔ goroutines c !! j ≫= running_key = Some k ∧ k ≠ key).
  { intros j k. rewrite running_insert by done. cbn. split.
    - intros [[Hne Hj]|[_ ?]]; [|done]. split; [done|]. intros ->. by destruct Hne; eapply K2.
    - intros [Hj Hne]. left. split; [|done]. intros ->. congruence. }
  split; rewrite ?Hg, ?Hp.
  - intros j g [(_&<-&_)|[_ Hj]]%list_lookup_insert_Some; [|by eapply K1].
    eexists _, _, _, _. by right.
  - intros j j' k. rewrite !Hr. intros [? _] [? _]. by eapply K2.
  - intros k. setoid_rewrite Hr. rewrite lookup_delete_is_Some, K3. naive_solver.
  - intros k w [Hne Hw]%lookup_delete_Some. by apply K4.
  - intros k [->|Hk]%lookup_delete_None; [|by apply K5].
    rewrite (K4 _ _ Hv), Hre. done.
Qed.

Lemma syncIndex_cases ctx doc c :
  (arriveG ctx doc c).2 = c ∨
  ∃ idx key, (arriveG ctx doc c).2 = spawn (Sync idx key doc ctx PCheck) c.
Proof.
  unfold syncIndex, sbind, wrapM, lift_res, get_st, try_, modify_st.
  destruct (wrap_err _ (repo_GetFromContext sessions ctx)); [|by left..].
  destruct (indexer c !! _) as [idx|]; [|by left]. destruct (IsRelevantDocument doc); [|by left].
  destruct (GetUniqueIndexKey _ _ _ _ _ _ _) as [key| | |]; [right|by left..]. by exists idx, key.
Qed.

Lemma cstep_ok c log ev : indexer_ok c log → indexer_ok (cstep (c, log) ev).1 (cstep (c, log) ev).2.
Proof.
  intros Hok. destruct ev as [ctx doc|i]; cbn [cstep].
  - destruct (syncIndex_cases ctx doc c) as [->|(idx&key&->)].
    { by rewrite lookup_ge_None_2 by done. }
    cbn [goroutines spawn set_goroutines]. rewrite lookup_last. cbn [mbind option_bind goroutine_key].
    destruct (pendingCmds c !! key) as [v|] eqn:Hv.
    + rewrite (arrival_pending c idx key doc ctx v Hv). cbn. rewrite lookup_last. cbn.
      rewrite bool_decide_false by done. by eapply ok_mark.
    + destruct (arrival_new c idx key doc ctx Hv) as (tok&e&->). cbn. rewrite lookup_last. cbn.
      rewrite bool_decide_true by done. by eapply ok_start.
  - destruct (goroutines c !! i) as [g|] eqn:Hi; cbn [mbind option_bind]; [|done].
    destruct (ok_pcs _ _ Hok i g Hi) as (idx&key&doc&ctx&[(tok&n&->)| ->]); cbn [running_key]; [|done].
    destruct (proj2 (ok_pending _ _ Hok key)) as [v Hv]; [exists i; by rewrite Hi|].
    assert (Hlt : (i < length (goroutines c))%nat) by by eapply lookup_lt_Some.
    destruct (finish_eq c i idx key doc ctx tok n v Hi Hv) as (g&Hg&Hcase). cbn [fst snd].
    rewrite Hg, list_lookup_insert_eq by done. destruct (reindexing v) eqn:Hre.
    + destruct Hcase as (tok'&n'&->&Hp). cbn. rewrite bool_decide_true by done. by eapply ok_again.
    + destruct Hcase as [-> Hp]. cbn. rewrite bool_decide_false, app_nil_r by done. by eapply ok_done.
Qed.

(** C20: Over any sequence of arrivals of documents that are opened or saved and of
    ends of runs, each of which is done before the next begins, and without
    cancellations and ends of sessions (with these, or when they interleave, it
    fails: [indexer_races]): no target is indexed by two runs at a time; an arrival
    starts a run of its target at once or after the one that is running, so that no
    target is left with a change that came after its last start once its runs have
    ended; and a run is repeated only if there was such a change.  Changes are
    counted by target: the repeated run is for the document of the first. *)
Theorem indexer_no_lost_change evs c0 c log :
  goroutines c0 = [] → pendingCmds c0 = ∅ → foldl cstep (c0, []) evs = (c, log) →
  indexer_ok c log ∧
  ((∀ i, goroutines c !! i ≫= running_key = None) → ∀ key, last_of key log ≠ Some (Change key)).
Proof.
  intros Hg Hp Hrun.
  assert (Hok : indexer_ok c log).
  { assert (H0 : indexer_ok (c0, @nil entry).1 (c0, @nil entry).2).
    { split; cbn; rewrite ?Hg, ?Hp; try done.
      - intros key. rewrite lookup_empty. split; [by intros [? [=]]|]. intros [i Hi]. by rewrite lookup_nil in Hi. }
    clear Hg Hp. revert H0 Hrun. generalize (c0, @nil entry). induction evs as [|ev evs IH]; intros s H0 Hrun.
    - cbn in Hrun. by subst s.
    - cbn in Hrun. apply (IH (cstep s ev)); [|done]. destruct s as [c1 l1]. by apply cstep_ok. }
  split; [done|]. intros Hno key. apply (ok_clean _ _ Hok).
  destruct (pendingCmds c !! key) as [v|] eqn:Hv; [|done].
  destruct (proj1 (ok_pending _ _ Hok key)) as [i Hi]; [by eexists|]. by rewrite Hno in Hi.
Qed.
End runs.

(** ** Interleavings *)

Section races.
Context {R : Type} `{Repository R} (sessions : R).
Context (uuid_String : uuid → string) (new_token : N → string) (base_name : URI → string).
Context (Filename : URI → string) (DirExists : string → gores bool) (ReadDir : string → gores (list string)).
Context (fuel : nat) (gateway : Context → option error) (run : QuickActions.Cmd → option error).

(** A document that is opened or saved, a cancellation by the user, or a step of a
    goroutine. *)
Inductive action := AArrive (ctx : Context) (doc : TextDocumentItem) | ACancel (tok : string) | AStep (i : nat).
Definition act (a : action) : GoM controller unit :=
  match a with
  | AArrive ctx doc => syncIndex sessions uuid_String Filename DirExists ReadDir fuel ctx doc
  | ACancel tok => workDoneProgressCancel tok
  | AStep i => step new_token base_name Filename gateway run i
  end.
Definition acts (l : list action) : GoM controller unit := forM_ l act.
End races.

(** The files that the scripts were run for. *)
Definition indexed (c : controller) : list (list string) :=
  omap (λ e, match e with RunCommand _ cmd => Some (QuickActions.CmdArgs cmd) | _ => None end) (effects c).
Definition returned (c : controller) : bool :=
  forallb (λ g, match g with Sync _ _ _ _ PReturned | Cancel CReturned => true | _ => false end) (goroutines c).
Definition running (c : controller) : list string := omap running_key (goroutines c).

Definition sample_session : Session := mkSession 7%N None None "/w" "repo" ["A=1"; "PROJECT_ROOT=x"] true.
Definition sample_repo : repository := mkRepository {[7%N := SessionToModel sample_session]} 1.
Definition sample_ctx : Context := mkContext (Some 7%N).
Definition sample_controller : controller := set_indexer {[7%N := sample_session]} true New.
Definition sample_key (u : uuid) : string := if bool_decide (u = 7%N) then "id7" else "id0".
Definition sample_token (n : N) : string := pretty n.
Definition build_in_a (dir : string) : gores (list string) :=
  Ok (if bool_decide (dir = "/w/a") then ["BUILD.bazel"] else []).
Definition sample_acts : list action → GoM controller unit :=
  acts sample_repo sample_key sample_token id id (λ _, Ok false) build_in_a 5 (λ _, None) (λ _, None).
Definition doc1 : TextDocumentItem := mkTextDocumentItem "/w/a/A.java" "java" 1 [].
Definition doc2 : TextDocumentItem := mkTextDocumentItem "/w/a/B.java" "java" 1 [].
Definition arrive1 : action := AArrive sample_ctx doc1.

(** The steps of the handlers can interleave such that, once all have returned,
    a save during a run was followed by no run; such that the cancellation of a
    run that ends calls a nil function; such that a target is indexed by two runs
    at a time after a cancellation; and a save of another document of a target
    during a run repeats the run for the first document only. *)
Theorem indexer_races :
  (∃ c, sample_acts [arrive1; AStep 0; AStep 0; arrive1; AStep 1; AStep 0; AStep 0; AStep 0; AStep 1]
        sample_controller = (Ok tt, c) ∧
    returned c = true ∧ indexed c = [["--filepath"; "/w/a/A.java"]]) ∧
  (∃ c, sample_acts [arrive1; AStep 0; AStep 0; ACancel "0"; AStep 1; AStep 0; AStep 0; AStep 0; AStep 1]
        sample_controller = (Panic, c)) ∧
  (∃ c, sample_acts [arrive1; AStep 0; AStep 0; ACancel "0"; AStep 1; AStep 1; AStep 1; arrive1; AStep 2; AStep 2]
        sample_controller = (Ok tt, c) ∧ running c = ["id7_a/..."; "id7_a/..."]) ∧
  (∃ c, sample_acts [arrive1; AStep 0; AStep 0; AArrive sample_ctx doc2; AStep 1; AStep 1; AStep 0; AStep 0;
          AStep 0; AStep 0; AStep 0; AStep 0; AStep 0] sample_controller = (Ok tt, c) ∧
    returned c = true ∧ indexed c = [["--filepath"; "/w/a/A.java"]; ["--filepath"; "/w/a/A.java"]]).
Proof.
  split_and!.
  - eexists. split; [vm_compute; reflexivity|by vm_compute].
  - eexists. vm_compute. reflexivity.
  - eexists. split; [vm_compute; reflexivity|by vm_compute].
  - eexists. split; [vm_compute; reflexivity|by vm_compute].
Qed.

Lemma indexer_no_lost_change_witness :
  let s := foldl (cstep sample_repo sample_key sample_token id id (λ _, Ok false) build_in_a 5 (λ _, None) (λ _, None))
    (sample_controller, []) [CArrive sample_ctx doc1; CArrive sample_ctx doc1; CFinish 0; CFinish 0] in
  s.2 = [Change "id7_a/..."; Start "id7_a/..."; Change "id7_a/..."; Start "id7_a/..."] ∧ indexer_ok s.1 s.2.
Proof.
  cbv zeta. split; [vm_compute; reflexivity|].
  apply (indexer_no_lost_change sample_repo sample_key sample_token id id (λ _, Ok false) build_in_a 5
    (λ _, None) (λ _, None) [CArrive sample_ctx doc1; CArrive sample_ctx doc1; CFinish 0; CFinish 0]
    sample_controller); [reflexivity|reflexivity|apply surjective_pairing].
Defined.

(** Ids of which none is a prefix of another. *)
Fixpoint unary (n : nat) : string := match n with O => "x" | S n' => String "1"%char (unary n') end.
Lemma unary_free n m s : String.prefix (unary n) (unary m +:+ s) = true → n = m.
Proof.
  revert m. induction n as [|n IH]; intros [|m]; cbn; [done|done|done|].
  change (String "1"%char (unary m) +:+ s) with (String "1"%char (unary m +:+ s)). cbn. intros Hp. by rewrite (IH m).
Qed.
Definition sample_pending : pendingCmdStore :=
  {["11x_a/..." := mkCmdVal "t" 3 false; "1x_a/..." := mkCmdVal "u" 4 true]}.

Lemma cleanSession_exact_witness :
  (cleanSession "11x" sample_pending).2 !! "11x_a/..." = None ∧
  (cleanSession "11x" sample_pending).2 !! "1x_a/..." = Some (mkCmdVal "u" 4 true).
Proof.
  destruct (cleanSession_exact (λ u, unary (N.to_nat u))) with (u := 2%N) (p := sample_pending) as (Hkeys&_&_).
  - intros u v s Hp. apply unary_free in Hp. lia.
  - intros k v Hk. unfold sample_pending in Hk. apply lookup_insert_Some in Hk as [[<- _]|[_ Hk]].
    + by exists 2%N, "a/...".
    + apply lookup_singleton_Some in Hk as [<- _]. by exists 1%N, "a/...".
  - exact (conj (Hkeys 2%N "a/...") (Hkeys 1%N "a/...")).
Defined.
End IndexerProof.
