(* ===== verification/IdeClient.v ===== *)
(** * The IDE gateway

    Models [src/ulsp/gateway/ide-client/ide_client.go]: the clients of the
    sessions, the calls that are forwarded to them, the prompt that is shown
    while a selection of the user is awaited, and the log writer.

    [protocol.Client] is code outside the repository: what a client answers is
    the parameter [respond], of the calls sent so far, the connection and the
    call.  [sent] records every call with the connection it was sent on.  The
    parameters that the gateway does not look at are opaque. *)

From stdpp Require Import base gmap list strings.
From Stdlib Require Import ZArith Lia.
From S2P Require Import Prelude Session.

Local Open Scope Z_scope.

Module IdeClient.

(** Nanoseconds, as [time.Duration]. *)
Definition Second : Z := 1000000000.
Definition Minute : Z := 60 * Second.

Definition _errSendToClient : string := "sending call/notification to IDE".
Definition _timeoutUserSelectionMoreInfo : Z := Second * 5.
Definition _timeoutUserSelectionEnd : Z := Minute * 2.
Definition _titleUserInputProgress : string := "User Input Needed".
Definition _messageUserInputProgressInitial : string := "Please make a selection from the prompt.".
Definition _messageUserInputProgressUpdate : string :=
  "Waiting for a selection. Click here to expand notifications if you don't see a prompt.".

(** [protocol.MessageType] *)
Definition MessageTypeError : Z := 1.
Definition MessageTypeWarning : Z := 2.
Definition MessageTypeInfo : Z := 3.
Definition MessageTypeLog : Z := 4.

(** [protocol.ClientDispatcher(conn, logger)], a client that sends on [conn] *)
Inductive Client := ClientDispatcher (conn : N).
Definition client_conn (c : Client) : N := let 'ClientDispatcher conn := c in conn.

Section gateway.
(** the parameters of calls, and the answers of clients *)
Context {P A : Type}.

Inductive ProgressValue :=
  | WorkDoneProgressBegin (title message : string) (cancellable : bool)
  | WorkDoneProgressReport (message : string)
  | WorkDoneProgressEnd
  | ProgressOther (value : P).

Inductive ClientCall :=
  | CallProgress (token : string) (value : ProgressValue)
  | CallWorkDoneProgressCreate (token : string)
  | CallLogMessage (message : string) (type : Z)
  | CallPublishDiagnostics (params : P)
  | CallShowMessage (message : string) (type : Z)
  | CallShowMessageRequest (params : P) (type : Z)
  | CallTelemetry (params : P)
  | CallRegisterCapability (params : P)
  | CallUnregisterCapability (params : P)
  | CallApplyEdit (params : P)
  | CallConfiguration (params : P)
  | CallWorkspaceFolders
  | CallShowDocument (params : P).

Record gateway := mkGateway {
  clients : gmap uuid Client;
  connections : gmap uuid N;
  sent : list (N * ClientCall)
}.

Definition New : gateway := mkGateway ∅ ∅ [].

(** A nil connection is dereferenced. *)
Definition RegisterClient (id : uuid) (conn : option N) : GoM gateway unit := λ g,
  match conn with
  | None => (Panic, g)
  | Some conn =>
    (Ok tt, mkGateway (<[id := ClientDispatcher conn]> (clients g)) (<[id := conn]> (connections g)) (sent g))
  end.

Definition DeregisterClient (id : uuid) : GoM gateway unit := λ g,
  (Ok tt, mkGateway (delete id (clients g)) (delete id (connections g)) (sent g)).

Definition getClient (ctx : Context) (g : gateway) : gores (Client * N) :=
  id <-? ContextToSessionUUID ctx;;
  match clients g !! id with
  | None => Err (EText "client with id not found")
  | Some client =>
    match connections g !! id with
    | None => Err (EText "client with id not found")
    | Some conn => Ok (client, conn)
    end
  end.

Section calls.
Context (respond : list (N * ClientCall) → N → ClientCall → error + A).

(** A call on a connection. *)
Definition send_on (conn : N) (call : ClientCall) : GoM gateway A := λ g,
  (match respond (sent g) conn call with inl e => Err e | inr a => Ok a end,
   mkGateway (clients g) (connections g) (sent g ++ [(conn, call)])).

(** [c, _, err := g.getClient(ctx)], with the error wrapped *)
Definition client_of (ctx : Context) : GoM gateway (Client * N) := λ g,
  (wrap_err _errSendToClient (getClient ctx g), g).

(** A call of the client of the session. *)
Definition forward (ctx : Context) (call : ClientCall) : GoM gateway A :=
  let* (c, _) := client_of ctx in send_on (client_conn c) call.

Definition Progress ctx token value := forward ctx (CallProgress token value).
Definition WorkDoneProgressCreate ctx token := forward ctx (CallWorkDoneProgressCreate token).
Definition LogMessage ctx message type := forward ctx (CallLogMessage message type).
Definition PublishDiagnostics ctx params := forward ctx (CallPublishDiagnostics params).
Definition ShowMessage ctx message type := forward ctx (CallShowMessage message type).
Definition Telemetry ctx params := forward ctx (CallTelemetry params).
Definition RegisterCapability ctx params := forward ctx (CallRegisterCapability params).
Definition UnregisterCapability ctx params := forward ctx (CallUnregisterCapability params).
Definition ApplyEdit ctx params := forward ctx (CallApplyEdit params).
Definition Configuration ctx params := forward ctx (CallConfiguration params).
Definition WorkspaceFolders ctx := forward ctx CallWorkspaceFolders.

(** The result that is returned is the nil pointer that was passed on. *)
Definition ShowDocument (ctx : Context) (params : P) : GoM gateway (option A) :=
  let* (_, c) := client_of ctx in
  _ <- wrapM _errSendToClient (send_on c (CallShowDocument params));;
  sret None.

(** ** The prompt for a selection

    The timers of a prompt, with the time they have left while they run. *)
Record prompt := mkPrompt {
  prompt_client : Client;
  prompt_token : string;
  updateProgressTimer : option Z;
  endProgressTimer : option Z
}.

Definition endProgressFunc (p : prompt) : GoM gateway unit :=
  _ <- try_ (send_on (client_conn (prompt_client p)) (CallProgress (prompt_token p) WorkDoneProgressEnd));;
  sret tt.
Definition updateProgressFunc (p : prompt) : GoM gateway unit :=
  _ <- try_ (send_on (client_conn (prompt_client p))
              (CallProgress (prompt_token p) (WorkDoneProgressReport _messageUserInputProgressUpdate)));;
  sret tt.

(** [newV4] is the new token, or the error of the generator. *)
Definition showWaitingForUserSelection (newV4 : error + string) (ctx : Context) : GoM gateway prompt :=
  let* (c, _) := client_of ctx in
  tokenID <- wrapM _errSendToClient (lift_res (match newV4 with inl e => Err e | inr t => Ok t end));;
  _ <- wrapM "creating user input progress"
         (send_on (client_conn c) (CallWorkDoneProgressCreate tokenID));;
  _ <- wrapM "starting user input progress"
         (send_on (client_conn c) (CallProgress tokenID
           (WorkDoneProgressBegin _titleUserInputProgress _messageUserInputProgressInitial true)));;
  sret (mkPrompt c tokenID (Some _timeoutUserSelectionMoreInfo) (Some _timeoutUserSelectionEnd)).

(** A timer after [d] more nanoseconds: whether it fires, and what is left of it. *)
Definition timer_elapse (d : Z) (t : option Z) : bool * option Z :=
  match t with
  | None => (false, None)
  | Some rest => if rest <=? d then (true, None) else (false, Some (rest - d))
  end.

(** The timers while [d] nanoseconds pass; the update is due before the end. *)
Definition prompt_elapse (d : Z) (p : prompt) : GoM gateway prompt :=
  let '(update, t1) := timer_elapse d (updateProgressTimer p) in
  let '(end_, t2) := timer_elapse d (endProgressTimer p) in
  _ <- (if update then updateProgressFunc p else sret tt);;
  _ <- (if end_ then endProgressFunc p else sret tt);;
  sret (mkPrompt (prompt_client p) (prompt_token p) t1 t2).

(** [updateProgressTimer.Stop(); if endProgressTimer.Stop() { endProgressFunc() }] *)
Definition doneFunc (p : prompt) : GoM gateway unit :=
  match endProgressTimer p with
  | Some _ => endProgressFunc p
  | None => sret tt
  end.

(** The user takes the times [waits], one after the other, to answer. *)
Fixpoint wait_for_user (waits : list Z) (p : prompt) : GoM gateway prompt :=
  match waits with
  | [] => sret p
  | d :: waits' => p' <- prompt_elapse d p;; wait_for_user waits' p'
  end.

Definition ShowMessageRequest (newV4 : error + string) (waits : list Z) (ctx : Context)
    (params : P) (type : Z) : GoM gateway A :=
  let* (c, _) := client_of ctx in
  if MessageTypeError <? type then
    p <- wrapM _errSendToClient (showWaitingForUserSelection newV4 ctx);;
    r <- try_ (send_on (client_conn c) (CallShowMessageRequest params type));;
    p' <- wait_for_user waits p;;
    _ <- doneFunc p';;
    match r with inl e => throw e | inr a => sret a end
  else send_on (client_conn c) (CallShowMessageRequest params type).

(** ** The log writer *)

Record logMessageWriter := mkWriter { client : Client; writer_ctx : Context; prefix : string }.

Definition GetLogMessageWriter (ctx : Context) (prefix : string) : GoM gateway logMessageWriter :=
  c <- (λ g, (wrap_err "getting IDE log message writer" (getClient ctx g), g));;
  sret (mkWriter c.1 ctx prefix).

(** [strings.TrimSuffix(s, "\n")] *)
Definition newline : string := String (Ascii.ascii_of_nat 10) EmptyString.
Fixpoint TrimNewline (s : string) : string :=
  match s with
  | EmptyString => EmptyString
  | String c s' => if bool_decide (s = newline) then EmptyString else String c (TrimNewline s')
  end.

(** The count of bytes is returned with a nil error, 0 with another. *)
Definition Write (w : logMessageWriter) (p : string) : GoM gateway Z :=
  _ <- wrapM "writing to IDE log message writer"
         (send_on (client_conn (client w))
           (CallLogMessage ("[" +:+ prefix w +:+ "] " +:+ TrimNewline p) MessageTypeLog));;
  sret (Z.of_nat (String.length p)).
End calls.
End gateway.
Arguments gateway : clear implicits.
Arguments ClientCall : clear implicits.
Arguments ProgressValue : clear implicits.

(** ** Clients of sessions *)

Section proofs.
Context {P A : Type} (respond : list (N * ClientCall P) → N → ClientCall P → error + A).

Inductive ClientOp := OpRegister (id : uuid) (conn : N) | OpDeregister (id : uuid).

Definition client_op (op : ClientOp) : GoM (gateway P) unit :=
  match op with
  | OpRegister id conn => RegisterClient id (Some conn)
  | OpDeregister id => DeregisterClient id
  end.
(** The connection of each session. *)
Definition spec_client_op (m : gmap uuid N) (op : ClientOp) : gmap uuid N :=
  match op with OpRegister id conn => <[id := conn]> m | OpDeregister id => delete id m end.

(** The two maps of the gateway are the one map [m]. *)
Definition routes (m : gmap uuid N) (g : gateway P) : Prop :=
  connections g = m ∧ clients g = ClientDispatcher <$> m.

Lemma client_op_routes op m g :
  routes m g → (client_op op g).1 = Ok tt ∧ routes (spec_client_op m op) (client_op op g).2 ∧
  sent (client_op op g).2 = sent g.
Proof.
  intros [<- Hc]. unfold routes. destruct op; cbn; rewrite Hc;
    [by rewrite fmap_insert|by rewrite fmap_delete].
Qed.

Lemma client_ops_route ops : ∀ m g, routes m g →
  (forM_ ops client_op g).1 = Ok tt ∧ routes (foldl spec_client_op m ops) (forM_ ops client_op g).2 ∧
  sent (forM_ ops client_op g).2 = sent g.
Proof.
  induction ops as [|op ops IH]; intros m g Hg; cbn [forM_ foldl]; [done|].
  destruct (client_op_routes op m g Hg) as (Hrun&Hg'&Hs). destruct (client_op op g) as [r g1] eqn:Hop.
  cbn in *. subst r. rewrite (sbind_ok _ _ _ _ _ Hop), <- Hs. by apply IH.
Qed.

Lemma getClient_routes m g ctx :
  routes m g → getClient ctx g =
    (id <-? ContextToSessionUUID ctx;;
     match m !! id with
     | Some conn => Ok (ClientDispatcher conn, conn)
     | None => Err (EText "client with id not found")
     end).
Proof.
  intros [Hc Hcl]. unfold getClient. destruct (ContextToSessionUUID ctx) as [id| | |]; cbn; [|done..].
  rewrite Hcl, Hc, lookup_fmap. by destruct (m !! id).
Qed.

Lemma client_of_ok m g ctx id conn :
  routes m g → SessionContextKey ctx = Some id → m !! id = Some conn →
  client_of ctx g = (Ok (ClientDispatcher conn, conn), g).
Proof.
  intros Hg Hid Hm. unfold client_of. rewrite (getClient_routes m) by done.
  unfold ContextToSessionUUID. rewrite Hid. cbn. by rewrite Hm.
Qed.

(** [sent] with more calls on a connection. *)
Definition send_all (conn : N) (calls : list (ClientCall P)) (g : gateway P) : gateway P :=
  mkGateway (clients g) (connections g) (sent g ++ (pair conn <$> calls)).

Lemma send_all_nil conn g : send_all conn [] g = g.
Proof. destruct g. unfold send_all. cbn. by rewrite app_nil_r. Qed.
Lemma send_all_app conn l k g : send_all conn k (send_all conn l g) = send_all conn (l ++ k) g.
Proof. unfold send_all. cbn. by rewrite fmap_app, app_assoc. Qed.
Lemma send_all_routes m conn l g : routes m g → routes m (send_all conn l g).
Proof. done. Qed.

(** The session of the context is known to the gateway, with this connection. *)
Definition connected (ctx : Context) (g : gateway P) (conn : N) : Prop :=
  ∃ id, SessionContextKey ctx = Some id ∧ clients g !! id = Some (ClientDispatcher conn) ∧
        connections g !! id = Some conn.

Lemma connected_client_of ctx g conn :
  connected ctx g conn → client_of ctx g = (Ok (ClientDispatcher conn, conn), g).
Proof.
  intros (id&Hid&Hc&Hn). unfold client_of, getClient, ContextToSessionUUID. rewrite Hid. cbn.
  by rewrite Hc, Hn.
Qed.

Lemma endProgressFunc_eq p g :
  endProgressFunc respond p g =
  (Ok tt, send_all (client_conn (prompt_client p)) [CallProgress (prompt_token p) WorkDoneProgressEnd] g).
Proof. unfold endProgressFunc, sbind, try_, send_on. by destruct (respond _ _ _). Qed.
Lemma updateProgressFunc_eq p g :
  updateProgressFunc respond p g =
  (Ok tt, send_all (client_conn (prompt_client p))
    [CallProgress (prompt_token p) (WorkDoneProgressReport _messageUserInputProgressUpdate)] g).
Proof. unfold updateProgressFunc, sbind, try_, send_on. by destruct (respond _ _ _). Qed.

(** What a timer with [rest] left has sent after the time [d]. *)
Definition fired (rest : option Z) (d : Z) (call : ClientCall P) : list (ClientCall P) :=
  match rest with Some rest => if rest <=? d then [call] else [] | None => [] end.
Definition report token : ClientCall P :=
  CallProgress token (WorkDoneProgressReport _messageUserInputProgressUpdate).

Lemma prompt_elapse_eq conn token t1 t2 d g :
  prompt_elapse respond d (mkPrompt (ClientDispatcher conn) token t1 t2) g =
  (Ok (mkPrompt (ClientDispatcher conn) token (timer_elapse d t1).2 (timer_elapse d t2).2),
   send_all conn (fired t1 d (report token) ++ fired t2 d (CallProgress token WorkDoneProgressEnd)) g).
Proof.
  unfold prompt_elapse. cbn [updateProgressTimer endProgressTimer].
  destruct t1 as [t1|], t2 as [t2|]; cbn [timer_elapse fired];
    repeat case_match; simplify_eq; unfold sbind;
    rewrite ?updateProgressFunc_eq, ?endProgressFunc_eq; cbn [sret];
    rewrite ?updateProgressFunc_eq, ?endProgressFunc_eq, ?send_all_app, ?send_all_nil; done.
Qed.

(** The timers of a prompt: an update that is pending is due before the end. *)
Definition timers_ordered (t1 t2 : option Z) : Prop :=
  match t1, t2 with
  | Some a, Some b => 0 < a ≤ b
  | Some _, None => False
  | None, Some b => 0 < b
  | None, None => True
  end.
Definition total (waits : list Z) : Z := foldr Z.add 0 waits.

Lemma timer_elapse_fired t d (w : Z) call :
  0 ≤ d → 0 ≤ w →
  fired t (d + w) call = fired t d call ++ fired (timer_elapse d t).2 w call.
Proof.
  intros Hd Hw. destruct t as [t|]; cbn; [|done].
  destruct (Z.leb_spec t d), (Z.leb_spec t (d + w)); cbn; try lia; try done;
    destruct (Z.leb_spec (t - d) w); try lia; done.
Qed.

Lemma total_nonneg waits : Forall (Z.le 0) waits → 0 ≤ total waits.
Proof. unfold total. induction 1 as [|d l Hd _ IH]; cbn [foldr]; lia. Qed.

Lemma timers_ordered_elapse t1 t2 d :
  0 ≤ d → timers_ordered t1 t2 → timers_ordered (timer_elapse d t1).2 (timer_elapse d t2).2.
Proof.
  intros Hd. destruct t1 as [a|], t2 as [b|]; cbn; intros Ho; try done;
    repeat match goal with |- context [?x <=? d] => destruct (Z.leb_spec x d) end; cbn; lia.
Qed.

Lemma timer_elapse_fired_once t1 t2 d w (c1 c2 : ClientCall P) :
  0 ≤ d → 0 ≤ w → timers_ordered t1 t2 →
  fired t1 (d + w) c1 ++ fired t2 (d + w) c2 =
  (fired t1 d c1 ++ fired t2 d c2) ++
  fired (timer_elapse d t1).2 w c1 ++ fired (timer_elapse d t2).2 w c2.
Proof.
  intros Hd Hw Ho. rewrite !timer_elapse_fired by done.
  destruct t1 as [a|], t2 as [b|]; cbn in *; try done.
  destruct (Z.leb_spec a d), (Z.leb_spec b d); cbn; try lia; done.
Qed.

(** The timers of a prompt after the user has taken the times [waits]. *)
Lemma wait_for_user_eq waits conn token : Forall (Z.le 0) waits → ∀ t1 t2 g, timers_ordered t1 t2 →
  ∃ t1' t2', wait_for_user respond waits (mkPrompt (ClientDispatcher conn) token t1 t2) g =
    (Ok (mkPrompt (ClientDispatcher conn) token t1' t2'),
     send_all conn (fired t1 (total waits) (report token) ++
                    fired t2 (total waits) (CallProgress token WorkDoneProgressEnd)) g) ∧
    (is_Some t2' ↔ ∃ b, t2 = Some b ∧ total waits < b).
Proof.
  induction 1 as [|d waits Hd Hw IH]; intros t1 t2 g Ho; cbn [wait_for_user].
  - exists t1, t2. split.
    + destruct t1 as [a|], t2 as [b|]; cbn in *; rewrite ?(proj2 (Z.leb_gt _ _)) by lia;
        by rewrite send_all_nil.
    + cbn. split; [|by intros (?&->&_)]. intros [b ->]. exists b. split; [done|].
      destruct t1; cbn in Ho; lia.
  - pose proof (total_nonneg _ Hw) as H0.
    rewrite (sbind_ok _ _ _ _ _ (prompt_elapse_eq conn token t1 t2 d g)).
    destruct (IH _ _ (send_all conn (fired t1 d (report token) ++
      fired t2 d (CallProgress token WorkDoneProgressEnd)) g) (timers_ordered_elapse t1 t2 d Hd Ho))
      as (t1'&t2'&Hrun&Hsome).
    exists t1', t2'. rewrite Hrun, send_all_app. cbn [total foldr]. fold (total waits).
    rewrite <- timer_elapse_fired_once by done. split; [done|]. rewrite Hsome.
    destruct t2 as [b|]; cbn; [|by split; intros (?&[=]&_)].
    destruct (Z.leb_spec b d); cbn.
    + split; [by intros (?&[=]&_)|]. intros (?&[= <-]&?). lia.
    + split; intros (?&[= <-]&?); eexists; (split; [done|lia]).
Qed.

(** ** What is sent *)

Lemma send_on_ok conn call a g :
  respond (sent g) conn call = inr a → send_on respond conn call g = (Ok a, send_all conn [call] g).
Proof. unfold send_on. by intros ->. Qed.
Lemma try_send_on conn call g :
  try_ (send_on respond conn call) g = (Ok (respond (sent g) conn call), send_all conn [call] g).
Proof. unfold try_, send_on. by destruct (respond _ _ _). Qed.

(** The calls that open a prompt. *)
Definition opening (token : string) : list (ClientCall P) :=
  [CallWorkDoneProgressCreate token;
   CallProgress token (WorkDoneProgressBegin _titleUserInputProgress _messageUserInputProgressInitial true)].

Lemma showWaiting_ok ctx conn token g :
  connected ctx g conn → (∀ h c, c ∈ opening token → ∃ a, respond h conn c = inr a) →
  showWaitingForUserSelection respond (inr token) ctx g =
  (Ok (mkPrompt (ClientDispatcher conn) token (Some _timeoutUserSelectionMoreInfo)
        (Some _timeoutUserSelectionEnd)), send_all conn (opening token) g).
Proof.
  intros Hc Hok. unfold showWaitingForUserSelection.
  rewrite (sbind_ok _ _ _ _ _ (connected_client_of ctx g conn Hc)).
  destruct (Hok (sent g) (CallWorkDoneProgressCreate token)) as [a1 H1]; [by left|].
  destruct (Hok (sent g ++ [(conn, CallWorkDoneProgressCreate token)]) (CallProgress token
    (WorkDoneProgressBegin _titleUserInputProgress _messageUserInputProgressInitial true)))
    as [a2 H2]; [by right; left|].
  unfold sbind, wrapM, send_on, lift_res. cbn. rewrite H1. cbn. rewrite H2. cbn.
  unfold send_all. cbn. by rewrite <- app_assoc.
Qed.

(** [doneFunc] ends the progress unless the timer has. *)
Lemma doneFunc_ends conn token t1 t2 b w l g :
  (is_Some t2 ↔ ∃ b', Some b = Some b' ∧ w < b') →
  doneFunc respond (mkPrompt (ClientDispatcher conn) token t1 t2)
    (send_all conn (l ++ fired (Some b) w (CallProgress token WorkDoneProgressEnd)) g) =
  (Ok tt, send_all conn (l ++ [CallProgress token WorkDoneProgressEnd]) g).
Proof.
  intros Hend. unfold doneFunc. cbn [endProgressTimer fired].
  destruct t2 as [t2|], (Z.leb_spec b w) as [Hle|Hlt].
  - destruct (proj1 Hend ltac:(by eexists)) as (?&[= <-]&?). lia.
  - by rewrite endProgressFunc_eq, send_all_app, app_nil_r.
  - done.
  - destruct (proj2 Hend ltac:(by eexists)) as [? [=]].
Qed.

(** A request for a selection of the user is sent to the client of the session
    and its answer is returned.  At the level of errors nothing else is sent; at
    every other level the request comes after the opening of a progress on the
    same client, which is updated once if the user takes 5 seconds or longer and
    ended exactly once, after all the rest, however long the user takes and
    however the request fares. *)
Theorem ShowMessageRequest_prompts ctx conn token waits params type g :
  Forall (Z.le 0) waits → (∀ h c, c ∈ opening token → ∃ a, respond h conn c = inr a) →
  connected ctx g conn →
  let request := CallShowMessageRequest params type in
  let '(r, g') := ShowMessageRequest respond (inr token) waits ctx params type g in
  if bool_decide (type ≤ MessageTypeError) then
    r = match respond (sent g) conn request with inl e => Err e | inr a => Ok a end ∧
    sent g' = sent g ++ [(conn, request)]
  else
    r = match respond (sent g ++ (pair conn <$> opening token)) conn request with
        | inl e => Err e | inr a => Ok a end ∧
    sent g' = sent g ++ (pair conn <$> opening token ++ [request] ++
      (if bool_decide (5 * Second ≤ total waits) then [report token] else []) ++
      [CallProgress token WorkDoneProgressEnd]).
Proof.
  intros Hw Hok Hc request. unfold ShowMessageRequest.
  rewrite (sbind_ok _ _ _ _ _ (connected_client_of ctx g conn Hc)). cbn [client_conn].
  destruct (Z.ltb_spec MessageTypeError type); [rewrite bool_decide_false by lia|by rewrite bool_decide_true by lia].
  unfold wrapM. unfold sbind at 1. rewrite (showWaiting_ok _ conn) by done. cbn [wrap_err].
  rewrite (sbind_ok _ _ _ _ _ (try_send_on conn request _)).
  destruct (wait_for_user_eq waits conn token Hw (Some _timeoutUserSelectionMoreInfo)
    (Some _timeoutUserSelectionEnd) (send_all conn [request] (send_all conn (opening token) g)))
    as (t1&t2&Hrun&Hend); [done|].
  rewrite (sbind_ok _ _ _ _ _ Hrun), send_all_app, send_all_app, !app_assoc.
  unfold sbind at 1. rewrite doneFunc_ends by done. cbn [sent send_all].
  replace (bool_decide (5 * Second ≤ total waits)) with (_timeoutUserSelectionMoreInfo <=? total waits).
  2:{ apply Bool.eq_iff_eq_true. rewrite Z.leb_le, bool_decide_eq_true. done. }
  cbn [fired]. rewrite <- !app_assoc. by destruct (respond _ _ request).
Qed.

(** The connection that the session of the context has in [m]. *)
Definition conn_of (m : gmap uuid N) (ctx : Context) : option N :=
  SessionContextKey ctx ≫= (m !!.).
Definition answer (r : error + A) : gores A := match r with inl e => Err e | inr a => Ok a end.

Lemma connected_spec m g ctx conn :
  routes m g → conn_of m ctx = Some conn → connected ctx g conn.
Proof.
  intros [Hn Hc] (id&Hid&Hm)%bind_Some. exists id. rewrite Hc, Hn, lookup_fmap, Hm. done.
Qed.
Lemma disconnected_spec m g ctx :
  routes m g → conn_of m ctx = None → ∃ e, getClient ctx g = Err e.
Proof.
  intros Hg Hm. rewrite (getClient_routes m) by done. unfold ContextToSessionUUID, conn_of in *.
  destruct (SessionContextKey ctx) as [id|]; cbn in *; [|by eexists]. rewrite Hm. by eexists.
Qed.

(** C26: after any clients have been registered and deregistered, a call reaches
    exactly the connection that was registered last for the session of the
    context and not deregistered since, and its answer is returned; so does what
    is written to a log writer, which reports all bytes as written.  Without
    such a connection an error is returned and nothing is sent.  Of
    [ShowMessageRequest], which shows a prompt, only the case without a connection
    is part of it. *)
Theorem gateway_routes ops ctx :
  let g := (forM_ ops client_op New).2 in
  match conn_of (foldl spec_client_op ∅ ops) ctx with
  | Some conn =>
    (∀ call, forward respond ctx call g = (answer (respond [] conn call), send_all conn [call] g)) ∧
    (∀ params, ShowDocument respond ctx params g =
      (match respond [] conn (CallShowDocument params) with
       | inl e => Err (EWrap _errSendToClient e)
       | inr _ => Ok None
       end, send_all conn [CallShowDocument params] g)) ∧
    ∀ prefix, ∃ w, GetLogMessageWriter ctx prefix g = (Ok w, g) ∧
      ∀ g' p, let call := CallLogMessage ("[" +:+ prefix +:+ "] " +:+ TrimNewline p) MessageTypeLog in
        Write respond w p g' =
        (match respond (sent g') conn call with
         | inl e => Err (EWrap "writing to IDE log message writer" e)
         | inr _ => Ok (Z.of_nat (String.length p))
         end, send_all conn [call] g')
  | None =>
    (∀ call, ∃ e, forward respond ctx call g = (Err e, g)) ∧
    (∀ params, ∃ e, ShowDocument respond ctx params g = (Err e, g)) ∧
    (∀ newV4 waits params type, ∃ e,
      ShowMessageRequest respond newV4 waits ctx params type g = (Err e, g)) ∧
    ∀ prefix, ∃ e, GetLogMessageWriter ctx prefix g = (Err e, g)
  end.
Proof.
  cbv zeta. destruct (client_ops_route ops ∅ New) as (_&Hg&Hs); [by split; [|rewrite fmap_empty]|].
  set (g := (forM_ ops client_op New).2) in *. cbn in Hs.
  destruct (conn_of _ ctx) as [conn|] eqn:Hm.
  - pose proof (connected_spec _ _ _ _ Hg Hm) as Hc. pose proof (connected_client_of _ _ _ Hc) as Ho.
    split_and!.
    + intros call. unfold forward. rewrite (sbind_ok _ _ _ _ _ Ho). unfold send_on, send_all. by rewrite Hs.
    + intros params. unfold ShowDocument. rewrite (sbind_ok _ _ _ _ _ Ho).
      unfold sbind, wrapM, send_on, send_all. rewrite Hs. by destruct (respond [] _ _).
    + intros prefix. unfold GetLogMessageWriter, sbind. unfold client_of in Ho.
      destruct (getClient ctx g) as [[c n]| | |]; try done. cbn in Ho. simplify_eq.
      eexists. split; [done|]. intros g' p. unfold Write, sbind, wrapM, send_on. cbn.
      by destruct (respond (sent g') _ _).
  - destruct (disconnected_spec _ _ _ Hg Hm) as [e He].
    assert (Ho : client_of ctx g = (Err (EWrap _errSendToClient e), g)) by (unfold client_of; by rewrite He).
    split_and!; intros; eexists.
    + unfold forward. by rewrite (sbind_err _ _ _ _ _ Ho).
    + unfold ShowDocument. by rewrite (sbind_err _ _ _ _ _ Ho).
    + unfold ShowMessageRequest. by rewrite (sbind_err _ _ _ _ _ Ho).
    + unfold GetLogMessageWriter, sbind. by rewrite He.
Qed.
End proofs.

(** A client that accepts everything. *)
Definition agreeable (h : list (N * ClientCall unit)) (conn : N) (c : ClientCall unit) : error + unit :=
  inr tt.
Definition sample_gateway : gateway unit :=
  mkGateway {[7%N := ClientDispatcher 1%N]} {[7%N := 1%N]} [].

Lemma ShowMessageRequest_prompts_witness :
  sent (ShowMessageRequest agreeable (inr "t") [Second; Minute * 3] (mkContext (Some 7%N)) tt
    MessageTypeInfo sample_gateway).2 =
  pair 1%N <$> opening "t" ++ [CallShowMessageRequest tt MessageTypeInfo; report "t";
    CallProgress "t" WorkDoneProgressEnd].
Proof.
  pose proof (ShowMessageRequest_prompts agreeable (mkContext (Some 7%N)) 1%N "t" [Second; Minute * 3] tt
    MessageTypeInfo sample_gateway) as H.
  assert (Forall (Z.le 0) [Second; Minute * 3]) as Hw by (repeat constructor; done).
  specialize (H Hw (λ _ _ _, ex_intro _ tt eq_refl)
    (ex_intro _ 7%N (conj eq_refl (conj eq_refl eq_refl)))).
  destruct (ShowMessageRequest _ _ _ _ _ _ _) as [r g']. exact (proj2 H).
Defined.
End IdeClient.
