(* ===== verification/WorkspaceUtils.v ===== *)
(** * Workspace utilities

    Models [src/ulsp/internal/workspace-utils/utils.go]: the root of a workspace
    from its folders, the name of its repository and its environment.

    What the code asks of the operating system is a parameter: the path of a
    folder's URI ([url.Parse]), the answer of [git rev-parse --show-toplevel]
    ([fs.WorkspaceRoot]), and the outcome of the commands that print the remote
    and the environment.  The warning about a conflict goes to the IDE client of
    the session, whose failure is ignored. *)

From stdpp Require Import base list strings.
From Stdlib Require Import ZArith Lia Ascii.
From S2P Require Import Prelude Session IdeClient.

Local Open Scope Z_scope.

Module WorkspaceUtils.

Definition _dirEnvDeniedSubstring : string := "Run `direnv allow` to approve its content".

(** ** Functions of [strings] *)

Definition chars : string → list ascii := String.list_ascii_of_string.
Definition of_chars : list ascii → string := String.string_of_list_ascii.
Definition bytes_ascii (l : list nat) : list ascii := ascii_of_nat <$> l.

(** The encodings of the characters that [unicode.IsSpace] holds of. *)
Definition spaces : list (list ascii) :=
  bytes_ascii <$>
  ([[9]; [10]; [11]; [12]; [13]; [32]; [194; 133]; [194; 160]; [225; 154; 128]] ++
   ((λ n, [226; 128; n]) <$> seq 128 11) ++
   [[226; 128; 168]; [226; 128; 169]; [226; 128; 175]; [226; 129; 159]; [227; 128; 128]])%nat.

(** [l] without the prefixes that are among [ps], one after the other *)
Fixpoint strip_prefix (p l : list ascii) : option (list ascii) :=
  match p, l with
  | [], _ => Some l
  | a :: p', b :: l' => if bool_decide (a = b) then strip_prefix p' l' else None
  | _ :: _, [] => None
  end.
Definition strip_one (ps : list (list ascii)) (l : list ascii) : option (list ascii) :=
  head (omap (λ p, strip_prefix p l) ps).
Fixpoint strip (fuel : nat) (ps : list (list ascii)) (l : list ascii) : list ascii :=
  match fuel with
  | O => l
  | S fuel' => match strip_one ps l with Some l' => strip fuel' ps l' | None => l end
  end.
Definition trim_left (ps : list (list ascii)) (l : list ascii) : list ascii := strip (length l) ps l.

(** [strings.TrimSpace] *)
Definition TrimSpace (s : string) : string :=
  of_chars (reverse (trim_left (reverse <$> spaces) (reverse (trim_left spaces (chars s))))).

(** [strings.Split] by one character *)
Fixpoint Split (sep : ascii) (s : string) : list string :=
  match s with
  | EmptyString => [EmptyString]
  | String c s' =>
    if bool_decide (c = sep) then EmptyString :: Split sep s'
    else match Split sep s' with
         | [] => [String c EmptyString]
         | x :: xs => String c x :: xs
         end
  end.

(** [strings.Contains] *)
Fixpoint Contains (s sub : string) : bool :=
  String.prefix sub s || match s with EmptyString => false | String _ s' => Contains s' sub end.

Lemma append_assoc (s t u : string) : (s +:+ t) +:+ u = s +:+ t +:+ u.
Proof.
  induction s as [|c s IH]; [done|]. change (String c ((s +:+ t) +:+ u) = String c (s +:+ t +:+ u)). by rewrite IH.
Qed.
Lemma append_nil (s : string) : s +:+ "" = s.
Proof. induction s as [|c s IH]; [done|]. change (String c (s +:+ "") = String c s). by rewrite IH. Qed.

(** ** The workspace root *)

Section utils.
Context {P A : Type} (respond : list (N * IdeClient.ClientCall P) → N → IdeClient.ClientCall P → error + A).
Context (url_Parse : string → gores string) (fs_WorkspaceRoot : string → gores string).
(** the text of the warning about the root, the other root and the folder *)
Context (conflict_message : string → string → string → string).

Abbreviation M := (GoM (IdeClient.gateway P)).

(** What a folder says about the root. *)
Definition folder_root (uri : string) : gores string :=
  fileSystemPath <-? url_Parse uri;;
  fs_WorkspaceRoot fileSystemPath.

(** The loop over the folders; the first root is [result]. *)
Fixpoint find_root (ctx : Context) (folders : list string) (result : string) : M string :=
  match folders with
  | [] => sret result
  | uri :: folders' =>
    match folder_root uri with
    | Err _ => find_root ctx folders' result
    | Ok out =>
      if bool_decide (result = "") then find_root ctx folders' out
      else if bool_decide (result ≠ out) then
        _ <- try_ (IdeClient.ShowMessage respond ctx (conflict_message result out uri)
                     IdeClient.MessageTypeWarning);;
        sret result
      else find_root ctx folders' result
    | Panic => lift_res Panic
    | Fuel => lift_res Fuel
    end
  end.

Definition GetWorkspaceRoot (ctx : Context) (workspaceFolders : list string) : M string :=
  if bool_decide (workspaceFolders = []) then throw (EText "no workspace folders provided")
  else
    result <- find_root ctx workspaceFolders "";;
    if bool_decide (result = "") then
      throw (EText "unable to determine a workspace root among the following searched folders")
    else sret (TrimSpace result).

(** ** The repository and the environment *)

(** [run_git dir] is the output of [git remote get-url origin] in [dir]. *)
Definition GetRepoName (run_git : string → gores string) (dir : string) : gores string :=
  stdout <-? wrap_err "getting git remote url" (run_git dir);;
  match Split ":" (TrimSpace stdout) with
  | [_; repo] => Ok repo
  | _ => Err (EText "invalid git remote url")
  end.

(** [run_env dir] is the error of the script, if any, with what it wrote to the
    standard output and to the standard error. *)
Definition GetEnv (run_env : string → option error * string * string) (dir : string) : gores (list string) :=
  let '(err, stdout, stderr) := run_env dir in
  match err with
  | Some e =>
    if Contains stderr _dirEnvDeniedSubstring then
      Err (EText "please run `direnv allow` to approve the latest .envrc content, then reload this window")
    else Err (EWrap "running direnv" e)
  | None => Ok (Split (ascii_of_nat 10) (TrimSpace stdout))
  end.

(** ** The root among the folders *)

(** The folders whose root can be found, with it. *)
Definition found_roots (folders : list string) : list (string * string) :=
  omap (λ uri, match folder_root uri with Ok out => Some (uri, out) | _ => None end) folders.
(** The first root that is not empty, and the folders after it. *)
Fixpoint first_root (found : list (string * string)) : option (string * list (string * string)) :=
  match found with
  | [] => None
  | (_, out) :: found' => if bool_decide (out = "") then first_root found' else Some (out, found')
  end.
Definition first_conflict (root : string) (found : list (string * string)) : option (string * string) :=
  List.find (λ x, negb (bool_decide (x.2 = root))) found.
Definition warn (ctx : Context) (root : string) (x : option (string * string)) (g : IdeClient.gateway P) :=
  match x with
  | Some (uri, out) =>
    (IdeClient.ShowMessage respond ctx (conflict_message root out uri) IdeClient.MessageTypeWarning g).2
  | None => g
  end.

Lemma try_ShowMessage ctx m t g :
  ∃ r, try_ (IdeClient.ShowMessage respond ctx m t) g
       = (Ok r, (IdeClient.ShowMessage respond ctx m t g).2).
Proof.
  unfold IdeClient.ShowMessage, IdeClient.forward, IdeClient.client_of, IdeClient.getClient,
    ContextToSessionUUID, try_, sbind, IdeClient.send_on.
  destruct (SessionContextKey ctx); cbn; [|by eexists].
  repeat (case_match; cbn); simplify_eq; try by eexists.
Qed.

Section roots.
Context (Hparse : ∀ uri, (∃ out, folder_root uri = Ok out) ∨ ∃ e, folder_root uri = Err e).

Lemma find_root_conflict ctx folders root g :
  root ≠ "" → find_root ctx folders root g = (Ok root, warn ctx root (first_conflict root (found_roots folders)) g).
Proof.
  intros Hroot. induction folders as [|uri folders IH]; cbn [find_root found_roots omap list_omap]; [done|].
  destruct (Hparse uri) as [[out ->]|[e ->]]; [|exact IH].
  rewrite bool_decide_false by done. cbn [first_conflict List.find snd].
  destruct (decide (out = root)) as [->|Hne].
  - rewrite (bool_decide_false (root ≠ root)), (bool_decide_true (root = root)) by tauto. exact IH.
  - rewrite (bool_decide_true (root ≠ out)), (bool_decide_false (out = root)) by done. cbn [negb warn].
    destruct (try_ShowMessage ctx (conflict_message root out uri) IdeClient.MessageTypeWarning g) as [r Hr].
    by rewrite (sbind_ok _ _ _ _ _ Hr).
Qed.

Lemma find_root_first ctx folders g :
  find_root ctx folders "" g =
  match first_root (found_roots folders) with
  | Some (root, rest) => (Ok root, warn ctx root (first_conflict root rest) g)
  | None => (Ok "", g)
  end.
Proof.
  induction folders as [|uri folders IH]; cbn [find_root found_roots omap list_omap]; [done|].
  destruct (Hparse uri) as [[out ->]|[e ->]]; [|exact IH].
  rewrite bool_decide_true by done. cbn [first_root]. case_bool_decide as Ho; [by subst|].
  by rewrite find_root_conflict.
Qed.

(** The root of a workspace is the first root that is found among its folders,
    without white space around it; folders without one are skipped.  The client
    is warned once if a later folder has another root.  If no folder has a root,
    an error is returned and nothing is sent. *)
Theorem GetWorkspaceRoot_first ctx folders g :
  GetWorkspaceRoot ctx folders g =
  match first_root (found_roots folders) with
  | Some (root, rest) => (Ok (TrimSpace root), warn ctx root (first_conflict root rest) g)
  | None =>
    (Err (EText (if bool_decide (folders = []) then "no workspace folders provided"
      else "unable to determine a workspace root among the following searched folders")), g)
  end.
Proof.
  unfold GetWorkspaceRoot. case_bool_decide as Hf; [by subst|].
  unfold sbind. rewrite find_root_first.
  destruct (first_root (found_roots folders)) as [[root rest]|] eqn:Hr; [|done].
  rewrite bool_decide_false; [done|]. revert Hr. generalize (found_roots folders).
  induction l as [|[u out] l IH]; cbn [first_root]; [done|]. case_bool_decide; naive_solver.
Qed.
End roots.
End utils.

(** ** The name of the repository *)

Definition no_char (c : ascii) (s : string) : Prop := c ∉ chars s.

Lemma Split_no_sep sep s : no_char sep s → Split sep s = [s].
Proof.
  unfold no_char. induction s as [|c s IH]; cbn; [done|]. rewrite not_elem_of_cons.
  intros [Hne Hs]. rewrite bool_decide_false by done. by rewrite IH.
Qed.
Lemma Split_app sep s t : no_char sep s → Split sep (s +:+ String sep t) = s :: Split sep t.
Proof.
  unfold no_char. induction s as [|c s IH].
  - change ("" +:+ String sep t) with (String sep t). intros _. cbn [Split]. by rewrite bool_decide_true.
  - change (String c s +:+ String sep t) with (String c (s +:+ String sep t)). cbn [chars String.list_ascii_of_string].
    rewrite not_elem_of_cons. intros [Hne Hs]. cbn [Split]. rewrite bool_decide_false by done.
    by rewrite (IH Hs).
Qed.
Lemma Split_first sep s x xs : Split sep s = x :: xs → no_char sep x ∧
  (xs = [] ∧ s = x ∨ ∃ t, s = x +:+ String sep t ∧ Split sep t = xs).
Proof.
  revert x xs. induction s as [|c s IH]; intros x xs; cbn.
  - intros [= <- <-]. split; [by apply not_elem_of_nil|by left].
  - case_bool_decide as Hc.
    + intros [= <- <-]. subst. split; [by apply not_elem_of_nil|]. right. by eexists.
    + destruct (Split sep s) as [|y ys] eqn:Hs; intros [= <- <-].
      * exfalso. clear -Hs. destruct s; cbn in Hs; repeat case_match; done.
      * destruct (IH y ys eq_refl) as [Hy Hrest].
        split; [unfold no_char in *; cbn; rewrite not_elem_of_cons; done|].
        destruct Hrest as [[-> ->]|(t&->&Ht)]; [by left|right; by exists t].
Qed.

(** The name of the repository is what follows the colon of the remote's URL,
    which has exactly one; it is found for exactly these URLs. *)
Theorem GetRepoName_exact run_git dir repo :
  GetRepoName run_git dir = Ok repo ↔
  ∃ stdout host, run_git dir = Ok stdout ∧ TrimSpace stdout = host +:+ ":" +:+ repo ∧
    no_char ":" host ∧ no_char ":" repo.
Proof.
  unfold GetRepoName. split.
  - destruct (run_git dir) as [stdout| | |]; cbn; [|done..].
    destruct (Split ":" (TrimSpace stdout)) as [|host [|r [|]]] eqn:Hs; try done.
    intros [= ->]. apply Split_first in Hs as [Hh [[? _]|(t&Ht&Hs)]]; [done|].
    apply Split_first in Hs as [Hr [[_ ->]|(t'&_&Hs)]].
    + by exists stdout, host.
    + destruct t'; cbn in Hs; repeat case_match; done.
  - intros (stdout&host&->&Ht&Hh&Hr). cbn. rewrite Ht.
    change (":" +:+ repo) with (String ":" repo). by rewrite Split_app, Split_no_sep.
Qed.

Example TrimSpace_ex : TrimSpace "  /w a
" = "/w a".
Proof. vm_compute. reflexivity. Qed.
Example GetRepoName_ssh :
  GetRepoName (λ _, Ok ("gitolite@code.uber.internal:go-code" +:+ IdeClient.newline)) "/w" = Ok "go-code".
Proof. vm_compute. reflexivity. Qed.
Example GetRepoName_https :
  GetRepoName (λ _, Ok "https://github.com/uber/scip-lsp") "/w" = Ok "//github.com/uber/scip-lsp".
Proof. vm_compute. reflexivity. Qed.

Definition sample_parse (uri : string) : gores string :=
  if bool_decide (uri = "bad") then Err EEOF else Ok uri.
Definition sample_git (path : string) : gores string :=
  if bool_decide (path = "/w/a") then Ok ("/w" +:+ IdeClient.newline)
  else if bool_decide (path = "/v") then Ok ("/v" +:+ IdeClient.newline) else Err EEOF.

Lemma GetWorkspaceRoot_first_witness :
  (GetWorkspaceRoot IdeClient.agreeable sample_parse sample_git (λ _ out _, out) (mkContext (Some 7%N))
    ["bad"; "/w/a"; "/x"; "/v"] IdeClient.sample_gateway).1 = Ok "/w".
Proof.
  rewrite (GetWorkspaceRoot_first IdeClient.agreeable sample_parse sample_git (λ _ out _, out)).
  - vm_compute. reflexivity.
  - intros uri. unfold folder_root, sample_parse, sample_git.
    repeat (case_bool_decide; cbn); first [by left; eexists|by right; eexists].
Defined.
End WorkspaceUtils.
