(* ===== verification/Goroutines.v ===== *)
(** * Goroutines that call the outside

    A goroutine that calls the operating system and the IDE is a [prog]: it
    ends with a result, or makes a call and continues with the answer.  A pool
    of goroutines runs under a schedule, a list of the goroutines that take a
    step; a step is one call, or the end of a goroutine with the send of its
    error to a channel of a given capacity.  The shared state is a table of
    cells (files); a call reads and writes at most one cell.

    Shown: if the goroutines use different cells, every schedule gives each of
    them the answers it would get alone, so that its result, its calls and its
    cell do not depend on the schedule ([pool_local]); with enough turns each
    ends ([pool_ends]); and a channel with a place for every goroutine never
    blocks one ([pool_chan_fits]). *)

From stdpp Require Import base gmap list strings.
From Stdlib Require Import ZArith Lia.
From S2P Require Import Prelude.

Module Goroutines.

Inductive prog {Op : Type} (Resp : Op → Type) (A : Type) : Type :=
  | Ret (a : A)
  | Vis (o : Op) (k : Resp o → prog Resp A).
Arguments Ret {Op Resp A} a.
Arguments Vis {Op Resp A} o k.

Section prog.
Context {Op : Type} {Resp : Op → Type}.

Fixpoint pbind {A B} (m : prog Resp A) (k : A → prog Resp B) : prog Resp B :=
  match m with
  | Ret a => k a
  | Vis o c => Vis o (λ r, pbind (c r) k)
  end.
Definition call (o : Op) : prog Resp (Resp o) := Vis o Ret.

(** [x, err := m; if err != nil { return err }; k] *)
Definition ebind {A B} (m : prog Resp (error + A)) (k : A → prog Resp (error + B)) : prog Resp (error + B) :=
  pbind m (λ r, match r with inl e => Ret (inl e) | inr a => k a end).
Definition ewrap {A} (s : string) (m : prog Resp (error + A)) : prog Resp (error + A) :=
  pbind m (λ r, Ret (match r with inl e => inl (EWrap s e) | inr a => inr a end)).
End prog.
End Goroutines.

Declare Scope prog_scope.
Delimit Scope prog_scope with prog.
Notation "x ⇐ m ;; k" := (Goroutines.pbind m (λ x, k%prog))
  (at level 100, m at next level, right associativity) : prog_scope.
Notation "x ⇐? m ;; k" := (Goroutines.ebind m (λ x, k%prog))
  (at level 100, m at next level, right associativity) : prog_scope.

Module Pool.
Import Goroutines.

Section pool.
Context {Op : Type} {Resp : Op → Type} {L V A E : Type} `{Countable L}.
(** the cell that a call uses *)
Context (loc : Op → option L).
(** what a call of a goroutine answers, and the content of its cell after it *)
Context (perform : nat → ∀ o, option V → Resp o * option V).
(** what a result sends to the channel *)
Context (emit : A → option E) (capacity : nat).

Inductive goroutine := Running (p : prog Resp A) | Done (a : A).

Record pool := mkPool {
  goroutines : list goroutine;
  cells : gmap L V;
  trace : list (nat * Op);
  chan : list E
}.

Definition exec (i : nat) (o : Op) (w : gmap L V) : Resp o * gmap L V :=
  match loc o with
  | None => ((perform i o None).1, w)
  | Some l => let '(r, v) := perform i o (w !! l) in (r, partial_alter (λ _, v) l w)
  end.

(** One step of goroutine [i]; a send to a full channel waits. *)
Definition step (st : pool) (i : nat) : pool :=
  match goroutines st !! i with
  | Some (Running (Vis o k)) =>
    let '(r, w) := exec i o (cells st) in
    mkPool (<[i := Running (k r)]> (goroutines st)) w (trace st ++ [(i, o)]) (chan st)
  | Some (Running (Ret a)) =>
    match emit a with
    | None => mkPool (<[i := Done a]> (goroutines st)) (cells st) (trace st) (chan st)
    | Some e =>
      if bool_decide (length (chan st) < capacity)%nat
      then mkPool (<[i := Done a]> (goroutines st)) (cells st) (trace st) (chan st ++ [e])
      else st
    end
  | _ => st
  end.
Definition run (sch : list nat) (st : pool) : pool := foldl step st sch.

Definition start (ps : list (prog Resp A)) (w : gmap L V) : pool := mkPool (Running <$> ps) w [] [].
Definition is_done (g : goroutine) : bool := match g with Done _ => true | Running _ => false end.

(** ** One goroutine by itself *)

Definition cell_step (i : nat) (o : Op) (v : option V) : Resp o * option V :=
  match loc o with None => ((perform i o None).1, v) | Some _ => perform i o v end.

(** The result, the content of the cell and the calls. *)
Fixpoint alone (i : nat) (p : prog Resp A) (v : option V) : A * option V * list Op :=
  match p with
  | Ret a => (a, v, [])
  | Vis o k =>
    let '(r, v') := cell_step i o v in
    let '(a, v'', t) := alone i (k r) v' in (a, v'', o :: t)
  end.

(** All calls of goroutine [i] use the cell [l], or none. *)
Fixpoint confined {B} (i : nat) (l : L) (p : prog Resp B) : Prop :=
  match p with
  | Ret _ => True
  | Vis o k => (loc o = None ∨ loc o = Some l) ∧ ∀ v, confined i l (k (perform i o v).1)
  end.

(** At most [n] calls are made. *)
Fixpoint within {B} (n : nat) (p : prog Resp B) : Prop :=
  match p with
  | Ret _ => True
  | Vis o k => match n with O => False | S n' => ∀ r, within n' (k r) end
  end.

Lemma confined_bind {B C} i l (m : prog Resp B) (k : B → prog Resp C) :
  confined i l m → (∀ b, confined i l (k b)) → confined i l (pbind m k).
Proof. intros Hm Hk. induction m as [|o c IH]; cbn in *; [done|]. naive_solver. Qed.
Lemma within_mono {B} n m (p : prog Resp B) : within n p → n ≤ m → within m p.
Proof.
  revert n m. induction p as [|o k IH]; intros [|n] [|m] Hp Hm; cbn in *; try done; [lia|].
  intros r. eapply IH; [apply Hp|lia].
Qed.
Lemma within_bind {B C} n j (m : prog Resp B) (k : B → prog Resp C) :
  within n m → (∀ b, within j (k b)) → within (n + j) (pbind m k).
Proof.
  intros Hm Hk. revert n Hm. induction m as [a|o c IH]; intros n Hm; cbn in *.
  - eapply within_mono; [apply Hk|lia].
  - destruct n as [|n]; [done|]. cbn. intros r. by apply IH.
Qed.

Lemma alone_calls n i p v : within n p → (length (alone i p v).2 ≤ n)%nat.
Proof.
  revert n v. induction p as [a|o k IH]; intros n v Hp; cbn [alone]; [cbn; lia|].
  destruct n as [|n]; [done|]. destruct (cell_step i o v) as [r v']. specialize (IH r n v' (Hp r)).
  destruct (alone i (k r) v') as [[a v''] t]. cbn in *. lia.
Qed.

(** ** Every schedule *)

Definition calls_of (i : nat) (t : list (nat * Op)) : list Op :=
  omap (λ x, if bool_decide (x.1 = i) then Some x.2 else None) t.

Lemma calls_of_app i t u : calls_of i (t ++ u) = calls_of i t ++ calls_of i u.
Proof. unfold calls_of. by rewrite omap_app. Qed.

(** What is left of a goroutine, in the state of its cell. *)
Definition rest (i : nat) (g : goroutine) (v : option V) : A * option V * list Op :=
  match g with Running p => alone i p v | Done a => (a, v, []) end.
Definition confined_g (i : nat) (l : L) (g : goroutine) : Prop :=
  match g with Running p => confined i l p | Done _ => True end.

Context (ps : list (prog Resp A)).

Section locality.
Context (ls : list L) (w0 : gmap L V).

(** What a pool has done so far is the beginning of what each goroutine does
    alone; cells of no goroutine are as they were. *)
Definition local_inv (st : pool) : Prop :=
  length (goroutines st) = length ps ∧
  (∀ i g l p, goroutines st !! i = Some g → ls !! i = Some l → ps !! i = Some p →
    confined_g i l g ∧
    alone i p (w0 !! l) =
      (let '(a, v, t) := rest i g (cells st !! l) in (a, v, calls_of i (trace st) ++ t))) ∧
  (∀ l, l ∉ ls → cells st !! l = w0 !! l).

Lemma exec_own i o w l :
  loc o = None ∨ loc o = Some l →
  cell_step i o (w !! l) = ((exec i o w).1, (exec i o w).2 !! l).
Proof.
  unfold cell_step, exec. intros [->| ->]; [done|].
  destruct (perform i o (w !! l)) as [r v]. cbn. by rewrite lookup_partial_alter_eq.
Qed.
Lemma exec_answer i o w : ∃ v, (exec i o w).1 = (perform i o v).1.
Proof.
  unfold exec. destruct (loc o) as [l|]; [|by eexists].
  exists (w !! l). by destruct (perform i o (w !! l)).
Qed.
Lemma exec_other i o w l l' :
  loc o = None ∨ loc o = Some l → l' ≠ l → (exec i o w).2 !! l' = w !! l'.
Proof.
  unfold exec. intros [->| ->] Hne; [done|].
  destruct (perform i o (w !! l)) as [r v]. cbn. by rewrite lookup_partial_alter_ne.
Qed.

Context (Hlen : length ls = length ps) (Hls : NoDup ls).
Context (Hconf : ∀ i l p, ls !! i = Some l → ps !! i = Some p → confined i l p).

Lemma start_inv : local_inv (start ps w0).
Proof.
  split_and!; [by cbn; rewrite length_fmap| |done]. cbn. intros i g l p Hg Hl Hp.
  rewrite list_lookup_fmap, Hp in Hg. simplify_eq/=.
  split; [by apply Hconf|]. by destruct (alone i p (w0 !! l)) as [[a v] t].
Qed.

Lemma step_inv st i : local_inv st → local_inv (step st i).
Proof.
  intros Hinv. pose proof Hinv as (Hn&Hg&Hw). unfold step.
  destruct (goroutines st !! i) as [[[a|o k]|a]|] eqn:Hi; [| |done..].
  - assert (Hend : ∀ ch, local_inv (mkPool (<[i:=Done a]> (goroutines st)) (cells st) (trace st) ch)).
    { intros ch. split_and!; [by cbn; rewrite length_insert| |done]. cbn. intros j g l p Hj Hl Hp.
      destruct (decide (j = i)) as [->|Hne].
      - rewrite list_lookup_insert_eq in Hj by (by eapply lookup_lt_Some). simplify_eq.
        split; [done|]. apply (Hg i _ l p Hi Hl Hp).
      - rewrite list_lookup_insert_ne in Hj by done. by apply (Hg j). }
    destruct (emit a); [|apply Hend]. case_bool_decide; [apply Hend|done].
  - assert (is_Some (ps !! i)) as [p Hp].
    { apply lookup_lt_is_Some. rewrite <- Hn. by eapply lookup_lt_Some. }
    assert (is_Some (ls !! i)) as [l Hl].
    { apply lookup_lt_is_Some. rewrite Hlen. by eapply lookup_lt_Some. }
    destruct (Hg i _ l p Hi Hl Hp) as [[Ho Hk] Ha].
    pose proof (exec_own i o (cells st) l Ho) as Hown. pose proof (exec_answer i o (cells st)) as [u Hu].
    destruct (exec i o (cells st)) as [r w] eqn:He. cbn in Hown.
    assert (Hoth : ∀ l', l' ≠ l → w !! l' = cells st !! l').
    { intros l' Hne. rewrite <- (exec_other i o (cells st) l l' Ho Hne). by rewrite He. }
    split_and!; cbn [goroutines cells trace].
    + by rewrite length_insert.
    + intros j g l' p' Hj Hl' Hp'. rewrite calls_of_app. cbn [calls_of omap list_omap fst snd].
      destruct (decide (j = i)) as [->|Hne].
      * rewrite list_lookup_insert_eq in Hj by (by eapply lookup_lt_Some). simplify_eq.
        split; [cbn in Hu; rewrite Hu; apply Hk|]. rewrite Ha, bool_decide_true by done. cbn [rest alone].
        rewrite Hown. destruct (alone i (k r) (w !! l)) as [[a v] t]. by rewrite <- app_assoc.
      * rewrite list_lookup_insert_ne in Hj by done.
        rewrite bool_decide_false by done. rewrite app_nil_r, Hoth; [by apply Hg|].
        intros ->. by destruct (Hne (NoDup_lookup _ _ _ _ Hls Hl' Hl)).
    + intros l' Hl'. rewrite Hoth; [by apply Hw|]. intros ->. by apply Hl', (list_elem_of_lookup_2 _ i).
Qed.

Lemma run_inv sch st : local_inv st → local_inv (run sch st).
Proof. revert st. induction sch as [|i sch IH]; intros st Hst; [done|]. by apply IH, step_inv. Qed.

(** A goroutine that has ended under any schedule ends as it does alone. *)
Lemma pool_local sch i a l p :
  goroutines (run sch (start ps w0)) !! i = Some (Done a) → ls !! i = Some l → ps !! i = Some p →
  alone i p (w0 !! l) =
    (a, cells (run sch (start ps w0)) !! l, calls_of i (trace (run sch (start ps w0)))).
Proof.
  intros Ha Hl Hp. destruct (run_inv sch _ start_inv) as (_&Hg&_).
  destruct (Hg i _ l p Ha Hl Hp) as [_ ->]. cbn. by rewrite app_nil_r.
Qed.
Lemma pool_frame sch l : l ∉ ls → cells (run sch (start ps w0)) !! l = w0 !! l.
Proof. destruct (run_inv sch _ start_inv) as (_&_&Hw). apply Hw. Qed.
End locality.

(** ** The channel and the end *)

(** What the goroutines that have ended have sent. *)
Definition sent_by (g : goroutine) : option E := match g with Done a => emit a | Running _ => None end.
Definition sent (gs : list goroutine) : list E := omap sent_by gs.

Lemma sent_done gs i p a : gs !! i = Some (Running p) →
  sent (<[i := Done a]> gs) ≡ₚ sent gs ++ option_list (emit a).
Proof.
  intros Hi. pose proof (take_drop_middle gs i _ Hi) as Hgs.
  rewrite insert_take_drop by (by eapply lookup_lt_Some).
  rewrite <- Hgs at 3. unfold sent. rewrite !omap_app. cbn [omap list_omap sent_by].
  destruct (emit a); cbn; [by rewrite <- Permutation_middle, Permutation_cons_append|].
  by rewrite app_nil_r.
Qed.
Lemma sent_call gs i p q : gs !! i = Some (Running p) → sent (<[i := Running q]> gs) = sent gs.
Proof.
  intros Hi. pose proof (take_drop_middle gs i _ Hi) as Hgs.
  rewrite insert_take_drop by (by eapply lookup_lt_Some).
  rewrite <- Hgs at 3. unfold sent. by rewrite !omap_app.
Qed.
Lemma sent_lt gs i p : gs !! i = Some (Running p) → (length (sent gs) < length gs)%nat.
Proof.
  intros Hi. pose proof (lookup_lt_Some _ _ _ Hi). rewrite <- (take_drop_middle gs i _ Hi).
  unfold sent. rewrite omap_app, !length_app. cbn [omap list_omap sent_by length].
  assert (Hle : ∀ l, (length (omap sent_by l) ≤ length l)%nat).
  { induction l as [|g l IH]; cbn; [lia|]. destruct (sent_by g); cbn; unfold omap in *; lia. }
  pose proof (Hle (take i gs)). pose proof (Hle (drop (S i) gs)). lia.
Qed.

(** At most [n] calls are left of goroutine [i]. *)
Definition left_within (i n : nat) (st : pool) : Prop :=
  match goroutines st !! i with
  | Some (Running p) => within n p
  | Some (Done _) => True
  | None => False
  end.

Lemma step_lookup_ne i j st : i ≠ j → goroutines (step st j) !! i = goroutines st !! i.
Proof.
  intros Hne. unfold step. destruct (goroutines st !! j) as [[[a|o k]|a]|]; [| |done..].
  - destruct (emit a); [case_bool_decide|]; cbn; by rewrite ?list_lookup_insert_ne by done.
  - destruct (exec j o (cells st)). cbn. by rewrite list_lookup_insert_ne.
Qed.

Lemma step_calls_ne i j st : i ≠ j → calls_of i (trace (step st j)) = calls_of i (trace st).
Proof.
  intros Hne. unfold step. destruct (goroutines st !! j) as [[[a|o k]|a]|]; [| |done..].
  - destruct (emit a); [case_bool_decide|]; done.
  - destruct (exec j o (cells st)). cbn [trace]. rewrite calls_of_app. cbn.
    by rewrite bool_decide_false, app_nil_r.
Qed.
Lemma run_no_calls sch i st : goroutines st !! i = None →
  calls_of i (trace (run sch st)) = calls_of i (trace st).
Proof.
  revert st. induction sch as [|j sch IH]; intros st Hi; [done|]. cbn [run foldl].
  destruct (decide (i = j)) as [<-|Hne].
  - assert (step st i = st) as -> by (unfold step; by rewrite Hi). by apply IH.
  - etrans; [apply IH; by rewrite step_lookup_ne|by apply step_calls_ne].
Qed.

(** A goroutine that makes at most [n] calls alone makes no more under any
    schedule, also if others use its cell. *)
Lemma run_calls sch i n m st : (∃ g, goroutines st !! i = Some g) →
  left_within i m st → (length (calls_of i (trace st)) + m ≤ n)%nat →
  (length (calls_of i (trace (run sch st))) ≤ n)%nat.
Proof.
  revert m st. induction sch as [|j sch IH]; intros m st [g Hg] Hw Hn; cbn [run foldl]; [lia|].
  destruct (decide (j = i)) as [->|Hne].
  - unfold left_within in Hw. rewrite Hg in Hw. pose proof (lookup_lt_Some _ _ _ Hg) as Hlt. unfold step.
    rewrite Hg. destruct g as [[a|o k]|a]; [| |apply (IH m); [by eexists|unfold left_within; by rewrite Hg|done]].
    + destruct (emit a); [case_bool_decide|]; apply (IH m); unfold left_within; cbn;
        rewrite ?list_lookup_insert_eq, ?Hg by done; eauto.
    + destruct m as [|m]; [done|]. destruct (exec i o (cells st)) as [r w]. apply (IH m);
        unfold left_within; cbn [goroutines trace]; rewrite ?list_lookup_insert_eq by done; [by eexists|apply Hw|].
      rewrite calls_of_app, length_app. cbn. rewrite bool_decide_true by done. cbn. lia.
  - apply (IH m); [rewrite step_lookup_ne by done; by eexists| |].
    + unfold left_within. by rewrite step_lookup_ne.
    + by rewrite step_calls_ne.
Qed.
Lemma pool_calls sch i n w : Forall (within n) ps →
  (length (calls_of i (trace (run sch (start ps w)))) ≤ n)%nat.
Proof.
  intros Hall. destruct (ps !! i) as [p|] eqn:Hp.
  - pose proof (Forall_lookup_1 _ _ _ _ Hall Hp) as Hw. apply (run_calls sch i n n).
    + cbn. rewrite list_lookup_fmap, Hp. by eexists.
    + unfold left_within. cbn. by rewrite list_lookup_fmap, Hp.
    + cbn. lia.
  - rewrite run_no_calls; [cbn; lia|]. cbn. by rewrite list_lookup_fmap, Hp.
Qed.

Section channel.
Context (Hcap : capacity = length ps).

Definition chan_inv (st : pool) : Prop :=
  length (goroutines st) = length ps ∧ chan st ≡ₚ sent (goroutines st).

Lemma chan_room st i p : chan_inv st → goroutines st !! i = Some (Running p) →
  (length (chan st) < capacity)%nat.
Proof. intros [Hn Hc] Hi. rewrite Hcap, <- Hn, Hc. by eapply sent_lt. Qed.

Lemma step_chan st i : chan_inv st → chan_inv (step st i).
Proof.
  intros Hst. pose proof Hst as [Hn Hc]. unfold step.
  destruct (goroutines st !! i) as [[[a|o k]|a]|] eqn:Hi; [| |done..].
  - destruct (emit a) as [e|] eqn:He.
    + rewrite bool_decide_true by (by eapply chan_room). split; cbn; [by rewrite length_insert|].
      rewrite sent_done, He by done. cbn. by rewrite Hc.
    + split; cbn; [by rewrite length_insert|]. rewrite sent_done, He by done. cbn. by rewrite app_nil_r.
  - destruct (exec i o (cells st)) as [r w]. split; cbn; [by rewrite length_insert|].
    by erewrite sent_call.
Qed.
Lemma run_chan sch st : chan_inv st → chan_inv (run sch st).
Proof. revert st. induction sch as [|i sch IH]; intros st Hst; [done|]. by apply IH, step_chan. Qed.
Lemma start_chan w : chan_inv (start ps w).
Proof.
  split; cbn; [by rewrite length_fmap|]. unfold sent.
  assert (Hnil : ∀ l : list (prog Resp A), omap sent_by (Running <$> l) = []); [|by rewrite Hnil].
  by induction l.
Qed.

(** The channel holds what the ended goroutines have sent, and has room for a
    goroutine that runs. *)
Lemma pool_chan_room sch w :
  (length (chan (run sch (start ps w))) +
   length (filter (λ g, is_done g = false) (goroutines (run sch (start ps w)))) ≤ length ps)%nat.
Proof.
  destruct (run_chan sch _ (start_chan w)) as [<- ->]. unfold sent.
  induction (goroutines (run sch (start ps w))) as [|[p|a] l IH]; [done| |]; cbn [omap list_omap sent_by].
  - rewrite filter_cons_True by done. cbn in *. unfold omap in *. lia.
  - rewrite filter_cons_False by done. destruct (emit a); cbn in *; unfold omap in *; lia.
Qed.
Lemma pool_chan_fits sch w : chan (run sch (start ps w)) ≡ₚ sent (goroutines (run sch (start ps w))) ∧
  ∀ i p, goroutines (run sch (start ps w)) !! i = Some (Running p) →
    (length (chan (run sch (start ps w))) < capacity)%nat.
Proof.
  pose proof (run_chan sch _ (start_chan w)) as Hinv. split; [apply Hinv|].
  intros i p. by apply chan_room.
Qed.

Lemma step_own i n st : chan_inv st → left_within i (S n) st → left_within i n (step st i).
Proof.
  intros Hc. unfold left_within, step.
  destruct (goroutines st !! i) as [[[a|o k]|a]|] eqn:Hi; cbn; intros Hw; [| |by rewrite Hi|done].
  - pose proof (chan_room st i _ Hc Hi) as Hroom. pose proof (lookup_lt_Some _ _ _ Hi).
    destruct (emit a); [rewrite bool_decide_true by done|]; cbn; by rewrite list_lookup_insert_eq.
  - destruct (exec i o (cells st)) as [r w]. cbn.
    rewrite list_lookup_insert_eq by (by eapply lookup_lt_Some). apply Hw.
Qed.
Lemma step_last i st : chan_inv st → left_within i 0 st →
  ∃ a, goroutines (step st i) !! i = Some (Done a).
Proof.
  intros Hc. unfold left_within, step.
  destruct (goroutines st !! i) as [[[a|o k]|a]|] eqn:Hi; cbn; intros Hw; [|done|by eexists|done].
  pose proof (chan_room st i _ Hc Hi) as Hroom. pose proof (lookup_lt_Some _ _ _ Hi).
  exists a. destruct (emit a); [rewrite bool_decide_true by done|]; cbn; by rewrite list_lookup_insert_eq.
Qed.
Lemma step_done i j a st : goroutines st !! i = Some (Done a) → goroutines (step st j) !! i = Some (Done a).
Proof.
  intros Hi. destruct (decide (i = j)) as [->|Hne]; [|by rewrite step_lookup_ne].
  unfold step. by rewrite Hi.
Qed.
Lemma run_done sch i a st : goroutines st !! i = Some (Done a) → goroutines (run sch st) !! i = Some (Done a).
Proof. revert st. induction sch as [|j sch IH]; intros st Hi; [done|]. by apply IH, step_done. Qed.

(** The turns that a schedule gives to a goroutine. *)
Definition turns (i : nat) (sch : list nat) : nat := length (filter (.= i) sch).

Lemma run_ends sch i n st : chan_inv st → left_within i n st → (n < turns i sch)%nat →
  ∃ a, goroutines (run sch st) !! i = Some (Done a).
Proof.
  revert n st. induction sch as [|j sch IH]; intros n st Hc Hw Ht; [unfold turns in Ht; cbn in Ht; lia|].
  cbn [run foldl]. unfold turns in Ht. destruct (decide (j = i)) as [->|Hne].
  - rewrite filter_cons_True in Ht by done. cbn in Ht. destruct n as [|n].
    + destruct (step_last i st Hc Hw) as [a Ha]. exists a. by apply run_done.
    + apply (IH n); [by apply step_chan|by apply step_own|unfold turns; lia].
  - rewrite filter_cons_False in Ht by done. apply (IH n); [by apply step_chan| |done].
    unfold left_within. by rewrite step_lookup_ne.
Qed.

(** A goroutine that makes at most [n] calls ends with [n + 1] turns. *)
Lemma pool_ends sch i n p w : ps !! i = Some p → within n p → (n < turns i sch)%nat →
  ∃ a, goroutines (run sch (start ps w)) !! i = Some (Done a).
Proof.
  intros Hp Hw Ht. apply (run_ends sch i n); [apply start_chan| |done].
  unfold left_within. cbn. by rewrite list_lookup_fmap, Hp.
Qed.
End channel.
End pool.

Section alone.
Context {Op : Type} {Resp : Op → Type} {L V : Type} (loc : Op → option L).
Context (perform : nat → ∀ o, option V → Resp o * option V).

Lemma alone_bind {A B} i (m : prog Resp A) (k : A → prog Resp B) v :
  alone loc perform i (pbind m k) v =
  let '(a, v', t) := alone loc perform i m v in
  let '(b, v'', u) := alone loc perform i (k a) v' in (b, v'', t ++ u).
Proof.
  revert v. induction m as [a|o c IH]; intros v; cbn.
  - by destruct (alone loc perform i (k a) v) as [[b v''] u].
  - destruct (cell_step loc perform i o v) as [r v']. rewrite IH.
    destruct (alone loc perform i (c r) v') as [[a v''] t].
    by destruct (alone loc perform i (k a) v'') as [[b v3] u].
Qed.
End alone.
End Pool.
