(* ===== verification/UserGuidance.v ===== *)
(** * User guidance

    Models [src/ulsp/controller/user-guidance/user_guidance.go]: the messages
    of the configuration, shown when a session is initialized, each by a
    goroutine of its own.  A file per message, in the cache directory, says that
    the message was shown, and holds the title of the action if the user chose
    one that is to be remembered.

    The goroutines are programs of [Goroutines], whose calls are those of the
    file system and of the gateway; their interleaving is that of [Pool].  The
    environment says what may go wrong, what a failed write leaves in a file and
    what the user selects, separately for each goroutine.  [errors.As] for errors
    of the JSON-RPC library and [protocol.ToMessageType] are parameters. *)

From stdpp Require Import base gmap list strings.
From Stdlib Require Import ZArith Lia.
From S2P Require Import Prelude Paths Session Plugins Goroutines.

Module UserGuidance.
Import Goroutines.
Local Open Scope prog_scope.

Definition userGuidanceMessageKindOutput : string := "output".
Definition userGuidanceMessageKindNotification : string := "notification".

Record Action := mkAction { Title : string; URI : string; External : bool; Save : bool }.
Record Message := mkMessage {
  Key : string;
  Kind : string;
  MessageText : string;
  MsgType : string;
  Actions : list Action
}.

Definition _nameKey : string := "user-guidance".
Definition _shownMessagesCacheDir : string := "ulsp/shown-messages".

(** [jsonrpc2.InternalError] *)
Definition InternalError : Z := -32603.
Definition canceledMessage : string := "Request window/showMessageRequest failed with message: Canceled".

(** ** Calls *)

Inductive Op :=
  | UserCacheDir
  | ReadFile (path : string)
  | MkdirAll (path : string)
  | Create (path : string)
  | WriteFile (path data : string)
  | LogMessage (type : Z) (message : string)
  | ShowMessage (type : Z) (message : string)
  | ShowMessageRequest (type : Z) (message : string) (titles : list string)
  | ShowDocument (uri : string) (external takeFocus : bool).

(** What [os.ReadFile] returns; [NotExist] is an [os.ErrNotExist]. *)
Inductive Content := NotExist | ReadError (e : error) | Bytes (s : string).

Definition Resp (o : Op) : Type :=
  match o with
  | UserCacheDir => error + string
  | ReadFile _ => Content
  | ShowMessageRequest _ _ _ => error + option string
  | _ => error + unit
  end.

Section guidance.
Context (ToMessageType : string → Z).
(** the code and the message, if [errors.As] finds a [*jsonrpc2.Error] *)
Context (rpcError : error → option (Z * string)).

Definition sentinel_in (cache : string) (msg : Message) : string :=
  path_Join [cache; _shownMessagesCacheDir; Key msg].

Definition buildSentinelFilePath (msg : Message) : prog Resp (error + string) :=
  cache ⇐? ewrap "user cache dir" (call UserCacheDir);;
  Ret (inr (sentinel_in cache msg)).

(** [inr None] is [errNeverShownMessage]. *)
Definition statShownMessage (msg : Message) : prog Resp (error + option string) :=
  sentinelFilePath ⇐? ewrap "build sentinel file path" (buildSentinelFilePath msg);;
  title ⇐ call (ReadFile sentinelFilePath);;
  Ret (match title with
       | NotExist => inr None
       | ReadError e => inl (EWrap "read sentinel file" e)
       | Bytes title => inr (Some title)
       end).

Definition markMessageAsShown (msg : Message) (selection : option string) : prog Resp (error + unit) :=
  sentinelFilePath ⇐? ewrap "build sentinel file path" (buildSentinelFilePath msg);;
  _ ⇐? ewrap "mkdir all sentinel" (call (MkdirAll (Dir sentinelFilePath)));;
  _ ⇐? ewrap "create sentinel file" (call (Create sentinelFilePath));;
  match selection with
  | None => Ret (inr tt)
  | Some title => ewrap "write sentinel file" (call (WriteFile sentinelFilePath title))
  end.

Definition OutputMessage (msg : Message) : prog Resp (error + unit) :=
  stat ⇐? ewrap "stat shown message" (statShownMessage msg);;
  match stat with
  | Some _ => Ret (inr tt)
  | None =>
    _ ⇐? ewrap "log message" (call (LogMessage (ToMessageType (MsgType msg)) (MessageText msg)));;
    ewrap "mark message as shown" (markMessageAsShown msg None)
  end.

(** The loop over the actions once there is a selection. *)
Fixpoint run_selection (msg : Message) (selection : string) (actions : list Action) :
    prog Resp (option Action * option error) :=
  match actions with
  | [] => Ret (None, Some (EText ("no action matches selection '" +:+ selection +:+ "'")))
  | action :: actions' =>
    if bool_decide (selection ≠ Title action) then run_selection msg selection actions'
    else
      saved ⇐ (if Save action then markMessageAsShown msg (Some selection) else Ret (inr tt));;
      match saved with
      | inl e => Ret (None, Some (EWrap "mark message as shown" e))
      | inr _ =>
        if bool_decide (URI action = "") then Ret (Some action, None)
        else
          r ⇐ call (ShowDocument (URI action) (External action) true);;
          match r with
          | inl e => Ret (Some action, Some (EWrap "show document" e))
          | inr _ => Ret (Some action, None)
          end
      end
  end.

Definition is_canceled (e : error) : bool :=
  match rpcError e with
  | Some (code, message) => bool_decide (code = InternalError ∧ message = canceledMessage)
  | None => false
  end.

(** A notification without actions. *)
Definition notify_plain (msg : Message) (stat : option string) : prog Resp (option Action * option error) :=
  match stat with
  | Some _ => Ret (None, None)
  | None =>
    r ⇐ call (ShowMessage (ToMessageType (MsgType msg)) (MessageText msg));;
    match r with
    | inl e => Ret (None, Some (EWrap "show message" e))
    | inr _ =>
      r ⇐ markMessageAsShown msg None;;
      match r with
      | inl e => Ret (None, Some (EWrap "mark message as shown" e))
      | inr _ => Ret (None, None)
      end
    end
  end.

(** The prompt, if no selection is saved. *)
Definition notify_actions (msg : Message) (stat : option string) : prog Resp (option Action * option error) :=
  match stat with
  | Some selection => run_selection msg selection (Actions msg)
  | None =>
    r ⇐ call (ShowMessageRequest (ToMessageType (MsgType msg)) (MessageText msg) (Title <$> Actions msg));;
    match r with
    | inl e =>
      if is_canceled e then Ret (None, None) else Ret (None, Some (EWrap "show message request" e))
    | inr None => Ret (None, None)
    | inr (Some selection) => run_selection msg selection (Actions msg)
    end
  end.

Definition NotifyMessage (msg : Message) : prog Resp (option Action * option error) :=
  stat ⇐ statShownMessage msg;;
  match stat with
  | inl e => Ret (None, Some (EWrap "stat shown message" e))
  | inr stat =>
    if bool_decide (Actions msg = []) then notify_plain msg stat else notify_actions msg stat
  end.

(** The goroutine of a message, and the error that it sends. *)
Definition show_message (msg : Message) : prog Resp (option error) :=
  if bool_decide (Kind msg = userGuidanceMessageKindOutput) then
    r ⇐ OutputMessage msg;;
    Ret (match r with
         | inl e => Some (EWrap ("output message '" +:+ Key msg +:+ "'") e)
         | inr _ => None
         end)
  else if bool_decide (Kind msg = userGuidanceMessageKindNotification) then
    r ⇐ NotifyMessage msg;;
    Ret (EWrap ("notify message '" +:+ Key msg +:+ "'") <$> r.2)
  else Ret None.

(** ** The environment *)

Record Env := mkEnv {
  fails : Op → option error;
  leftover : Op → option string → option string;
  selected : option string
}.

Context (cacheDir : error + string).

Definition loc (o : Op) : option string :=
  match o with ReadFile p | Create p | WriteFile p _ => Some p | _ => None end.

Definition outcome (env : Env) (o : Op) : error + unit :=
  match fails env o with Some e => inl e | None => inr tt end.

(** What a call answers, and what it leaves in its file. *)
Definition perform_env (env : Env) (o : Op) (v : option string) : Resp o * option string :=
  match o with
  | UserCacheDir => (cacheDir, v)
  | ReadFile p =>
    (match fails env (ReadFile p), v with
     | Some e, _ => ReadError e
     | None, None => NotExist
     | None, Some s => Bytes s
     end, v)
  | Create p =>
    match fails env (Create p) with
    | Some e => (inl e, leftover env (Create p) v)
    | None => (inr tt, Some "")
    end
  | WriteFile p s =>
    match fails env (WriteFile p s) with
    | Some e => (inl e, leftover env (WriteFile p s) v)
    | None => (inr tt, Some s)
    end
  | ShowMessageRequest t m l =>
    (match fails env (ShowMessageRequest t m l) with Some e => inl e | None => inr (selected env) end, v)
  | MkdirAll p => (outcome env (MkdirAll p), v)
  | LogMessage t m => (outcome env (LogMessage t m), v)
  | ShowMessage t m => (outcome env (ShowMessage t m), v)
  | ShowDocument u x f => (outcome env (ShowDocument u x f), v)
  end.
Definition perform (envs : nat → Env) (i : nat) : ∀ o, option string → Resp o * option string :=
  perform_env (envs i).

Definition guidance_pool := @Pool.pool Op Resp string string (option error) error _ _.

(** The capacity that [errChan] is made with. *)
Definition errChan_capacity (messages : list Message) : nat := length messages.

(** [sch] is the order in which the goroutines take their steps; the wait
    group is passed when all have ended. *)
Definition displayApplicableMessages (messages : list Message) (envs : nat → Env) (sch : list nat)
    (files : gmap string string) : gores unit * guidance_pool :=
  let st := Pool.run loc (perform envs) id (errChan_capacity messages) sch
              (Pool.start (show_message <$> messages) files) in
  (if forallb Pool.is_done (Pool.goroutines st) then
     match Pool.chan st with e :: _ => Err e | [] => Ok tt end
   else Fuel, st).

Definition initialized (messages : list Message) (envs : nat → Env) (sch : list nat)
    (files : gmap string string) : gores unit * guidance_pool :=
  let '(r, st) := displayApplicableMessages messages envs sch files in
  (wrap_err "display applicable messages" r, st).
End guidance.

(** [StartupInfo] *)
Definition StartupInfo `{ProtocolMethods} (ctx : Context) : gores PluginInfo :=
  Ok (mkPluginInfo {[MethodName Initialized := PriorityAsync]}
    (Some (mkMethods _nameKey [Initialized])) _nameKey None).
End UserGuidance.
