(* ===== verification/UserGuidanceProof.v ===== *)
(** * What the user sees of the guidance

    [show_spec] is the behaviour of one message as a machine over the file of
    the message: unseen, or seen with the title of a remembered action.  Shown:
    whatever the interleaving of the goroutines, messages with different files
    behave as if each were alone ([messages_concurrent]); every goroutine ends,
    as the channel of errors is large enough ([guidance_bounded]); over sessions
    one after the other in which no call fails a message follows the machine ([guidance_refines]), so that a message without actions is shown
    once ([message_shown_once]) and a remembered selection ends the prompts
    ([selection_remembered]).  A selection whose write fails is remembered as an
    empty one, which no action matches ([lost_selection]). *)

From stdpp Require Import base gmap list strings.
From Stdlib Require Import ZArith Lia.
From S2P Require Import Prelude Paths Session Plugins Goroutines UserGuidance.

Module UserGuidanceProof.
Import Goroutines UserGuidance.

(** ** One message *)

(** The calls that the user sees. *)
Definition seen (o : Op) : bool :=
  match o with
  | LogMessage _ _ | ShowMessage _ _ | ShowMessageRequest _ _ _ | ShowDocument _ _ _ => true
  | _ => false
  end.
Definition shows (t : list Op) : list Op := filter (λ o, seen o = true) t.

(** ** The machine of a message

    The state is the content of its file; [sel] is what the user selects if
    asked.  The result is the error, the next state and what the user sees. *)
Definition action_for (msg : Message) (title : string) : option Action :=
  List.find (λ a, bool_decide (title = Title a)) (Actions msg).
Definition opens (a : Action) : list Op :=
  if bool_decide (URI a = "") then [] else [ShowDocument (URI a) (External a) true].
Definition no_match (msg : Message) (title : string) : error :=
  EWrap ("notify message '" +:+ Key msg +:+ "'")
    (EText ("no action matches selection '" +:+ title +:+ "'")).

Definition select_spec (msg : Message) (title : string) (v : option string) :
    option error * option string * list Op :=
  match action_for msg title with
  | Some a => (None, if Save a then Some title else v, opens a)
  | None => (Some (no_match msg title), v, [])
  end.

Definition show_spec (ToMessageType : string → Z) (msg : Message) (sel : option string)
    (v : option string) : option error * option string * list Op :=
  let type := ToMessageType (MsgType msg) in
  if bool_decide (Kind msg = userGuidanceMessageKindOutput) then
    match v with
    | Some _ => (None, v, [])
    | None => (None, Some "", [LogMessage type (MessageText msg)])
    end
  else if bool_decide (Kind msg = userGuidanceMessageKindNotification) then
    match v, bool_decide (Actions msg = []) with
    | Some _, true => (None, v, [])
    | None, true => (None, Some "", [ShowMessage type (MessageText msg)])
    | Some title, false => select_spec msg title v
    | None, false =>
      let prompt := ShowMessageRequest type (MessageText msg) (Title <$> Actions msg) in
      match sel with
      | None => (None, None, [prompt])
      | Some title => let '(e, v', t) := select_spec msg title None in (e, v', prompt :: t)
      end
    end
  else (None, v, []).

Section proofs.
Context (ToMessageType : string → Z) (rpcError : error → option (Z * string)) (cacheDir : error + string).
Context (envs : nat → Env).

Abbreviation show := (show_message ToMessageType rpcError).
Abbreviation alone := (Pool.alone loc (perform cacheDir envs)).
Abbreviation confined := (Pool.confined loc (perform cacheDir envs)).

(** The file of a message. *)
Definition sentinel (msg : Message) : string :=
  sentinel_in (match cacheDir with inr c => c | inl _ => "" end) msg.

Lemma confined_stat i msg : confined i (sentinel msg) (statShownMessage msg).
Proof.
  unfold sentinel. cbn. split; [by left|]. intros _. destruct cacheDir; cbn; [done|].
  split; [by right|]. by intros v.
Qed.
Lemma confined_mark i msg s : confined i (sentinel msg) (markMessageAsShown msg s).
Proof.
  unfold sentinel. cbn. split; [by left|]. intros _. destruct cacheDir as [e|c]; cbn; [done|].
  split; [by left|]. intros _. unfold outcome. destruct (fails _ _); cbn; [done|].
  split; [by right|]. intros v. destruct (fails _ _); cbn; [done|].
  destruct s; cbn; [|done]. by split; [right|].
Qed.
Lemma confined_call i l o : loc o = None → confined i l (call o).
Proof. intros Ho. split; [by left|done]. Qed.

Ltac confine :=
  repeat first
    [ done
    | apply confined_stat | apply confined_mark | apply confined_call; done
    | apply Pool.confined_bind; [|intros []]
    | progress cbn [fst snd]
    | case_bool_decide | case_match ].

Lemma confined_run_selection i msg sel l : confined i (sentinel msg) (run_selection msg sel l).
Proof. induction l as [|a l IH]; cbn [run_selection]; confine. Qed.

(** The goroutine of a message uses the file of the message only. *)
Lemma show_confined i msg : confined i (sentinel msg) (show msg).
Proof.
  unfold show_message, OutputMessage, NotifyMessage, notify_plain, notify_actions, ebind, ewrap.
  confine; apply confined_run_selection.
Qed.

Lemma within_stat msg : Pool.within 2 (statShownMessage msg).
Proof. cbn. by intros []. Qed.
Lemma within_mark msg s : Pool.within 4 (markMessageAsShown msg s).
Proof. cbn. do 3 (intros []; cbn; [done|]). by destruct s. Qed.
Lemma within_run_selection msg sel l : Pool.within 5 (run_selection msg sel l).
Proof.
  induction l as [|a l IH]; cbn [run_selection]; [done|]. case_bool_decide; [done|].
  apply (Pool.within_bind 4 1).
  - destruct (Save a); [apply within_mark|done].
  - intros []; [done|]. case_bool_decide; [done|]. cbn. by intros [].
Qed.

(** It makes at most 8 calls. *)
Lemma show_within msg : Pool.within 8 (show msg).
Proof.
  unfold show_message. case_bool_decide; [|case_bool_decide; [|done]].
  - apply (Pool.within_bind 8 0); [|done]. unfold OutputMessage, ebind, ewrap.
    apply (Pool.within_bind 2 6); [apply (Pool.within_bind 2 0); [apply within_stat|done]|].
    intros [|[|]]; [done..|]. apply (Pool.within_bind 1 5); [done|]. intros [|]; [done|].
    apply (Pool.within_bind 4 1); [apply within_mark|done].
  - apply (Pool.within_bind 8 0); [|done]. unfold NotifyMessage.
    apply (Pool.within_bind 2 6); [apply within_stat|]. intros [|s]; [done|].
    case_bool_decide; destruct s as [s|]; cbn [notify_plain notify_actions]; [done| | |].
    + apply (Pool.within_bind 1 5); [done|]. intros [|]; [done|].
      apply (Pool.within_bind 4 1); [apply within_mark|by intros []].
    + eapply Pool.within_mono; [apply within_run_selection|lia].
    + apply (Pool.within_bind 1 5); [done|]. intros [|[|]]; [by case_match| |done].
      apply within_run_selection.
Qed.

(** ** Without failures *)

Definition healthy (env : Env) : Prop := ∀ o, fails env o = None.

Section healthy.
Context (dir : string) (Hdir : cacheDir = inr dir) (i : nat) (Henv : healthy (envs i)).

Lemma alone_stat msg v :
  alone i (statShownMessage msg) v = (inr v, v, [UserCacheDir; ReadFile (sentinel msg)]).
Proof. unfold sentinel. cbn. rewrite Hdir. cbn. rewrite Henv. by destruct v. Qed.
Lemma alone_mark msg s v :
  alone i (markMessageAsShown msg s) v =
  (inr tt, Some (default "" s),
   [UserCacheDir; MkdirAll (Dir (sentinel msg)); Create (sentinel msg)] ++
   (WriteFile (sentinel msg) <$> option_list s)).
Proof.
  unfold sentinel. cbn. rewrite Hdir. cbn. unfold outcome. rewrite Henv. cbn. rewrite Henv. cbn.
  destruct s; cbn; [|done]. by rewrite Henv.
Qed.

#[local] Arguments markMessageAsShown : simpl never.

Lemma alone_call o v : loc o = None →
  alone i (call o) v = ((perform cacheDir envs i o None).1, v, [o]).
Proof. intros Ho. cbn. unfold Pool.cell_step. by rewrite Ho. Qed.

Lemma alone_run_selection msg title v :
  let '(r, v', t) := alone i (run_selection msg title (Actions msg)) v in
  (EWrap ("notify message '" +:+ Key msg +:+ "'") <$> r.2, v', shows t) = select_spec msg title v.
Proof.
  unfold select_spec, action_for. induction (Actions msg) as [|a l IH]; cbn [run_selection List.find]; [done|].
  destruct (decide (title = Title a)) as [Ht|Ht];
    [|rewrite (bool_decide_true (title ≠ _)), (bool_decide_false (title = _)) by done; exact IH].
  rewrite (bool_decide_false (title ≠ _)), (bool_decide_true (title = _)) by tauto. rewrite Pool.alone_bind.
  assert (∃ t, shows t = [] ∧
    alone i (if Save a then markMessageAsShown msg (Some title) else Ret (inr tt)) v =
    (inr tt, if Save a then Some title else v, t)) as (t&Ht0&Hsave).
  { destruct (Save a); [rewrite alone_mark; by (eexists; split; [|reflexivity])|by exists []]. }
  rewrite Hsave. unfold opens. case_bool_decide; cbn; [by rewrite app_nil_r, Ht0|].
  unfold Pool.cell_step. cbn. unfold outcome. rewrite Henv. cbn.
  unfold shows in *. by rewrite filter_app, Ht0.
Qed.

#[local] Arguments run_selection : simpl never.

(** A message alone follows its machine. *)
Lemma alone_show msg v :
  let '(e, v', t) := alone i (show msg) v in
  (e, v', shows t) = show_spec ToMessageType msg (selected (envs i)) v.
Proof.
  unfold show_message, show_spec. case_bool_decide; [|case_bool_decide; [|done]].
  - unfold OutputMessage, ebind, ewrap. rewrite !Pool.alone_bind, alone_stat.
    destruct v as [s|]; [done|]. cbn [Pool.alone app]. rewrite !Pool.alone_bind, (alone_call (LogMessage _ _)) by done.
    cbn. unfold outcome. rewrite Henv. by rewrite !Pool.alone_bind, alone_mark.
  - rewrite Pool.alone_bind. unfold NotifyMessage. rewrite Pool.alone_bind, alone_stat.
    case_bool_decide; destruct v as [s|]; cbn [notify_plain notify_actions].
    + done.
    + rewrite Pool.alone_bind, (alone_call (ShowMessage _ _)) by done. cbn. unfold outcome. rewrite Henv.
      by rewrite Pool.alone_bind, alone_mark.
    + pose proof (alone_run_selection msg s (Some s)) as Hsel.
      destruct (alone i (run_selection _ _ _) _) as [[r v'] t]. cbn in *. by rewrite app_nil_r.
    + rewrite Pool.alone_bind, (alone_call (ShowMessageRequest _ _ _)) by done. cbn. rewrite Henv.
      destruct (selected (envs i)) as [s|]; [|done].
      pose proof (alone_run_selection msg s None) as Hsel.
      destruct (alone i (run_selection _ _ _) _) as [[r v'] t]. cbn in *. rewrite app_nil_r.
      by rewrite <- Hsel.
Qed.
End healthy.

(** ** All messages *)

Abbreviation display := (displayApplicableMessages ToMessageType rpcError cacheDir).

(** Every message gets enough turns. *)
Definition fair (messages : list Message) (sch : list nat) : Prop :=
  ∀ i, (i < length messages → 8 < Pool.turns i sch)%nat.

(** The error of a message alone. *)
Definition error_of (i : nat) (msg : Message) (files : gmap string string) : option error :=
  (alone i (show msg) (files !! sentinel msg)).1.1.

(** The goroutines that have not ended. *)
Definition running (st : guidance_pool) :=
  filter (λ g, Pool.is_done g = false) (Pool.goroutines st).

Section display.
Context (messages : list Message) (sch : list nat) (files : gmap string string).
Context (Hdistinct : NoDup (sentinel <$> messages)) (Hfair : fair messages sch).

Lemma lookup_show i msg :
  messages !! i = Some msg → (show <$> messages) !! i = Some (show msg) ∧
  (sentinel <$> messages) !! i = Some (sentinel msg).
Proof. intros Hi. by rewrite !list_lookup_fmap, Hi. Qed.

Lemma shows_confined i l p :
  (sentinel <$> messages) !! i = Some l → (show <$> messages) !! i = Some p → confined i l p.
Proof.
  rewrite !list_lookup_fmap. destruct (messages !! i) as [msg|]; cbn; [|done].
  intros [= <-] [= <-]. apply show_confined.
Qed.

Lemma display_done i msg : messages !! i = Some msg →
  Pool.goroutines (display messages envs sch files).2 !! i = Some (Pool.Done (error_of i msg files)) ∧
  alone i (show msg) (files !! sentinel msg) =
    (error_of i msg files, Pool.cells (display messages envs sch files).2 !! sentinel msg,
     Pool.calls_of i (Pool.trace (display messages envs sch files).2)).
Proof.
  intros Hi. destruct (lookup_show i msg Hi) as [Hp Hl]. unfold displayApplicableMessages. cbn.
  destruct (Pool.pool_ends loc (perform cacheDir envs) id (errChan_capacity messages) (show <$> messages)
    (eq_sym (length_fmap _ _)) sch i 8 _ files Hp (show_within msg)) as [e He].
  { apply Hfair. by eapply lookup_lt_Some. }
  pose proof (Pool.pool_local loc (perform cacheDir envs) id (errChan_capacity messages) (show <$> messages)
    (sentinel <$> messages) files) as Hlocal.
  rewrite !length_fmap in Hlocal.
  pose proof (Hlocal eq_refl Hdistinct shows_confined sch i _ _ _ He Hl Hp) as Ha.
  unfold error_of. by rewrite Ha.
Qed.

Lemma display_frame f :
  f ∉ sentinel <$> messages → Pool.cells (display messages envs sch files).2 !! f = files !! f.
Proof.
  intros Hf. unfold displayApplicableMessages. cbn.
  apply (Pool.pool_frame loc (perform cacheDir envs) id (errChan_capacity messages) (show <$> messages)
    (sentinel <$> messages) files); [by rewrite !length_fmap|done|apply shows_confined|done].
Qed.

Lemma display_length : length (Pool.goroutines (display messages envs sch files).2) = length messages.
Proof.
  unfold displayApplicableMessages. cbn [snd].
  pose proof (Pool.run_chan loc (perform cacheDir envs) id (errChan_capacity messages) (show <$> messages)
    (eq_sym (length_fmap _ _)) sch _ (Pool.start_chan id (show <$> messages) files)) as [Hn _].
  by rewrite length_fmap in Hn.
Qed.

Lemma display_all_done : forallb Pool.is_done (Pool.goroutines (display messages envs sch files).2) = true.
Proof.
  apply forallb_forall. intros g Hg%list_elem_of_In. apply list_elem_of_lookup in Hg as [i Hi].
  assert (is_Some (messages !! i)) as [msg Hmsg].
  { apply lookup_lt_is_Some. rewrite <- display_length. by eapply lookup_lt_Some. }
  rewrite (proj1 (display_done i msg Hmsg)) in Hi. by simplify_eq.
Qed.

(** An error is in the channel if and only if it is the error of a message. *)
Lemma display_chan e :
  e ∈ Pool.chan (display messages envs sch files).2 ↔
  ∃ i msg, messages !! i = Some msg ∧ error_of i msg files = Some e.
Proof.
  destruct (Pool.pool_chan_fits loc (perform cacheDir envs) id (errChan_capacity messages) (show <$> messages)
    (eq_sym (length_fmap _ _)) sch files) as [Hc _].
  change (Pool.run _ _ _ _ _ _) with (display messages envs sch files).2 in Hc.
  rewrite Hc. unfold Pool.sent. rewrite list_elem_of_omap. split.
  - intros (g&[i Hi]%list_elem_of_lookup&He).
    assert (is_Some (messages !! i)) as [msg Hmsg].
    { apply lookup_lt_is_Some. rewrite <- display_length. by eapply lookup_lt_Some. }
    rewrite (proj1 (display_done i msg Hmsg)) in Hi. simplify_eq/=. by exists i, msg.
  - intros (i&msg&Hmsg&He). eexists. split; [by eapply list_elem_of_lookup_2, display_done|done].
Qed.
End display.

(** C27: In every interleaving in which each goroutine gets nine turns, the
    display of the messages ends.  If the messages have different files, each
    makes the calls, leaves its file and ends with the error that it would
    alone; no other file changes.  An error is returned if and only if a message
    has one, and it is the error of a message. *)
Theorem messages_concurrent messages sch files :
  NoDup (sentinel <$> messages) → fair messages sch →
  let '(r, st) := display messages envs sch files in
  (∀ i msg, messages !! i = Some msg →
    alone i (show msg) (files !! sentinel msg) =
      (error_of i msg files, Pool.cells st !! sentinel msg, Pool.calls_of i (Pool.trace st))) ∧
  (∀ f, f ∉ sentinel <$> messages → Pool.cells st !! f = files !! f) ∧
  (r = Ok tt ∧ (∀ i msg, messages !! i = Some msg → error_of i msg files = None) ∨
   ∃ i msg e, messages !! i = Some msg ∧ error_of i msg files = Some e ∧ r = Err e).
Proof.
  intros Hd Hf. pose proof (display_all_done messages sch files Hd Hf) as Hdone.
  pose proof (display_chan messages sch files Hd Hf) as Hchan.
  pose proof (λ i msg Hi, proj2 (display_done messages sch files Hd Hf i msg Hi)) as Hall.
  pose proof (display_frame messages sch files Hd) as Hframe.
  unfold displayApplicableMessages in *. cbn in *. rewrite Hdone.
  split_and!; [exact Hall|exact Hframe|]. destruct (Pool.chan _) as [|e l].
  - left. split; [done|]. intros i msg Hi. destruct (error_of i msg files) as [e|] eqn:He; [|done].
    pose proof (proj2 (Hchan e) (ex_intro _ i (ex_intro _ msg (conj Hi He)))) as Hin. set_solver.
  - right. destruct (proj1 (Hchan e) (list_elem_of_here e l)) as (i&msg&Hi&He). by exists i, msg, e.
Qed.

Lemma turns_app i sch sch' : Pool.turns i (sch ++ sch') = (Pool.turns i sch + Pool.turns i sch')%nat.
Proof. unfold Pool.turns. by rewrite filter_app, length_app. Qed.

Lemma display_ends messages sch files : fair messages sch →
  forallb Pool.is_done (Pool.goroutines (display messages envs sch files).2) = true.
Proof.
  intros Hf. apply forallb_forall. intros g Hg%list_elem_of_In. apply list_elem_of_lookup in Hg as [i Hi].
  pose proof (lookup_lt_Some _ _ _ Hi) as Hlt. rewrite display_length in Hlt.
  destruct (lookup_lt_is_Some_2 _ _ Hlt) as [msg Hmsg].
  destruct (Pool.pool_ends loc (perform cacheDir envs) id (errChan_capacity messages) (show <$> messages)
    (eq_sym (length_fmap _ _)) sch i 8 (show msg) files) as [a Ha].
  - by rewrite list_lookup_fmap, Hmsg.
  - apply show_within.
  - by apply Hf.
  - cbn in Hi. rewrite Ha in Hi. by injection Hi as <-.
Qed.

(** C29: Whatever the schedule, also if messages share a file and calls fail: a
    message makes at most eight calls; the channel of errors has, within the
    capacity that it is made with, room for the errors of all goroutines that
    still run, so that no send waits; and from every point on, when each goroutine
    gets nine more turns, all of them end and the display returns. *)
Theorem guidance_bounded messages sch files :
  let st := (display messages envs sch files).2 in
  (∀ i, length (Pool.calls_of i (Pool.trace st)) ≤ 8)%nat ∧
  (length (Pool.chan st) + length (running st) ≤ errChan_capacity messages)%nat ∧
  ∀ sch', fair messages sch' → (display messages envs (sch ++ sch') files).1 ≠ Fuel.
Proof.
  cbn zeta. split_and!.
  - intros i. apply Pool.pool_calls, Forall_fmap, Forall_true. apply show_within.
  - pose proof (Pool.pool_chan_room loc (perform cacheDir envs) id (errChan_capacity messages) (show <$> messages)
      (eq_sym (length_fmap _ _)) sch files) as Hroom. by rewrite length_fmap in Hroom.
  - intros sch' Hf. pose proof (display_ends messages (sch ++ sch') files) as Hends.
    unfold displayApplicableMessages in *. cbn [fst snd] in *. rewrite Hends; [by destruct (Pool.chan _)|].
    intros i Hi. rewrite turns_app. specialize (Hf i Hi). lia.
Qed.
End proofs.

(** ** Over many sessions *)

Section history.
Context (ToMessageType : string → Z) (rpcError : error → option (Z * string)) (dir : string).
Context (messages : list Message).

(** A session: what happens around each goroutine, and the interleaving. *)
Abbreviation session := ((nat → Env) * list nat)%type.
Abbreviation display := (displayApplicableMessages ToMessageType rpcError (inr dir) messages).
Abbreviation file := (sentinel (inr dir)).

(** The sessions, one after the other, with the files that the last one leaves. *)
Fixpoint history (runs : list session) (files : gmap string string) :
    list guidance_pool * gmap string string :=
  match runs with
  | [] => ([], files)
  | (envs, sch) :: runs' =>
    let st := (display envs sch files).2 in
    let '(sts, files') := history runs' (Pool.cells st) in (st :: sts, files')
  end.

(** What the user sees of message [i] in each session. *)
Definition seen_of (i : nat) (sts : list guidance_pool) : list (list Op) :=
  (λ st, shows (Pool.calls_of i (Pool.trace st))) <$> sts.

(** The machine of a message over the selections of the user. *)
Fixpoint machine (msg : Message) (sels : list (option string)) (v : option string) :
    list (list Op) * option string :=
  match sels with
  | [] => ([], v)
  | sel :: sels' =>
    let '(_, v', t) := show_spec ToMessageType msg sel v in
    let '(ts, v'') := machine msg sels' v' in (t :: ts, v'')
  end.
Definition selections (i : nat) (runs : list session) : list (option string) :=
  (λ run, selected (run.1 i)) <$> runs.

Definition good_run (run : session) : Prop := (∀ i, healthy (run.1 i)) ∧ fair messages run.2.

Context (Hdistinct : NoDup (file <$> messages)).

Lemma display_machine envs sch files i msg :
  good_run (envs, sch) → messages !! i = Some msg →
  show_spec ToMessageType msg (selected (envs i)) (files !! file msg) =
    (error_of ToMessageType rpcError (inr dir) envs i msg files,
     Pool.cells (display envs sch files).2 !! file msg,
     shows (Pool.calls_of i (Pool.trace (display envs sch files).2))).
Proof.
  intros [Hh Hf] Hi.
  pose proof (alone_show ToMessageType rpcError (inr dir) envs dir eq_refl i (Hh i) msg (files !! file msg)) as Hs.
  by rewrite (proj2 (display_done ToMessageType rpcError (inr dir) envs messages sch files Hdistinct Hf i msg Hi)) in Hs.
Qed.

Lemma history_machine runs i msg : Forall good_run runs → messages !! i = Some msg → ∀ files,
  machine msg (selections i runs) (files !! file msg) =
  (seen_of i (history runs files).1, (history runs files).2 !! file msg).
Proof.
  intros Hruns Hi. induction Hruns as [|[envs sch] runs Hrun _ IH]; intros files; [done|].
  change (selections i ((envs, sch) :: runs)) with (selected (envs i) :: selections i runs).
  cbn [machine history]. rewrite (display_machine envs sch files i msg Hrun Hi).
  rewrite (IH (Pool.cells (display envs sch files).2)).
  by destruct (history runs _) as [sts files'].
Qed.

(** C28: If the messages have pairwise different files, and the sessions come
    strictly one after the other, no call fails in them, and each goroutine gets
    nine turns in each: then what the user sees of a message in each session,
    and what its file holds in the end, are those of the machine of the message
    over the user's selections, whatever the other messages and the
    interleavings of the goroutines. *)
Theorem guidance_refines runs i msg files :
  Forall good_run runs → messages !! i = Some msg →
  seen_of i (history runs files).1 = (machine msg (selections i runs) (files !! file msg)).1 ∧
  (history runs files).2 !! file msg = (machine msg (selections i runs) (files !! file msg)).2.
Proof. intros Hr Hi. by rewrite (history_machine runs i msg Hr Hi files). Qed.

(** A message without actions, and the call that shows it. *)
Definition plain_call (msg : Message) : option Op :=
  let type := ToMessageType (MsgType msg) in
  if bool_decide (Kind msg = userGuidanceMessageKindOutput) then Some (LogMessage type (MessageText msg))
  else if bool_decide (Kind msg = userGuidanceMessageKindNotification ∧ Actions msg = [])
  then Some (ShowMessage type (MessageText msg)) else None.

Lemma show_plain msg o sel v : plain_call msg = Some o →
  show_spec ToMessageType msg sel v =
  match v with None => (None, Some "", [o]) | Some s => (None, Some s, []) end.
Proof.
  unfold plain_call, show_spec. case_bool_decide; [intros [= <-]; by destruct v|].
  case_bool_decide as Hn; [|done]. destruct Hn as [-> ->]. intros [= <-].
  rewrite !bool_decide_true by done. by destruct v.
Qed.
Lemma machine_plain_seen msg o sels s : plain_call msg = Some o →
  machine msg sels (Some s) = (replicate (length sels) [], Some s).
Proof.
  intros Ho. induction sels as [|sel sels IH]; cbn [machine]; [done|]. by rewrite (show_plain msg o), IH.
Qed.

Lemma show_saved msg a title sel : Kind msg = userGuidanceMessageKindNotification →
  action_for msg title = Some a → Save a = true →
  show_spec ToMessageType msg sel (Some title) = (None, Some title, opens a).
Proof.
  intros Hk Ha Hs. unfold show_spec, select_spec. rewrite Hk, Ha, Hs, bool_decide_false by done.
  rewrite bool_decide_true by done. rewrite bool_decide_false; [done|].
  intros Hn. unfold action_for in Ha. by rewrite Hn in Ha.
Qed.
Lemma machine_saved msg a title sels : Kind msg = userGuidanceMessageKindNotification →
  action_for msg title = Some a → Save a = true →
  machine msg sels (Some title) = (replicate (length sels) (opens a), Some title).
Proof.
  intros Hk Ha Hs. induction sels as [|sel sels IH]; cbn [machine]; [done|]. by rewrite (show_saved msg a), IH.
Qed.

(** A message without actions that has not been shown is shown in the first
    session, and in none of the sessions after it; one that has been shown is
    not shown again. *)
Theorem message_shown_once run runs i msg o files :
  Forall good_run (run :: runs) → messages !! i = Some msg → plain_call msg = Some o →
  seen_of i (history (run :: runs) files).1 =
  (if bool_decide (files !! file msg = None) then [o] else []) :: replicate (length runs) [].
Proof.
  intros Hr Hi Ho. pose proof (history_machine _ i msg Hr Hi files) as Hm.
  change (selections i (run :: runs)) with (selected (run.1 i) :: selections i runs) in Hm.
  cbn [machine] in Hm. rewrite (show_plain msg o) in Hm by done.
  assert (Hlen : length (selections i runs) = length runs) by apply length_fmap.
  destruct (files !! file msg) as [s|]; rewrite (machine_plain_seen msg o), Hlen in Hm by done;
    [rewrite bool_decide_false by done|rewrite bool_decide_true by done]; by injection Hm.
Qed.

(** When the user selects an action that is to be remembered, the prompt is
    not shown again: in every later session the action is taken at once, with
    its document opened if it has one. *)
Theorem selection_remembered run runs i msg title a files :
  Forall good_run (run :: runs) → messages !! i = Some msg →
  Kind msg = userGuidanceMessageKindNotification → files !! file msg = None →
  selected (run.1 i) = Some title → action_for msg title = Some a → Save a = true →
  seen_of i (history (run :: runs) files).1 =
  (ShowMessageRequest (ToMessageType (MsgType msg)) (MessageText msg) (Title <$> Actions msg) :: opens a)
    :: replicate (length runs) (opens a).
Proof.
  intros Hr Hi Hk Hf Ht Ha Hs. pose proof (history_machine _ i msg Hr Hi files) as Hm.
  change (selections i (run :: runs)) with (selected (run.1 i) :: selections i runs) in Hm.
  cbn [machine] in Hm. rewrite Hf, Ht in Hm.
  assert (Hshow : show_spec ToMessageType msg (Some title) None =
    (None, Some title, ShowMessageRequest (ToMessageType (MsgType msg)) (MessageText msg)
      (Title <$> Actions msg) :: opens a)).
  { unfold show_spec, select_spec. rewrite Hk, Ha, Hs, bool_decide_false by done.
    rewrite bool_decide_true by done. rewrite bool_decide_false; [done|].
    intros Hn. unfold action_for in Ha. by rewrite Hn in Ha. }
  rewrite Hshow, (machine_saved msg a) in Hm by done.
  assert (Hlen : length (selections i runs) = length runs) by apply length_fmap.
  rewrite Hlen in Hm. by injection Hm.
Qed.

(** A file that holds a title of no action, as when the title was not written
    after the file was created, or when the configuration has changed: every
    later session fails for the message, and the prompt is not shown again. *)
Theorem lost_selection run i msg title files :
  good_run run → messages !! i = Some msg →
  Kind msg = userGuidanceMessageKindNotification → Actions msg ≠ [] →
  files !! file msg = Some title → action_for msg title = None →
  let st := (display run.1 run.2 files).2 in
  error_of ToMessageType rpcError (inr dir) run.1 i msg files = Some (no_match msg title) ∧
  shows (Pool.calls_of i (Pool.trace st)) = [] ∧ Pool.cells st !! file msg = Some title.
Proof.
  intros Hr Hi Hk Hacts Hf Ha. destruct run as [envs sch].
  pose proof (display_machine envs sch files i msg Hr Hi) as Hm. rewrite Hf in Hm.
  unfold show_spec, select_spec in Hm. rewrite Hk, Ha in Hm. rewrite bool_decide_false in Hm by done.
  rewrite bool_decide_true in Hm by done. rewrite bool_decide_false in Hm by done. by injection Hm.
Qed.
End history.
(** ** Instances *)

Definition sample_type (s : string) : Z := if bool_decide (s = "error") then 1 else 3.
Definition no_rpc (e : error) : option (Z * string) := None.
Definition welcome : Message := mkMessage "welcome" "output" "hello" "info" [].
Definition survey : Message := mkMessage "survey" "notification" "take the survey" "info"
  [mkAction "open" "https://go.dev" true true; mkAction "later" "" false false].
Definition sample_env (sel : option string) : nat → Env := λ _, mkEnv (λ _, None) (λ _ v, v) sel.
(** Both goroutines take their steps in turn. *)
Definition in_turn : list nat := concat (replicate 9 [0%nat; 1%nat]).

Lemma in_turn_fair : fair [welcome; survey] in_turn.
Proof. intros [|[|i]] Hi; cbn in *; [vm_compute; lia..|lia]. Qed.
Lemma sample_distinct : NoDup (sentinel (inr "/cache") <$> [welcome; survey]).
Proof. apply (bool_decide_unpack _). vm_compute. exact I. Qed.
Lemma sample_good sel : good_run [welcome; survey] (sample_env sel, in_turn).
Proof. split; [done|apply in_turn_fair]. Qed.

Lemma messages_concurrent_witness :
  ∃ st, displayApplicableMessages sample_type no_rpc (inr "/cache") [welcome; survey] (sample_env None)
          in_turn ∅ = (Ok tt, st) ∧
    Pool.cells st !! "/cache/ulsp/shown-messages/welcome" = Some "" ∧
    Pool.calls_of 0 (Pool.trace st) =
      (Pool.alone loc (perform (inr "/cache") (sample_env None)) 0
        (show_message sample_type no_rpc welcome) None).2.
Proof.
  pose proof (messages_concurrent sample_type no_rpc (inr "/cache") (sample_env None) [welcome; survey]
    in_turn ∅ sample_distinct in_turn_fair) as Hc.
  destruct (displayApplicableMessages sample_type no_rpc (inr "/cache") [welcome; survey] (sample_env None)
    in_turn ∅) as [r st] eqn:Hr. destruct Hc as (Hall&_). exists st.
  split_and!; [vm_compute in Hr; vm_compute; congruence|vm_compute in Hr; injection Hr as _ <-; reflexivity|].
  pose proof (Hall 0%nat welcome eq_refl) as H0. rewrite lookup_empty in H0. by rewrite H0.
Defined.

(** One file for two prompts, and both goroutines at their start. *)
Lemma guidance_bounded_witness :
  (displayApplicableMessages sample_type no_rpc (inr "/cache") [survey; survey] (sample_env (Some "open"))
    ([0; 1]%nat ++ in_turn) ∅).1 ≠ Fuel.
Proof.
  apply (guidance_bounded sample_type no_rpc (inr "/cache") (sample_env (Some "open")) [survey; survey] [0; 1]%nat ∅).
  exact in_turn_fair.
Defined.

Lemma guidance_refines_witness :
  seen_of 1 (history sample_type no_rpc "/cache" [welcome; survey]
    [(sample_env (Some "later"), in_turn); (sample_env (Some "open"), in_turn); (sample_env None, in_turn)] ∅).1
  = [[ShowMessageRequest 3 "take the survey" ["open"; "later"]];
     [ShowMessageRequest 3 "take the survey" ["open"; "later"]; ShowDocument "https://go.dev" true true];
     [ShowDocument "https://go.dev" true true]].
Proof.
  rewrite (proj1 (guidance_refines sample_type no_rpc "/cache" [welcome; survey] sample_distinct _ 1 survey ∅
    (Forall_cons_2 _ _ _ (sample_good _) (Forall_cons_2 _ _ _ (sample_good _)
      (Forall_cons_2 _ _ _ (sample_good _) (Forall_nil_2 _)))) eq_refl)).
  vm_compute. reflexivity.
Defined.

Lemma message_shown_once_witness :
  seen_of 0 (history sample_type no_rpc "/cache" [welcome; survey]
    [(sample_env None, in_turn); (sample_env None, in_turn)] ∅).1 = [[LogMessage 3 "hello"]; []].
Proof.
  rewrite (message_shown_once sample_type no_rpc "/cache" [welcome; survey] sample_distinct
    (sample_env None, in_turn) [(sample_env None, in_turn)] 0 welcome (LogMessage 3 "hello") ∅
    (Forall_cons_2 _ _ _ (sample_good _) (Forall_cons_2 _ _ _ (sample_good _) (Forall_nil_2 _))) eq_refl eq_refl).
  vm_compute. reflexivity.
Defined.

Lemma selection_remembered_witness :
  seen_of 1 (history sample_type no_rpc "/cache" [welcome; survey]
    [(sample_env (Some "open"), in_turn); (sample_env None, in_turn)] ∅).1 =
  [[ShowMessageRequest 3 "take the survey" ["open"; "later"]; ShowDocument "https://go.dev" true true];
   [ShowDocument "https://go.dev" true true]].
Proof.
  rewrite (selection_remembered sample_type no_rpc "/cache" [welcome; survey] sample_distinct
    (sample_env (Some "open"), in_turn) [(sample_env None, in_turn)] 1 survey "open"
    (mkAction "open" "https://go.dev" true true) ∅
    (Forall_cons_2 _ _ _ (sample_good _) (Forall_cons_2 _ _ _ (sample_good _) (Forall_nil_2 _)))
    eq_refl eq_refl (lookup_empty _) eq_refl eq_refl eq_refl).
  vm_compute. reflexivity.
Defined.

(** The title is not written, and the file stays empty: the selection is lost,
    and the message fails in the sessions that follow. *)
Definition full_disk : nat → Env := λ _,
  mkEnv (λ o, match o with WriteFile _ _ => Some (EExternal 28) | _ => None end) (λ _ v, v) (Some "open").
Example lost_selection_ex :
  let sts := (history sample_type no_rpc "/cache" [survey]
    [(full_disk, replicate 9 0%nat); (sample_env (Some "open"), replicate 9 0%nat)] ∅) in
  seen_of 0 sts.1 = [[ShowMessageRequest 3 "take the survey" ["open"; "later"]]; []] ∧
  sts.2 !! "/cache/ulsp/shown-messages/survey" = Some "".
Proof. vm_compute. split; reflexivity. Qed.
End UserGuidanceProof.
