(* ===== verification/BazelProject.v ===== *)
(** * Bazel project views

    Models [src/ulsp/internal/bazelproject]: [project.go], which reads the
    imports, targets and directories of a [.bazelproject] file, and
    [project_view.go], which finds such a file in the workspace and caches the
    targets of its patterns for a time.

    The YAML decoder is a parameter, as are the files and the query for the
    targets of patterns.  [bufio.Scanner] is modelled with its limit on the
    length of a line, at which it stops; its error is not looked at.  Times are
    nanoseconds since the zero time, at the beginning and at the end of a call. *)

From stdpp Require Import base list strings.
From Stdlib Require Import ZArith Lia Ascii.
From S2P Require Import Prelude Paths Session IdeClient WorkspaceUtils.

Local Open Scope Z_scope.

Module BazelProject.
Import WorkspaceUtils.

(** ** [project.go] *)

(** The field [Path] is not set by the code. *)
Record ProjectView := mkProjectView {
  Targets : list string;
  Directories : list string;
  Imports : list string;
  DeriveTargets : bool
}.

Definition _importPrefix : string := "import ".

(** What the decoder finds in the YAML. *)
Record content := mkContent { cTargets : string; cDirectories : string; cDeriveTargets : bool }.

(** [bufio.MaxScanTokenSize] *)
Definition MaxScanTokenSize : nat := Z.to_nat (64 * 1024).

(** [bufio.ScanLines]: the lines, without a last one that is empty. *)
Definition drop_last_empty (l : list string) : list string :=
  match reverse l with "" :: l' => reverse l' | _ => l end.
(** A line without its carriage return at the end. *)
Definition dropCR (s : string) : string :=
  match reverse (chars s) with c :: l => if bool_decide (c = ascii_of_nat 13) then of_chars (reverse l) else s | [] => s end.
(** The lines before the first one that does not fit in the buffer. *)
Fixpoint fitting (l : list string) : list string :=
  match l with
  | [] => []
  | s :: l' => if bool_decide (String.length s < MaxScanTokenSize)%nat then s :: fitting l' else []
  end.
Definition scan_lines (s : string) : list string :=
  dropCR <$> fitting (drop_last_empty (Split (ascii_of_nat 10) s)).

(** [strings.TrimPrefix], if there is the prefix *)
Fixpoint cut_prefix (p s : string) : option string :=
  match p, s with
  | EmptyString, _ => Some s
  | String a p', String b s' => if bool_decide (a = b) then cut_prefix p' s' else None
  | String _ _, EmptyString => None
  end.

(** [s[:strings.Index(s, "#")]], or [s] *)
Fixpoint before_hash (s : string) : string :=
  match s with
  | EmptyString => EmptyString
  | String c s' => if bool_decide (c = "#"%char) then EmptyString else String c (before_hash s')
  end.

(** [strings.Fields]; the fuel is the length of the text. *)
Fixpoint fields_loop (fuel : nat) (l : list ascii) (word : list ascii) : list string :=
  let flush := if bool_decide (word = []) then [] else [of_chars (reverse word)] in
  match fuel with
  | O => flush
  | S fuel' =>
    match strip_one spaces l with
    | Some l' => flush ++ fields_loop fuel' l' []
    | None => match l with [] => flush | c :: l' => fields_loop fuel' l' (c :: word) end
    end
  end.
Definition Fields (s : string) : list string := fields_loop (S (String.length s)) (chars s) [].

(** The targets of patterns; a list may come with an error. *)
Abbreviation query := (list string → list string * option error).

Section project.
(** [yaml.NewDecoder(...).Decode] *)
Context (decode : string → error + content).

(** One line: the YAML text, the imports and the errors so far. *)
Definition scan_line (acc : string * list string * list error) (line : string) :
    string * list string * list error :=
  let '(rawYAML, imports, errs) := acc in
  match cut_prefix _importPrefix line with
  | None => (rawYAML +:+ line +:+ IdeClient.newline, imports, errs)
  | Some importPath =>
    let importPath := TrimSpace (before_hash importPath) in
    if bool_decide (importPath = "") then (rawYAML, imports, errs ++ [EText ("invalid import " +:+ line)])
    else (rawYAML, imports ++ [importPath], errs)
  end.

(** The second component is what [multierr] has collected; nil if empty. *)
Definition ParseProjectView (projectFile : string) : ProjectView * list error :=
  let '(rawYAML, imports, errs) := foldl scan_line ("", [], []) (scan_lines projectFile) in
  match decode rawYAML with
  | inl e => (mkProjectView [] [] imports false, errs ++ [e])
  | inr c =>
    (mkProjectView (Fields (cTargets c)) (Fields (cDirectories c)) imports (cDeriveTargets c), errs)
  end.

(** ** [project_view.go] *)

Definition _reuseTimeout : Z := IdeClient.Second * 60.

Record provider := mkProvider {
  workspaceRoot : string;
  paths : list string;
  selectedSource : string;
  result : list string;
  lastChecked : Z;
  output : list string
}.

Definition New (root : string) (ps : list string) : provider := mkProvider root ps "" [] 0 [].

Definition set_selected (s : string) (p : provider) : provider :=
  mkProvider (workspaceRoot p) (paths p) s (result p) (lastChecked p) (output p).
Definition set_result (r : list string) (p : provider) : provider :=
  mkProvider (workspaceRoot p) (paths p) (selectedSource p) r (lastChecked p) (output p).
Definition set_lastChecked (t : Z) (p : provider) : provider :=
  mkProvider (workspaceRoot p) (paths p) (selectedSource p) (result p) t (output p).
Definition write_output (s : string) (p : provider) : provider :=
  mkProvider (workspaceRoot p) (paths p) (selectedSource p) (result p) (lastChecked p) (output p ++ [s]).

(** [strings.Join] with a comma *)
Fixpoint join_comma (l : list string) : string :=
  match l with [] => "" | [x] => x | x :: l' => x +:+ ", " +:+ join_comma l' end.

(** The files at the time of a call, and the text of an error. *)
Record Disk := mkDisk { FileExists : string → error + bool; Open : string → error + string }.
Context (error_text : error → string).

Fixpoint search_paths (disk : Disk) (ps : list string) (p : provider) : provider :=
  match ps with
  | [] => write_output "No matches, proceeding without a Bazel project configuration." p
  | current :: ps' =>
    let absPath := Join (workspaceRoot p) current in
    match FileExists disk absPath with
    | inr true =>
      set_selected absPath (write_output ("Selected Bazel project configuration: " +:+ current) p)
    | inr false => search_paths disk ps' p
    | inl e =>
      search_paths disk ps' (write_output ("Skipping " +:+ current +:+ " due to error: " +:+ error_text e) p)
    end
  end.

Definition search_again (disk : Disk) (p : provider) : provider :=
  let p := set_selected "" p in
  search_paths disk (paths p) (write_output
    ("Checking the following paths for Bazel project configuration: [" +:+ join_comma (paths p) +:+ "]") p).

Definition setSource (disk : Disk) (p : provider) : provider :=
  if bool_decide (selectedSource p ≠ "") then
    match FileExists disk (selectedSource p) with
    | inr true => p
    | _ => search_again disk p
    end
  else search_again disk p.

(** The errors of the parser are one error, [multierr]'s. *)
Context (combine : error → list error → error).

Definition getPatterns (disk : Disk) (absPath : string) : error + list string :=
  match Open disk absPath with
  | inl e => inl e
  | inr file =>
    let '(project, errs) := ParseProjectView file in
    match errs with [] => inr (Targets project) | e :: errs => inl (combine e errs) end
  end.

(** The body, without the deferred update of the time. *)
Definition refresh (disk : Disk) (getTargetsFunc : query) (p : provider) :
    list string * option error * provider :=
  let p := setSource disk p in
  if bool_decide (selectedSource p = "") then ([], None, p)
  else
    match getPatterns disk (selectedSource p) with
    | inl e => ([], Some e, write_output ("Error while checking project configuration: " +:+ error_text e) p)
    | inr patterns =>
      let p := write_output ("Found the following user-configured project scope: [" +:+
                 join_comma patterns +:+ "]") p in
      let '(targets, err) := getTargetsFunc patterns in
      (targets, err, set_result targets p)
    end.

(** [now] is the time of the check, [done] that of the return. *)
Definition GetPresetPatterns (now done : Z) (disk : Disk) (getTargetsFunc : query) (p : provider) :
    list string * option error * provider :=
  let '(r, err, p') :=
    if now - lastChecked p <? _reuseTimeout then (result p, None, p) else refresh disk getTargetsFunc p in
  (r, err, set_lastChecked done p').
End project.
(** ** Words and lines *)

(** A character with which no space begins. *)
Definition word_char (c : ascii) : bool := bool_decide (Some c ∉ (head <$> spaces)).
Definition is_word (w : string) : Prop := w ≠ "" ∧ Forall (λ c, word_char c = true) (chars w).

Definition space : string := " ".
Fixpoint join_space (l : list string) : string :=
  match l with [] => "" | [x] => x | x :: l' => x +:+ space +:+ join_space l' end.

Lemma chars_app s t : chars (s +:+ t) = chars s ++ chars t.
Proof.
  induction s as [|c s IH]; [done|]. change (String c s +:+ t) with (String c (s +:+ t)).
  unfold chars in *. cbn. by rewrite IH.
Qed.
Lemma length_chars s : length (chars s) = String.length s.
Proof. unfold chars. induction s; cbn; congruence. Qed.
Lemma of_chars_chars s : of_chars (chars s) = s.
Proof. apply String.string_of_list_ascii_of_string. Qed.

Lemma strip_word_char c l : word_char c = true → strip_one spaces (c :: l) = None.
Proof.
  unfold word_char. intros Hc%bool_decide_eq_true_1. unfold strip_one.
  assert (Hnil : [] ∉ spaces) by (apply (bool_decide_unpack _); vm_compute; exact I).
  revert Hc Hnil. generalize spaces. intros ps. induction ps as [|[|b p] ps IH]; intros Hc Hnil; [done| |].
  - by destruct Hnil; left.
  - rewrite fmap_cons, not_elem_of_cons in Hc. rewrite not_elem_of_cons in Hnil. cbn.
    rewrite bool_decide_false by (intros ->; by destruct Hc). apply IH; tauto.
Qed.

Lemma fields_word fuel w l acc : Forall (λ c, word_char c = true) w →
  fields_loop (length w + fuel) (w ++ l) acc = fields_loop fuel l (reverse w ++ acc).
Proof.
  intros Hw. revert acc. induction Hw as [|c w Hc _ IH]; intros acc; [done|].
  cbn [length app fields_loop Nat.add]. rewrite (strip_word_char c) by done. rewrite IH.
  by rewrite reverse_cons, <- app_assoc.
Qed.

Lemma fields_loop_join ws : Forall is_word ws → ∀ fuel, (String.length (join_space ws) < fuel)%nat →
  fields_loop fuel (chars (join_space ws)) [] = ws.
Proof.
  induction 1 as [|w ws [Hne Hw] Hws IH]; intros fuel Hf; [destruct fuel; cbn in *; [lia|done]|].
  assert (Hflush : ∀ v, v = reverse (chars w) →
    (if bool_decide (v = []) then [] else [of_chars (reverse v)]) = [w]).
  { intros v ->. rewrite bool_decide_false, reverse_involutive, of_chars_chars; [done|].
    rewrite <- (reverse_involutive []). intros ?%(inj reverse). by destruct w. }
  destruct ws as [|w' ws].
  - cbn [join_space] in *. replace fuel with (length (chars w) + (fuel - length (chars w)))%nat
      by (rewrite length_chars in *; lia).
    pose proof (fields_word (fuel - length (chars w)) (chars w) [] [] Hw) as Hstep.
    rewrite !app_nil_r in Hstep. rewrite Hstep.
    destruct (fuel - _)%nat; cbn [fields_loop]; by apply Hflush.
  - change (join_space (w :: w' :: ws)) with (w +:+ space +:+ join_space (w' :: ws)) in *.
    rewrite <- !length_chars, !chars_app, !length_app in Hf. change (length (chars space)) with 1%nat in Hf.
    rewrite !chars_app. destruct fuel as [|fuel]; [lia|].
    replace (S fuel) with (length (chars w) + S (fuel - length (chars w)))%nat by lia.
    rewrite fields_word by done. change (chars space) with [" "%char].
    cbn [app fields_loop]. rewrite app_nil_r.
    assert (Hsp : strip_one spaces (" "%char :: chars (join_space (w' :: ws))) = Some (chars (join_space (w' :: ws)))).
    { unfold strip_one. reflexivity. }
    rewrite Hsp, Hflush by done. cbn [app]. f_equal. apply IH. rewrite <- length_chars. lia.
Qed.

(** The words of a text that is words with spaces between them. *)
Lemma Fields_join ws : Forall is_word ws → Fields (join_space ws) = ws.
Proof. intros Hw. apply fields_loop_join; [done|lia]. Qed.

(** A line that the scanner returns as it is. *)
Definition is_line (s : string) : Prop :=
  no_char (ascii_of_nat 10) s ∧ (String.length s < MaxScanTokenSize)%nat ∧ dropCR s = s.
Fixpoint unlines (l : list string) : string :=
  match l with [] => "" | s :: l' => s +:+ IdeClient.newline +:+ unlines l' end.

Lemma Split_unlines l : Forall is_line l → Split (ascii_of_nat 10) (unlines l) = l ++ [""].
Proof.
  induction 1 as [|s l (Hs&_&_) _ IH]; [done|]. cbn [unlines app].
  change (IdeClient.newline +:+ unlines l) with (String (ascii_of_nat 10) (unlines l)).
  by rewrite Split_app, IH.
Qed.

(** The lines of a file are found again. *)
Lemma scan_unlines l : Forall is_line l → scan_lines (unlines l) = l.
Proof.
  intros Hl. unfold scan_lines, drop_last_empty.
  rewrite Split_unlines, reverse_snoc, reverse_involutive by done.
  induction Hl as [|s l (_&Hlen&Hcr) _ IH]; [done|]. cbn [fitting]. rewrite bool_decide_true by done.
  by rewrite fmap_cons, IH, Hcr.
Qed.

(** ** A project view as it is written *)

(** A path that can be imported. *)
Definition is_import (path : string) : Prop :=
  path ≠ "" ∧ before_hash path = path ∧ TrimSpace path = path.
Definition import_line (path : string) : string := _importPrefix +:+ path.
Definition yaml_line (line : string) : Prop := cut_prefix _importPrefix line = None.

Lemma cut_prefix_app p s : cut_prefix p (p +:+ s) = Some s.
Proof.
  induction p as [|c p IH]; [done|]. change (String c p +:+ s) with (String c (p +:+ s)). cbn.
  by rewrite bool_decide_true.
Qed.

(** Lines of imports and of YAML, in any order. *)
Inductive view_line := Import (path : string) | Yaml (line : string).
Definition line_ok (x : view_line) : Prop :=
  match x with
  | Import path => is_import path ∧ is_line (import_line path)
  | Yaml line => yaml_line line ∧ is_line line
  end.
Definition line_text (x : view_line) : string :=
  match x with Import path => import_line path | Yaml line => line end.
Definition imports_of (l : list view_line) : list string :=
  omap (λ x, match x with Import path => Some path | Yaml _ => None end) l.
Definition yaml_of (l : list view_line) : list string :=
  omap (λ x, match x with Import _ => None | Yaml line => Some line end) l.

Lemma scan_view l : Forall line_ok l → ∀ raw imports errs,
  foldl scan_line (raw, imports, errs) (line_text <$> l) =
  (raw +:+ unlines (yaml_of l), imports ++ imports_of l, errs).
Proof.
  induction 1 as [|[path|line] l Hx _ IH]; intros raw imports errs; cbn [fmap list_fmap foldl line_text].
  - cbn. by rewrite append_nil, app_nil_r.
  - destruct Hx as [(Hne&Hhash&Htrim) _]. unfold scan_line at 2. unfold import_line.
    rewrite cut_prefix_app, Hhash, Htrim, bool_decide_false by done.
    rewrite IH. cbn. by rewrite <- app_assoc.
  - destruct Hx as [Hy _]. unfold scan_line at 2. rewrite Hy, IH. cbn [yaml_of omap list_omap unlines imports_of].
    by rewrite !append_assoc.
Qed.


(** ** The cache of the targets *)

Section provider.
Context (decode : string → error + content) (error_text : error → string) (combine : error → list error → error).
Abbreviation GetPresetPatterns := (GetPresetPatterns decode error_text combine).

(** The first path with a file; errors are passed over. *)
Fixpoint first_existing (disk : Disk) (root : string) (ps : list string) : string :=
  match ps with
  | [] => ""
  | current :: ps' =>
    match FileExists disk (Join root current) with
    | inr true => Join root current
    | _ => first_existing disk root ps'
    end
  end.

Lemma search_paths_first disk ps p : selectedSource p = "" →
  selectedSource (search_paths error_text disk ps p) = first_existing disk (workspaceRoot p) ps.
Proof.
  revert p. induction ps as [|c ps IH]; intros p Hp; cbn; [done|].
  destruct (FileExists disk (Join (workspaceRoot p) c)) as [e|[]]; [|done|by apply IH].
  by rewrite IH.
Qed.

(** The source that was selected is kept while it exists; otherwise it is the
    first of the paths that does. *)
Definition source_spec (disk : Disk) (p : provider) : string :=
  if bool_decide (selectedSource p ≠ "" ∧ FileExists disk (selectedSource p) = inr true)
  then selectedSource p else first_existing disk (workspaceRoot p) (paths p).

Lemma setSource_selects disk p : selectedSource (setSource error_text disk p) = source_spec disk p.
Proof.
  unfold setSource, source_spec.
  assert (Hs : selectedSource (search_again error_text disk p) = first_existing disk (workspaceRoot p) (paths p))
    by (unfold search_again; by rewrite search_paths_first).
  repeat case_bool_decide; repeat case_match; try tauto; naive_solver.
Qed.

Lemma search_paths_result disk ps p : result (search_paths error_text disk ps p) = result p.
Proof.
  revert p. induction ps as [|c ps IH]; intros p; cbn; [done|].
  by destruct (FileExists disk _) as [e|[]]; rewrite ?IH.
Qed.
Lemma setSource_keeps_result disk p : result (setSource error_text disk p) = result p.
Proof. unfold setSource, search_again. repeat case_match; by rewrite ?search_paths_result. Qed.

(** A call: its times, the files and the query at that time. *)
Record request := mkRequest { now : Z; done_at : Z; disk : Disk; targets_of : query }.
Fixpoint requests (p : provider) (rs : list request) : list (list string * option error) * provider :=
  match rs with
  | [] => ([], p)
  | r :: rs' =>
    let '(targets, err, p1) := GetPresetPatterns (now r) (done_at r) (disk r) (targets_of r) p in
    let '(out, p2) := requests p1 rs' in ((targets, err) :: out, p2)
  end.
(** Each request follows the end of the one before within the window. *)
Fixpoint polled (t : Z) (rs : list request) : Prop :=
  match rs with [] => True | r :: rs' => now r - t < _reuseTimeout ∧ polled (done_at r) rs' end.

(** Requests that follow each other within the window get the targets that were
    stored last, without an error, however long this goes on and whatever
    happens to the files meanwhile; nothing is written. *)
Lemma polled_reuses rs p : polled (lastChecked p) rs →
  (requests p rs).1 = replicate (length rs) (result p, None) ∧
  (requests p rs).2 = set_lastChecked (foldl (λ _, done_at) (lastChecked p) rs) p.
Proof.
  revert p. induction rs as [|r rs IH]; intros p Hp; [by destruct p|]. destruct Hp as [Hnow Hrs].
  cbn [requests]. unfold BazelProject.GetPresetPatterns. rewrite (proj2 (Z.ltb_lt _ _)) by done.
  destruct (IH (set_lastChecked (done_at r) p) Hrs) as [H1 H2].
  destruct (requests _ rs) as [out p2]. cbn in *. by rewrite H1, H2.
Qed.

(** A request after the window has passed looks for the source anew: the one
    selected before if it still exists, else the first of the paths that does.
    With a source that can be read the targets of its patterns are returned and
    kept; requests that follow within the window, for however long, return the
    same targets and do not look at the files. *)
Theorem presets_refreshed r rs p project patterns targets text :
  _reuseTimeout ≤ now r - lastChecked p → source_spec (disk r) p = project → project ≠ "" →
  Open (disk r) project = inr text → ParseProjectView decode text = (patterns, []) →
  targets_of r (Targets patterns) = (targets, None) → polled (done_at r) rs →
  (requests p (r :: rs)).1 = replicate (S (length rs)) (targets, None).
Proof.
  intros Hnow Hsrc Hne Hopen Hparse Hq Hrs. cbn [requests]. unfold BazelProject.GetPresetPatterns.
  rewrite (proj2 (Z.ltb_ge _ _)) by lia. unfold refresh. rewrite setSource_selects, Hsrc, bool_decide_false by done.
  unfold getPatterns. rewrite Hopen, Hparse, Hq.
  match goal with |- context [requests ?x rs] => destruct (polled_reuses rs x Hrs) as [H1 _] end.
  destruct (requests _ rs) as [out p2]. cbn in *. by rewrite H1.
Qed.

(** A request that finds no source, or a source that cannot be read or
    parsed, keeps the targets that were stored before: the requests that follow
    within the window return those old targets, and no error. *)
Theorem presets_stale r rs p :
  _reuseTimeout ≤ now r - lastChecked p → polled (done_at r) rs →
  (source_spec (disk r) p = "" →
    (requests p (r :: rs)).1 = ([], None) :: replicate (length rs) (result p, None)) ∧
  (∀ e, source_spec (disk r) p ≠ "" →
    getPatterns decode combine (disk r) (source_spec (disk r) p) = inl e →
    (requests p (r :: rs)).1 = ([], Some e) :: replicate (length rs) (result p, None)).
Proof.
  intros Hnow Hrs. cbn [requests]. unfold BazelProject.GetPresetPatterns.
  rewrite (proj2 (Z.ltb_ge _ _)) by lia. unfold refresh. rewrite setSource_selects.
  split; [intros ->|intros e Hne ->]; rewrite ?bool_decide_true, ?(bool_decide_false _ Hne) by done;
  (match goal with |- context [requests ?x rs] => destruct (polled_reuses rs x Hrs) as [H1 _] end);
  destruct (requests _ rs) as [out p2]; cbn in *; by rewrite H1, setSource_keeps_result.
Qed.
End provider.

(** ** Instances *)

Lemma short_line s : Z.of_nat (String.length s) < 65536 → (String.length s < MaxScanTokenSize)%nat.
Proof. unfold MaxScanTokenSize. lia. Qed.
Lemma check_line s : bool_decide (ascii_of_nat 10 ∉ chars s) = true →
  Z.of_nat (String.length s) <? 65536 = true → dropCR s = s → is_line s.
Proof.
  intros Hn%bool_decide_eq_true_1 Hl%Z.ltb_lt Hc. split_and!; [done|by apply short_line|done].
Qed.

Definition sample_view : list view_line := [Yaml "targets:"; Import "b.bazelproject"; Yaml "  //x/... -//y"].
Definition sample_decode (s : string) : error + content :=
  if bool_decide (s = unlines ["targets:"; "  //x/... -//y"]) then inr (mkContent "//x/... -//y" "" false)
  else inl EEOF.
Lemma sample_view_ok : Forall line_ok sample_view.
Proof.
  repeat (apply Forall_cons_2 || apply Forall_nil_2); (split; [|apply check_line; vm_compute; reflexivity]);
    [vm_compute; reflexivity| |vm_compute; reflexivity].
  split_and!; [done|vm_compute; reflexivity..].
Qed.


Definition one_file (path text : string) : Disk :=
  mkDisk (λ f, inr (bool_decide (f = path))) (λ f, if bool_decide (f = path) then inr text else inl EEOF).
Definition no_files : Disk := mkDisk (λ _, inr false) (λ _, inl EEOF).
Definition at_second (n : Z) (d : Disk) : request :=
  mkRequest (n * IdeClient.Second) (n * IdeClient.Second) d (λ patterns, (patterns, None)).
Definition sample_text : string := unlines (line_text <$> sample_view).
Definition sample_disk : Disk := one_file "/w/b.bazelproject" sample_text.
Definition sample_provider : provider := New "/w" ["a.bazelproject"; "b.bazelproject"].

Lemma presets_refreshed_witness :
  (requests sample_decode (λ _, "") (λ e _, e) sample_provider
    [at_second 100 sample_disk; at_second 159 no_files; at_second 218 no_files]).1 =
  [(["//x/..."; "-//y"], None); (["//x/..."; "-//y"], None); (["//x/..."; "-//y"], None)].
Proof.
  refine (presets_refreshed sample_decode (λ _, "") (λ e _, e) (at_second 100 sample_disk)
    [at_second 159 no_files; at_second 218 no_files] sample_provider "/w/b.bazelproject"
    (mkProjectView ["//x/..."; "-//y"] [] ["b.bazelproject"] false) ["//x/..."; "-//y"] sample_text
    _ _ _ _ _ _ _); vm_compute; first [reflexivity|done|idtac].
Defined.

Lemma presets_stale_witness :
  (requests sample_decode (λ _, "") (λ e _, e) (set_result ["//old"] sample_provider)
    [at_second 100 no_files; at_second 130 sample_disk]).1 = [([], None); (["//old"], None)].
Proof.
  refine (proj1 (presets_stale sample_decode (λ _, "") (λ e _, e) (at_second 100 no_files)
    [at_second 130 sample_disk] (set_result ["//old"] sample_provider) _ _) _); vm_compute;
    first [reflexivity|done|idtac].
Defined.
End BazelProject.
