(* ===== verification/Jdk.v ===== *)
(** * The JDK plugin

    Models [src/ulsp/controller/jdk/jdk.go] with its types, the handler
    [src/ulsp/handler/jdk/jdk.go] and the mapper [src/ulsp/mapper/idl/jdk.go]:
    the class of a breakpoint, and the file of a class.

    What the plugin asks the SCIP controller is the class [ScipLookups]; the
    controller of [ScipController] is an instance.  [slices.SortFunc] is a merge
    sort: of the sorted definitions only the symbol of the first is used. *)

From stdpp Require Import base gmap list sorting strings.
From Stdlib Require Import ZArith Lia Ascii.
From S2P Require Import Prelude Protocol Session Plugins Scip Paths.
From S2P Require Import Registry Occurrences WorkspaceUtils RegistryProof ScipController.

Local Open Scope Z_scope.

Module Jdk.

Definition _nameKey : string := "jdk".
Definition _defaultPackageVersion : string := ".".
(** [scip.Descriptor_Type] *)
Definition Descriptor_Type : Z := 2.

Record BreakpointLocation := mkBreakpointLocation {
  BLine : Z; BColumn : Z; ClassName : string; MethodName : string; MethodSignature : string
}.
Record ResolveBreakpointsParams := mkResolveBreakpoints {
  BWorkspaceRoot : string; SourceURI : string; Breakpoints : list Position
}.
Record ResolveClassToPathParams := mkResolveClassToPath {
  CWorkspaceRoot : string; FullyQualifiedName : string; SourceRelativePath : string
}.

(** ** Names of classes *)

Definition getPackageAndClass (fqn : string) : string * string :=
  let parts := WorkspaceUtils.Split "." fqn in
  match reverse parts with
  | [class] => ("", class)
  | class :: pkg => (join "." (reverse pkg), class)
  | [] => ("", "")
  end.

Definition getDescriptors (fqn : string) : gores (list Model.Descriptor) :=
  let '(pkgID, class) := getPackageAndClass fqn in
  if bool_decide (pkgID = "" ∨ class = "") then Err (EText ("invalid class name " +:+ fqn))
  else
    name <-? (match WorkspaceUtils.Split "$" class with x :: _ => Ok x | [] => Panic end);;
    Ok (((λ segment, Model.mkDescriptor segment Scip.Descriptor_Namespace "") <$> WorkspaceUtils.Split "." pkgID)
        ++ [Model.mkDescriptor name Descriptor_Type ""]).

Section jdk.
Context `{Bindings}.

(** The loop over the descriptors. *)
Fixpoint name_parts (ds : list Scip.Descriptor) (namespace : list string) (className : string) :
    list string * string :=
  match ds with
  | [] => (namespace, className)
  | d :: ds' =>
    if Scip.Suffix d =? Scip.Descriptor_Namespace then name_parts ds' (namespace ++ [Scip.DName d]) className
    else if Scip.Suffix d =? Descriptor_Type then
      name_parts ds' namespace
        (if bool_decide (className = "") then Scip.DName d else className +:+ "$" +:+ Scip.DName d)
    else name_parts ds' namespace className
  end.

Definition getFullClassName (symbol : string) : gores string :=
  match ParseSymbol symbol with
  | Ok symb =>
    let '(namespace, className) := name_parts (Scip.Descriptors symb) [] "" in
    Ok (join "." namespace +:+ "." +:+ className)
  | Err _ => Ok ""
  | Panic => Panic
  | Fuel => Fuel
  end.

(** ** Breakpoints and classes *)

Class ScipLookups (S : Type) := {
  GetDocumentSymbols : Context → string → URI → GoM S (option (list Model.SymbolOccurrence));
  GetSymbolDefinitionOccurrence :
    Context → string → list Model.Descriptor → string → GoM S (option Model.SymbolOccurrence)
}.

Definition symbol_le (a b : Model.SymbolInformation) : Prop := String.le (Model.ISymbol a) (Model.ISymbol b).
#[export] Instance symbol_le_dec : RelDecision symbol_le.
Proof. intros a b. unfold symbol_le. apply _. Defined.

Definition getClassDefinitions (symbols : list Model.SymbolOccurrence) : list Model.SymbolInformation :=
  merge_sort symbol_le (omap (λ sym,
    info ← Model.SInfo sym;
    match Model.Kind info with Scip.Kind_Class => Some info | _ => None end) symbols).

(** The definitions are not empty. *)
Definition findEnclosingClass (defs : list Model.SymbolInformation) (rbp : Position) : gores string :=
  d <-? go_index defs 0;;
  getFullClassName (Model.ISymbol d).

Definition at_class (rbp : Position) (className : string) : BreakpointLocation :=
  mkBreakpointLocation (Line rbp) (Character rbp) className "" "".

(** The loop over the breakpoints; an error skips the breakpoint. *)
Fixpoint locate (class_of : Position → gores string) (bps : list Position) (res : list BreakpointLocation) :
    gores (list BreakpointLocation) :=
  match bps with
  | [] => Ok res
  | rbp :: bps' =>
    match class_of rbp with
    | Ok className => locate class_of bps' (res ++ [at_class rbp className])
    | Err _ => locate class_of bps' res
    | Panic => Panic
    | Fuel => Fuel
    end
  end.

Definition ResolveBreakpoints {S} `{ScipLookups S} (ctx : Context) (req : ResolveBreakpointsParams) :
    GoM S (list BreakpointLocation) :=
  symbols <- GetDocumentSymbols ctx (BWorkspaceRoot req) (SourceURI req);;
  match default [] symbols with
  | [] => sret []
  | symbols =>
    match getClassDefinitions symbols with
    | [] => sret []
    | [def] => lift_res (locate (λ _, getFullClassName (Model.ISymbol def)) (Breakpoints req) [])
    | defs => lift_res (locate (findEnclosingClass defs) (Breakpoints req) [])
    end
  end.

(** A nil occurrence is dereferenced. *)
Definition ResolveClassToPath {S} `{ScipLookups S} (ctx : Context) (req : ResolveClassToPathParams) :
    GoM S string :=
  descriptors <- lift_res (getDescriptors (FullyQualifiedName req));;
  s <- GetSymbolDefinitionOccurrence ctx (CWorkspaceRoot req) descriptors _defaultPackageVersion;;
  match s with
  | Some s => sret (Model.SLocation s)
  | None => lift_res Panic
  end.

Definition exit (ctx : Context) : gores unit := Ok tt.

(** ** The handler and its mapper *)

Record SourceBreakpoint := mkSourceBreakpoint { PLine : Z; PColumn : Z }.
Record ResolveBreakpointsRequest := mkBreakpointsRequest {
  RSourceUri : string; RBreakpoints : list SourceBreakpoint
}.
Record ResolveClassToPathRequest := mkClassRequest { RFullyQualifiedName : string; RSourceRelativePath : string }.

Definition SourceBreakpointsToBreakpointPositions (l : list SourceBreakpoint) : list Position :=
  (λ bp, mkPosition (PLine bp) (PColumn bp)) <$> l.
Definition ResolveBreakpointsRequestToResolveBreakpoints (req : ResolveBreakpointsRequest)
    (workspaceRoot : string) : ResolveBreakpointsParams :=
  mkResolveBreakpoints workspaceRoot (RSourceUri req) (SourceBreakpointsToBreakpointPositions (RBreakpoints req)).
Definition ResolveClassToPathRequestToResolveClassToPath (req : ResolveClassToPathRequest)
    (workspaceRoot : string) : ResolveClassToPathParams :=
  mkResolveClassToPath workspaceRoot (RFullyQualifiedName req) (RSourceRelativePath req).
(** The fields of a location are copied one by one. *)
Definition BreakpointLocationsToBreakpointsResponse (l : list BreakpointLocation) : list BreakpointLocation :=
  (λ bp, mkBreakpointLocation (BLine bp) (BColumn bp) (ClassName bp) (MethodName bp) (MethodSignature bp)) <$> l.

(** [header] is the root of the workspace in the header of the call. *)
Definition handle_ResolveBreakpoints {S} `{ScipLookups S} (ctx : Context) (header : string)
    (req : ResolveBreakpointsRequest) : GoM S (list BreakpointLocation) :=
  res <- ResolveBreakpoints ctx (ResolveBreakpointsRequestToResolveBreakpoints req header);;
  sret (BreakpointLocationsToBreakpointsResponse res).
Definition handle_ResolveClassToPath {S} `{ScipLookups S} (ctx : Context) (header : string)
    (req : ResolveClassToPathRequest) : GoM S string :=
  ResolveClassToPath ctx (ResolveClassToPathRequestToResolveClassToPath req header).
End jdk.

(** [StartupInfo] *)
Definition StartupInfo `{ProtocolMethods} (ctx : Context) : gores PluginInfo :=
  Ok (mkPluginInfo {[Plugins.MethodName Exit := PriorityAsync]} (Some (mkMethods _nameKey [Exit])) _nameKey None).

(** ** Names of classes and descriptors *)

Import WorkspaceUtils.

Lemma Split_join sep ws : ws ≠ [] → Forall (no_char sep) ws → Split sep (join (String sep "") ws) = ws.
Proof.
  intros Hne Hws. induction Hws as [|w ws Hw Hws IH]; [done|]. destruct ws as [|w' ws].
  - by apply Split_no_sep.
  - change (join (String sep "") (w :: w' :: ws)) with (w +:+ String sep (join (String sep "") (w' :: ws))).
    by rewrite Split_app, IH.
Qed.
Lemma join_snoc sep ws w : ws ≠ [] → join sep (ws ++ [w]) = join sep ws +:+ sep +:+ w.
Proof.
  induction ws as [|x ws IH]; intros Hne; [done|]. destruct ws as [|y ws]; [done|].
  change (x +:+ sep +:+ join sep ((y :: ws) ++ [w]) = (x +:+ sep +:+ join sep (y :: ws)) +:+ sep +:+ w).
  rewrite IH by done. by rewrite !append_assoc.
Qed.
Lemma no_char_app c s t : no_char c s → no_char c t → no_char c (s +:+ t).
Proof.
  unfold no_char. induction s as [|b s IH]; intros Hs Ht; [done|].
  change (String b s +:+ t) with (String b (s +:+ t)). cbn in *.
  rewrite not_elem_of_cons in *. naive_solver.
Qed.
Lemma no_char_join c sep ws : no_char c sep → Forall (no_char c) ws → no_char c (join sep ws).
Proof.
  intros Hsep. induction 1 as [|w ws Hw Hws IH]; [by apply not_elem_of_nil|]. destruct ws as [|w' ws]; [done|].
  change (join sep (w :: w' :: ws)) with (w +:+ sep +:+ join sep (w' :: ws)). by repeat apply no_char_app.
Qed.
Lemma join_non_empty sep w ws : w ≠ "" → join sep (w :: ws) ≠ "".
Proof. intros Hw. by destruct w, ws. Qed.

Definition namespaces (ns : list string) : list Model.Descriptor :=
  (λ segment, Model.mkDescriptor segment Scip.Descriptor_Namespace "") <$> ns.
Definition type_descriptor (name : string) : Model.Descriptor := Model.mkDescriptor name Descriptor_Type "".

(** A segment of a package, and the name of a class without its package. *)
Definition segment (s : string) : Prop := s ≠ "" ∧ no_char "." s.

Lemma getPackageAndClass_join ns class : ns ≠ [] → Forall segment ns → segment class →
  getPackageAndClass (join "." (ns ++ [class])) = (join "." ns, class).
Proof.
  intros Hne Hns Hc. unfold getPackageAndClass. rewrite Split_join.
  - rewrite reverse_snoc. destruct (reverse ns) as [|x l] eqn:Hr.
    + by apply (f_equal reverse) in Hr; rewrite reverse_involutive in Hr.
    + by rewrite <- Hr, reverse_involutive.
  - by destruct ns.
  - apply Forall_app. split; [|by constructor; [apply Hc|]]. eapply Forall_impl; [exact Hns|]. by intros x [].
Qed.

(** The class [class] may have inner classes after a dollar sign, which are cut. *)
Lemma getDescriptors_class ns outer rest class : ns ≠ [] → Forall segment ns → segment class →
  Split "$" class = outer :: rest →
  getDescriptors (join "." (ns ++ [class])) = Ok (namespaces ns ++ [type_descriptor outer]).
Proof.
  intros Hne Hns Hc Hs. unfold getDescriptors. rewrite getPackageAndClass_join by done.
  rewrite bool_decide_false.
  - rewrite Hs. cbn [rbind]. rewrite Split_join; [done|done|]. eapply Forall_impl; [exact Hns|]. by intros x [].
  - intros [Hj|Hj]; [|by destruct Hc]. destruct Hns as [|n ns Hn _]; [done|]. by apply (join_non_empty "." n ns) in Hj; [|apply Hn].
Qed.

Section names.
Context `{Bindings}.

Definition scip_namespaces (ns : list string) : list Scip.Descriptor :=
  (λ n, Scip.mkDescriptor n Scip.Descriptor_Namespace "") <$> ns.
Definition scip_types (ts : list string) : list Scip.Descriptor :=
  (λ t, Scip.mkDescriptor t Descriptor_Type "") <$> ts.

Lemma name_parts_namespaces ns ds acc c :
  name_parts (scip_namespaces ns ++ ds) acc c = name_parts ds (acc ++ ns) c.
Proof.
  revert acc. induction ns as [|n ns IH]; intros acc; cbn; [by rewrite app_nil_r|].
  by rewrite IH, <- app_assoc.
Qed.
Lemma name_parts_types ts acc c : c ≠ "" →
  name_parts (scip_types ts) acc c = (acc, join "$" (c :: ts)).
Proof.
  revert c. induction ts as [|t ts IH]; intros c Hc; [done|].
  change (name_parts (scip_types (t :: ts)) acc c) with
    (name_parts (scip_types ts) acc (if bool_decide (c = "") then t else c +:+ "$" +:+ t)).
  rewrite bool_decide_false by done. rewrite IH by (by destruct c). f_equal.
  destruct ts as [|t' ts]; [done|].
  change ((c +:+ "$" +:+ t) +:+ "$" +:+ join "$" (t' :: ts) = c +:+ "$" +:+ t +:+ "$" +:+ join "$" (t' :: ts)).
  by rewrite !append_assoc.
Qed.

(** The symbol of a class in the packages [ns], with the inner classes [ts]. *)
Lemma getFullClassName_class symbol sy ns t ts :
  ParseSymbol symbol = Ok sy → Scip.Descriptors sy = scip_namespaces ns ++ scip_types (t :: ts) →
  ns ≠ [] → t ≠ "" →
  getFullClassName symbol = Ok (join "." (ns ++ [join "$" (t :: ts)])).
Proof.
  intros Hp Hd Hne Ht. unfold getFullClassName. rewrite Hp, Hd, name_parts_namespaces.
  change (name_parts (scip_types (t :: ts)) ([] ++ ns) "") with (name_parts (scip_types ts) ns t).
  rewrite name_parts_types by done. by rewrite join_snoc.
Qed.

(** The Java name of a class is its packages with dots and its classes with
    dollar signs, and the descriptors found for this name are those of the
    packages and of the outermost class. *)
Theorem class_name_roundtrip symbol sy ns t ts :
  ParseSymbol symbol = Ok sy → Scip.Descriptors sy = scip_namespaces ns ++ scip_types (t :: ts) →
  ns ≠ [] → Forall segment ns → Forall segment (t :: ts) → Forall (no_char "$") (t :: ts) →
  ∃ fqn, getFullClassName symbol = Ok fqn ∧ fqn = join "." (ns ++ [join "$" (t :: ts)]) ∧
    getDescriptors fqn = Ok (namespaces ns ++ [type_descriptor t]).
Proof.
  intros Hp Hd Hne Hns Hts Hdollar. pose proof (Forall_inv Hts) as [Ht _]. eexists.
  split; [by eapply getFullClassName_class|]. split; [done|].
  apply (getDescriptors_class ns t ts); [done..| |by apply Split_join].
  split; [by apply join_non_empty|]. apply no_char_join; [by apply (bool_decide_unpack _); vm_compute|].
  eapply Forall_impl; [exact Hts|]. by intros x [].
Qed.
End names.

(** ** Breakpoints *)

Section breakpoints.
Context `{Bindings} {S : Type} `{ScipLookups S}.

(** The classes that a document defines. *)
Definition classes (symbols : list Model.SymbolOccurrence) : list Model.SymbolInformation :=
  omap (λ sym, info ← Model.SInfo sym;
    match Model.Kind info with Scip.Kind_Class => Some info | _ => None end) symbols.

Lemma locate_all class_of name bps res : (∀ p, class_of p = Ok name) →
  locate class_of bps res = Ok (res ++ ((λ rbp, at_class rbp name) <$> bps)).
Proof.
  intros Hc. revert res. induction bps as [|p bps IH]; intros res; cbn; [by rewrite app_nil_r|].
  by rewrite Hc, IH, <- app_assoc.
Qed.

#[local] Instance symbol_le_trans : Transitive symbol_le.
Proof. intros a b c. unfold symbol_le. apply transitivity. Qed.
#[local] Instance symbol_le_total : Total symbol_le.
Proof. intros a b. unfold symbol_le. apply total, _. Qed.

(** The first of the sorted definitions has the least symbol. *)
Lemma getClassDefinitions_head symbols : classes symbols ≠ [] →
  ∃ d l, getClassDefinitions symbols = d :: l ∧ d ∈ classes symbols ∧
    ∀ x, x ∈ classes symbols → symbol_le d x.
Proof.
  intros Hne. unfold getClassDefinitions. fold (classes symbols).
  pose proof (StronglySorted_merge_sort symbol_le (classes symbols)) as Hs.
  pose proof (merge_sort_Permutation symbol_le (classes symbols)) as Hp.
  destruct (merge_sort symbol_le (classes symbols)) as [|d l]; [by apply Permutation_nil_l in Hp|].
  exists d, l. split; [done|]. split; [rewrite <- Hp; by left|].
  apply StronglySorted_inv in Hs as [_ Hl]. rewrite Forall_forall in Hl.
  intros x. rewrite <- Hp, elem_of_cons. intros [->|Hx]; [by unfold symbol_le|by apply Hl].
Qed.

(** The breakpoints of a document come back in the order of the request,
    with their positions, all in the class of the document whose symbol is least
    in the order of strings; a document without classes has no breakpoints. *)
Theorem ResolveBreakpoints_least ctx header req s symbols s' :
  GetDocumentSymbols ctx header (RSourceUri req) s = (Ok symbols, s') →
  (classes (default [] symbols) = [] → handle_ResolveBreakpoints ctx header req s = (Ok [], s')) ∧
  (∀ c name, c ∈ classes (default [] symbols) →
    (∀ d, d ∈ classes (default [] symbols) → symbol_le c d) →
    getFullClassName (Model.ISymbol c) = Ok name →
    handle_ResolveBreakpoints ctx header req s =
      (Ok ((λ bp, mkBreakpointLocation (PLine bp) (PColumn bp) name "" "") <$> RBreakpoints req), s')).
Proof.
  intros Hsym. unfold handle_ResolveBreakpoints, ResolveBreakpoints. cbn [BWorkspaceRoot SourceURI Breakpoints
    ResolveBreakpointsRequestToResolveBreakpoints].
  set (syms := default [] symbols). split.
  - intros Hc. rewrite sbind_assoc, (sbind_ok _ _ _ _ _ Hsym). fold syms.
    assert (Hd : getClassDefinitions syms = []).
    { unfold getClassDefinitions. fold (classes syms). by rewrite Hc. }
    destruct syms; [done|]. by rewrite Hd.
  - intros c name Hin Hleast Hname. rewrite sbind_assoc, (sbind_ok _ _ _ _ _ Hsym). fold syms.
    destruct (getClassDefinitions_head syms) as (d&l&Hd&Hdin&Hdle); [by intros Hn; rewrite Hn in Hin; apply not_elem_of_nil in Hin|].
    assert (Hsame : Model.ISymbol d = Model.ISymbol c)
      by (apply (anti_symm String.le); [by apply Hdle|by apply Hleast]).
    destruct syms as [|x syms']; [by apply not_elem_of_nil in Hin|]. rewrite Hd.
    assert (Hloc : ∀ f, (∀ p : Position, f p = Ok name) →
      sbind (lift_res (locate f (SourceBreakpointsToBreakpointPositions (RBreakpoints req)) []))
        (λ res, sret (BreakpointLocationsToBreakpointsResponse res)) s' =
      (Ok ((λ bp, mkBreakpointLocation (PLine bp) (PColumn bp) name "" "") <$> RBreakpoints req), s')).
    { intros f Hf. rewrite (locate_all f name) by done. cbn. do 2 f_equal.
      unfold SourceBreakpointsToBreakpointPositions, BreakpointLocationsToBreakpointsResponse.
      by rewrite <- !list_fmap_compose. }
    destruct l as [|d' l]; apply Hloc; intros p; [by rewrite Hsame|].
    change (findEnclosingClass (d :: d' :: l) p) with (getFullClassName (Model.ISymbol d)). by rewrite Hsame.
Qed.
End breakpoints.

(** ** Files of classes *)

Section paths.
Context {S : Type} {I : Index.PartialIndex S} {C : CallbackLog S} {V : Index.View S} {B : Bindings} {L : Index.Laws S} {U : UriLib}.

(** The lookups in the registry of a workspace. *)
Definition registry_lookups (root : string) : ScipLookups S := {|
  GetDocumentSymbols _ _ uri := Registry.DocumentSymbols root uri;
  GetSymbolDefinitionOccurrence _ _ ds v := Registry.GetSymbolDefinitionOccurrence root ds v
|}.

(** For a class whose packages and name are those of a definition in the
    index, the file of the definition is returned, as a URI in the workspace;
    a name without a package is refused.  For a class that is not in the index
    the nil result of the lookup is dereferenced, and the request panics. *)
Theorem ResolveClassToPath_finds root ctx ws rel ns outer rest class s :
  Index.ready s → ns ≠ [] → Forall segment ns → segment class → Split "$" class = outer :: rest →
  let ds := namespaces ns ++ [type_descriptor outer] in
  let resolve fqn := @handle_ResolveClassToPath S (registry_lookups root) ctx ws (mkClassRequest fqn rel) s in
  (∃ s', Index.unchanged s s' ∧
    resolve (join "." (ns ++ [class])) =
      (match definition_of root s ds _defaultPackageVersion with
       | Some def => Ok (Model.SLocation def)
       | None => Panic
       end, s')) ∧
  resolve class = (Err (EText ("invalid class name " +:+ class)), s).
Proof.
  intros Hs Hne Hns Hc Ho ds. cbn zeta. split.
  - destruct (GetSymbolDefinitionOccurrence_ok root s ds _defaultPackageVersion Hs) as (s'&Hrun&_&Hu); [|done|].
    { intros Hnil. by destruct ns. }
    exists s'. split; [by eapply Index.as_unchanged|]. unfold handle_ResolveClassToPath, ResolveClassToPath.
    cbn [CWorkspaceRoot FullyQualifiedName ResolveClassToPathRequestToResolveClassToPath RFullyQualifiedName].
    rewrite (getDescriptors_class ns outer rest class) by done. unfold sbind at 1. cbn [lift_res].
    rewrite (sbind_ok _ _ _ _ _ Hrun). by destruct (definition_of _ _ _ _).
  - unfold handle_ResolveClassToPath, ResolveClassToPath, getDescriptors, getPackageAndClass.
    cbn [FullyQualifiedName ResolveClassToPathRequestToResolveClassToPath RFullyQualifiedName].
    rewrite Split_no_sep by apply Hc. change (reverse [class]) with [class]. cbn iota.
    by rewrite bool_decide_true by (by left).
Qed.
End paths.

(** The lookups of the SCIP controller. *)
Definition controller_lookups {R S M} `{Repository R} `{Index.PartialIndex S} `{CallbackLog S} `{Bindings}
    `{UriLib} (publish_error : uuid → URI → option error) (sessions : R) :
    ScipLookups (Controller.controller S M) := {|
  GetDocumentSymbols := Controller.GetDocumentSymbols publish_error sessions;
  GetSymbolDefinitionOccurrence := Controller.GetSymbolDefinitionOccurrence publish_error sessions
|}.

(** A request for a workspace that is not loaded panics. *)
Theorem ResolveClassToPath_not_loaded {R S M} `{Repository R} `{Index.PartialIndex S} `{CallbackLog S}
    `{Bindings} `{UriLib} publish_error (sessions : R) (c : Controller.controller S M) ctx ws fqn rel ds :
  ws ≠ "" → Controller.registries c !! ws = None → getDescriptors fqn = Ok ds →
  @handle_ResolveClassToPath _ (controller_lookups publish_error sessions) ctx ws (mkClassRequest fqn rel) c
  = (Panic, c).
Proof.
  intros Hws Hreg Hds. unfold handle_ResolveClassToPath, ResolveClassToPath.
  cbn [CWorkspaceRoot FullyQualifiedName ResolveClassToPathRequestToResolveClassToPath RFullyQualifiedName].
  rewrite Hds. cbn. unfold Controller.GetSymbolDefinitionOccurrence, Controller.workspace_root.
  rewrite bool_decide_false by done. unfold sbind. cbn. by rewrite Hreg.
Qed.

(** ** Instances *)

(** The symbols [A] and [B] are classes of the package [com.example]; [B] is an
    inner class of [C]. *)
Definition class_bindings : Bindings := {|
  NewRange := λ _, Err EEOF; IsSingleLine := λ _, false;
  ParseSymbol := λ s,
    if bool_decide (s = "A") then
      Ok (Scip.mkSymbol "scip" None (scip_namespaces ["com"; "example"] ++ scip_types ["A"]))
    else if bool_decide (s = "B") then
      Ok (Scip.mkSymbol "scip" None (scip_namespaces ["com"; "example"] ++ scip_types ["C"; "B"]))
    else Err EEOF;
  IsLocalSymbol := λ _, false; IsGlobalSymbol := λ _, true; Package_ID := λ _, ""
|}.

Lemma sample_segments : Forall segment ["com"; "example"] ∧ Forall segment ["C"; "B"] ∧ Forall (no_char "$") ["C"; "B"].
Proof.
  split_and!; repeat (apply Forall_cons_2 || apply Forall_nil_2);
    try (split; [done|]); apply (bool_decide_unpack _); vm_compute; exact I.
Qed.

Lemma class_name_roundtrip_witness :
  @getFullClassName class_bindings "B" = Ok "com.example.C$B" ∧
  getDescriptors "com.example.C$B" = Ok (namespaces ["com"; "example"] ++ [type_descriptor "C"]).
Proof.
  destruct sample_segments as (H1&H2&H3).
  destruct (@class_name_roundtrip class_bindings "B" _ ["com"; "example"] "C" ["B"] eq_refl eq_refl
    ltac:(discriminate) H1 H2 H3) as (fqn&Hn&Hf&Hd).
  rewrite Hf in Hn, Hd. split; [exact Hn|exact Hd].
Defined.

Definition class_info (symbol : string) (kind : Scip.SymbolInformation_Kind) : Model.SymbolOccurrence :=
  Model.mkSymbolOccurrence "" None (Some (Model.mkSymbolInformation symbol [] [] kind "" None "")).
Definition sample_lookups : ScipLookups unit := {|
  GetDocumentSymbols _ _ _ :=
    sret (Some [class_info "m" Scip.Kind_Method; class_info "B" Scip.Kind_Class; class_info "A" Scip.Kind_Class]);
  GetSymbolDefinitionOccurrence _ _ _ _ := sret None
|}.

Lemma ResolveBreakpoints_least_witness :
  @handle_ResolveBreakpoints class_bindings unit sample_lookups (mkContext None) "/w"
    (mkBreakpointsRequest "file:///w/A.java" [mkSourceBreakpoint 9 4; mkSourceBreakpoint 2 0]) tt =
  (Ok [mkBreakpointLocation 9 4 "com.example.A" "" ""; mkBreakpointLocation 2 0 "com.example.A" "" ""], tt).
Proof.
  apply (proj2 (@ResolveBreakpoints_least class_bindings unit sample_lookups (mkContext None) "/w"
    (mkBreakpointsRequest "file:///w/A.java" [mkSourceBreakpoint 9 4; mkSourceBreakpoint 2 0]) tt _ tt eq_refl)
    (Model.mkSymbolInformation "A" [] [] Scip.Kind_Class "" None "") "com.example.A").
  - right. left.
  - intros d [->|[->|Hd%elem_of_nil]%elem_of_cons]%elem_of_cons; [..|done];
      unfold symbol_le; apply (bool_decide_unpack _); vm_compute; exact I.
  - reflexivity.
Defined.

Lemma ResolveClassToPath_finds_witness :
  ∃ s', @handle_ResolveClassToPath _ (@registry_lookups _ _ simple_bindings simple_uri "/w") (mkContext None) "/w"
    (mkClassRequest "com.example.Missing" "") sample_registry = (Panic, s').
Proof.
  destruct sample_segments as (H1&_).
  destruct (@ResolveClassToPath_finds _ _ _ _ simple_bindings _ simple_uri "/w" (mkContext None) "/w" ""
    ["com"; "example"] "Missing" [] "Missing" sample_registry sample_ready ltac:(discriminate) H1) as [(s'&_&Hr) _].
  - split; [done|]. apply (bool_decide_unpack _); vm_compute; exact I.
  - reflexivity.
  - exists s'. exact Hr.
Defined.
End Jdk.
