(* ===== verification/ScalaAssist.v ===== *)
(** * Scala assist

    Models [src/ulsp/controller/scala-assist/scala_assist.go]: a watcher on the
    [.bsp] directories of the workspaces, and the copy of the Bazel BSP
    configuration with another version that it keeps up to date.

    JSON is a parameter ([Json]) with its round trip as a law; the watcher of the
    file system library is the list of the directories it was asked to watch.
    [faults] says which calls of the operating system fail.  The order in which
    Go ranges over the watched workspaces is a parameter. *)

From stdpp Require Import base gmap list strings.
From Stdlib Require Import ZArith Lia.
From S2P Require Import Prelude Paths Session Plugins QuickActions.

Local Open Scope Z_scope.

Module ScalaAssist.

Definition _nameKey : string := "scala-assist".
Definition _bspDir : string := ".bsp".
Definition _bspSourceName : string := "bazelbsp.json".
Definition _bspDestName : string := "bazelbsp_scala.json".
Definition _versionOverride : string := "3.2.0-20240629-e3d8bdf-NIGHTLY".
Definition _scalaLang : string := "scala".

(** [fsnotify.Write] *)
Definition fsnotify_Write : Z := 2.

(** [json.Unmarshal] to a map, where [None] is the nil map of [null], and
    [json.MarshalIndent]. *)
Class Json (J : Type) := {
  json_string : string → J;
  Unmarshal : string → error + option (gmap string J);
  MarshalIndent : gmap string J → error + string
}.
Class JsonLaws (J : Type) `{Json J} := {
  Unmarshal_Marshal m s : MarshalIndent m = inr s → Unmarshal s = inr (Some m)
}.

(** The calls of the operating system and of the watcher. *)
Inductive Call := CallNewWatcher | CallMkdirAll (dir : string) | CallWatch (dir : string)
  | CallReadFile (path : string) | CallWriteFile (path : string).

(** [watcher] is nil for [None]; [goroutines] counts the readers of its events. *)
Record controller := mkController {
  watcher : option (list string);
  watchedWorkspaces : gset string;
  goroutines : nat;
  files : gmap string string
}.
Definition New (fs : gmap string string) : controller := mkController None ∅ 0 fs.

Definition set_watcher w c := mkController w (watchedWorkspaces c) (goroutines c) (files c).
Definition set_watched w c := mkController (watcher c) w (goroutines c) (files c).
Definition set_files f c := mkController (watcher c) (watchedWorkspaces c) (goroutines c) f.

Definition sourcePath (workspaceRoot : string) : string := path_Join [workspaceRoot; _bspDir; _bspSourceName].
Definition destPath (workspaceRoot : string) : string := path_Join [workspaceRoot; _bspDir; _bspDestName].
Definition bspDir (workspaceRoot : string) : string := path_Join [workspaceRoot; _bspDir].

Section scala.
Context {J : Type} `{Json J} (faults : Call → option error).

Definition attempt (call : Call) : GoM controller unit :=
  match faults call with Some e => throw e | None => sret tt end.

(** The reader of the events is started with the watcher. *)
Definition ensureWatcher : GoM controller unit := λ c,
  match watcher c with
  | Some _ => (Ok tt, c)
  | None =>
    match faults CallNewWatcher with
    | Some e => (Err (EWrap "create file system watcher" e), c)
    | None => (Ok tt, mkController (Some []) (watchedWorkspaces c) (S (goroutines c)) (files c))
    end
  end.

(** A write to a nil map panics. *)
Definition updateBSPJson (workspaceRoot : string) : GoM controller unit :=
  c <- get_st;;
  match files c !! sourcePath workspaceRoot with
  | None => sret tt
  | Some sourceData =>
    _ <- attempt (CallReadFile (sourcePath workspaceRoot));;
    match Unmarshal sourceData with
    | inl e => throw e
    | inr None => lift_res Panic
    | inr (Some bspConfig) =>
      match MarshalIndent (<["version" := json_string _versionOverride]> bspConfig) with
      | inl e => throw e
      | inr modifiedData =>
        _ <- attempt (CallWriteFile (destPath workspaceRoot));;
        modify_st (λ c, set_files (<[destPath workspaceRoot := modifiedData]> (files c)) c)
      end
    end
  end.

(** The failure of the first update is logged. *)
Definition beginWatchingBspDir (workspaceRoot : string) : GoM controller unit :=
  c <- get_st;;
  match watcher c with
  | None => throw (EText "watcher not initialized")
  | Some dirs =>
    if bool_decide (workspaceRoot ∈ watchedWorkspaces c) then sret tt
    else
      _ <- wrapM "create BSP directory" (attempt (CallMkdirAll (bspDir workspaceRoot)));;
      _ <- wrapM "watch BSP directory" (attempt (CallWatch (bspDir workspaceRoot)));;
      _ <- modify_st (λ c, set_watched ({[workspaceRoot]} ∪ watchedWorkspaces c)
                             (set_watcher (Some (dirs ++ [bspDir workspaceRoot])) c));;
      _ <- try_ (updateBSPJson workspaceRoot);;
      sret tt
  end.

Definition initialized {R} `{Repository R} (sessions : R) (ctx : Context) : GoM controller unit :=
  _ <- ensureWatcher;;
  s <- lift_res (repo_GetFromContext sessions ctx);;
  beginWatchingBspDir (WorkspaceRoot s).

(** An event of the watcher: a set of operations and the name of the file. *)
Record Event := mkEvent { EventOp : Z; EventName : string }.

(** The first workspace, in the order of the map, whose root is a prefix. *)
Definition find_root (roots : list string) (name : string) : string :=
  default "" (List.find (λ root, String.prefix root name) roots).

Definition consumeWatcherEvent (order : gset string → list string) (event : Event) : GoM controller unit :=
  if bool_decide (Z.land (EventOp event) fsnotify_Write ≠ fsnotify_Write) then sret tt
  else
    c <- get_st;;
    let workspaceRoot := find_root (order (watchedWorkspaces c)) (EventName event) in
    if bool_decide (EventName event ≠ sourcePath workspaceRoot) then sret tt
    else if bool_decide (workspaceRoot = "") then sret tt
    else _ <- try_ (updateBSPJson workspaceRoot);; sret tt.
End scala.

(** [configs.RelevantScalaRepos()] *)
Definition RelevantScalaRepos (configs : gmap MonorepoName QuickActions.MonorepoConfigEntry) : gset MonorepoName :=
  dom (filter (λ x, _scalaLang ∈ QuickActions.Languages x.2) configs).

(** [configs] is the field of the controller, which [New] does not set. *)
Definition new_configs : gmap MonorepoName QuickActions.MonorepoConfigEntry := ∅.
Definition StartupInfo `{ProtocolMethods} (ctx : Context) : gores PluginInfo :=
  Ok (mkPluginInfo {[MethodName Initialized := PriorityAsync]} (Some (mkMethods _nameKey [Initialized]))
    _nameKey (Some (RelevantScalaRepos new_configs))).

(** ** The plugin is never enabled *)

(** The plugin reads the relevant repositories from a field that is never set,
    so that it is left out for the sessions of every repository, also if the
    configuration enables it and the repository has Scala. *)
Theorem scala_never_enabled `{ProtocolMethods} ctx s config pre post :
  enabled_plugins ctx s config (pre ++ Some StartupInfo :: post) = enabled_plugins ctx s config (pre ++ post).
Proof.
  induction pre as [|[info|] pre IH]; cbn [app enabled_plugins]; [| |done].
  - unfold StartupInfo. cbn [wrap_err rbind RelevantRepos].
    rewrite bool_decide_false; [by destruct (enabled_plugins ctx s config post)|].
    unfold RelevantScalaRepos, new_configs. rewrite elem_of_dom, map_lookup_filter, lookup_empty. by intros [].
  - by rewrite IH.
Qed.

(** ** The watched workspaces *)

Section proofs.
Context {J : Type} `{JsonLaws J} (faults : Call → option error).

Abbreviation updateBSPJson := (updateBSPJson faults).

(** An update changes no file but its copy, and nothing else. *)
Lemma update_frame root c r c' : updateBSPJson root c = (r, c') →
  watcher c' = watcher c ∧ watchedWorkspaces c' = watchedWorkspaces c ∧ goroutines c' = goroutines c ∧
  ∀ f, f ≠ destPath root → files c' !! f = files c !! f.
Proof.
  unfold ScalaAssist.updateBSPJson, attempt, sbind, get_st. cbn.
  destruct (files c !! sourcePath root) as [data|]; cbn; [|by intros [= <- <-]].
  destruct (faults _); cbn; [by intros [= <- <-]|].
  destruct (Unmarshal data) as [?|[m|]]; cbn; [by intros [= <- <-]| |by intros [= <- <-]].
  destruct (MarshalIndent _) as [?|text]; cbn; [by intros [= <- <-]|].
  destruct (faults _); cbn; [by intros [= <- <-]|]. intros [= <- <-]. cbn.
  split_and!; [done..|]. intros f Hf. by rewrite lookup_insert_ne.
Qed.

(** What the plugin does: a session is initialized, or the watcher has an event. *)
Inductive Activity := AInitialized (ctx : Context) | AEvent (order : gset string → list string) (event : Event).

Section activities.
Context {R : Type} `{Repository R} (sessions : R).

Definition act (a : Activity) : GoM controller unit :=
  match a with
  | AInitialized ctx => initialized faults sessions ctx
  | AEvent order event => consumeWatcherEvent faults order event
  end.
(** A panic ends the program. *)
Fixpoint acts (l : list Activity) (c : controller) : controller :=
  match l with [] => c | a :: l' => acts l' (act a c).2 end.

(** There is one reader of events if and only if there is a watcher, and it
    watches the directory of every known workspace, once. *)
Definition watching (c : controller) : Prop :=
  match watcher c with
  | None => goroutines c = 0%nat ∧ watchedWorkspaces c = ∅
  | Some dirs => goroutines c = 1%nat ∧
      ∃ roots, NoDup roots ∧ dirs = bspDir <$> roots ∧ watchedWorkspaces c = list_to_set roots
  end.

Lemma watching_frame c c' : watching c → watcher c' = watcher c →
  watchedWorkspaces c' = watchedWorkspaces c → goroutines c' = goroutines c → watching c'.
Proof. unfold watching. by intros ? -> -> ->. Qed.

Lemma try_update_watching root c : watching c → watching ((_ <- try_ (updateBSPJson root);; sret tt) c).2.
Proof.
  intros Hc. unfold sbind, try_. destruct (updateBSPJson root c) as [r c'] eqn:Hu.
  destruct (update_frame root c r c' Hu) as (Hw&Hws&Hg&_).
  destruct r; cbn; by eapply watching_frame.
Qed.

Lemma begin_watching root c : watching c → watching (beginWatchingBspDir faults root c).2.
Proof.
  intros Hc. unfold beginWatchingBspDir. rewrite sbind_get.
  destruct (watcher c) as [dirs|] eqn:Hw; [|done]. case_bool_decide as Hin; [done|].
  unfold attempt. destruct (faults (CallMkdirAll _)); [done|].
  rewrite (sbind_ok _ _ c tt c) by done.
  destruct (faults (CallWatch _)); [done|]. rewrite (sbind_ok _ _ c tt c) by done.
  rewrite sbind_modify. apply try_update_watching.
  unfold watching in *. rewrite Hw in Hc. cbn. destruct Hc as (Hg&roots&Hnd&->&Hws).
  split; [done|]. exists (roots ++ [root]). split_and!.
  - apply NoDup_app. split_and!; [done|set_solver|apply NoDup_singleton].
  - by rewrite fmap_app.
  - rewrite list_to_set_app_L, Hws. set_solver.
Qed.

Lemma ensure_watching c : watching c → watching (ensureWatcher faults c).2.
Proof.
  unfold ensureWatcher. destruct (watcher c) as [dirs|] eqn:Hw; [done|].
  destruct (faults CallNewWatcher); [done|]. unfold watching. rewrite Hw. cbn. intros [-> ->].
  split; [done|]. exists []. split_and!; [constructor|done..].
Qed.

Lemma act_watching a c : watching c → watching (act a c).2.
Proof.
  intros Hc. destruct a as [ctx|order event]; cbn [act].
  - unfold initialized, sbind. pose proof (ensure_watching c Hc) as He.
    destruct (ensureWatcher faults c) as [[[]| | |] c1]; cbn in *; try done.
    destruct (repo_GetFromContext sessions ctx) as [s| | |]; cbn; [by apply begin_watching|done..].
  - unfold consumeWatcherEvent. case_bool_decide; [done|]. rewrite sbind_get.
    case_bool_decide; [done|]. case_bool_decide; [done|]. by apply try_update_watching.
Qed.

(** Over every sequence of initialized sessions and events, whatever fails,
    there is at most one reader of the events of the watcher, and the watcher
    watches the [.bsp] directory of every known workspace exactly once. *)
Theorem scala_watches l fs : watching (acts l (New fs)).
Proof.
  assert (Hgen : ∀ c, watching c → watching (acts l c)); [|by apply Hgen].
  induction l as [|a l IH]; intros c Hc; [done|]. by apply IH, act_watching.
Qed.
End activities.

(** ** Events *)

Lemma find_root_unique roots root name : root ∈ roots → String.prefix root name = true →
  (∀ r, r ∈ roots → String.prefix r name = true → r = root) → find_root roots name = root.
Proof.
  intros Hin Hp Hu. unfold find_root.
  destruct (List.find _ roots) as [r|] eqn:Hf; cbn.
  - apply find_some in Hf as [Hr Hpr]. apply Hu; [by apply list_elem_of_In|done].
  - apply list_elem_of_In in Hin. by rewrite (find_none _ _ Hf root Hin) in Hp.
Qed.
Lemma find_root_in roots name : find_root roots name = "" ∨ find_root roots name ∈ roots.
Proof.
  unfold find_root. destruct (List.find _ roots) as [r|] eqn:Hf; cbn; [right|by left].
  apply find_some in Hf as [Hr _]. by apply list_elem_of_In.
Qed.

(** When the BSP configuration of a watched workspace is written, and the
    root of no other watched workspace is a prefix of its path, the copy is
    brought up to date: it is the configuration with the version replaced, and no
    other file changes.  Every other event, that of the copy itself included,
    changes nothing. *)
Theorem bsp_event order event c :
  (∀ roots r, r ∈ order roots ↔ r ∈ roots) →
  (∀ root data config text,
    root ∈ watchedWorkspaces c → root ≠ "" → String.prefix root (sourcePath root) = true →
    (∀ r, r ∈ watchedWorkspaces c → String.prefix r (sourcePath root) = true → r = root) →
    EventName event = sourcePath root → Z.land (EventOp event) fsnotify_Write = fsnotify_Write →
    (∀ call, faults call = None) → files c !! sourcePath root = Some data →
    Unmarshal data = inr (Some config) →
    MarshalIndent (<["version" := json_string _versionOverride]> config) = inr text →
    consumeWatcherEvent faults order event c =
      (Ok tt, set_files (<[destPath root := text]> (files c)) c) ∧
    Unmarshal text = inr (Some (<["version" := json_string _versionOverride]> config))) ∧
  ((∀ root, root ∈ watchedWorkspaces c → EventName event ≠ sourcePath root) →
    consumeWatcherEvent faults order event c = (Ok tt, c)).
Proof.
  intros Horder. split.
  - intros root data config text Hin Hne Hp Hu Hname Hop Hf Hdata Hjson Hm.
    unfold consumeWatcherEvent. rewrite bool_decide_false, sbind_get, Hname by tauto.
    rewrite (find_root_unique _ root); [|by apply Horder|done|intros r Hr; apply Hu; by apply Horder in Hr].
    rewrite (bool_decide_false (_ ≠ _)) by tauto. rewrite (bool_decide_false (root = "")) by done.
    split; [|by eapply Unmarshal_Marshal].
    unfold ScalaAssist.updateBSPJson, attempt, sbind, try_, get_st. rewrite Hdata, !Hf. cbn. by rewrite Hjson, Hm.
  - intros Hno. unfold consumeWatcherEvent. case_bool_decide; [done|]. rewrite sbind_get.
    case_bool_decide as Hn; [done|]. case_bool_decide as He; [done|]. exfalso.
    destruct (find_root_in (order (watchedWorkspaces c)) (EventName event)) as [|Hin]; [done|].
    apply Horder in Hin. by apply (Hno _ Hin).
Qed.
End proofs.

(** ** Instances *)

(** Configurations with the one field [version], written as its value. *)
#[export] Instance toy_json : Json string := {
  json_string s := s;
  Unmarshal s := if bool_decide (s = "null") then inr None
    else if bool_decide (s = "{}") then inr (Some ∅) else inr (Some {["version" := s]});
  MarshalIndent m :=
    match m !! "version" with
    | Some v => if bool_decide (m = {["version" := v]} ∧ v ≠ "null" ∧ v ≠ "{}") then inr v else inl EEOF
    | None => inl EEOF
    end
}.
#[export] Instance toy_json_laws : JsonLaws string.
Proof.
  split. intros m s. cbn. destruct (m !! "version") as [v|]; [|done].
  case_bool_decide as Hv; [|done]. destruct Hv as (Hm&H1&H2). intros [= <-].
  rewrite !bool_decide_false by done. by rewrite Hm.
Qed.

Definition no_faults (call : Call) : option error := None.
Definition sample_controller (roots : gset string) : controller :=
  mkController (Some (bspDir <$> elements roots)) roots 1
    {["/w2/.bsp/bazelbsp.json" := "1.0"; "/w/.bsp/bazelbsp.json" := "null"]}.
Definition written (name : string) : Event := mkEvent 2 name.

Lemma bsp_event_witness :
  consumeWatcherEvent no_faults elements (written "/w2/.bsp/bazelbsp.json") (sample_controller {["/w2"; "/v"]}) =
  (Ok tt, set_files (<["/w2/.bsp/bazelbsp_scala.json" := _versionOverride]> (files (sample_controller {["/w2"; "/v"]})))
    (sample_controller {["/w2"; "/v"]})).
Proof.
  apply (proj1 (bsp_event no_faults elements (written "/w2/.bsp/bazelbsp.json") (sample_controller {["/w2"; "/v"]})
    (λ roots r, elem_of_elements roots r)) "/w2" "1.0" {["version" := "1.0"]} _versionOverride); try done.
  intros r [Hr%elem_of_singleton|Hr%elem_of_singleton]%elem_of_union; by subst.
Defined.

(** With the workspaces [/w] and [/w2], a change of the configuration of [/w2] is
    lost if the map of the workspaces happens to be ranged over with [/w] first. *)
Example event_lost :
  let c := sample_controller {["/w"; "/w2"]} in
  (consumeWatcherEvent no_faults (λ _, ["/w"; "/w2"]) (written "/w2/.bsp/bazelbsp.json") c).2 = c ∧
  files (consumeWatcherEvent no_faults (λ _, ["/w2"; "/w"]) (written "/w2/.bsp/bazelbsp.json") c).2
    !! "/w2/.bsp/bazelbsp_scala.json" = Some _versionOverride.
Proof. vm_compute. split; reflexivity. Qed.

(** A configuration file that holds [null] makes the reader of the events panic. *)
Example null_panics :
  (consumeWatcherEvent no_faults elements (written "/w/.bsp/bazelbsp.json") (sample_controller {["/w"]})).1 = Panic.
Proof. vm_compute. reflexivity. Qed.
End ScalaAssist.
