(* ===== verification/Json.v ===== *)
(** * JSON objects of strings

    How Go's [encoding/json] writes a [map[string]string]: the keys sorted,
    and strings with the characters escaped that are special in JSON or HTML.
    A reader of such objects is defined besides, as a client has one, and
    shown to read back every map of valid UTF-8 text. *)

From stdpp Require Import base gmap list strings fin_maps sorting.
From Stdlib Require Import ZArith Lia.
From S2P Require Import Prelude Utf8 Scanner.

Local Open Scope Z_scope.

Module Json.

Definition bytes_of_string (s : string) : bytes :=
  (λ c, Z.of_N (Ascii.N_of_ascii c)) <$> String.list_ascii_of_string s.

(** ** Writing *)

Definition hex (d : Z) : Z := if d <? 10 then 48 + d else 87 + d.

(** [htmlSafeSet] *)
Definition htmlSafe (b : Z) : bool :=
  (32 <=? b) && (b <? 128) && negb (b =? 34) && negb (b =? 38) && negb (b =? 60) &&
  negb (b =? 62) && negb (b =? 92).

(** The escape of a byte that is not safe. *)
Definition escape (b : Z) : bytes :=
  if (b =? 92) || (b =? 34) then [92; b]
  else if b =? 8 then [92; 98]
  else if b =? 12 then [92; 102]
  else if b =? 10 then [92; 110]
  else if b =? 13 then [92; 114]
  else if b =? 9 then [92; 116]
  else [92; 117; 48; 48; hex (Z.shiftr b 4); hex (Z.land b 15)].

Definition replacement : bytes := [92; 117; 102; 102; 102; 100].

(** The loop of [appendString]; every round takes a byte at least, so the
    length is fuel enough ([quote_encode]). *)
Fixpoint quote_loop (fuel : nat) (src : bytes) : bytes :=
  match fuel with
  | O => []
  | S fuel' =>
    match src with
    | [] => []
    | b :: rest =>
      if b <? RuneSelf then (if htmlSafe b then [b] else escape b) ++ quote_loop fuel' rest
      else
        let '(c, size) := DecodeRune src in
        let after := drop (Z.to_nat size) src in
        if (c =? RuneError) && (size =? 1) then replacement ++ quote_loop fuel' after
        else if (c =? 0x2028) || (c =? 0x2029) then
          [92; 117; 50; 48; 50; hex (Z.land c 15)] ++ quote_loop fuel' after
        else take (Z.to_nat size) src ++ quote_loop fuel' after
    end
  end.

Definition appendString (s : string) : bytes :=
  34 :: quote_loop (length (bytes_of_string s)) (bytes_of_string s) ++ [34].

Fixpoint join_comma (l : list bytes) : bytes :=
  match l with
  | [] => []
  | [x] => x
  | x :: l' => x ++ 44 :: join_comma l'
  end.

Definition member (x : string * string) : bytes := appendString x.1 ++ 58 :: appendString x.2.

Definition key_le (x y : string * string) : Prop := String.le x.1 y.1.
#[export] Instance key_le_dec : RelDecision key_le.
Proof. intros x y. unfold key_le. apply _. Defined.

(** [json.Marshal] of a map that is not nil. *)
Definition Marshal (m : gmap string string) : bytes :=
  123 :: join_comma (member <$> merge_sort key_le (map_to_list m)) ++ [125].

(** ** Reading *)

Definition unhex (c : Z) : option Z :=
  if (48 <=? c) && (c <=? 57) then Some (c - 48)
  else if (97 <=? c) && (c <=? 102) then Some (c - 87)
  else if (65 <=? c) && (c <=? 70) then Some (c - 55)
  else None.

Definition simple_escape (c : Z) : option Z :=
  if (c =? 34) || (c =? 92) || (c =? 47) then Some c
  else if c =? 98 then Some 8
  else if c =? 102 then Some 12
  else if c =? 110 then Some 10
  else if c =? 114 then Some 13
  else if c =? 116 then Some 9
  else None.

Definition unescape (b : bytes) : option (bytes * bytes) :=
  match b with
  | [] => None
  | c :: rest =>
    if c =? 117 then
      match rest with
      | h1 :: h2 :: h3 :: h4 :: rest' =>
        d1 ← unhex h1; d2 ← unhex h2; d3 ← unhex h3; d4 ← unhex h4;
        Some (encode_rune (d1 * 4096 + d2 * 256 + d3 * 16 + d4), rest')
      | _ => None
      end
    else o ← simple_escape c; Some ([o], rest)
  end.

(** The rest of a string after its opening quote. *)
Fixpoint unquote (fuel : nat) (b : bytes) : option (bytes * bytes) :=
  match fuel, b with
  | S fuel', c :: rest =>
    if c =? 34 then Some ([], rest)
    else if c =? 92 then
      '(out, rest') ← unescape rest;
      '(s, rest'') ← unquote fuel' rest';
      Some (out ++ s, rest'')
    else
      '(s, rest') ← unquote fuel' rest;
      Some (c :: s, rest')
  | _, _ => None
  end.

Definition read_string (b : bytes) : option (string * bytes) :=
  match b with
  | c :: rest =>
    if c =? 34 then '(s, rest') ← unquote (length rest) rest; Some (string_of_bytes s, rest')
    else None
  | [] => None
  end.

Definition expect (c : Z) (b : bytes) : option bytes :=
  match b with x :: rest => if x =? c then Some rest else None | [] => None end.

Fixpoint read_members (fuel : nat) (b : bytes) : option (list (string * string) * bytes) :=
  match fuel with
  | O => None
  | S fuel' =>
    '(k, b1) ← read_string b;
    b2 ← expect 58 b1;
    '(v, b3) ← read_string b2;
    match expect 44 b3 with
    | Some b4 => '(l, b5) ← read_members fuel' b4; Some ((k, v) :: l, b5)
    | None => b4 ← expect 125 b3; Some ([(k, v)], b4)
    end
  end.

Definition Unmarshal (b : bytes) : option (gmap string string) :=
  b1 ← expect 123 b;
  match expect 125 b1 with
  | Some [] => Some ∅
  | Some _ => None
  | None =>
    '(l, rest) ← read_members (length b1) b1;
    match rest with [] => Some (list_to_map l) | _ => None end
  end.

(** ** Round trip *)

(** Valid UTF-8. *)
Definition text (s : string) : Prop := ∃ rs, Forall scalar rs ∧ bytes_of_string s = encode rs.

Definition quote_rune (r : Z) : bytes :=
  if r <? RuneSelf then (if htmlSafe r then [r] else escape r)
  else if (r =? 0x2028) || (r =? 0x2029) then [92; 117; 50; 48; 50; hex (Z.land r 15)]
  else encode_rune r.

Lemma encode_runes_cons r rs : encode (r :: rs) = encode_rune r ++ encode rs.
Proof. done. Qed.

Lemma quote_encode rs : Forall scalar rs → ∀ n, (length (encode rs) ≤ n)%nat →
  quote_loop n (encode rs) = rs ≫= quote_rune.
Proof.
  induction 1 as [|r rs Hr _ IH]; intros n Hn; [by destruct n|].
  rewrite encode_runes_cons in *. rewrite bind_cons. rewrite length_app in Hn.
  pose proof (DecodeRune_encode r (encode rs) Hr) as Hdec. pose proof (encode_rune_length r) as Hlen.
  destruct (encode_rune r) as [|b l] eqn:He; [unfold zlen in Hlen; cbn in Hlen; lia|].
  destruct n as [|n]; [cbn in Hn; lia|]. cbn [app quote_loop]. cbn [length] in Hn.
  unfold quote_rune. destruct (Z.ltb_spec b RuneSelf) as [Hb|Hb].
  - destruct (encode_rune_head r b l Hr He) as [-> ->]; [done|].
    rewrite (proj2 (Z.ltb_lt b RuneSelf)) by done. cbn [app]. rewrite IH by (cbn in Hn; lia). done.
  - assert (Hrs : RuneSelf ≤ r).
    { destruct (Z.ltb_spec r RuneSelf); [|done]. exfalso. unfold encode_rune, RuneSelf in *.
      rewrite (proj2 (Z.ltb_lt r 128)) in He by lia. injection He as -> _. lia. }
    rewrite (proj2 (Z.ltb_ge r RuneSelf)) by done.
    change (b :: l ++ encode rs) with ((b :: l) ++ encode rs). rewrite <- He in Hdec |- *. rewrite Hdec.
    rewrite take_app_length', drop_app_length' by (unfold zlen; lia).
    assert (Hno : (r =? RuneError) && (zlen (encode_rune r) =? 1) = false).
    { rewrite andb_false_iff. right. apply Z.eqb_neq. unfold encode_rune, RuneSelf in *.
      rewrite (proj2 (Z.ltb_ge r 128)) by lia. repeat case_match; unfold zlen; cbn; lia. }
    rewrite Hno, IH by (rewrite He in *; cbn in Hn; lia). by destruct (_ || _).
Qed.

(** The bytes below 0x80 one by one. *)
Definition ascii_step (r : Z) : Prop :=
  (quote_rune r = [r] ∧ r ≠ 34 ∧ r ≠ 92) ∨
  ∃ t, quote_rune r = 92 :: t ∧ ∀ rest, unescape (t ++ rest) = Some ([r], rest).

Lemma ascii_steps : Forall ascii_step (Z.of_nat <$> seq 0 128).
Proof.
  cbn. repeat (apply Forall_cons; split;
    [first [left; split_and!; [reflexivity|done|done]
           |right; eexists; split; [reflexivity|intros rest; reflexivity]]|]).
  constructor.
Qed.

Lemma ascii_step_ok r : 0 ≤ r < RuneSelf → ascii_step r.
Proof.
  intros Hr. unfold RuneSelf in Hr. pose proof ascii_steps as Hall. rewrite Forall_forall in Hall. apply Hall.
  apply list_elem_of_fmap. exists (Z.to_nat r). split; [lia|]. apply elem_of_seq. lia.
Qed.

(** A rune that is written as it is. *)
Lemma unquote_plain l : Forall (λ c, 0x80 ≤ c) l → ∀ n rest, (length (l ++ rest) ≤ n)%nat →
  unquote n (l ++ rest) =
  '(s, rest') ← unquote (n - length l) rest; Some (l ++ s, rest').
Proof.
  induction 1 as [|c l Hc _ IH]; intros n rest Hn.
  - cbn. rewrite Nat.sub_0_r. by destruct (unquote n rest) as [[]|].
  - destruct n as [|n]; [cbn in Hn; lia|]. cbn [app unquote length Nat.sub].
    rewrite (proj2 (Z.eqb_neq c 34)), (proj2 (Z.eqb_neq c 92)) by lia.
    rewrite IH by (cbn in Hn; lia). by destruct (unquote (n - length l) rest) as [[]|].
Qed.

Lemma encode_rune_bytes_high r : scalar r → RuneSelf ≤ r → Forall (λ c, 0x80 ≤ c) (encode_rune r).
Proof.
  intros Hr Hs. destruct (encode_rune r) as [|b l] eqn:He; [constructor|]. constructor.
  - destruct (Z.le_gt_cases 0x80 b); [done|]. destruct (encode_rune_head r b l Hr He) as [-> _]; [lia|].
    unfold RuneSelf in Hs. lia.
  - by eapply encode_rune_tail_high.
Qed.

Lemma unquote_runes rs : Forall scalar rs → ∀ n (rest : bytes),
  (length ((rs ≫= quote_rune) ++ 34%Z :: rest) ≤ n)%nat →
  unquote n ((rs ≫= quote_rune) ++ 34 :: rest) = Some (encode rs, rest).
Proof.
  induction 1 as [|r rs Hr _ IH]; intros n rest Hn.
  { destruct n; [cbn in Hn; lia|]. done. }
  rewrite bind_cons in *. rewrite <- (assoc_L (++)) in *. rewrite encode_runes_cons.
  destruct (Z.ltb_spec r RuneSelf) as [Hs|Hs].
  - assert (Hr0 : 0 ≤ r < RuneSelf) by (unfold scalar in Hr; lia).
    assert (Henc : encode_rune r = [r]).
    { unfold encode_rune. by rewrite (proj2 (Z.ltb_lt r 128)) by (unfold RuneSelf in *; lia). }
    rewrite Henc. destruct (ascii_step_ok r Hr0) as [(Hq&H1&H2)|(t&Hq&Ht)]; rewrite Hq in *.
    + destruct n as [|n]; [cbn in Hn; lia|]. cbn [app unquote].
      rewrite (proj2 (Z.eqb_neq r 34)), (proj2 (Z.eqb_neq r 92)) by done.
      by rewrite IH by (cbn in Hn; lia).
    + destruct n as [|n]; [cbn in Hn; lia|]. cbn [app unquote]. cbn [Z.eqb].
      change (92 =? 34) with false. change (92 =? 92) with true. cbv iota.
      rewrite Ht. cbn [mbind option_bind]. rewrite IH; [done|].
      cbn in Hn. rewrite length_app in Hn. lia.
  - assert (Hq : quote_rune r = if (r =? 0x2028) || (r =? 0x2029)
      then [92; 117; 50; 48; 50; hex (Z.land r 15)] else encode_rune r).
    { unfold quote_rune. by rewrite (proj2 (Z.ltb_ge r RuneSelf)). }
    rewrite Hq in Hn |- *.
    destruct (Z.eqb_spec r 0x2028) as [->|H1]; [|destruct (Z.eqb_spec r 0x2029) as [->|H2]]; cbn [orb] in Hn |- *.
    + destruct n as [|n]; [cbn in Hn; lia|].
      change (unquote (S n) ([92; 117; 50; 48; 50; 56] ++ (rs ≫= quote_rune) ++ 34 :: rest) =
        Some (encode_rune 0x2028 ++ encode rs, rest)).
      cbn [app unquote]. change (92 =? 34) with false. change (92 =? 92) with true. cbv iota.
      change (unescape (117 :: 50 :: 48 :: 50 :: 56 :: (rs ≫= quote_rune) ++ 34 :: rest))
        with (Some (encode_rune 0x2028, (rs ≫= quote_rune) ++ 34 :: rest)). cbn [mbind option_bind].
      rewrite IH; [done|]. rewrite length_app in Hn. cbn [length] in Hn. lia.
    + destruct n as [|n]; [cbn in Hn; lia|].
      change (unquote (S n) ([92; 117; 50; 48; 50; 57] ++ (rs ≫= quote_rune) ++ 34 :: rest) =
        Some (encode_rune 0x2029 ++ encode rs, rest)).
      cbn [app unquote]. change (92 =? 34) with false. change (92 =? 92) with true. cbv iota.
      change (unescape (117 :: 50 :: 48 :: 50 :: 57 :: (rs ≫= quote_rune) ++ 34 :: rest))
        with (Some (encode_rune 0x2029, (rs ≫= quote_rune) ++ 34 :: rest)). cbn [mbind option_bind].
      rewrite IH; [done|]. rewrite length_app in Hn. cbn [length] in Hn. lia.
    + rewrite unquote_plain; [|by apply encode_rune_bytes_high|done].
      rewrite IH; [done|]. rewrite length_app in Hn. lia.
Qed.

Lemma string_bytes s : string_of_bytes (bytes_of_string s) = s.
Proof.
  unfold bytes_of_string. induction s as [|c s IH]; [done|]. cbn. f_equal; [|exact IH].
  by rewrite N2Z.id, Ascii.ascii_N_embedding.
Qed.

Lemma read_string_ok s rest : text s → read_string (appendString s ++ rest) = Some (s, rest).
Proof.
  intros (rs&Hrs&Hs). unfold appendString. rewrite Hs, quote_encode by done. cbn [app read_string].
  change (34 =? 34) with true. cbv iota. rewrite <- (assoc_L (++)). cbn [app].
  rewrite unquote_runes by done. cbn [mbind option_bind]. by rewrite <- Hs, string_bytes.
Qed.

Lemma member_ok x rest : text x.1 → text x.2 →
  ∃ b1 b2, read_string (member x ++ rest) = Some (x.1, b1) ∧ expect 58 b1 = Some b2 ∧
    read_string b2 = Some (x.2, rest).
Proof.
  intros H1 H2. unfold member. rewrite <- (assoc_L (++)). cbn [app].
  exists (58 :: appendString x.2 ++ rest), (appendString x.2 ++ rest).
  split_and!; [by apply read_string_ok|done|by apply read_string_ok].
Qed.

Lemma read_members_ok l : l ≠ [] → Forall (λ x, text x.1 ∧ text x.2) l → ∀ n,
  (length l ≤ n)%nat → read_members n (join_comma (member <$> l) ++ [125]) = Some (l, []).
Proof.
  induction l as [|x l IH]; intros Hne Hl n Hn; [done|]. apply Forall_cons in Hl as [[H1 H2] Hl].
  destruct n as [|n]; [cbn in Hn; lia|]. cbn [read_members]. destruct l as [|y l].
  - cbn [fmap list_fmap join_comma]. destruct (member_ok x [125] H1 H2) as (b1&b2&Hr1&Hr2&Hr3).
    rewrite Hr1. cbn [mbind option_bind]. rewrite Hr2. cbn [mbind option_bind]. rewrite Hr3. by destruct x.
  - change (join_comma (member <$> x :: y :: l)) with (member x ++ 44 :: join_comma (member <$> y :: l)).
    rewrite <- (assoc_L (++)). cbn [app].
    destruct (member_ok x (44 :: join_comma (member <$> y :: l) ++ [125]) H1 H2) as (b1&b2&Hr1&Hr2&Hr3).
    rewrite Hr1. cbn [mbind option_bind]. rewrite Hr2. cbn [mbind option_bind]. rewrite Hr3.
    cbn [mbind option_bind expect].
    change (44 =? 44) with true. cbv iota. rewrite IH; [|done|done|cbn in *; lia]. by destruct x.
Qed.

Lemma join_comma_head x l rest : ∃ b, join_comma (member <$> x :: l) ++ rest = 34 :: b.
Proof. destruct l; by eexists. Qed.

Lemma join_comma_length l : (length l ≤ length (join_comma (member <$> l)))%nat.
Proof.
  induction l as [|x l IH]; [done|]. destruct l as [|y l]; [cbn; lia|].
  change (join_comma (member <$> x :: y :: l)) with (member x ++ 44 :: join_comma (member <$> y :: l)).
  rewrite length_app. cbn [length] in *. lia.
Qed.

(** A map of valid text is read back from its JSON. *)
Lemma Unmarshal_Marshal (m : gmap string string) :
  map_Forall (λ k v, text k ∧ text v) m → Unmarshal (Marshal m) = Some m.
Proof.
  intros Hm. unfold Unmarshal, Marshal. cbn [expect]. change (123 =? 123) with true. cbv iota.
  cbn [mbind option_bind]. set (l := merge_sort key_le (map_to_list m)).
  assert (Hperm : l ≡ₚ map_to_list m) by apply merge_sort_Permutation.
  assert (Htext : Forall (λ x, text x.1 ∧ text x.2) l).
  { apply Forall_forall. intros [k v] Hx. rewrite Hperm in Hx. apply elem_of_map_to_list in Hx. by apply Hm in Hx. }
  assert (Hback : list_to_map l = m).
  { rewrite <- (list_to_map_to_list m). apply list_to_map_proper; [|done].
    rewrite Hperm. apply NoDup_fst_map_to_list. }
  destruct l as [|x l'] eqn:Hl.
  - cbn. by rewrite <- Hback.
  - destruct (join_comma_head x l' [125]) as [b Hb].
    assert (Hx : expect 125 (join_comma (member <$> x :: l') ++ [125]) = None) by (by rewrite Hb).
    rewrite Hx, read_members_ok; [|done|done|].
    + cbn [mbind option_bind]. by rewrite Hback.
    + rewrite length_app. pose proof (join_comma_length (x :: l')). lia.
Qed.

(** Text of characters below 0x80. *)
Lemma ascii_text s : Forall (λ b, b < 128) (bytes_of_string s) → text s.
Proof.
  intros Hs. exists (bytes_of_string s). assert (H0 : Forall (λ b, 0 ≤ b < 128) (bytes_of_string s)).
  { apply Forall_forall. intros b Hb. rewrite Forall_forall in Hs. split; [|by apply Hs].
    unfold bytes_of_string in Hb. apply list_elem_of_fmap in Hb as (c&->&_). lia. }
  split.
  - apply (Forall_impl _ _ _ H0). unfold scalar. lia.
  - clear Hs. induction H0 as [|b l Hb _ IH]; [done|]. rewrite encode_runes_cons, <- IH. unfold encode_rune.
    by rewrite (proj2 (Z.ltb_lt b 128)) by lia.
Qed.
End Json.
