(* ===== verification/ServerInfo.v ===== *)
(** * The file with the addresses of the server

    Models [src/ulsp/internal/serverinfofile/server_info_file.go], the output
    of the inbound addresses ([src/ulsp/handler/server_info.go]) and of the
    paths of log files ([src/ulsp/internal/logfilewriter/output_writer.go]).

    The IDE finds the server by this file: it holds the fields of a map as
    JSON, and is written whole when a field changes, under a lock.  The
    operating system is an environment that says how each write ends; a write
    that fails may leave anything in the file.  The configuration is known by
    what it gives for a key. *)

From stdpp Require Import base gmap list strings fin_maps sorting.
From Stdlib Require Import ZArith Lia.
From S2P Require Import Prelude Paths Scanner Json WorkspaceUtils.

Local Open Scope Z_scope.

Module ServerInfo.

(** ** Configuration

    The values that YAML decodes to, as the sources tell them apart, and what
    [Get(key).Populate] gives for the types that the sources ask for. *)
Inductive value :=
  | VString (s : string)
  | VMap (entries : list (value * value))
  | VOther (n : Z).

Record LoggingConfig := mkLoggingConfig {
  Level : string; Development : bool; Encoding : string; OutputPaths : list string
}.
Record Provider := mkProvider {
  PopulateString : string → gores string;
  PopulateStrings : string → gores (list string);
  PopulateMap : string → gores (gmap string value);
  PopulateLogging : gores LoggingConfig;
  (** the output paths of [logging] as a [zap.Config] *)
  PopulateZap : gores (list string)
}.

(** ** The file *)

Definition _configKeyInfoFile : string := "serverInfoFilePath".

Record module := mkModule { infofile : string; fileContents : gmap string string }.

(** The module, the files and the number of writes so far. *)
Record state := mkState { info : module; disk : gmap string bytes; writes : nat }.
Definition set_info (m : module) (s : state) : state := mkState m (disk s) (writes s).

Definition processConfig (cfg : Provider) : gores string :=
  path <-? wrap_err "getting config field" (PopulateString cfg _configKeyInfoFile);;
  if bool_decide (path = "") then Err (EText "missing field in config") else Ok path.

(** [New]; its hook runs [OnStop]. *)
Definition New (cfg : Provider) : gores module :=
  path <-? processConfig cfg;;
  Ok (mkModule path ∅).

Section file.
Context (fails : nat → option (error * option bytes)) (removeErr : option error).

(** [os.WriteFile] *)
Definition WriteFile (name : string) (data : bytes) : GoM state unit := λ s,
  match fails (writes s) with
  | None => (Ok tt, mkState (info s) (<[name := data]> (disk s)) (S (writes s)))
  | Some (e, rest) =>
    (Err e, mkState (info s) (match rest with Some b => <[name := b]> (disk s) | None => disk s end)
              (S (writes s)))
  end.

(** A map of strings always has a JSON form. *)
Definition UpdateField (key value : string) : GoM state unit :=
  modify_st (λ s, set_info (mkModule (infofile (info s)) (<[key := value]> (fileContents (info s)))) s) ;;;
  s <- get_st;;
  wrapM "creating info file" (WriteFile (infofile (info s)) (Json.Marshal (fileContents (info s)))).

(** [os.Remove] fails for a file that does not exist. *)
Definition Remove (name : string) : GoM state unit := λ s,
  match removeErr, disk s !! name with
  | None, Some _ => (Ok tt, mkState (info s) (delete name (disk s)) (writes s))
  | None, None => (Err (EExternal 2), s)
  | Some e, _ => (Err e, s)
  end.

Definition OnStop : GoM state unit :=
  s <- get_st;;
  if bool_decide (infofile (info s) = "") then sret tt else Remove (infofile (info s)).

(** ** Inbound addresses *)

Definition _configKeyInbounds : string := "inbounds".
Definition _configKeyAddress : string := "address".
Definition _errInvalidEntry : error := EText "type error or missing field for key".

(** [%s] of a key; [format] is that of a value that is neither a string nor a
    map, which is never a key.  Two keys of a map differ. *)
Context (format : Z → string).
Definition key_text (k : value) : string :=
  match k with VString s => s | VMap _ => "map[]" | VOther n => format n end.

(** A lookup in a [map[interface{}]interface{}] with a string key. *)
Fixpoint map_get_string (l : list (value * value)) (key : string) : option value :=
  match l with
  | [] => None
  | (k, v) :: l' =>
    match k with
    | VString s => if bool_decide (s = key) then Some v else map_get_string l' key
    | _ => map_get_string l' key
    end
  end.

(** The address of an inbound: the error if it has none. *)
Definition inbound_address (x : value) : gores string :=
  match x with
  | VMap entries =>
    match map_get_string entries _configKeyAddress with
    | Some (VString address) => Ok address
    | _ => Err _errInvalidEntry
    end
  | _ => Err _errInvalidEntry
  end.

Definition inbound_key (k : value) : string := key_text k +:+ "-" +:+ _configKeyAddress.

Definition output_inbound (x : value * value) : GoM state unit :=
  address <- lift_res (inbound_address x.2);;
  wrapM "outputting address to info file" (UpdateField (inbound_key x.1) address).

(** [rng]: the order in which the map is ranged over. *)
Definition outputYARPCConnectionInfo (rng : list (value * value) → list (value * value)) (cfg : Provider)
    : GoM state unit :=
  cfgData <- wrapM "loading yarpc config" (lift_res (PopulateMap cfg "yarpc"));;
  match cfgData !! _configKeyInbounds with
  | Some (VMap inbounds) => forM_ (rng inbounds) output_inbound
  | _ => throw _errInvalidEntry
  end.

(** ** Log files *)

(** [os.TempDir] and what [MkdirAll] and [TempFile] return for a directory: the
    file has a new name.  The writer that is returned logs to the file; the
    hook that is added removes it. *)
Definition SetupOutputWriter (tempDir : string) (MkdirAll : string → option error)
    (TempFile : string → gores string) (name : string) : GoM state string :=
  let logsDirPath := Join tempDir name in
  match MkdirAll logsDirPath with
  | Some e => throw e
  | None =>
    logFile <- lift_res (TempFile logsDirPath);;
    _ <- try_ (UpdateField ("output:" +:+ name) logFile);;
    sret logFile
  end.

(** [loggerWriter.Write]: the lines that are logged; all bytes count as written. *)
Definition newline_char : Ascii.ascii := Ascii.ascii_of_nat 10.
Definition Write (p : string) : list string * Z :=
  (List.filter (λ line, negb (bool_decide (line = ""))) (WorkspaceUtils.Split newline_char p),
   Z.of_nat (String.length p)).
End file.

(** ** What the file holds *)

(** The fields after updates in this order. *)
Definition fields (updates : list (string * string)) (m : gmap string string) : gmap string string :=
  foldl (λ m x, <[x.1 := x.2]> m) m updates.

Lemma fields_lookup updates k : ∀ m,
  fields updates m !! k =
  match snd <$> last (List.filter (λ x, bool_decide (x.1 = k)) updates) with
  | Some v => Some v
  | None => m !! k
  end.
Proof.
  unfold fields. induction updates as [|[k' v] updates IH]; intros m; [done|]. cbn [foldl List.filter fst snd].
  rewrite IH. destruct (List.filter _ updates) as [|y l] eqn:Hf.
  - cbn. case_bool_decide as Hk; cbn; [subst; by rewrite lookup_insert_eq|by rewrite lookup_insert_ne].
  - destruct (last (y :: l)) as [z|] eqn:Hl; [|by apply last_None in Hl].
    case_bool_decide; [rewrite last_cons_cons|]; by rewrite Hl.
Qed.

Lemma fields_text updates : Forall (λ x, Json.text x.1 ∧ Json.text x.2) updates → ∀ m,
  map_Forall (λ k v, Json.text k ∧ Json.text v) m →
  map_Forall (λ k v, Json.text k ∧ Json.text v) (fields updates m).
Proof.
  unfold fields. induction 1 as [|x updates Hx _ IH]; intros m Hm; [done|]. cbn [foldl]. apply IH.
  by apply map_Forall_insert_2.
Qed.

Section updates.
Context (fails : nat → option (error * option bytes)).

(** The updates one after the other, errors dropped. *)
Fixpoint update_all (updates : list (string * string)) (s : state) : list (gores unit) * state :=
  match updates with
  | [] => ([], s)
  | (k, v) :: updates' =>
    let '(r, s1) := UpdateField fails k v s in
    let '(l, s2) := update_all updates' s1 in (r :: l, s2)
  end.

Lemma UpdateField_run k v s :
  let m' := mkModule (infofile (info s)) (<[k := v]> (fileContents (info s))) in
  UpdateField fails k v s =
  match fails (writes s) with
  | None => (Ok tt, mkState m' (<[infofile (info s) := Json.Marshal (fileContents m')]> (disk s)) (S (writes s)))
  | Some (e, rest) =>
    (Err (EWrap "creating info file" e),
     mkState m' (match rest with Some b => <[infofile (info s) := b]> (disk s) | None => disk s end) (S (writes s)))
  end.
Proof.
  unfold UpdateField, wrapM, WriteFile. rewrite sbind_modify, sbind_get. cbn.
  by destruct (fails (writes s)) as [[]|].
Qed.

Lemma update_all_info updates : ∀ s,
  info (update_all updates s).2 = mkModule (infofile (info s)) (fields updates (fileContents (info s))) ∧
  writes (update_all updates s).2 = (writes s + length updates)%nat ∧
  ∀ f, f ≠ infofile (info s) → disk (update_all updates s).2 !! f = disk s !! f.
Proof.
  induction updates as [|[k v] updates IH]; intros s; cbn [update_all].
  { split_and!; [cbn; by destruct (info s)|cbn; lia|done]. }
  rewrite UpdateField_run. cbv zeta.
  destruct (fails (writes s)) as [[e [b|]]|];
    (match goal with |- context [update_all updates ?x] => specialize (IH x); destruct (update_all updates x) as [l s2] end;
     cbn in *; destruct IH as (H1&H2&H3); split_and!;
     [done|lia|intros f Hf; rewrite H3 by done; by rewrite ?lookup_insert_ne by done]).
Qed.
End updates.

(** C32: After any sequence of updates, some of whose writes may fail and leave
    anything, of which the last one is written, a client that reads the file
    gets exactly the last value of every field, those included whose own write
    had failed; no other file changes.  The fields are valid UTF-8. *)
Theorem infofile_tracks fails updates k v s s1 r :
  Forall (λ x, Json.text x.1 ∧ Json.text x.2) (updates ++ [(k, v)]) →
  map_Forall (λ k v, Json.text k ∧ Json.text v) (fileContents (info s)) →
  fails (writes s + length updates)%nat = None →
  (update_all fails updates s).2 = s1 → UpdateField fails k v s1 = r →
  r.1 = Ok tt ∧
  disk r.2 !! infofile (info s) ≫= Json.Unmarshal =
    Some (fields (updates ++ [(k, v)]) (fileContents (info s))) ∧
  (∀ f, f ≠ infofile (info s) → disk r.2 !! f = disk s !! f) ∧
  ∀ key, fields (updates ++ [(k, v)]) (fileContents (info s)) !! key =
    match snd <$> last (List.filter (λ x, bool_decide (x.1 = key)) (updates ++ [(k, v)])) with
    | Some x => Some x
    | None => fileContents (info s) !! key
    end.
Proof.
  intros Htext Hm Hw Hs1 Hr. destruct (update_all_info fails updates s) as (H1&H2&H3). rewrite Hs1 in H1, H2, H3.
  rewrite UpdateField_run, H2, Hw in Hr. subst r. cbn. rewrite H1. cbn.
  assert (Hf : <[k := v]> (fields updates (fileContents (info s))) =
    fields (updates ++ [(k, v)]) (fileContents (info s))) by (unfold fields; by rewrite foldl_snoc).
  rewrite Hf. split_and!; [done| | |intros key; apply fields_lookup].
  - rewrite lookup_insert_eq. cbn. apply Json.Unmarshal_Marshal. by apply fields_text.
  - intros f Hne. rewrite lookup_insert_ne by done. by apply H3.
Qed.

(** ** Inbound addresses *)

Section inbounds.
Context (format : Z → string) (rng : list (value * value) → list (value * value)).

Definition inbound_field (x : value * value) : option (string * string) :=
  match inbound_address x.2 with Ok a => Some (inbound_key format x.1, a) | _ => None end.

Lemma output_inbounds_ok l : Forall (λ x, is_Some (inbound_field x)) l → ∀ s,
  ∃ s', forM_ l (output_inbound (λ _, None) format) s = (Ok tt, s') ∧
    info s' = mkModule (infofile (info s)) (fields (omap inbound_field l) (fileContents (info s))) ∧
    (l ≠ [] → disk s' !! infofile (info s) = Some (Json.Marshal (fileContents (info s')))).
Proof.
  induction 1 as [|x l [[k a] Hx] _ IH]; intros s; cbn [forM_].
  { exists s. split_and!; [done|by destruct (info s)|done]. }
  unfold inbound_field in Hx. destruct (inbound_address x.2) as [a'| | |] eqn:Ha; [|done..]. injection Hx as <- <-.
  assert (Hrun : ∃ s1, output_inbound (λ _, None) format x s = (Ok tt, s1) ∧
    UpdateField (λ _, None) (inbound_key format x.1) a' s = (Ok tt, s1)).
  { eexists. unfold output_inbound. rewrite Ha. unfold sbind at 1. cbn [lift_res]. unfold wrapM at 1.
    rewrite UpdateField_run. by split. }
  destruct Hrun as (s1&Hrun&Hu). rewrite (sbind_ok _ _ _ _ _ Hrun). rewrite UpdateField_run in Hu.
  injection Hu as <-. match goal with |- context [forM_ l _ ?y] => destruct (IH y) as (s2&Hrun2&Hi&Hd) end.
  exists s2. cbn [omap list_omap]. unfold inbound_field at 1. rewrite Ha. cbn in Hi, Hd. split_and!; [done|done|].
  intros _. destruct l as [|y l]; [|by apply Hd]. injection Hrun2 as <-. cbn. by rewrite lookup_insert_eq.
Qed.

Lemma fields_in updates m k v : NoDup updates.*1 → (k, v) ∈ updates → fields updates m !! k = Some v.
Proof.
  intros Hnd Hin. rewrite fields_lookup. destruct (last _) as [z|] eqn:Hl.
  - apply last_Some_elem_of, list_elem_of_In, filter_In in Hl as [Hz%list_elem_of_In Hk].
    apply bool_decide_eq_true in Hk. cbn. f_equal. destruct z as [k' v']. cbn in *. subst k'.
    assert (H1 : (list_to_map updates : gmap string string) !! k = Some v) by (by apply elem_of_list_to_map_1).
    assert (H2 : (list_to_map updates : gmap string string) !! k = Some v') by (by apply elem_of_list_to_map_1).
    congruence.
  - apply last_None in Hl. assert (Hx : (k, v) ∈ List.filter (λ x, bool_decide (x.1 = k)) updates).
    { apply list_elem_of_In, filter_In. split; [by apply list_elem_of_In|by apply bool_decide_eq_true]. }
    rewrite Hl in Hx. by apply elem_of_nil in Hx.
Qed.

Lemma inbound_fields_keys l : Forall (λ x, is_Some (inbound_field x)) l →
  (omap inbound_field l).*1 = inbound_key format <$> l.*1.
Proof.
  induction 1 as [|x l [[k a] Hx] _ IH]; [done|]. cbn. rewrite Hx. cbn. rewrite IH. f_equal.
  unfold inbound_field in Hx. destruct (inbound_address x.2); [|done..]. by injection Hx as <- _.
Qed.

(** The inbounds of a well-formed configuration, in any order. *)
Lemma output_ok cfg data l s :
  PopulateMap cfg "yarpc" = Ok data → data !! _configKeyInbounds = Some (VMap l) → rng l ≡ₚ l →
  Forall (λ x, is_Some (inbound_field x)) l → NoDup (inbound_key format <$> l.*1) →
  ∃ s', outputYARPCConnectionInfo (λ _, None) format rng cfg s = (Ok tt, s') ∧
    infofile (info s') = infofile (info s) ∧
    (∀ x k a, x ∈ l → inbound_field x = Some (k, a) → fileContents (info s') !! k = Some a) ∧
    (∀ k, k ∉ inbound_key format <$> l.*1 → fileContents (info s') !! k = fileContents (info s) !! k) ∧
    (l ≠ [] → disk s' !! infofile (info s) = Some (Json.Marshal (fileContents (info s')))).
Proof.
  intros Hd Hl Hrng Hok Hnd. unfold outputYARPCConnectionInfo.
  rewrite (sbind_ok _ _ s data s) by (unfold wrapM; cbn; by rewrite Hd). rewrite Hl.
  assert (Hok' : Forall (λ x, is_Some (inbound_field x)) (rng l)) by (by rewrite Hrng).
  destruct (output_inbounds_ok (rng l) Hok' s) as (s'&Hrun&Hi&Hdisk). exists s'.
  assert (Hkeys : (omap inbound_field (rng l)).*1 ≡ₚ inbound_key format <$> l.*1)
    by (rewrite inbound_fields_keys by done; by rewrite Hrng).
  rewrite Hi. split_and!; [done|done| | |].
  - intros x k a Hx Hf. apply fields_in; [by rewrite Hkeys|]. apply list_elem_of_omap. exists x. by rewrite Hrng.
  - intros k Hk. cbn. rewrite fields_lookup. destruct (last _) as [z|] eqn:Hz; [|done]. exfalso. apply Hk.
    apply last_Some_elem_of, list_elem_of_In, filter_In in Hz as [Hz%list_elem_of_In Hzk].
    apply bool_decide_eq_true in Hzk. rewrite <- Hkeys. apply list_elem_of_fmap. by exists z.
  - intros Hne. rewrite Hi in Hdisk. apply Hdisk. intros He. apply Hne. rewrite He in Hrng.
    by apply Permutation_nil_l in Hrng.
Qed.
End inbounds.

(** ** Log files *)

Definition line_of (s : string) : string := s +:+ String newline_char "".

(** Complete lines are logged one by one without the empty ones, however they
    are spread over writes. *)
Theorem Write_lines lines rest :
  Forall (WorkspaceUtils.no_char newline_char) lines →
  (Write (foldr (λ l s, line_of l +:+ s) rest lines)).1 =
  List.filter (λ line, negb (bool_decide (line = ""))) lines ++ (Write rest).1.
Proof.
  unfold Write. cbn [fst]. induction 1 as [|l lines Hl _ IH]; [done|]. cbn [foldr].
  unfold line_of at 1. rewrite WorkspaceUtils.append_assoc.
  change (String newline_char "" +:+ ?x) with (String newline_char x).
  rewrite WorkspaceUtils.Split_app by done. cbn [List.filter]. rewrite IH. by destruct (negb _).
Qed.

(** A line that comes in two writes is logged as two. *)
Theorem Write_splits_line :
  (Write "ab").1 ++ (Write (line_of "c")).1 = ["ab"; "c"] ∧ (Write ("ab" +:+ line_of "c")).1 = ["abc"].
Proof. done. Qed.

(** ** Instance *)

Definition sample_state : state := mkState (mkModule "/home/u/.ulspd" ∅) ∅ 0.

Lemma infofile_tracks_witness :
  let fails := λ n, if bool_decide (n = 0%nat) then Some (EExternal 5, Some [0]) else None in
  let s := (update_all fails [("a", "1")] sample_state).2 in
  disk (UpdateField fails "b" "2" s).2 !! "/home/u/.ulspd" ≫= Json.Unmarshal =
    Some {["a" := "1"; "b" := "2"]}.
Proof.
  intros fails s.
  destruct (infofile_tracks fails [("a", "1")] "b" "2" sample_state s (UpdateField fails "b" "2" s))
    as (_&Hd&_); [| |reflexivity|reflexivity|reflexivity|].
  - repeat constructor; apply Json.ascii_text; cbn; repeat constructor.
  - apply map_Forall_empty.
  - exact Hd.
Defined.
End ServerInfo.
