(* ===== verification/Process.v ===== *)
(** * The process of the daemon

    Models how the daemon is put together and run: the configuration
    ([src/ulsp/internal/core/config.go]) and what is done with it at the start
    ([src/ulsp/app/decorators.go], [src/ulsp/internal/core/logger.go]), the
    module that listens for connections
    ([src/ulsp/internal/jsonrpcfx/json_rpc.go]; the service of a connection is
    in [Router]), its handler ([src/ulsp/handler/ulsp-daemon/ulsp_daemon.go]),
    the execution of commands ([src/ulsp/internal/executor/executor.go]), the
    checks of files ([src/ulsp/internal/fs/fs.go]) and the errors that callers
    see ([src/ulsp/internal/errors], [src/ulsp/mapper/idl/errors.go]).

    The library [fx] runs the functions that [src/ulsp/handler/module.go]
    invokes in their order, before each the constructors of its parameters,
    then the hooks for the start, and at the end those for the stop in the
    opposite order.  YAML, sockets, processes and the operating system are
    parameters. *)

From stdpp Require Import base gmap list strings fin_maps.
From Stdlib Require Import ZArith Lia.
From S2P Require Import Prelude Paths Scanner Json WorkspaceUtils ServerInfo.

Local Open Scope Z_scope.

Module Process.
Import ServerInfo.

(** ** Configuration *)

Section config.
Context (Getenv : string → string) (NewYAML : list string → gores Provider) (exists_ : string → bool).

Definition getConfigDir : string :=
  let configDir := Getenv "ULSP_CONFIG_DIR" in
  if bool_decide (configDir = "") then "src/ulsp/config" else configDir.

Definition NewConfig : gores Provider :=
  let configDir := getConfigDir in
  metaProvider <-? wrap_err "failed to load meta configuration" (NewYAML [Join configDir "meta.yaml"]);;
  configFiles <-? wrap_err "failed to read files list from meta.yaml" (PopulateStrings metaProvider "files");;
  match List.filter exists_ (Join configDir <$> configFiles) with
  | [] => Err (EText "no configuration files found")
  | validFiles => wrap_err "failed to load configuration" (NewYAML validFiles)
  end.

Record EnvContext := mkEnvContext { Environment : string; RuntimeEnvironment : string }.
Definition decorateEnvContext (env : EnvContext) : EnvContext :=
  let envValue := if bool_decide (Getenv "ULSP_ENVIRONMENT" = "development") then "development" else "local" in
  mkEnvContext envValue envValue.
End config.

(** ** Logging

    The logger that is made: it writes to the standard output. *)
Inductive encoder := JSONEncoder | ConsoleEncoder.
Record Logger := mkLogger {
  log_level : Z; log_encoder : encoder; log_development : bool; log_caller : bool; log_stacktrace : bool
}.
Definition NewSugaredLogger (ParseLevel : string → gores Z) (provider : Provider) : gores Logger :=
  loggingConfig <-? PopulateLogging provider;;
  level <-? ParseLevel (Level loggingConfig);;
  let dev := Development loggingConfig in
  Ok (mkLogger level
    (if bool_decide (Encoding loggingConfig = "console") then ConsoleEncoder else JSONEncoder) dev dev dev).

(** ** Connections *)

Module Rpc.
Definition _configKeyAddress : string := "jsonrpc.address".
Definition _outputKey : string := "lsp-address".

(** The module: [ln] is the listener. *)
Record module := mkModule { Address : string; connectionMgr : bool; ln : option N }.

Definition processConfig (cfg : Provider) : gores string :=
  address <-? wrap_err "getting config field" (PopulateString cfg _configKeyAddress);;
  if bool_decide (address = "") then Err (EText "missing field in config") else Ok address.

(** [None] is a nil configuration. *)
Definition New (hasLifecycle : bool) (cfg : option Provider) : gores module :=
  match hasLifecycle, cfg with
  | true, Some cfg =>
    address <-? processConfig cfg;;
    Ok (mkModule address false None)
  | _, _ => Err (EText "required parameters are missing")
  end.

Definition RegisterConnectionManager : GoM module unit :=
  m <- get_st;;
  if connectionMgr m then throw (EText "cannot register a duplicate connection manager")
  else put_st (mkModule (Address m) true (ln m)).

Definition setup (ResolveTCPAddr : string → gores N) (ListenTCP : N → gores N) : GoM module unit :=
  m <- get_st;;
  if bool_decide (Address m = "") then throw (EText "setup called before address is set")
  else
    addr <- lift_res (ResolveTCPAddr (Address m));;
    listener <- try_ (lift_res (ListenTCP addr));;
    match listener with
    | inr l => put_st (mkModule (Address m) (connectionMgr m) (Some l))
    | inl e => put_st (mkModule (Address m) (connectionMgr m) None) ;;; throw e
    end.
End Rpc.

(** ** The process *)

Inductive hook := OnStartRpc | OnStopInfo.

Record process := mkProcess {
  pinfo : ServerInfo.state;            (** the module of the info file, and the files *)
  prpc : Rpc.module;
  dirs : list string;                  (** directories that were made *)
  hooks : list hook;
  goroutine : bool                     (** [start] was started *)
}.
Definition ProcM := GoM process.

Definition on_info {A} (m : GoM ServerInfo.state A) : ProcM A := λ p,
  let '(r, s) := m (pinfo p) in (r, mkProcess s (prpc p) (dirs p) (hooks p) (goroutine p)).
Definition on_rpc {A} (m : GoM Rpc.module A) : ProcM A := λ p,
  let '(r, s) := m (prpc p) in (r, mkProcess (pinfo p) s (dirs p) (hooks p) (goroutine p)).
Definition append_hook (h : hook) : ProcM unit :=
  modify_st (λ p, mkProcess (pinfo p) (prpc p) (dirs p) (hooks p ++ [h]) (goroutine p)).

Section process.
Context (Getenv : string → string) (NewYAML : list string → gores Provider) (exists_ : string → bool)
  (ParseLevel : string → gores Z) (MkdirAll : string → option error)
  (fails : nat → option (error * option bytes)) (removeErr : option error)
  (format : Z → string) (rng : list (value * value) → list (value * value))
  (newControllers : Provider → gores unit)
  (ResolveTCPAddr : string → gores N) (ListenTCP : N → gores N) (serveErr : option error).

Definition make_dir (outputPath : string) : ProcM unit := λ p,
  match MkdirAll (Dir outputPath) with
  | Some e => (Err (EText "creating logging directory"), p)
  | None => (Ok tt, mkProcess (pinfo p) (prpc p) (dirs p ++ [Dir outputPath]) (hooks p) (goroutine p))
  end.
Definition ensureLogFolder (cfg : Provider) : ProcM Provider :=
  outputPaths <- (match PopulateZap cfg with
                  | Err _ => throw (EText "loading logging config")
                  | r => lift_res r
                  end);;
  forM_ outputPaths make_dir ;;;
  sret cfg.
Definition decorateConfigProvider (cfg : Provider) : ProcM Provider := λ p,
  match ensureLogFolder cfg p with
  | (Err _, p') => (Err (EText "ensuring log folder"), p')
  | x => x
  end.

(** The handler registers its manager of connections; the error is dropped. *)
Definition handler_New : ProcM unit :=
  _ <- try_ (on_rpc Rpc.RegisterConnectionManager);;
  sret tt.

(** The functions that the modules invoke, with the constructors they need. *)
Definition build : ProcM unit :=
  cfg <- lift_res (NewConfig Getenv NewYAML exists_);;
  cfg <- decorateConfigProvider cfg;;
  _ <- lift_res (NewSugaredLogger ParseLevel cfg);;
  m <- lift_res (ServerInfo.New cfg);;
  on_info (modify_st (set_info m)) ;;;
  append_hook OnStopInfo ;;;
  on_info (outputYARPCConnectionInfo fails format rng cfg) ;;;
  _ <- lift_res (newControllers cfg);;
  rpc <- lift_res (Rpc.New true (Some cfg));;
  on_rpc (put_st rpc) ;;;
  append_hook OnStartRpc ;;;
  handler_New.

(** [OnStart] of the module: the goroutine is started after the setup. *)
Definition OnStart : ProcM unit :=
  on_rpc (Rpc.setup ResolveTCPAddr ListenTCP) ;;;
  modify_st (λ p, mkProcess (pinfo p) (prpc p) (dirs p) (hooks p) true).

(** The goroutine: an error is a panic.  [serveErr] is that with which the
    service of the listener ends. *)
Definition start : ProcM unit :=
  p <- get_st;;
  written <- try_ (on_info (UpdateField fails Rpc._outputKey (Rpc.Address (prpc p))));;
  match written with
  | inl _ => lift_res Panic
  | inr _ => match serveErr with Some _ => lift_res Panic | None => sret tt end
  end.

Definition run_start (h : hook) : ProcM unit :=
  match h with OnStartRpc => OnStart | OnStopInfo => sret tt end.
Definition run_stop (h : hook) : ProcM unit :=
  match h with OnStopInfo => on_info (ServerInfo.OnStop removeErr) | OnStartRpc => sret tt end.

(** The start of the application and of its goroutine, and its stop. *)
Definition launch : ProcM unit :=
  build ;;;
  p <- get_st;;
  forM_ (hooks p) run_start ;;;
  start.
Definition stop : ProcM unit :=
  p <- get_st;;
  forM_ (reverse (hooks p)) run_stop.
End process.

(** ** Commands *)

Module Executor.
(** The fields of [exec.Cmd] that are used; the standard input is what reading
    it gives. *)
Record Cmd := mkCmd {
  Path : string; CDir : string; Args : list string; Stdin : option (gores string); Env : list string
}.
(** The end of a process: what it wrote, its exit code and the error. *)
Record Result := mkResult { Stdout : string; Stderr : string; ExitCode : Z; RunErr : option error }.

(** The function that executes a command; [None] is nil. *)
Definition executorImp := option (Cmd → Result).

(** The logged values and the command, whose input can be read again. *)
Definition logCommand (cmd : Cmd) : gores (list string * Cmd) :=
  match Args cmd with
  | [] => Panic
  | _ :: args =>
    let keys := Path cmd :: CDir cmd :: args in
    match Stdin cmd with
    | None => Ok (keys, cmd)
    | Some stdin =>
      stdinBytes <-? stdin;;
      Ok (keys ++ [stdinBytes], mkCmd (Path cmd) (CDir cmd) (Args cmd) (Some (Ok stdinBytes)) (Env cmd))
    end
  end.

Definition RunCommand (l : executorImp) (cmd : Cmd) (env : list string) : gores unit :=
  let? (_, cmd) := logCommand cmd in
  match l with
  | None => Ok tt
  | Some exec =>
    match RunErr (exec (mkCmd (Path cmd) (CDir cmd) (Args cmd) (Stdin cmd) env)) with
    | Some e => Err e
    | None => Ok tt
    end
  end.

(** [Run]: the outputs, the exit code and the error. *)
Definition Run (l : executorImp) (cmd : Cmd) : gores Result :=
  match logCommand cmd with
  | Err e => Ok (mkResult "" "" (-1) (Some e))
  | Panic => Panic
  | Fuel => Fuel
  | Ok (_, cmd) =>
    match l with
    | None => Ok (mkResult "" "" 0 None)
    | Some exec => Ok (exec cmd)
    end
  end.

(** [NewExecutor] with the options for the function, in their order. *)
Definition NewExecutor (run : Cmd → Result) (opts : list executorImp) : executorImp :=
  foldl (λ _ opt, opt) (Some run) opts.
End Executor.

(** ** Files *)

Section fs.
Context (Stat : string → gores bool) (IsNotExist : error → bool).

(** [Stat] says whether the path is a directory. *)
Definition DirExists (path : string) : gores bool :=
  match Stat path with
  | Err e => if IsNotExist e then Ok false else Err e
  | r => r
  end.
Definition FileExists (path : string) : gores bool :=
  match Stat path with
  | Ok isDir => Ok (negb isDir)
  | Err e => if IsNotExist e then Ok false else Err e
  | r => r
  end.
End fs.

(** ** Errors of callers *)

Definition NoUUIDOnWireError : error := ESentinel "UUID is required".
Definition NoMessageOnWireError : error := ESentinel "no message on wire".

(** The errors that [errors.Is] and [errors.As] look at, in their order. *)
Fixpoint chain (e : error) : list error :=
  e :: match e with
       | EWrap _ e' => chain e'
       | EJoin s e' => EText s :: chain e'
       | _ => []
       end.

Definition IsBadRequest (e : error) : bool :=
  bool_decide (NoUUIDOnWireError ∈ chain e) || bool_decide (NoMessageOnWireError ∈ chain e).

Definition NotFoundUUID (e : error) : option uuid :=
  head (omap (λ x, match x with EUUIDNotFound u => Some u | _ => None end) (chain e)).

(** The error sent to a caller: its code with the details, or the error itself. *)
Inductive ProtoError :=
  | InvalidArgument (msg : string) (badRequest : string)
  | NotFound (msg : string) (id : uuid)
  | Other (e : error).

Definition ToProtoError (Error : error → string) (e : error) : ProtoError :=
  if IsBadRequest e then InvalidArgument (Error e) (Error e)
  else
    match NotFoundUUID e with
    | Some id => NotFound (Error e) id
    | None => Other e
    end.

(** ** The launch *)

Definition start_process : process :=
  mkProcess (mkState (ServerInfo.mkModule "" ∅) ∅ 0) (Rpc.mkModule "" false None) [] [] false.

Section launch.
Context (Getenv : string → string) (NewYAML : list string → gores Provider) (exists_ : string → bool)
  (ParseLevel : string → gores Z) (format : Z → string) (rng : list (value * value) → list (value * value))
  (newControllers : Provider → gores unit) (ResolveTCPAddr : string → gores N) (ListenTCP : N → gores N).
Context (cfg : Provider) (path address : string) (paths : list string) (data : gmap string value)
  (inbounds : list (value * value)) (addr listener : N) (logger : Logger).

(** The configuration is complete, and the operating system does as it is told. *)
Record launchable : Prop := {
  la_config : NewConfig Getenv NewYAML exists_ = Ok cfg;
  la_paths : PopulateZap cfg = Ok paths;
  la_logger : NewSugaredLogger ParseLevel cfg = Ok logger;
  la_file : PopulateString cfg _configKeyInfoFile = Ok path ∧ path ≠ "";
  la_data : PopulateMap cfg "yarpc" = Ok data ∧ data !! _configKeyInbounds = Some (VMap inbounds);
  la_rng : rng inbounds ≡ₚ inbounds;
  la_inbounds : Forall (λ x, is_Some (inbound_field format x)) inbounds;
  la_keys : NoDup (inbound_key format <$> inbounds.*1) ∧ Rpc._outputKey ∉ inbound_key format <$> inbounds.*1;
  la_text : Json.text address ∧ Forall (λ x, ∀ k a, inbound_field format x = Some (k, a) → Json.text k ∧ Json.text a) inbounds;
  la_controllers : newControllers cfg = Ok tt;
  la_address : PopulateString cfg Rpc._configKeyAddress = Ok address ∧ address ≠ "";
  la_listen : ResolveTCPAddr address = Ok addr ∧ ListenTCP addr = Ok listener
}.
Context (G : launchable).

Abbreviation env f := (f Getenv NewYAML exists_ ParseLevel (λ _ : string, None : option error)
  (λ _ : nat, None : option (error * option bytes)) format rng newControllers).

Lemma make_dirs_ok l : ∀ p,
  forM_ l (make_dir (λ _, None)) p =
  (Ok tt, mkProcess (pinfo p) (prpc p) (dirs p ++ (Dir <$> l)) (hooks p) (goroutine p)).
Proof.
  induction l as [|x l IH]; intros p; cbn [forM_].
  { rewrite app_nil_r. by destruct p. }
  unfold make_dir at 1, sbind at 1. rewrite IH. cbn. by rewrite <- (assoc_L (++)).
Qed.

Lemma build_ok : ∃ s,
  env build start_process =
    (Ok tt, mkProcess s (Rpc.mkModule address true None) (Dir <$> paths) [OnStopInfo; OnStartRpc] false) ∧
  infofile (info s) = path ∧
  (∀ x k a, x ∈ inbounds → inbound_field format x = Some (k, a) → fileContents (info s) !! k = Some a) ∧
  (∀ k, k ∉ inbound_key format <$> inbounds.*1 → fileContents (info s) !! k = None) ∧
  (inbounds ≠ [] → disk s !! path = Some (Json.Marshal (fileContents (info s)))).
Proof using G.
  destruct G as [G1 G2 G3 [G4 G4'] [G5 G5'] G6 G7 [G8 G8'] G9 G10 [G11 G11'] G12]. unfold build.
  rewrite G1. unfold sbind at 1. cbn [lift_res].
  rewrite (sbind_ok (decorateConfigProvider _ cfg) _ start_process cfg
    (mkProcess (pinfo start_process) (prpc start_process) (Dir <$> paths) [] false)).
  2:{ unfold decorateConfigProvider, ensureLogFolder. rewrite G2.
      unfold sbind at 1. cbn [lift_res]. rewrite (sbind_ok _ _ _ _ _ (make_dirs_ok paths start_process)). done. }
  rewrite G3. unfold sbind at 1. cbn [lift_res].
  assert (Hnew : ServerInfo.New cfg = Ok (ServerInfo.mkModule path ∅)).
  { unfold New, ServerInfo.processConfig. rewrite G4. cbn. by rewrite bool_decide_false. }
  rewrite Hnew. unfold sbind at 1. cbn [lift_res]. unfold sbind at 1. cbn [on_info modify_st].
  unfold sbind at 1. cbn [append_hook modify_st].
  edestruct (output_ok format rng cfg data inbounds) as (s&Hrun&Hf&Hin&Hout&Hdisk); [done..|].
  unfold sbind at 1, on_info at 1. cbn [pinfo]. unfold set_info. cbn [disk writes pinfo start_process].
  rewrite Hrun. cbn [prpc dirs hooks goroutine]. rewrite G10. unfold sbind at 1. cbn [lift_res].
  assert (Hrpc : Rpc.New true (Some cfg) = Ok (Rpc.mkModule address false None)).
  { unfold Rpc.New, Rpc.processConfig. rewrite G11. cbn. by rewrite bool_decide_false. }
  rewrite Hrpc. exists s. split_and!; [done|exact Hf|done| |].
  - intros k Hk. rewrite Hout by done. apply lookup_empty.
  - intros Hne. by apply Hdisk.
Qed.
Lemma built_text (m : gmap string string) :
  (∀ x k a, x ∈ inbounds → inbound_field format x = Some (k, a) → m !! k = Some a) →
  (∀ k, k ∉ inbound_key format <$> inbounds.*1 → m !! k = None) →
  map_Forall (λ k v, Json.text k ∧ Json.text v) m.
Proof using G.
  intros Hin Hout k v Hk. destruct (decide (k ∈ inbound_key format <$> inbounds.*1)) as [Hk'|Hk'];
    [|by rewrite Hout in Hk].
  rewrite <- inbound_fields_keys in Hk' by apply (la_inbounds G).
  apply list_elem_of_fmap in Hk' as ([k' a]&Hka&Hx). cbn in Hka. subst k'.
  apply list_elem_of_omap in Hx as (x&Hx&Hf).
  rewrite (Hin _ _ _ Hx Hf) in Hk. injection Hk as <-. destruct (la_text G) as [_ Ht].
  rewrite Forall_forall in Ht. by apply (Ht x).
Qed.

Lemma launch_ok : ∃ s,
  env launch ResolveTCPAddr ListenTCP None start_process =
    (Ok tt, mkProcess s (Rpc.mkModule address true (Some listener)) (Dir <$> paths) [OnStopInfo; OnStartRpc] true) ∧
  infofile (info s) = path ∧
  disk s !! path = Some (Json.Marshal (fileContents (info s))) ∧
  map_Forall (λ k v, Json.text k ∧ Json.text v) (fileContents (info s)) ∧
  fileContents (info s) !! Rpc._outputKey = Some address ∧
  (∀ x k a, x ∈ inbounds → inbound_field format x = Some (k, a) → fileContents (info s) !! k = Some a) ∧
  (∀ k, k ∉ Rpc._outputKey :: (inbound_key format <$> inbounds.*1) → fileContents (info s) !! k = None).
Proof using G.
  destruct build_ok as (s&Hb&Hf&Hin&Hout&_). pose proof (built_text _ Hin Hout) as Ht.
  unfold launch. rewrite (sbind_ok _ _ _ _ _ Hb). rewrite sbind_get. cbn [hooks forM_ run_start].
  destruct (la_listen G) as [L1 L2]. destruct (la_address G) as [A1 A2]. destruct (la_keys G) as [K1 K2].
  rewrite (sbind_ok _ _ _ tt (mkProcess s (Rpc.mkModule address true (Some listener)) (Dir <$> paths)
    [OnStopInfo; OnStartRpc] true)).
  2:{ unfold OnStart, on_rpc, Rpc.setup, sbind. cbn. rewrite bool_decide_false by done. cbn. rewrite L1.
      cbn. unfold try_. cbn. by rewrite L2. }
  unfold start. rewrite sbind_get. cbn [prpc Rpc.Address].
  unfold sbind at 1, try_, on_info. cbn [pinfo]. rewrite UpdateField_run. cbn.
  rewrite Hf. eexists. split_and!; [reflexivity|done| | | | |]; cbn.
  - by rewrite lookup_insert_eq.
  - apply map_Forall_insert_2; [|done]. split; [|apply (la_text G)].
    apply Json.ascii_text. cbn. repeat constructor.
  - by rewrite lookup_insert_eq.
  - intros x k a Hx Hk. rewrite lookup_insert_ne; [by apply (Hin x)|]. intros <-. apply K2.
    rewrite <- inbound_fields_keys by apply (la_inbounds G). apply list_elem_of_fmap. exists (Rpc._outputKey, a).
    split; [done|]. apply list_elem_of_omap. by exists x.
  - intros k Hk. apply not_elem_of_cons in Hk as [Hk1 Hk2]. rewrite lookup_insert_ne by done. by apply Hout.
Qed.

(** C31: With a complete configuration and an operating system that does as it
    is told the daemon comes up: the directories of the logs are made, it
    listens at its address with the manager of connections registered, and a
    client that reads the info file finds the address of the language server
    and those of all inbounds, and nothing else, in whatever order the inbounds
    are ranged over, if none of them is named lsp.  The stop then succeeds and
    removes the file. *)
Theorem launch_publishes : ∃ p fields p',
  env launch ResolveTCPAddr ListenTCP None start_process = (Ok tt, p) ∧
  prpc p = Rpc.mkModule address true (Some listener) ∧ goroutine p = true ∧ dirs p = Dir <$> paths ∧
  disk (pinfo p) !! path ≫= Json.Unmarshal = Some fields ∧
  fields !! Rpc._outputKey = Some address ∧
  (∀ x k a, x ∈ inbounds → inbound_field format x = Some (k, a) → fields !! k = Some a) ∧
  (∀ k, k ∉ Rpc._outputKey :: (inbound_key format <$> inbounds.*1) → fields !! k = None) ∧
  stop None p = (Ok tt, p') ∧ disk (pinfo p') !! path = None.
Proof using G.
  destruct launch_ok as (s&Hrun&Hf&Hd&Ht&H1&H2&H3).
  eexists _, (fileContents (info s)), _. split_and!; [exact Hrun|done..| |done|done|done| |]; cbn.
  - rewrite Hd. cbn. by apply Json.Unmarshal_Marshal.
  - unfold stop, sbind, sret, on_info, ServerInfo.OnStop, sbind, get_st. cbn. rewrite Hf.
    rewrite bool_decide_false by apply (la_file G). unfold Remove. rewrite Hd. reflexivity.
  - apply lookup_delete_eq.
Qed.
End launch.

(** If the address cannot be resolved or listened at, the start fails with
    that error, and the goroutine does not run. *)
Theorem OnStart_fails ResolveTCPAddr ListenTCP p e :
  Rpc.Address (prpc p) ≠ "" →
  (a ← (match ResolveTCPAddr (Rpc.Address (prpc p)) with Ok a => Some a | _ => None end); Some (ListenTCP a)) = Some (Err e)
    ∨ ResolveTCPAddr (Rpc.Address (prpc p)) = Err e →
  ∃ p', OnStart ResolveTCPAddr ListenTCP p = (Err e, p') ∧ goroutine p' = goroutine p ∧ pinfo p' = pinfo p.
Proof.
  intros Hne Hfail. unfold OnStart, on_rpc, Rpc.setup, sbind, get_st. cbn. rewrite bool_decide_false by done.
  destruct (ResolveTCPAddr _) as [a|e'| |]; cbn in *; destruct Hfail as [Hfail|Hfail]; try done.
  - injection Hfail as Hfail. unfold try_. cbn. rewrite Hfail. cbn. eauto.
  - injection Hfail as <-. eauto.
Qed.

(** Whatever the listener is, the file gets the address of the configuration:
    for a port 0 that is not the one that is listened at. *)
Theorem start_address serveErr p s :
  UpdateField (λ _, None) Rpc._outputKey (Rpc.Address (prpc p)) (pinfo p) = (Ok tt, s) →
  fileContents (info s) !! Rpc._outputKey = Some (Rpc.Address (prpc p)) ∧
  pinfo (start (λ _, None) serveErr p).2 = s.
Proof.
  intros Hs. split.
  - rewrite UpdateField_run in Hs. injection Hs as <-. cbn. by rewrite lookup_insert_eq.
  - unfold start. rewrite sbind_get. unfold sbind at 1, try_, on_info. rewrite Hs. by destruct serveErr.
Qed.

(** A command is executed with all of its fields, its input included although
    that has been read for the log. *)
Theorem Run_same exec cmd a args :
  Executor.Args cmd = a :: args →
  (∀ r, Executor.Stdin cmd = Some r → ∃ text, r = Ok text) →
  Executor.Run (Some exec) cmd = Ok (exec cmd).
Proof.
  intros Ha Hin. unfold Executor.Run, Executor.logCommand. rewrite Ha.
  destruct (Executor.Stdin cmd) as [r|] eqn:Hs; [|done]. destruct (Hin r eq_refl) as [text ->]. cbn.
  do 2 f_equal. destruct cmd. cbn in *. by subst.
Qed.

(** [RunCommand] replaces the environment of the command. *)
Theorem RunCommand_env exec cmd env a args :
  Executor.Args cmd = a :: args → Executor.Stdin cmd = None →
  Executor.RunCommand (Some exec) cmd env =
  match Executor.RunErr (exec (Executor.mkCmd (Executor.Path cmd) (Executor.CDir cmd) (Executor.Args cmd) None env)) with
  | Some e => Err e
  | None => Ok tt
  end.
Proof. intros Ha Hs. unfold Executor.RunCommand, Executor.logCommand. rewrite Ha, Hs. cbn. by rewrite Ha, Hs. Qed.

(** A command without arguments, not even its name, is a panic. *)
Theorem Run_no_args l cmd : Executor.Args cmd = [] → Executor.Run l cmd = Panic.
Proof. intros Ha. unfold Executor.Run, Executor.logCommand. by rewrite Ha. Qed.

(** No path is a file and a directory. *)
Theorem exists_exclusive Stat IsNotExist path :
  FileExists Stat IsNotExist path = Ok true → DirExists Stat IsNotExist path = Ok false.
Proof.
  unfold FileExists, DirExists. destruct (Stat path) as [[]|e| |]; try done. by destruct (IsNotExist e).
Qed.

(** Wrapping an error does not change the code and details sent. *)
Theorem ToProtoError_wrap Error msg e :
  ToProtoError Error (EWrap msg e) =
  match ToProtoError Error e with
  | InvalidArgument _ _ => InvalidArgument (Error (EWrap msg e)) (Error (EWrap msg e))
  | NotFound _ id => NotFound (Error (EWrap msg e)) id
  | Other _ => Other (EWrap msg e)
  end.
Proof.
  unfold ToProtoError.
  assert (Hb : IsBadRequest (EWrap msg e) = IsBadRequest e).
  { unfold IsBadRequest. cbn [chain]. f_equal; apply bool_decide_ext; rewrite elem_of_cons; naive_solver. }
  assert (Hn : NotFoundUUID (EWrap msg e) = NotFoundUUID e) by done.
  rewrite Hb, Hn. destruct (IsBadRequest e); [done|]. by destruct (NotFoundUUID e).
Qed.

(** ** Instance *)

Definition sample_inbounds : list (value * value) :=
  [(VString "http", VMap [(VString "address", VString ":8080")]);
   (VString "grpc", VMap [(VString "address", VString ":5437")])].
Definition sample_cfg : Provider := mkProvider
  (λ k, Ok (if bool_decide (k = _configKeyInfoFile) then "/tmp/ulspd" else ":27883"))
  (λ _, Ok ["base.yaml"; "local.yaml"])
  (λ _, Ok {["inbounds" := VMap sample_inbounds]})
  (Ok (mkLoggingConfig "info" false "json" ["/tmp/log/a"])) (Ok ["/tmp/log/a"]).

Lemma sample_launchable :
  launchable (λ _, "") (λ _, Ok sample_cfg) (λ f, bool_decide (f = "src/ulsp/config/base.yaml"))
    (λ _, Ok 0) (λ _, "") reverse (λ _, Ok tt) (λ _, Ok 3%N) (λ a, Ok (a + 4)%N)
    sample_cfg "/tmp/ulspd" ":27883" ["/tmp/log/a"] {["inbounds" := VMap sample_inbounds]} sample_inbounds
    3%N 7%N (mkLogger 0 JSONEncoder false false false).
Proof.
  constructor.
  - vm_compute. reflexivity.
  - reflexivity.
  - reflexivity.
  - split; [reflexivity|done].
  - split; reflexivity.
  - apply reverse_Permutation.
  - repeat constructor; cbn; eauto.
  - split; apply (bool_decide_unpack _); vm_compute; exact I.
  - split; [apply Json.ascii_text; cbn; repeat constructor|].
    unfold sample_inbounds. rewrite !Forall_cons, Forall_nil. split_and!; [..|done];
      intros k a Hk; cbv in Hk; injection Hk as <- <-; split; apply Json.ascii_text; cbn; repeat constructor.
  - reflexivity.
  - split; [reflexivity|done].
  - split; reflexivity.
Qed.

Lemma launch_publishes_witness : ∃ p fields p',
  launch (λ _, "") (λ _, Ok sample_cfg) (λ f, bool_decide (f = "src/ulsp/config/base.yaml"))
    (λ _, Ok 0) (λ _, None) (λ _, None) (λ _, "") reverse (λ _, Ok tt) (λ _, Ok 3%N) (λ a, Ok (a + 4)%N) None
    start_process = (Ok tt, p) ∧
  disk (pinfo p) !! "/tmp/ulspd" ≫= Json.Unmarshal = Some fields ∧
  fields !! "lsp-address" = Some ":27883" ∧ fields !! "grpc-address" = Some ":5437" ∧
  stop None p = (Ok tt, p') ∧ disk (pinfo p') !! "/tmp/ulspd" = None.
Proof.
  destruct (launch_publishes _ _ _ _ _ _ _ _ _ _ _ _ _ _ _ _ _ _ sample_launchable)
    as (p&fields&p'&H1&H2&H3&H4&H5&H6&H7&H8&H9&H10).
  exists p, fields, p'. split_and!; [exact H1|exact H5|exact H6| |exact H9|exact H10].
  apply (H7 (VString "grpc", VMap [(VString "address", VString ":5437")])); [right; left|reflexivity].
Defined.
End Process.
