(* ===== verification/Daemon.v ===== *)
(** * The daemon

    Models the top-level controller in [src/ulsp/controller/ulsp-daemon]: the
    lifecycle of sessions with the idle timer ([methods_lifecycle.go], [New] in
    [ulsp_daemon.go]) and the methods that hand a request to the plugins
    ([methods_document.go], [methods_code_intel.go], [methods_window.go],
    [methods_workspace.go]).  The registration and the dispatch of plugins are in
    [Plugins].

    The structures of the protocol library are opaque ([LspData]), and a plugin
    is what its methods do ([PluginApi]): a method gets the pointer to the result
    when it runs synchronously and nil when it runs in a goroutine; its error is
    logged.  The state that the plugins share is [world]; [goroutines] are the
    asynchronous calls that have not run yet.

    The idle timer is the time it has left while it runs; the goroutine that
    [refreshIdleTimer] starts receives from its channel once. *)

From stdpp Require Import base gmap list strings.
From Stdlib Require Import ZArith Lia.
From S2P Require Import Prelude Session Plugins Capabilities IdeClient.

Local Open Scope Z_scope.

(** ** The protocol's structures *)

Inductive DataKind :=
  | KInitializeParams | KInitializedParams | KCreateFilesParams | KRenameFilesParams
  | KDeleteFilesParams | KDidChangeTextDocumentParams | KDidCloseTextDocumentParams
  | KDidOpenTextDocumentParams | KDidSaveTextDocumentParams | KWillSaveTextDocumentParams
  | KDidChangeWatchedFilesParams | KCodeActionParams | KCodeLensParams | KCodeLens
  | KDeclarationParams | KDefinitionParams | KTypeDefinitionParams | KImplementationParams
  | KReferenceParams | KHoverParams | KDocumentSymbolParams | KExecuteCommandParams
  | KWorkDoneProgressCancelParams
  | KTextEdit | KWorkspaceEdit | KCodeAction | KLocationLink | KLocation | KHover | KDocumentSymbol.

(** The structures, their zero values, and the fields that the daemon reads. *)
Class LspData := {
  Data : DataKind → Type;
  zero_data : ∀ k, Data k;
  WorkspaceFolders : Data KInitializeParams → list string;
  Contents_Value : Data KHover → string
}.

Section data.
Context `{LspData}.

Record TextDocumentSyncOptions := mkSyncOptions {
  OpenClose : bool; Change : Z; Save_IncludeText : option bool; WillSaveOption : bool;
  WillSaveWaitUntilOption : bool
}.
Definition TextDocumentSyncKindIncremental : Z := 2.

Record InitializeResult := mkInitializeResult {
  ServerInfo_Name : string;
  TextDocumentSync : option TextDocumentSyncOptions;
  ResultCapabilities : ServerCapabilities
}.

(** The parameters of a method of a plugin, and what its result points to. *)
Definition Params (f : MethodField) : Type :=
  match f with
  | Initialize => Data KInitializeParams
  | Initialized => Data KInitializedParams
  | Shutdown | Exit | CodeLensRefresh => unit
  | DidChange => Data KDidChangeTextDocumentParams
  | DidChangeWatchedFiles => Data KDidChangeWatchedFilesParams
  | DidOpen => Data KDidOpenTextDocumentParams
  | DidClose => Data KDidCloseTextDocumentParams
  | WillSave | WillSaveWaitUntil => Data KWillSaveTextDocumentParams
  | DidSave => Data KDidSaveTextDocumentParams
  | WillRenameFiles | DidRenameFiles => Data KRenameFilesParams
  | WillCreateFiles | DidCreateFiles => Data KCreateFilesParams
  | WillDeleteFiles | DidDeleteFiles => Data KDeleteFilesParams
  | CodeAction => Data KCodeActionParams
  | CodeLens => Data KCodeLensParams
  | CodeLensResolve => Data KCodeLens
  | GotoDeclaration => Data KDeclarationParams
  | GotoDefinition => Data KDefinitionParams
  | GotoTypeDefinition => Data KTypeDefinitionParams
  | GotoImplementation => Data KImplementationParams
  | References => Data KReferenceParams
  | Hover => Data KHoverParams
  | DocumentSymbol => Data KDocumentSymbolParams
  | ExecuteCommand => Data KExecuteCommandParams
  | WorkDoneProgressCancel => Data KWorkDoneProgressCancelParams
  | EndSession => uuid
  end.

Definition Result (f : MethodField) : Type :=
  match f with
  | Initialize => InitializeResult
  | WillSaveWaitUntil => list (Data KTextEdit)
  | WillRenameFiles | WillCreateFiles | WillDeleteFiles => Data KWorkspaceEdit
  | CodeAction => list (Data KCodeAction)
  | CodeLens => list (Data KCodeLens)
  | CodeLensResolve => Data KCodeLens
  | GotoDeclaration | GotoDefinition | GotoTypeDefinition | GotoImplementation =>
    list (Data KLocationLink)
  | References => list (Data KLocation)
  | Hover => Data KHover
  | DocumentSymbol => list (Data KDocumentSymbol)
  | _ => unit
  end.
End data.

(** What a method of a plugin does to the plugins' state and to the result, and
    the error it returns. *)
Class PluginApi `{LspData} (W : Type) := {
  invoke : ∀ f : MethodField, Context → Methods → Params f → option (Result f) →
    W → option error * W * option (Result f)
}.

(** What the daemon asks of [workspaceutils.WorkspaceUtils]. *)
Class WorkspaceUtilsApi (P : Type) := {
  GetWorkspaceRoot : Context → list string → GoM (IdeClient.gateway P) string;
  GetRepoName : Context → string → gores MonorepoName;
  GetEnv : Context → string → gores (list string)
}.

Module Daemon.
Section daemon.
Context `{ProtocolMethods} {R : Type} `{Repository R} {W : Type} `{PluginApi W}.
Context {P A : Type} `{WorkspaceUtilsApi P}
  (respond : list (N * IdeClient.ClientCall P) → N → IdeClient.ClientCall P → error + A).

Record controller := mkController {
  core : Plugins.Daemon R;             (** sessions, plugins and their methods *)
  fullShutdown : bool;
  idleTimer : option (option Z);       (** nil, or the time left while it runs *)
  idleTimeoutMinutes : Z;              (** nanoseconds *)
  waiting : bool;                      (** a goroutine waits for the timer *)
  shutdowns : nat;                     (** calls of [shutdowner.Shutdown] *)
  ideGateway : IdeClient.gateway P;
  goroutines : list (W → W);
  world : W
}.

Definition set_core x c := mkController x (fullShutdown c) (idleTimer c) (idleTimeoutMinutes c)
  (waiting c) (shutdowns c) (ideGateway c) (goroutines c) (world c).
Definition set_timer t w c := mkController (core c) (fullShutdown c) t (idleTimeoutMinutes c)
  w (shutdowns c) (ideGateway c) (goroutines c) (world c).
Definition set_gateway g c := mkController (core c) (fullShutdown c) (idleTimer c) (idleTimeoutMinutes c)
  (waiting c) (shutdowns c) g (goroutines c) (world c).
Definition set_world gs w c := mkController (core c) (fullShutdown c) (idleTimer c) (idleTimeoutMinutes c)
  (waiting c) (shutdowns c) (ideGateway c) gs w.
Definition set_sessions r c :=
  set_core (Plugins.mkDaemon r (pluginMethods (core c)) (pluginConfig (core c)) (pluginsAll (core c))) c.

Abbreviation M := (GoM controller).

Definition on_core {B} (m : GoM (Plugins.Daemon R) B) : M B := λ c,
  let '(r, d) := m (core c) in (r, set_core d c).
Definition on_gateway {B} (m : GoM (IdeClient.gateway P) B) : M B := λ c,
  let '(r, g) := m (ideGateway c) in (r, set_gateway g c).

(** ** The idle timer *)

Definition refreshIdleTimer : M unit := λ c,
  match idleTimer c with
  | None => (Ok tt, set_timer (Some (Some (idleTimeoutMinutes c))) true c)
  | Some _ =>
    (Ok tt, set_timer (Some (if repo_SessionCount (sessions (core c)) =? 0
                             then Some (idleTimeoutMinutes c) else None)) (waiting c) c)
  end.

(** [d] nanoseconds pass: the timer may fire, and the goroutine shuts down. *)
Definition elapse (d : Z) (c : controller) : controller :=
  match idleTimer c with
  | Some (Some rest) =>
    if rest <=? d then
      mkController (core c) (fullShutdown c) (Some None) (idleTimeoutMinutes c) false
        (if waiting c then S (shutdowns c) else shutdowns c) (ideGateway c) (goroutines c) (world c)
    else set_timer (Some (Some (rest - d))) (waiting c) c
  | _ => c
  end.

(** [defer c.refreshIdleTimer(ctx)] *)
Definition defer_refresh {B} (m : M B) : M B := λ c,
  let '(r, c') := m c in (r, (refreshIdleTimer c').2).

(** The configuration is what the two calls of [Populate] give. *)
Definition New (populateTimeout : gores Z) (populatePlugins : gores (gmap string bool))
    (plugins : list (option (Context → gores PluginInfo))) (repo : R) (gateway : IdeClient.gateway P) (w : W)
    : gores controller :=
  timeoutMinutesRaw <-? wrap_err "unable to get idle timeout from config" populateTimeout;;
  if timeoutMinutesRaw =? 0 then Err (EText "unable to get idle timeout from config")
  else
    config <-? wrap_err "unable to get plugin keys from config" populatePlugins;;
    Ok (refreshIdleTimer (mkController (Plugins.mkDaemon repo ∅ config plugins) false None
      (int64 (timeoutMinutesRaw * IdeClient.Minute)) false 0 gateway [] w)).2.

(** ** Calls of the plugins *)

(** The handlers of a method that has no result. *)
Definition call (f : MethodField) (ctx : Context) (params : Params f) (m : Methods) (w : W) : W :=
  (invoke f ctx m params None w).1.2.

(** The handlers of a method that fills [result]. *)
Definition callSync (f : MethodField) (ctx : Context) (params : Params f) (m : Methods)
    (x : W * Result f) : W * Result f :=
  let '(_, w, r) := invoke f ctx m params (Some x.2) x.1 in (w, default x.2 r).
Definition callAsync (f : MethodField) (ctx : Context) (params : Params f) (m : Methods)
    (x : W * Result f) : W * Result f :=
  (call f ctx params m x.1, x.2).

(** [c.executePluginMethods(ctx, method, call, call)] *)
Definition execute (f : MethodField) (ctx : Context) (params : Params f) : M unit := λ c,
  match executePluginMethods (core c) ctx (MethodName f)
          (Some (call f ctx params)) (Some (call f ctx params)) (world c) with
  | (Ok gs, w) => (Ok tt, set_world (goroutines c ++ gs) w c)
  | (Err e, w) => (Err e, set_world (goroutines c) w c)
  | (Panic, w) => (Panic, set_world (goroutines c) w c)
  | (Fuel, w) => (Fuel, set_world (goroutines c) w c)
  end.

(** The text of the error: [calling plugin: %s]. *)
Definition bad_plugin_call {B} (m : M B) : M B := λ c,
  let '(r, c') := m c in
  (match r with Err e => Err (EText "calling plugin") | _ => r end, c').

(** [c.executePluginMethods(ctx, method, callSync, callAsync)] on a new result *)
Definition execute_result (f : MethodField) (ctx : Context) (params : Params f) (result : Result f)
    : M (Result f) := λ c,
  match executePluginMethods (core c) ctx (MethodName f)
          (Some (callSync f ctx params)) (Some (callAsync f ctx params)) (world c, result) with
  | (Ok gs, (w, r)) => (Ok r, set_world (goroutines c ++ ((λ g w, (g (w, r)).1) <$> gs)) w c)
  | (Err e, (w, _)) => (Err (EText "calling plugin"), set_world (goroutines c) w c)
  | (Panic, (w, _)) => (Panic, set_world (goroutines c) w c)
  | (Fuel, (w, _)) => (Fuel, set_world (goroutines c) w c)
  end.

(** ** [methods_document.go] *)

Definition DidChange ctx params := execute Plugins.DidChange ctx params.
Definition DidChangeWatchedFiles ctx params := execute Plugins.DidChangeWatchedFiles ctx params.
Definition DidOpen ctx params := execute Plugins.DidOpen ctx params.
Definition DidClose ctx params := execute Plugins.DidClose ctx params.
Definition WillSave ctx params := execute Plugins.WillSave ctx params.
Definition WillSaveWaitUntil ctx params := execute_result Plugins.WillSaveWaitUntil ctx params [].
Definition DidSave ctx params := execute Plugins.DidSave ctx params.
Definition WillRenameFiles ctx params :=
  execute_result Plugins.WillRenameFiles ctx params (zero_data KWorkspaceEdit).
Definition DidRenameFiles ctx params := execute Plugins.DidRenameFiles ctx params.
Definition WillCreateFiles ctx params :=
  execute_result Plugins.WillCreateFiles ctx params (zero_data KWorkspaceEdit).
Definition DidCreateFiles ctx params := execute Plugins.DidCreateFiles ctx params.
Definition WillDeleteFiles ctx params :=
  execute_result Plugins.WillDeleteFiles ctx params (zero_data KWorkspaceEdit).
Definition DidDeleteFiles ctx params := execute Plugins.DidDeleteFiles ctx params.

(** ** [methods_code_intel.go] *)

Definition CodeAction ctx params := execute_result Plugins.CodeAction ctx params [].
Definition CodeLens ctx params := execute_result Plugins.CodeLens ctx params [].
Definition CodeLensRefresh ctx := execute Plugins.CodeLensRefresh ctx tt.
Definition CodeLensResolve ctx params :=
  execute_result Plugins.CodeLensResolve ctx params (zero_data KCodeLens).
Definition GotoDeclaration ctx params := execute_result Plugins.GotoDeclaration ctx params [].
Definition GotoDefinition ctx params := execute_result Plugins.GotoDefinition ctx params [].
Definition GotoTypeDefinition ctx params := execute_result Plugins.GotoTypeDefinition ctx params [].
Definition GotoImplementation ctx params := execute_result Plugins.GotoImplementation ctx params [].
Definition References ctx params := execute_result Plugins.References ctx params [].
(** An empty hover is nil. *)
Definition Hover ctx params : M (option (Data KHover)) :=
  result <- execute_result Plugins.Hover ctx params (zero_data KHover);;
  sret (if bool_decide (Contents_Value result = "") then None else Some result).
Definition DocumentSymbol ctx params := execute_result Plugins.DocumentSymbol ctx params [].

(** ** [methods_window.go], [methods_workspace.go] *)

Definition WorkDoneProgressCancel ctx params := execute Plugins.WorkDoneProgressCancel ctx params.
Definition ExecuteCommand ctx params := execute Plugins.ExecuteCommand ctx params.

(** ** [methods_lifecycle.go] *)

Definition set_params (p : N) (s : Session) : Session :=
  mkSession (UUID s) (Some p) (Conn s) (WorkspaceRoot s) (Monorepo s) (Env s) (UlspEnabled s).
Definition set_workspace (root : string) (enabled : bool) (s : Session) : Session :=
  mkSession (UUID s) (InitializeParams s) (Conn s) root (Monorepo s) (Env s) enabled.
Definition set_repo (repo : MonorepoName) (env : list string) (s : Session) : Session :=
  mkSession (UUID s) (InitializeParams s) (Conn s) (WorkspaceRoot s) repo env (UlspEnabled s).

(** [c.sessions.Set(ctx, s)] *)
Definition sessions_Set (s : Session) : M unit := λ c,
  match repo_Set (sessions (core c)) (Some s) with
  | Ok r => (Ok tt, set_sessions r c)
  | Err e => (Err e, c)
  | Panic => (Panic, c)
  | Fuel => (Fuel, c)
  end.

(** The capabilities of an enabled session, before the plugins add theirs. *)
Definition sync_options : TextDocumentSyncOptions :=
  mkSyncOptions true TextDocumentSyncKindIncremental (Some true) true true.

(** [Initialize] up to the update of the session; [p] is the address of the
    parameters. *)
Definition initialize_session (ctx : Context) (p : N) (params : Data KInitializeParams) : M Session :=
  s <- wrapM "getting session from context" (λ c, (repo_GetFromContext (sessions (core c)) ctx, c));;
  root <- try_ (on_gateway (GetWorkspaceRoot ctx (WorkspaceFolders params)));;
  let s := match root with
           | inl _ => set_workspace "" false (set_params p s)
           | inr root => set_workspace root (UlspEnabled s) (set_params p s)
           end in
  s <- (if bool_decide (WorkspaceRoot s = "") then sret s
        else
          repo <- wrapM "getting repo name" (lift_res (GetRepoName ctx (WorkspaceRoot s)));;
          env <- wrapM "getting environment" (lift_res (GetEnv ctx (WorkspaceRoot s)));;
          sret (set_repo repo env s));;
  _ <- wrapM "setting updated session state" (sessions_Set s);;
  sret s.

Definition Initialize (ctx : Context) (p : N) (params : Data KInitializeParams) : M InitializeResult :=
  s <- initialize_session ctx p params;;
  let result := mkInitializeResult "Uber Language Server" None no_capabilities in
  result <- (if UlspEnabled s then
               _ <- wrapM "registering session plugins" (on_core (registerSessionPlugins ctx));;
               sret (mkInitializeResult (ServerInfo_Name result) (Some sync_options) no_capabilities)
             else sret result);;
  execute_result Plugins.Initialize ctx params result.

Definition ShowMessage (ctx : Context) (message : string) (type : Z) : M unit :=
  _ <- try_ (on_gateway (IdeClient.ShowMessage respond ctx message type));; sret tt.

Definition Initialized (ctx : Context) (params : Data KInitializedParams) : M unit :=
  _ <- bad_plugin_call (execute Plugins.Initialized ctx params);;
  s <- wrapM "getting session from context" (λ c, (repo_GetFromContext (sessions (core c)) ctx, c));;
  if UlspEnabled s then
    ShowMessage ctx "Connection to Uber Language Server is now initialized." IdeClient.MessageTypeInfo
  else
    ShowMessage ctx "Uber Language Server is not available for this workspace. See t.uber.com/ulsp for more info."
      IdeClient.MessageTypeWarning.

Definition Shutdown (ctx : Context) : M unit :=
  bad_plugin_call (execute Plugins.Shutdown ctx tt).

Definition RequestFullShutdown : M unit := λ c,
  (Ok tt, mkController (core c) true (idleTimer c) (idleTimeoutMinutes c) (waiting c) (shutdowns c)
    (ideGateway c) (goroutines c) (world c)).

(** [newV4] is the new id, or the error of the generator. *)
Definition InitSession (newV4 : error + uuid) (conn : option N) : M uuid :=
  defer_refresh (
    id <- lift_res (match newV4 with inl e => Err e | inr id => Ok id end);;
    _ <- on_gateway (IdeClient.RegisterClient id conn);;
    _ <- sessions_Set (UUIDToSession id conn);;
    sret id).

Definition EndSession (ctx : Context) (id : uuid) : M unit :=
  defer_refresh (
    _ <- (λ c, match pluginMethods (core c) !! id with
               | Some _ => (_ <- try_ (execute Plugins.EndSession ctx id);; sret tt) c
               | None => (Ok tt, c)
               end);;
    _ <- try_ (on_gateway (IdeClient.DeregisterClient id));;
    modify_st (λ c, set_core (Plugins.mkDaemon (repo_Delete (sessions (core c)) id)
      (delete id (pluginMethods (core c))) (pluginConfig (core c)) (pluginsAll (core c))) c)).

(** [c.idleTimer.Reset(0)] *)
Definition reset_timer : M unit := λ c,
  match idleTimer c with
  | None => (Panic, c)
  | Some _ => (Ok tt, set_timer (Some (Some 0)) (waiting c) c)
  end.

Definition Exit (ctx : Context) : M unit :=
  _ <- try_ (execute Plugins.Exit ctx tt);;
  c <- get_st;;
  if fullShutdown c then reset_timer
  else
    s <- wrapM "error during session exit" (λ c, (repo_GetFromContext (sessions (core c)) ctx, c));;
    EndSession ctx (UUID s).
End daemon.
Arguments controller : clear implicits.
End Daemon.
