(* ===== verification/Router.v ===== *)
(** * The request router

    Models the JSON-RPC side of the server: the router of a connection and its
    handlers ([src/ulsp/handler/ulsp-daemon/router.go] and [methods_*.go]), the
    manager of connections ([ulsp_daemon.go] there), the decoding of parameters
    ([RequestTo...] in [src/ulsp/mapper/lsp.go]) and the service of a connection
    ([src/ulsp/internal/jsonrpcfx/json_rpc.go]).

    JSON itself and the JSON-RPC library are parameters: what [json.Unmarshal]
    makes of the bytes of a structure ([Json]), whether a reply can be written,
    and which requests a connection delivers before it is done. *)

From stdpp Require Import base gmap list strings.
From Stdlib Require Import ZArith Lia.
From S2P Require Import Prelude Session Plugins Capabilities IdeClient Daemon.

Local Open Scope Z_scope.

(** The method that is not one of the protocol's. *)
Definition MethodRequestFullShutdown : string := "ulsp/requestFullShutdown".

Record Request := mkRequest { Method : string; ReqParams : bytes }.

(** [json.Unmarshal] into a structure, [json.Marshal] of an argument of a command,
    and the arguments of [ExecuteCommandParams]. *)
Class Json `{LspData} := {
  Value : Type;
  RawValue : bytes → Value;
  Unmarshal : ∀ k, bytes → Data k → error + Data k;
  Marshal : Value → error + bytes;
  Arguments_of : Data KExecuteCommandParams → list Value;
  set_Arguments : list Value → Data KExecuteCommandParams → Data KExecuteCommandParams
}.

(** ** [mapper/lsp.go] *)

Module Mapper.
Section mapper.
Context `{Json}.

Definition wrapErrParse {B} (r : error + B) : gores B :=
  match r with inl e => Err (EWrap "JSON parse error" e) | inr b => Ok b end.
Definition request_to (k : DataKind) (req : Request) : gores (Data k) :=
  wrapErrParse (Unmarshal k (ReqParams req) (zero_data k)).

Definition RequestToInitializeParams := request_to KInitializeParams.
Definition RequestToInitializedParams := request_to KInitializedParams.
Definition RequestToCreateFilesParams := request_to KCreateFilesParams.
Definition RequestToRenameFilesParams := request_to KRenameFilesParams.
Definition RequestToDeleteFilesParams := request_to KDeleteFilesParams.
Definition RequestToDidChangeTextDocumentParams := request_to KDidChangeTextDocumentParams.
Definition RequestToDidCloseTextDocumentParams := request_to KDidCloseTextDocumentParams.
Definition RequestToDidOpenTextDocumentParams := request_to KDidOpenTextDocumentParams.
Definition RequestToDidSaveTextDocumentParams := request_to KDidSaveTextDocumentParams.
Definition RequestToWillSaveTextDocumentParams := request_to KWillSaveTextDocumentParams.
Definition RequestToDidChangeWatchedFilesParams := request_to KDidChangeWatchedFilesParams.
Definition RequestToCodeActionParams := request_to KCodeActionParams.
Definition RequestToCodeLensParams := request_to KCodeLensParams.
Definition RequestToCodeLens := request_to KCodeLens.
Definition RequestToDeclarationParams := request_to KDeclarationParams.
Definition RequestToDefinitionParams := request_to KDefinitionParams.
Definition RequestToTypeDefinitionParams := request_to KTypeDefinitionParams.
Definition RequestToImplementationParams := request_to KImplementationParams.
Definition RequestToReferencesParams := request_to KReferenceParams.
Definition RequestToHoverParams := request_to KHoverParams.
Definition RequestToDocumentSymbolParams := request_to KDocumentSymbolParams.
Definition RequestToWorkDoneProgressCancelParams := request_to KWorkDoneProgressCancelParams.

(** The loop that encodes the arguments again. *)
Fixpoint raw_args (args : list Value) (rawArgs : list Value) : gores (list Value) :=
  match args with
  | [] => Ok rawArgs
  | arg :: args' =>
    rawArg <-? wrapErrParse (Marshal arg);;
    raw_args args' (rawArgs ++ [RawValue rawArg])
  end.
Definition RequestToExecuteCommandParams (req : Request) : gores (Data KExecuteCommandParams) :=
  params <-? request_to KExecuteCommandParams req;;
  rawArgs <-? raw_args (Arguments_of params) [];;
  Ok (set_Arguments rawArgs params).
End mapper.
End Mapper.

(** ** The router of a connection *)

Module Router.
Section router.
Context `{ProtocolMethods} {R : Type} `{Repository R} {W : Type} `{LspData, !PluginApi W, !Json}.
Context {P A : Type} `{WorkspaceUtilsApi P}
  (respond : list (N * IdeClient.ClientCall P) → N → IdeClient.ClientCall P → error + A).

(** A reply: the result, nil if there is none, and the error. *)
Record Reply := mkReply { value : option {f : MethodField & Result f}; err : option error }.

(** the error of the write of a reply, and the error for an unknown method *)
Context (reply_error : list Reply → Reply → option error) (methodNotFound : string → error).

(** The controller and the replies of the connection so far. *)
Abbreviation state := (Daemon.controller R W P * list Reply)%type.
Abbreviation M := (GoM state).
Abbreviation CtrlM := (GoM (Daemon.controller R W P)).

Record jsonRPCRouter := mkRouter { router_uuid : uuid }.

Definition reply (value : option {f : MethodField & Result f}) (err : option error) : M unit := λ s,
  let x := mkReply value err in
  (match reply_error s.2 x with Some e => Err e | None => Ok tt end, (s.1, s.2 ++ [x])).
Definition call_ctrl {B} (m : CtrlM B) : M B := λ s,
  let '(r, c) := m s.1 in (r, (c, s.2)).

(** The parameters are decoded, the controller is called, its error is replied. *)
Definition run_error (m : CtrlM unit) : M unit :=
  r <- try_ (call_ctrl m);;
  reply None (match r with inl e => Some e | inr _ => None end).
Definition run_result (f : MethodField) (m : CtrlM (option (Result f))) : M unit :=
  r <- try_ (call_ctrl m);;
  match r with
  | inl e => reply None (Some e)
  | inr None => reply None None
  | inr (Some x) => reply (Some (existT f x)) None
  end.
Definition decode {D} (params : gores D) (k : D → M unit) : M unit :=
  r <- try_ (lift_res params);;
  match r with inl e => reply None (Some e) | inr params => k params end.
(** A result that is never nil. *)
Definition some {B} (m : CtrlM B) : CtrlM (option B) := x <- m;; sret (Some x).

(** [methods_lifecycle.go]; [p] is the address of the decoded parameters *)
Definition Initialize ctx (p : N) req := decode (Mapper.RequestToInitializeParams req) (λ params,
  run_result Plugins.Initialize (some (Daemon.Initialize ctx p params))).
Definition Initialized ctx req := decode (Mapper.RequestToInitializedParams req) (λ params,
  run_error (Daemon.Initialized respond ctx params)).
Definition Shutdown ctx := run_error (Daemon.Shutdown ctx).
(** The reply comes first, whether it can be written or not. *)
Definition Exit ctx : M unit :=
  _ <- try_ (reply None None);;
  call_ctrl (Daemon.Exit ctx).
Definition RequestFullShutdown := run_error Daemon.RequestFullShutdown.

(** [methods_document.go] *)
Definition DidChange ctx req := decode (Mapper.RequestToDidChangeTextDocumentParams req) (λ params,
  run_error (Daemon.DidChange ctx params)).
Definition DidChangeWatchedFiles ctx req := decode (Mapper.RequestToDidChangeWatchedFilesParams req) (λ params,
  run_error (Daemon.DidChangeWatchedFiles ctx params)).
Definition DidOpen ctx req := decode (Mapper.RequestToDidOpenTextDocumentParams req) (λ params,
  run_error (Daemon.DidOpen ctx params)).
Definition DidClose ctx req := decode (Mapper.RequestToDidCloseTextDocumentParams req) (λ params,
  run_error (Daemon.DidClose ctx params)).
Definition WillSave ctx req := decode (Mapper.RequestToWillSaveTextDocumentParams req) (λ params,
  run_error (Daemon.WillSave ctx params)).
Definition WillSaveWaitUntil ctx req := decode (Mapper.RequestToWillSaveTextDocumentParams req) (λ params,
  run_result Plugins.WillSaveWaitUntil (some (Daemon.WillSaveWaitUntil ctx params))).
Definition DidSave ctx req := decode (Mapper.RequestToDidSaveTextDocumentParams req) (λ params,
  run_error (Daemon.DidSave ctx params)).
Definition WillRenameFiles ctx req := decode (Mapper.RequestToRenameFilesParams req) (λ params,
  run_result Plugins.WillRenameFiles (some (Daemon.WillRenameFiles ctx params))).
Definition DidRenameFiles ctx req := decode (Mapper.RequestToRenameFilesParams req) (λ params,
  run_error (Daemon.DidRenameFiles ctx params)).
Definition WillCreateFiles ctx req := decode (Mapper.RequestToCreateFilesParams req) (λ params,
  run_result Plugins.WillCreateFiles (some (Daemon.WillCreateFiles ctx params))).
Definition DidCreateFiles ctx req := decode (Mapper.RequestToCreateFilesParams req) (λ params,
  run_error (Daemon.DidCreateFiles ctx params)).
Definition WillDeleteFiles ctx req := decode (Mapper.RequestToDeleteFilesParams req) (λ params,
  run_result Plugins.WillDeleteFiles (some (Daemon.WillDeleteFiles ctx params))).
Definition DidDeleteFiles ctx req := decode (Mapper.RequestToDeleteFilesParams req) (λ params,
  run_error (Daemon.DidDeleteFiles ctx params)).

(** [methods_code_intel.go] *)
Definition CodeAction ctx req := decode (Mapper.RequestToCodeActionParams req) (λ params,
  run_result Plugins.CodeAction (some (Daemon.CodeAction ctx params))).
Definition CodeLens ctx req := decode (Mapper.RequestToCodeLensParams req) (λ params,
  run_result Plugins.CodeLens (some (Daemon.CodeLens ctx params))).
Definition CodeLensResolve ctx req := decode (Mapper.RequestToCodeLens req) (λ params,
  run_result Plugins.CodeLensResolve (some (Daemon.CodeLensResolve ctx params))).
Definition CodeLensRefresh ctx := run_error (Daemon.CodeLensRefresh ctx).
Definition GotoDeclaration ctx req := decode (Mapper.RequestToDeclarationParams req) (λ params,
  run_result Plugins.GotoDeclaration (some (Daemon.GotoDeclaration ctx params))).
Definition GotoDefinition ctx req := decode (Mapper.RequestToDefinitionParams req) (λ params,
  run_result Plugins.GotoDefinition (some (Daemon.GotoDefinition ctx params))).
Definition GotoTypeDefinition ctx req := decode (Mapper.RequestToTypeDefinitionParams req) (λ params,
  run_result Plugins.GotoTypeDefinition (some (Daemon.GotoTypeDefinition ctx params))).
Definition GotoImplementation ctx req := decode (Mapper.RequestToImplementationParams req) (λ params,
  run_result Plugins.GotoImplementation (some (Daemon.GotoImplementation ctx params))).
Definition References ctx req := decode (Mapper.RequestToReferencesParams req) (λ params,
  run_result Plugins.References (some (Daemon.References ctx params))).
Definition Hover ctx req := decode (Mapper.RequestToHoverParams req) (λ params,
  run_result Plugins.Hover (Daemon.Hover ctx params)).
Definition DocumentSymbol ctx req := decode (Mapper.RequestToDocumentSymbolParams req) (λ params,
  run_result Plugins.DocumentSymbol (some (Daemon.DocumentSymbol ctx params))).

(** [methods_window.go], [methods_workspace.go]; the result of a command is nil *)
Definition WorkDoneProgressCancel ctx req := decode (Mapper.RequestToWorkDoneProgressCancelParams req)
  (λ params, run_error (Daemon.WorkDoneProgressCancel ctx params)).
Definition ExecuteCommand ctx req := decode (Mapper.RequestToExecuteCommandParams req) (λ params,
  run_error (Daemon.ExecuteCommand ctx params)).

(** [jsonrpc2.MethodNotFoundHandler] *)
Definition MethodNotFoundHandler (req : Request) : M unit := reply None (Some (methodNotFound (Method req))).

(** The cases of the [switch] are different names: which comes first is of no
    importance. *)
Definition HandleReq (r : jsonRPCRouter) (p : N) (req : Request) : M unit :=
  let ctx := mkContext (Some (router_uuid r)) in
  match switch_field (Method req) with
  | Some Plugins.Initialize => Initialize ctx p req
  | Some Plugins.Initialized => Initialized ctx req
  | Some Plugins.Shutdown => Shutdown ctx
  | Some Plugins.Exit => Exit ctx
  | Some Plugins.DidChange => DidChange ctx req
  | Some Plugins.DidChangeWatchedFiles => DidChangeWatchedFiles ctx req
  | Some Plugins.DidOpen => DidOpen ctx req
  | Some Plugins.DidClose => DidClose ctx req
  | Some Plugins.WillSave => WillSave ctx req
  | Some Plugins.WillSaveWaitUntil => WillSaveWaitUntil ctx req
  | Some Plugins.DidSave => DidSave ctx req
  | Some Plugins.WillRenameFiles => WillRenameFiles ctx req
  | Some Plugins.DidRenameFiles => DidRenameFiles ctx req
  | Some Plugins.WillCreateFiles => WillCreateFiles ctx req
  | Some Plugins.DidCreateFiles => DidCreateFiles ctx req
  | Some Plugins.WillDeleteFiles => WillDeleteFiles ctx req
  | Some Plugins.DidDeleteFiles => DidDeleteFiles ctx req
  | Some Plugins.CodeAction => CodeAction ctx req
  | Some Plugins.CodeLens => CodeLens ctx req
  | Some Plugins.CodeLensRefresh => CodeLensRefresh ctx
  | Some Plugins.CodeLensResolve => CodeLensResolve ctx req
  | Some Plugins.GotoDeclaration => GotoDeclaration ctx req
  | Some Plugins.GotoDefinition => GotoDefinition ctx req
  | Some Plugins.GotoTypeDefinition => GotoTypeDefinition ctx req
  | Some Plugins.GotoImplementation => GotoImplementation ctx req
  | Some Plugins.References => References ctx req
  | Some Plugins.Hover => Hover ctx req
  | Some Plugins.DocumentSymbol => DocumentSymbol ctx req
  | Some Plugins.ExecuteCommand => ExecuteCommand ctx req
  | Some Plugins.WorkDoneProgressCancel => WorkDoneProgressCancel ctx req
  | Some Plugins.EndSession => MethodNotFoundHandler req
  | None =>
    if bool_decide (Method req = MethodRequestFullShutdown) then RequestFullShutdown
    else MethodNotFoundHandler req
  end.

(** ** The manager of connections *)

Definition NewConnection (newV4 : error + uuid) (conn : option N) : CtrlM jsonRPCRouter :=
  id <- wrapM "error while creating new connection" (Daemon.InitSession newV4 conn);;
  sret (mkRouter id).

Definition RemoveConnection (id : uuid) : CtrlM unit :=
  _ <- try_ (Daemon.EndSession (mkContext (Some id)) id);; sret tt.

(** ** The service of a connection

    [hasManager]: a connection manager is registered.  [requests] are those that
    the connection delivers, with the addresses of their parameters, before it is
    done; [connErr] is its error then. *)
Fixpoint serve_requests (r : jsonRPCRouter) (requests : list (N * Request)) : M unit :=
  match requests with
  | [] => sret tt
  | (p, req) :: requests' => _ <- try_ (HandleReq r p req);; serve_requests r requests'
  end.

Definition ServeStream (hasManager : bool) (newV4 : error + uuid) (conn : N)
    (requests : list (N * Request)) (connErr : option error) : M unit :=
  if hasManager then
    r <- call_ctrl (NewConnection newV4 (Some conn));;
    _ <- serve_requests r requests;;
    _ <- call_ctrl (RemoveConnection (router_uuid r));;
    match connErr with Some e => throw e | None => sret tt end
  else throw (EText "cannot serve connection, no connection manager set").

(** A second manager is refused. *)
Definition RegisterConnectionManager (hasManager : bool) : gores bool :=
  if hasManager then Err (EText "cannot register a duplicate connection manager") else Ok true.
End router.
End Router.
