(* ===== verification/DaemonProof.v ===== *)
(** * The daemon: sessions, idle timer, requests

    Runs of the whole server: connections are accepted and closed, requests of
    any connection arrive, time passes and goroutines of asynchronous plugin
    calls run, in any order ([event]).  Shown here: the sessions, the clients of
    the gateway and the registered plugins stay together ([daemon_ok]); a session
    does not touch another; the idle timer shuts the server down when and only
    when it should; every request gets one reply; a request runs the plugins of
    its session and is answered with what they fill in. *)

From stdpp Require Import base gmap list strings.
From Stdlib Require Import ZArith Lia.
From S2P Require Import Prelude Session Plugins Capabilities IdeClient Daemon Router WorkspaceUtils.

Local Open Scope Z_scope.

(** The workspace utilities leave the clients of the gateway alone. *)
Class WorkspaceUtilsLaws (P : Type) `{WorkspaceUtilsApi P} := {
  GetWorkspaceRoot_clients ctx folders (g : IdeClient.gateway P) :
    IdeClient.clients (GetWorkspaceRoot ctx folders g).2 = IdeClient.clients g ∧
    IdeClient.connections (GetWorkspaceRoot ctx folders g).2 = IdeClient.connections g
}.

Module DaemonProof.
Import Daemon.

(** ** What computations preserve *)

Section preserves.
Context {S : Type} (Rel : S → S → Prop) `{!PreOrder Rel}.

Definition preserves {B} (m : GoM S B) : Prop := ∀ c, Rel c (m c).2.

Lemma preserves_bind {B D} (m : GoM S B) (k : B → GoM S D) :
  preserves m → (∀ x, preserves (k x)) → preserves (sbind m k).
Proof.
  intros Hm Hk c. specialize (Hm c). unfold sbind. destruct (m c) as [[x| | |] c']; cbn in *; [|done..].
  etrans; [exact Hm|apply Hk].
Qed.
Lemma preserves_state {B} (m : GoM S B) : (∀ c, (m c).2 = c) → preserves m.
Proof. intros Hm c. by rewrite Hm. Qed.
Lemma preserves_try {B} (m : GoM S B) : preserves m → preserves (try_ m).
Proof. intros Hm c. specialize (Hm c). unfold try_. by destruct (m c) as [[] ?]. Qed.
Lemma preserves_wrap {B} s (m : GoM S B) : preserves m → preserves (wrapM s m).
Proof. intros Hm c. specialize (Hm c). unfold wrapM. by destruct (m c). Qed.
End preserves.

Section daemon.
Context `{ProtocolMethods} {R : Type} `{Hrepo : RepositoryLaws R} {W : Type}
  `{LspData, !PluginApi W, !Json} {P A : Type} `{WorkspaceUtilsLaws P}
  (respond : list (N * IdeClient.ClientCall P) → N → IdeClient.ClientCall P → error + A)
  (reply_error : list Router.Reply → Router.Reply → option error) (methodNotFound : string → error).

Abbreviation ctrl := (controller R W P).
Implicit Types c : ctrl.

Definition repo c : R := sessions (core c).
Definition has_session c (u : uuid) : Prop := ∃ s, repo_Get (repo c) u = Ok s.

(** ** The invariant *)

(** The timer of a server that has not been asked to exit as a whole. *)
Definition timer_ok c : Prop :=
  match idleTimer c with
  | None => False
  | Some None => fullShutdown c = false → waiting c = true → repo_SessionCount (repo c) ≠ 0
  | Some (Some t) => fullShutdown c = false → waiting c = true →
      repo_SessionCount (repo c) = 0 ∧ t ≤ idleTimeoutMinutes c
  end.

Record daemon_ok c : Prop := {
  ok_repo : repo_ok (repo c);
  ok_conn u s : repo_Get (repo c) u = Ok s → IdeClient.connections (ideGateway c) !! u = Conn s;
  ok_dom u : is_Some (IdeClient.connections (ideGateway c) !! u) ↔ has_session c u;
  ok_clients : IdeClient.clients (ideGateway c)
    = IdeClient.ClientDispatcher <$> IdeClient.connections (ideGateway c);
  ok_plugins u : is_Some (pluginMethods (core c) !! u) → has_session c u;
  ok_timer : timer_ok c;
  ok_shutdowns : shutdowns c = if waiting c then 0%nat else 1%nat
}.

(** Changes of nothing but the plugins' state and the calls of the gateway. *)
Definition view c :=
  (core c, fullShutdown c, idleTimer c, idleTimeoutMinutes c, waiting c, shutdowns c,
   IdeClient.clients (ideGateway c), IdeClient.connections (ideGateway c)).
Definition quiet c c' : Prop := view c = view c'.
#[local] Instance quiet_preorder : PreOrder quiet.
Proof. split; [done|]. unfold quiet. intros ???; congruence. Qed.

Lemma daemon_ok_quiet c c' : quiet c c' → daemon_ok c → daemon_ok c'.
Proof.
  destruct c as [co fs it tm wt sd g gs w], c' as [co' fs' it' tm' wt' sd' g' gs' w'].
  unfold quiet, view. cbn. intros [= -> -> -> -> -> -> Hcl Hcn] [K1 K2 K3 K4 K5 K6 K7].
  unfold has_session, repo, timer_ok in *. cbn in *.
  split; unfold has_session, repo, timer_ok; cbn; rewrite <- ?Hcl, <- ?Hcn; done.
Qed.

(** What a session has: itself, its client and its plugins. *)
Definition same_at (u : uuid) c c' : Prop :=
  repo_Get (repo c') u = repo_Get (repo c) u ∧
  pluginMethods (core c') !! u = pluginMethods (core c) !! u ∧
  IdeClient.clients (ideGateway c') !! u = IdeClient.clients (ideGateway c) !! u ∧
  IdeClient.connections (ideGateway c') !! u = IdeClient.connections (ideGateway c) !! u.

(** Changes that only a session [id] may make. *)
Definition touches (id : uuid) c c' : Prop :=
  daemon_ok c → daemon_ok c' ∧ shutdowns c' = shutdowns c ∧ ∀ u, u ≠ id → same_at u c c'.
#[local] Instance touches_preorder id : PreOrder (touches id).
Proof.
  split; [done|]. intros c1 c2 c3 T1 T2 Hok. destruct (T1 Hok) as (Hok2&S1&O1).
  destruct (T2 Hok2) as (Hok3&S2&O2). split_and!; [done|congruence|]. intros u Hu.
  destruct (O1 u Hu) as (?&?&?&?), (O2 u Hu) as (?&?&?&?). split_and!; congruence.
Qed.
Lemma quiet_same_at u c c' : quiet c c' → same_at u c c'.
Proof.
  intros Hq. destruct c, c'. unfold quiet, view in Hq. cbn in Hq. simplify_eq.
  unfold same_at, repo. cbn. split_and!; congruence.
Qed.
Lemma quiet_touches id c c' : quiet c c' → touches id c c'.
Proof.
  intros Hq Hok. split_and!; [by eapply daemon_ok_quiet| |intros u _; by apply quiet_same_at].
  destruct c, c'. unfold quiet, view in Hq. cbn in *. congruence.
Qed.
Lemma preserves_quiet id {B} (m : GoM ctrl B) : preserves quiet m → preserves (touches id) m.
Proof. intros Hm c. by apply quiet_touches. Qed.

(** ** Calls of the plugins *)

Lemma set_world_quiet gs w c : quiet c (set_world gs w c).
Proof. done. Qed.
Lemma execute_quiet f ctx params : preserves quiet (execute (R := R) (P := P) f ctx params).
Proof. intros c. unfold execute. by destruct (executePluginMethods _ _ _ _ _ _) as [[] ?]. Qed.
Lemma execute_result_quiet f ctx params r :
  preserves quiet (execute_result (R := R) (P := P) f ctx params r).
Proof. intros c. unfold execute_result. by destruct (executePluginMethods _ _ _ _ _ _) as [[] [? ?]]. Qed.
Lemma bad_plugin_call_quiet {B} (m : GoM ctrl B) : preserves quiet m → preserves quiet (bad_plugin_call m).
Proof. intros Hm c. specialize (Hm c). unfold bad_plugin_call. by destruct (m c). Qed.
Lemma on_gateway_quiet {B} (m : GoM (IdeClient.gateway P) B) :
  (∀ g, IdeClient.clients (m g).2 = IdeClient.clients g ∧
        IdeClient.connections (m g).2 = IdeClient.connections g) →
  preserves quiet (on_gateway (R := R) (W := W) m).
Proof.
  intros Hm c. unfold on_gateway. specialize (Hm (ideGateway c)). destruct (m (ideGateway c)) as [r g].
  unfold quiet, view. cbn in *. by destruct Hm as [-> ->].
Qed.
Lemma forward_clients ctx cl (g : IdeClient.gateway P) :
  IdeClient.clients (IdeClient.forward respond ctx cl g).2 = IdeClient.clients g ∧
  IdeClient.connections (IdeClient.forward respond ctx cl g).2 = IdeClient.connections g.
Proof.
  unfold IdeClient.forward, sbind, IdeClient.client_of.
  by destruct (wrap_err _ _) as [[? ?]| | |]; cbn.
Qed.

(** ** Sessions that begin and end *)

Lemma session_uuid c u s : daemon_ok c → repo_Get (repo c) u = Ok s → UUID s = u.
Proof. intros Hok Hs. destruct (repo_Get_cases (repo c) u (ok_repo _ Hok)) as [(s'&?&?)|?]; congruence. Qed.

Lemma SessionCount_nonzero (r : R) u s :
  repo_ok r → repo_Get r u = Ok s → repo_SessionCount r ≠ 0.
Proof. intros Hok Hs Hz. rewrite (proj1 (repo_SessionCount_zero r Hok) Hz) in Hs. done. Qed.

(** An update of a session keeps the session's connection. *)
Lemma sessions_Set_touches c id s0 s :
  repo_Get (repo c) id = Ok s0 → Conn s = Conn s0 → UUID s = UUID s0 →
  touches id c (sessions_Set s c).2.
Proof.
  intros Hs0 Hc Hu Hok. pose proof (session_uuid _ _ _ Hok Hs0) as Hid.
  unfold sessions_Set. destruct (repo_Set_total (repo c) s) as [r' Hr]. unfold repo in Hr. rewrite Hr.
  cbn [snd]. pose proof (λ u, repo_Get_Set (repo c) s r' u Hr) as Hget.
  assert (Hhas : ∀ u, (∃ t, repo_Get r' u = Ok t) ↔ has_session c u).
  { intros u. rewrite Hget. unfold has_session. case_decide as Hd; [|done].
    split; [intros _|by eexists]. exists s0. congruence. }
  pose proof (repo_Set_ok _ _ _ (ok_repo _ Hok) Hr) as Hrok.
  split_and!; [|done|].
  - destruct Hok as [K1 K2 K3 K4 K5 K6 K7]. split; cbn [set_sessions set_core core ideGateway].
    + done.
    + intros u t. unfold repo. cbn. rewrite Hget. case_decide as Hd.
      * intros [= <-]. rewrite Hc. apply K2. congruence.
      * apply K2.
    + intros u. rewrite K3. symmetry. apply Hhas.
    + done.
    + intros u Hp. apply Hhas, K5. exact Hp.
    + assert (Hn : repo_SessionCount r' ≠ 0).
      { apply (SessionCount_nonzero _ id s); [done|]. rewrite Hget. by rewrite decide_True by congruence. }
      pose proof (SessionCount_nonzero _ _ _ K1 Hs0) as Hn0.
      unfold timer_ok, repo in *. cbn. destruct (idleTimer c) as [[t|]|]; [|by intros|done].
      intros F Wt. destruct (K6 F Wt) as [? _]. done.
    + done.
  - intros u Hne. unfold same_at, repo. cbn. rewrite Hget. rewrite decide_False by congruence. done.
Qed.

Lemma registerSessionPlugins_touches id : preserves (touches id)
  (on_core (R := R) (W := W) (P := P) (registerSessionPlugins (mkContext (Some id)))).
Proof.
  intros c Hok. unfold on_core, registerSessionPlugins. rewrite repo_GetFromContext_spec. cbn [ContextToSessionUUID SessionContextKey rbind].
  assert (Hsame : ∀ d, d = core c → daemon_ok (set_core d c) ∧ shutdowns (set_core d c) = shutdowns c ∧
    ∀ u, u ≠ id → same_at u c (set_core d c)).
  { intros d ->. by destruct c. }
  destruct (repo_Get (sessions (core c)) id) as [s| | |] eqn:Hs; cbn [wrap_err]; [|by apply Hsame..].
  destruct (enabled_plugins _ _ _ _) as [enabled| | |]; [|by apply Hsame..].
  pose proof (session_uuid c id s Hok Hs) as Hid.
  assert (Hset : ∀ m, touches id c (set_core (Plugins.mkDaemon (sessions (core c)) (<[UUID s := m]> (pluginMethods (core c)))
    (pluginConfig (core c)) (pluginsAll (core c))) c)).
  { intros m Hok'. split_and!; [|done|].
    - destruct Hok' as [K1 K2 K3 K4 K5 K6 K7]. split; cbn; try done.
      intros u. rewrite Hid. intros [x [[<- _]|[_ Hx]]%lookup_insert_Some]; [by exists s|].
      apply K5. by eexists.
    - intros u Hne. unfold same_at, repo. cbn. rewrite lookup_insert_ne by congruence. done. }
  destruct (wrap_err _ (PluginInfoToRuntimePrioritizedMethods enabled)); [apply Hset|apply Hset|by apply Hsame..]; done.
Qed.

Lemma touches_trans_ok id c1 c2 c3 : touches id c1 c2 → touches id c2 c3 → touches id c1 c3.
Proof. by intros ??; etrans. Qed.

(** [c] after [GetWorkspaceRoot], whose outcome is kept. *)
Lemma GetWorkspaceRoot_quiet ctx folders :
  preserves quiet (try_ (on_gateway (R := R) (W := W) (GetWorkspaceRoot ctx folders))).
Proof. apply preserves_try, on_gateway_quiet. intros g. apply GetWorkspaceRoot_clients. Qed.

Lemma initialize_session_touches id p params :
  preserves (touches id) (initialize_session (R := R) (W := W) (P := P) (mkContext (Some id)) p params).
Proof.
  intros c. unfold initialize_session, wrapM at 1. unfold sbind at 1. cbn beta.
  rewrite repo_GetFromContext_spec. cbn [ContextToSessionUUID SessionContextKey rbind].
  destruct (repo_Get (sessions (core c)) id) as [s| | |] eqn:Hs; cbn [wrap_err snd]; [|done..].
  pose proof (GetWorkspaceRoot_quiet (mkContext (Some id)) (WorkspaceFolders params) c) as Hq.
  unfold sbind at 1. destruct (try_ _ c) as [[root| | |] c1]; cbn [snd] in *; [|by apply quiet_touches..].
  apply touches_trans_ok with c1; [by apply quiet_touches|].
  assert (Hs1 : repo_Get (repo c1) id = Ok s).
  { destruct (quiet_same_at id _ _ Hq) as [-> _]. exact Hs. }
  set (s1 := match root with inl _ => _ | inr r => _ end).
  assert (Hs1' : Conn s1 = Conn s ∧ UUID s1 = UUID s) by by destruct root. clearbody s1.
  assert (Hset : ∀ s2, Conn s2 = Conn s1 → UUID s2 = UUID s1 → touches id c1
    (sbind (wrapM "setting updated session state" (sessions_Set s2)) (λ _, sret s2) c1).2).
  { intros s2 Hc Hu. pose proof (sessions_Set_touches c1 id s s2 Hs1) as Ht.
    unfold sbind, wrapM. destruct (sessions_Set s2 c1) as [[]?]; cbn in *; apply Ht; naive_solver congruence. }
  case_bool_decide; [by apply Hset|].
  unfold sbind at 1, wrapM at 1 2, lift_res, sbind at 1.
  destruct (GetRepoName _ _); cbn [wrap_err]; [|done..].
  destruct (GetEnv _ _); cbn [wrap_err]; [|done..]. by apply Hset.
Qed.

Lemma Initialize_touches id p params :
  preserves (touches id) (Initialize (R := R) (W := W) (P := P) (mkContext (Some id)) p params).
Proof.
  apply preserves_bind; [apply _|apply initialize_session_touches|]. intros s.
  apply preserves_bind; [apply _| |].
  - destruct (UlspEnabled s); [|by apply preserves_state; [apply _|]].
    apply preserves_bind; [apply _|apply preserves_wrap, registerSessionPlugins_touches|].
    intros _. by apply preserves_state; [apply _|].
  - intros r. apply preserves_quiet, execute_result_quiet.
Qed.

Lemma Initialized_quiet ctx params :
  preserves quiet (Initialized (R := R) (W := W) respond ctx params).
Proof.
  apply preserves_bind; [apply _|apply bad_plugin_call_quiet, execute_quiet|]. intros _.
  apply preserves_bind; [apply _|by apply preserves_wrap, preserves_state; [apply _|]|]. intros s.
  destruct (UlspEnabled s); (apply preserves_bind; [apply _| |intros; by apply preserves_state; [apply _|]]);
    apply preserves_try, on_gateway_quiet; intros g; apply forward_clients.
Qed.

(** ** The idle timer *)

Lemma refresh_timer_ok c :
  idleTimer c ≠ None → repo_ok (repo c) → timer_ok (refreshIdleTimer c).2.
Proof.
  unfold refreshIdleTimer, timer_ok. intros Ht Hr. destruct (idleTimer c) as [t|]; [|done]. cbn.
  destruct (Z.eqb_spec (repo_SessionCount (sessions (core c))) 0); [|done]. by intros.
Qed.
Lemma refresh_shutdowns c : shutdowns (refreshIdleTimer c).2 = shutdowns c.
Proof. unfold refreshIdleTimer. by destruct (idleTimer c). Qed.
Lemma refresh_eq c : ∃ t w, (refreshIdleTimer c).2 = set_timer t w c ∧
  (idleTimer c ≠ None → w = waiting c).
Proof. unfold refreshIdleTimer. destruct (idleTimer c); eexists _, _; split; done. Qed.

(** Everything but the timer, after which the timer is refreshed. *)
Lemma daemon_ok_refresh c :
  repo_ok (repo c) →
  (∀ u s, repo_Get (repo c) u = Ok s → IdeClient.connections (ideGateway c) !! u = Conn s) →
  (∀ u, is_Some (IdeClient.connections (ideGateway c) !! u) ↔ has_session c u) →
  IdeClient.clients (ideGateway c) = IdeClient.ClientDispatcher <$> IdeClient.connections (ideGateway c) →
  (∀ u, is_Some (pluginMethods (core c) !! u) → has_session c u) →
  idleTimer c ≠ None → shutdowns c = (if waiting c then 0%nat else 1%nat) →
  daemon_ok (refreshIdleTimer c).2.
Proof.
  intros K1 K2 K3 K4 K5 K6 K7. pose proof (refresh_timer_ok c K6 K1) as Ht.
  destruct (refresh_eq c) as (t&w&E&Hw). rewrite E in *.
  split; [exact K1|exact K2|exact K3|exact K4|exact K5|exact Ht|]. cbn. by rewrite Hw.
Qed.

Lemma idleTimer_some c : daemon_ok c → idleTimer c ≠ None.
Proof. intros Hok. pose proof (ok_timer _ Hok). unfold timer_ok in *. by destruct (idleTimer c). Qed.

(** A new session replaces one with the same id, if there is any. *)
Lemma InitSession_touches newV4 conn id :
  (newV4 = inr id ∨ ∃ e, newV4 = inl e) →
  preserves (touches id) (InitSession (R := R) (W := W) (P := P) newV4 (Some conn)).
Proof.
  intros Hid c Hok. pose proof (idleTimer_some _ Hok) as Ht. destruct Hid as [->|[e ->]].
  - unfold InitSession, defer_refresh, lift_res, on_gateway, IdeClient.RegisterClient, sessions_Set, sbind.
    cbn.
    destruct (repo_Set_total (sessions (core c)) (UUIDToSession id (Some conn))) as [r' Hr]. rewrite Hr.
    cbn. pose proof (λ u, repo_Get_Set _ _ r' u Hr) as Hget. cbn in Hget.
    split_and!; [|by rewrite refresh_shutdowns|].
    + destruct Hok as [K1 K2 K3 K4 K5 K6 K7]. apply daemon_ok_refresh; unfold has_session, repo; cbn.
      * by eapply repo_Set_ok.
      * intros u s. rewrite Hget. case_decide as Hd; subst.
        -- intros [= <-]. by rewrite lookup_insert_eq.
        -- rewrite lookup_insert_ne by done. apply K2.
      * intros u. rewrite Hget. case_decide as Hd; subst.
        -- rewrite lookup_insert_eq. split; by eexists.
        -- rewrite lookup_insert_ne by done. apply K3.
      * by rewrite K4, fmap_insert.
      * intros u Hp. rewrite Hget. case_decide; [by eexists|by apply K5].
      * done.
      * done.
    + intros u Hne. destruct (refresh_eq (set_sessions r' (set_gateway (IdeClient.mkGateway
        (<[id:=IdeClient.ClientDispatcher conn]> (IdeClient.clients (ideGateway c)))
        (<[id:=conn]> (IdeClient.connections (ideGateway c))) (IdeClient.sent (ideGateway c))) c)))
        as (t&w&->&_).
      unfold same_at, repo. cbn. rewrite Hget, decide_False, !lookup_insert_ne by done. done.
  - unfold InitSession, defer_refresh, lift_res, sbind at 1. cbn [snd].
    split_and!; [|exact (refresh_shutdowns c)|].
    + destruct Hok as [K1 K2 K3 K4 K5 K6 K7]. by apply daemon_ok_refresh.
    + intros u _. change (same_at u c (refreshIdleTimer c).2).
      by destruct (refresh_eq c) as (t&w&->&_).
Qed.

(** What is left of a session when it ends. *)
Definition gone (id : uuid) c : Prop :=
  repo_Get (repo c) id = Err (EUUIDNotFound id) ∧ pluginMethods (core c) !! id = None ∧
  IdeClient.clients (ideGateway c) !! id = None ∧ IdeClient.connections (ideGateway c) !! id = None.

(** [c] without the session [id]. *)
Definition remove_session (id : uuid) c : ctrl :=
  set_core (Plugins.mkDaemon (repo_Delete (sessions (core c)) id) (delete id (pluginMethods (core c)))
      (pluginConfig (core c)) (pluginsAll (core c)))
    (set_gateway (IdeClient.mkGateway (delete id (IdeClient.clients (ideGateway c)))
      (delete id (IdeClient.connections (ideGateway c))) (IdeClient.sent (ideGateway c))) c).

Lemma EndSession_eq ctx id c : ∃ c1, quiet c c1 ∧
  EndSession (R := R) (P := P) ctx id c = (Ok tt, (refreshIdleTimer (remove_session id c1)).2).
Proof.
  unfold EndSession, defer_refresh. unfold sbind at 1.
  destruct (pluginMethods (core c) !! id) as [ms|]; [|by exists c].
  unfold sbind at 1, try_ at 1, execute, executePluginMethods.
  destruct (wrap_err _ (ContextToSessionUUID ctx)) as [u| | |] eqn:Hu; cbn.
  - destruct (pluginMethods (core c) !! u) as [ms'|]; cbn; [|by eexists (set_world _ _ c)].
    destruct (ms' !! _); cbn; by eexists (set_world _ _ c).
  - by eexists (set_world _ _ c).
  - by unfold ContextToSessionUUID in Hu; destruct (SessionContextKey ctx).
  - by unfold ContextToSessionUUID in Hu; destruct (SessionContextKey ctx).
Qed.

Lemma remove_session_touches id c :
  daemon_ok c → daemon_ok (refreshIdleTimer (remove_session id c)).2 ∧
    shutdowns (refreshIdleTimer (remove_session id c)).2 = shutdowns c ∧
    (∀ u, u ≠ id → same_at u c (refreshIdleTimer (remove_session id c)).2) ∧
    gone id (refreshIdleTimer (remove_session id c)).2.
Proof.
  intros Hok. pose proof (idleTimer_some _ Hok) as Ht.
  pose proof (λ u, repo_Get_Delete (sessions (core c)) id u) as Hget. split_and!.
  - destruct Hok as [K1 K2 K3 K4 K5 K6 K7]. apply daemon_ok_refresh; unfold has_session, repo; cbn.
    + by apply repo_Delete_ok.
    + intros u s. rewrite Hget. case_decide as Hd; [done|]. rewrite lookup_delete_ne by done. apply K2.
    + intros u. rewrite Hget. case_decide as Hd; subst.
      * rewrite lookup_delete_eq. split; by intros [? [=]].
      * rewrite lookup_delete_ne by done. apply K3.
    + by rewrite K4, fmap_delete.
    + intros u. rewrite Hget. case_decide as Hd; subst.
      * rewrite lookup_delete_eq. by intros [? [=]].
      * rewrite lookup_delete_ne by done. apply K5.
    + done.
    + done.
  - by rewrite refresh_shutdowns.
  - intros u Hne. destruct (refresh_eq (remove_session id c)) as (t&w&->&_).
    unfold same_at, repo. cbn. rewrite Hget, decide_False, !lookup_delete_ne by done. done.
  - destruct (refresh_eq (remove_session id c)) as (t&w&->&_).
    unfold gone, repo. cbn. rewrite Hget, decide_True, !lookup_delete_eq by done. done.
Qed.

Lemma EndSession_touches ctx id : preserves (touches id) (EndSession (R := R) (P := P) ctx id).
Proof.
  intros c. destruct (EndSession_eq ctx id c) as (c1&Hq&->). cbn [snd].
  apply touches_trans_ok with c1; [by apply quiet_touches|]. intros Hok.
  destruct (remove_session_touches id c1 Hok) as (?&?&?&_). done.
Qed.

Lemma EndSession_gone ctx id c : daemon_ok c → gone id (EndSession (R := R) (P := P) ctx id c).2.
Proof.
  intros Hok. destruct (EndSession_eq ctx id c) as (c1&Hq&->). cbn [snd].
  by apply remove_session_touches, (daemon_ok_quiet _ _ Hq).
Qed.

Lemma Exit_touches id : preserves (touches id) (Exit (R := R) (P := P) (mkContext (Some id))).
Proof.
  apply preserves_bind; [apply _|apply preserves_quiet, preserves_try, execute_quiet|]. intros _ c.
  rewrite sbind_get. destruct (fullShutdown c) eqn:Hf.
  - unfold reset_timer. intros Hok. destruct (idleTimer c) eqn:Ht; [|done]. split_and!; [|done|done].
    destruct Hok as [K1 K2 K3 K4 K5 K6 K7]. split; try done. unfold timer_ok. cbn. congruence.
  - unfold wrapM, sbind at 1. cbn beta. rewrite repo_GetFromContext_spec.
    cbn [ContextToSessionUUID SessionContextKey rbind].
    destruct (repo_Get (sessions (core c)) id) as [s| | |] eqn:Hs; cbn [wrap_err]; [|done..].
    intros Hok. rewrite (session_uuid c id s Hok Hs). by apply EndSession_touches.
Qed.

Lemma RequestFullShutdown_touches id : preserves (touches id) (RequestFullShutdown (R := R) (W := W) (P := P)).
Proof.
  intros c [K1 K2 K3 K4 K5 K6 K7]. split_and!; [|done|done]. split; try done.
  unfold timer_ok in *. cbn. by destruct (idleTimer c) as [[|]|].
Qed.

(** ** Requests *)

Abbreviation rstate := (ctrl * list Router.Reply)%type.
Definition touches' (id : uuid) (s s' : rstate) : Prop := touches id s.1 s'.1.
Definition quiet' (s s' : rstate) : Prop := quiet s.1 s'.1.
#[local] Instance touches'_preorder id : PreOrder (touches' id).
Proof. split; [by intros s|]. intros s1 s2 s3 ??. unfold touches' in *. by etrans. Qed.
#[local] Instance quiet'_preorder : PreOrder quiet'.
Proof. split; [by intros s|]. intros s1 s2 s3 ??. unfold quiet' in *. by etrans. Qed.

Lemma call_ctrl_preserves (Rel : ctrl → ctrl → Prop) {B} (m : GoM ctrl B) :
  preserves Rel m → preserves (λ s s' : rstate, Rel s.1 s'.1) (Router.call_ctrl m).
Proof. intros Hm [c rs]. specialize (Hm c). unfold Router.call_ctrl. cbn. by destruct (m c). Qed.
Lemma reply_quiet v e : preserves quiet' (Router.reply reply_error v e).
Proof. by intros [c rs]. Qed.
Lemma run_error_quiet (m : GoM ctrl unit) :
  preserves quiet m → preserves quiet' (Router.run_error reply_error m).
Proof.
  intros Hm. apply preserves_bind; [apply _|by apply preserves_try, call_ctrl_preserves|].
  intros r. apply reply_quiet.
Qed.
Lemma run_result_quiet f (m : GoM ctrl (option (Result f))) :
  preserves quiet m → preserves quiet' (Router.run_result reply_error f m).
Proof.
  intros Hm. apply preserves_bind; [apply _|by apply preserves_try, call_ctrl_preserves|].
  intros [|[]]; apply reply_quiet.
Qed.
Lemma decode_quiet {D} (params : gores D) (k : D → GoM rstate unit) :
  (∀ x, preserves quiet' (k x)) → preserves quiet' (Router.decode reply_error params k).
Proof.
  intros Hk. apply preserves_bind; [apply _|by apply preserves_try, preserves_state; [apply _|]|].
  intros [|]; [apply reply_quiet|apply Hk].
Qed.
Lemma some_quiet {B} (m : GoM ctrl B) : preserves quiet m → preserves quiet (Router.some m).
Proof. intros Hm. apply preserves_bind; [apply _|done|]. intros x. by apply preserves_state; [apply _|]. Qed.

Lemma Hover_quiet ctx params : preserves quiet (Hover (R := R) (P := P) ctx params).
Proof.
  apply preserves_bind; [apply _|apply execute_result_quiet|]. intros x. by apply preserves_state; [apply _|].
Qed.

Lemma quiet'_touches id (m : GoM rstate unit) : preserves quiet' m → preserves (touches' id) m.
Proof. intros Hm s. by apply quiet_touches, Hm. Qed.

Abbreviation handle := (Router.HandleReq respond reply_error methodNotFound).

(** Goes through the handlers that only call plugins. *)
Ltac quiet_handler := repeat (intros; first
  [ apply reply_quiet | apply decode_quiet | apply run_error_quiet | apply run_result_quiet
  | apply some_quiet | apply Hover_quiet | apply bad_plugin_call_quiet | apply Initialized_quiet
  | apply execute_quiet | apply execute_result_quiet ]).

Lemma router_Initialize_touches id p req :
  preserves (touches' id) (Router.Initialize (P := P) reply_error (mkContext (Some id)) p req).
Proof.
  apply preserves_bind; [apply _|by apply preserves_try, preserves_state; [apply _|]|].
  intros [e|params]; [apply quiet'_touches, reply_quiet|].
  apply preserves_bind; [apply _| |].
  - apply preserves_try, call_ctrl_preserves. apply preserves_bind; [apply _|apply Initialize_touches|].
    intros x. by apply preserves_state; [apply _|].
  - intros [|[]]; apply quiet'_touches, reply_quiet.
Qed.

Lemma HandleReq_touches id p req : preserves (touches' id) (handle (Router.mkRouter id) p req).
Proof.
  unfold Router.HandleReq. cbn [Router.router_uuid].
  destruct (switch_field (Method req)) as [[]|];
    try solve [apply quiet'_touches; quiet_handler].
  - apply router_Initialize_touches.
  - apply preserves_bind; [apply _|apply preserves_try, quiet'_touches, reply_quiet|].
    intros _. apply call_ctrl_preserves, Exit_touches.
  - case_bool_decide; [|apply quiet'_touches, reply_quiet].
    apply preserves_bind; [apply _|apply preserves_try, call_ctrl_preserves, RequestFullShutdown_touches|].
    intros r. apply quiet'_touches, reply_quiet.
Qed.

(** ** Runs of the server *)

Inductive event :=
  | EvConnect (newV4 : error + uuid) (conn : N)
  | EvRequest (id : uuid) (p : N) (req : Request)
  | EvDisconnect (id : uuid)
  | EvElapse (d : N)                      (** nanoseconds *)
  | EvGoroutine (i : nat).

Definition run_goroutine (i : nat) c : ctrl :=
  match goroutines c !! i with
  | Some g => set_world (delete i (goroutines c)) (g (world c)) c
  | None => c
  end.
Definition step (s : rstate) (ev : event) : rstate :=
  match ev with
  | EvConnect newV4 conn => (Router.call_ctrl (Router.NewConnection newV4 (Some conn)) s).2
  | EvRequest id p req => (handle (Router.mkRouter id) p req s).2
  | EvDisconnect id => (Router.call_ctrl (Router.RemoveConnection id) s).2
  | EvElapse d => (elapse (Z.of_N d) s.1, s.2)
  | EvGoroutine i => (run_goroutine i s.1, s.2)
  end.
Definition run (s : rstate) (evs : list event) : rstate := foldl step s evs.

(** The session that an event belongs to. *)
Definition event_session (ev : event) : option uuid :=
  match ev with
  | EvConnect (inr id) _ | EvRequest id _ _ | EvDisconnect id => Some id
  | _ => None
  end.

Lemma RemoveConnection_eq id c :
  Router.RemoveConnection (R := R) (P := P) id c = (Ok tt, (EndSession (mkContext (Some id)) id c).2).
Proof.
  unfold Router.RemoveConnection, sbind, try_. by destruct (EndSession_eq (mkContext (Some id)) id c) as (c1&_&->).
Qed.

Lemma elapse_ok d c : 0 ≤ d → daemon_ok c →
  daemon_ok (elapse d c) ∧ (∀ u, same_at u c (elapse d c)) ∧
  (shutdowns (elapse d c) ≠ shutdowns c → fullShutdown c = false → repo_SessionCount (repo c) = 0).
Proof.
  intros Hd [K1 K2 K3 K4 K5 K6 K7]. unfold elapse, timer_ok in *.
  destruct (idleTimer c) as [[t|]|] eqn:Ht; [| |done].
  - destruct (Z.leb_spec t d).
    + split_and!; [|done|].
      * split; try done. cbn. rewrite K7. by destruct (waiting c).
      * cbn. destruct (waiting c); [|done]. intros _ F. by apply K6.
    + split_and!; [|done|done]. split; try done. unfold timer_ok. cbn. intros F Wt.
      destruct (K6 F Wt). split; [done|lia].
  - split_and!; [|done|done]. split; try done. unfold timer_ok. by rewrite Ht.
Qed.

Lemma step_ok (s : rstate) ev : daemon_ok s.1 →
  daemon_ok (step s ev).1 ∧
  ((∀ d, ev ≠ EvElapse d) → shutdowns (step s ev).1 = shutdowns s.1) ∧
  ∀ u, event_session ev ≠ Some u → same_at u s.1 (step s ev).1.
Proof.
  intros Hok. assert (Hid : ∀ id : uuid, touches id s.1 (step s ev).1 → event_session ev = Some id →
    daemon_ok (step s ev).1 ∧ ((∀ d, ev ≠ EvElapse d) → shutdowns (step s ev).1 = shutdowns s.1) ∧ ∀ u, event_session ev ≠ Some u → same_at u s.1 (step s ev).1).
  { intros id Ht Hev. destruct (Ht Hok) as (Hok'&Hsd&Hsame). split_and!; [done..|]. intros u Hu.
    apply Hsame. congruence. }
  assert (Hnew : ∀ newV4 conn id, (newV4 = inr id ∨ ∃ e, newV4 = inl e) →
    touches' id s (Router.call_ctrl (Router.NewConnection newV4 (Some conn)) s).2).
  { intros newV4 conn id Hn. refine (call_ctrl_preserves (touches id) _ _ s).
    apply preserves_bind; [apply _|by apply preserves_wrap, InitSession_touches|].
    intros x. by apply preserves_state; [apply _|]. }
  destruct ev as [[e|id] conn|id p req|id|d|i].
  - cbn [step event_session].
    destruct (Hnew (inl e) conn 0%N ltac:(right; by eexists) Hok) as (Hok'&Hsd&_). split_and!; [done..|].
    + intros u _. destruct (Hnew (inl e) conn (u + 1)%N ltac:(right; by eexists) Hok) as (_&_&Hs).
      apply Hs. lia.
  - by apply (Hid id); [apply Hnew; left|].
  - apply (Hid id); [|done]. exact (HandleReq_touches id p req s).
  - apply (Hid id); [|done]. cbn [step]. unfold Router.call_ctrl. rewrite RemoveConnection_eq. cbn.
    apply EndSession_touches.
  - cbn. destruct (elapse_ok (Z.of_N d) s.1) as (?&?&_); [lia|done|].
    split_and!; [done| |done]. intros Hne. by destruct (Hne d).
  - cbn. unfold run_goroutine. destruct (goroutines s.1 !! i); [|done].
    split_and!; [by eapply daemon_ok_quiet; [apply set_world_quiet|]|done|done].
Qed.

Lemma run_ok evs (s : rstate) : daemon_ok s.1 →
  daemon_ok (run s evs).1 ∧
  ∀ u, Forall (λ ev, event_session ev ≠ Some u) evs → same_at u s.1 (run s evs).1.
Proof.
  revert s. induction evs as [|ev evs IH]; intros s Hok; [done|].
  destruct (step_ok s ev Hok) as (Hok1&_&Hs1). destruct (IH _ Hok1) as [Hok2 Hs2]. split; [done|].
  intros u [Hu1 Hu2]%Forall_cons. destruct (Hs1 u Hu1) as (?&?&?&?), (Hs2 u Hu2) as (?&?&?&?).
  cbn. split_and!; etrans; eassumption.
Qed.

Lemma daemon_New_ok timeout plugins pluginsAll r w c :
  repo_ok r → repo_SessionCount r = 0 →
  New timeout plugins pluginsAll r IdeClient.New w = Ok c → daemon_ok c.
Proof.
  intros Hr Hz. unfold New. destruct (wrap_err _ timeout) as [t| | |]; cbn; [|done..].
  destruct (t =? 0); [done|]. destruct (wrap_err _ plugins) as [cfg| | |]; cbn; [|done..].
  intros [= <-]. pose proof (proj1 (repo_SessionCount_zero r Hr) Hz) as Hnone.
  split; unfold has_session, repo, timer_ok; cbn; try done.
  - intros u s. by rewrite Hnone.
  - intros u. rewrite lookup_empty, Hnone. by split; intros [? [=]].
  - intros u. rewrite lookup_empty. by intros [? [=]].
Qed.

Lemma no_session_count c : repo_ok (repo c) →
  repo_SessionCount (repo c) = 0 ↔ ∀ u, ¬ has_session c u.
Proof.
  intros Hr. rewrite repo_SessionCount_zero by done. unfold has_session. split.
  - intros Hn u [s Hs]. rewrite Hn in Hs. done.
  - intros Hn u. destruct (repo_Get_cases _ u Hr) as [(s&Hs&_)|?]; [|done]. destruct (Hn u). by eexists.
Qed.

(** C9: The events of the server are new and closed connections, requests, runs of
    the goroutines of a request and the passing of time, each as one step (the
    code shares the map of plugins between connections without a lock; races on it
    are not modelled).  After every sequence of them, whatever the clients send: the
    sessions, the clients of the gateway and its connections are those of the same
    ids; each session's messages go to its own connection; only sessions have
    plugins.  As long as no full shutdown has been requested and the idle timer
    has not fired, the timer runs, with at most the idle timeout left, exactly
    while there is no session; nothing is said of it after that. *)
Theorem daemon_invariant timeout plugins pluginsAll r w c evs :
  repo_ok r → repo_SessionCount r = 0 →
  New timeout plugins pluginsAll r IdeClient.New w = Ok c →
  daemon_ok (run (c, []) evs).1 ∧
  ∀ u s conn, repo_Get (repo (run (c, []) evs).1) u = Ok s → Conn s = Some conn →
    IdeClient.connected (mkContext (Some u)) (ideGateway (run (c, []) evs).1) conn.
Proof.
  intros Hr Hz Hnew. destruct (run_ok evs (c, [])) as [Hok _]; [by eapply daemon_New_ok|].
  split; [done|]. intros u s conn Hs Hc. exists u.
  pose proof (ok_conn _ Hok u s Hs) as Hn. rewrite Hc in Hn.
  by rewrite (ok_clients _ Hok), lookup_fmap, Hn.
Qed.

(** C12: events of other sessions, the passing of time and goroutines leave a
    session as it is, with its client and its plugins; and when the connection
    of a session is closed, nothing of the session is left. *)
Theorem session_isolated (s : rstate) evs :
  daemon_ok s.1 →
  (∀ u, Forall (λ ev, event_session ev ≠ Some u) evs → same_at u s.1 (run s evs).1) ∧
  ∀ id, gone id (run s (evs ++ [EvDisconnect id])).1.
Proof.
  intros Hok. destruct (run_ok evs s Hok) as [Hok' Hsame]. split; [done|]. intros id.
  unfold run. rewrite foldl_app. cbn. unfold Router.call_ctrl. rewrite RemoveConnection_eq. cbn.
  by apply EndSession_gone.
Qed.

Definition total_time (ds : list N) : Z := foldr (λ d t, Z.of_N d + t) 0 ds.

Lemma elapse_stopped ds (s : rstate) :
  waiting s.1 = false → shutdowns (run s (EvElapse <$> ds)).1 = shutdowns s.1.
Proof.
  revert s. induction ds as [|d ds IH]; intros s Hw; [done|]. cbn [fmap list_fmap run foldl step].
  fold (run (elapse (Z.of_N d) s.1, s.2) (EvElapse <$> ds)).
  assert (waiting (elapse (Z.of_N d) s.1) = false ∧ shutdowns (elapse (Z.of_N d) s.1) = shutdowns s.1)
    as [H1' H2'].
  { unfold elapse. destruct (idleTimer s.1) as [[t|]|]; [|done..].
    destruct (t <=? Z.of_N d); cbn; by rewrite Hw. }
  rewrite IH by done. exact H2'.
Qed.

Lemma elapse_fires ds : ds ≠ [] → ∀ (s : rstate) t, idleTimer s.1 = Some (Some t) → waiting s.1 = true →
  t ≤ total_time ds → shutdowns (run s (EvElapse <$> ds)).1 = S (shutdowns s.1).
Proof.
  induction ds as [|d ds IH]; [done|]. intros _ s t Ht Hw Hle. cbn [fmap list_fmap run foldl step].
  fold (run (elapse (Z.of_N d) s.1, s.2) (EvElapse <$> ds)). cbn in Hle.
  unfold elapse. rewrite Ht. destruct (Z.leb_spec t (Z.of_N d)).
  - rewrite elapse_stopped by done. cbn. by rewrite Hw.
  - rewrite (IH ltac:(intros ->; cbn in *; lia) _ (t - Z.of_N d)); [done|done|done|].
    unfold total_time. lia.
Qed.

(** C13: as long as no full shutdown is requested, the process is shut down by the
    idle timer alone, at a time without any session; and after the idle timeout
    without a session it has been shut down. *)
Theorem idle_shutdown (s : rstate) :
  daemon_ok s.1 → fullShutdown s.1 = false →
  (∀ ev, shutdowns (step s ev).1 ≠ shutdowns s.1 →
    (∃ d, ev = EvElapse d) ∧ ∀ u, ¬ has_session s.1 u) ∧
  (∀ ds, ds ≠ [] → (∀ u, ¬ has_session s.1 u) → idleTimeoutMinutes s.1 ≤ total_time ds →
    shutdowns (run s (EvElapse <$> ds)).1 = 1%nat).
Proof.
  intros Hok Hf. pose proof (ok_repo _ Hok) as Hr. split.
  - intros ev Hne. destruct (step_ok s ev Hok) as (_&Hsd&_).
    destruct ev as [? ?|? ? ?|?|d|?]; try by destruct Hne; apply Hsd.
    split; [by exists d|]. apply no_session_count; [done|].
    destruct (elapse_ok (Z.of_N d) s.1) as (_&_&Hz); [lia|done|]. by apply Hz.
  - intros ds Hds Hn Hle. apply no_session_count in Hn; [|done].
    pose proof (ok_timer _ Hok) as Ht. pose proof (ok_shutdowns _ Hok) as Hsd. unfold timer_ok in Ht.
    destruct (waiting s.1) eqn:Hw; [|by rewrite elapse_stopped].
    destruct (idleTimer s.1) as [[t|]|] eqn:Hi; [|by destruct (Ht Hf eq_refl)|done].
    destruct (Ht Hf eq_refl) as [_ Htt]. rewrite (elapse_fires ds Hds s t) by (done || lia). by rewrite Hsd.
Qed.

(** ** Replies *)

(** One reply is written, unless the code panics. *)
Definition one_reply (m : GoM rstate unit) : Prop :=
  ∀ s, (∃ x, (m s).2.2 = s.2 ++ [x]) ∨ ((m s).2.2 = s.2 ∧ ((m s).1 = Panic ∨ (m s).1 = Fuel)).

Lemma reply_one v e : one_reply (Router.reply reply_error v e).
Proof. intros [c rs]. left. by eexists. Qed.
Lemma call_ctrl_replies {B} (m : GoM ctrl B) s : (Router.call_ctrl m s).2.2 = s.2.
Proof. unfold Router.call_ctrl. by destruct (m s.1). Qed.
Lemma one_reply_call {B} (m : GoM ctrl B) (k : error + B → GoM rstate unit) :
  (∀ r, one_reply (k r)) → one_reply (r <- try_ (Router.call_ctrl m);; k r).
Proof.
  intros Hk s. unfold sbind, try_. pose proof (call_ctrl_replies m s) as Hs.
  destruct (Router.call_ctrl m s) as [[x|e| |] s1]; cbn in *.
  - rewrite <- Hs. apply Hk.
  - rewrite <- Hs. apply Hk.
  - right. by split; [|left].
  - right. by split; [|right].
Qed.
Lemma run_error_one (m : GoM ctrl unit) : one_reply (Router.run_error reply_error m).
Proof. apply one_reply_call. intros r. apply reply_one. Qed.
Lemma run_result_one f (m : GoM ctrl (option (Result f))) : one_reply (Router.run_result reply_error f m).
Proof. apply one_reply_call. intros [|[]]; apply reply_one. Qed.
Lemma decode_one {D} (params : gores D) (k : D → GoM rstate unit) :
  (∀ x, one_reply (k x)) → one_reply (Router.decode reply_error params k).
Proof.
  intros Hk s. unfold Router.decode, sbind, try_, lift_res. destruct params; cbn.
  - apply Hk.
  - apply reply_one.
  - right. by split; [|left].
  - right. by split; [|right].
Qed.
Lemma router_Exit_one ctx : one_reply (Router.Exit (P := P) reply_error ctx).
Proof.
  intros [c rs]. left. unfold Router.Exit. exists (Router.mkReply None None).
  unfold sbind, try_, Router.reply. cbn. by destruct (reply_error _ _); cbn; rewrite call_ctrl_replies.
Qed.

(** Every request gets exactly one reply, unless its handling panics: a request
    with a method that the server does not have is replied to with the error for
    that and changes nothing. *)
Theorem HandleReq_replies id p req (s : rstate) :
  ((∃ x, (handle (Router.mkRouter id) p req s).2.2 = s.2 ++ [x]) ∨
   ((handle (Router.mkRouter id) p req s).2.2 = s.2 ∧
    ((handle (Router.mkRouter id) p req s).1 = Panic ∨ (handle (Router.mkRouter id) p req s).1 = Fuel))) ∧
  ((∀ f, MethodName f = Method req → f = Plugins.EndSession) → Method req ≠ MethodRequestFullShutdown →
   (handle (Router.mkRouter id) p req s).2 =
   (s.1, s.2 ++ [Router.mkReply None (Some (methodNotFound (Method req)))])).
Proof.
  split.
  - assert (one_reply (handle (Router.mkRouter id) p req)) as Hone; [|apply Hone].
    unfold Router.HandleReq. destruct (switch_field (Method req)) as [[]|];
      try solve [repeat (intros; first [apply decode_one|apply run_error_one|apply run_result_one
        |apply reply_one|apply router_Exit_one])].
    case_bool_decide; [apply run_error_one|apply reply_one].
  - intros Hno Hne. unfold Router.HandleReq.
    destruct (switch_field (Method req)) as [f|] eqn:Hf.
    + apply switch_field_spec in Hf. by rewrite (Hno f Hf).
    + by rewrite bool_decide_false.
Qed.

(** ** What the plugins do *)

(** The decoding of the parameters of the requests that only call plugins. *)
Definition decode_params (f : MethodField) (req : Request) : option (gores (Params f)) :=
  match f with
  | Plugins.Shutdown | Plugins.CodeLensRefresh => Some (Ok tt)
  | Plugins.DidChange => Some (Mapper.RequestToDidChangeTextDocumentParams req)
  | Plugins.DidChangeWatchedFiles => Some (Mapper.RequestToDidChangeWatchedFilesParams req)
  | Plugins.DidOpen => Some (Mapper.RequestToDidOpenTextDocumentParams req)
  | Plugins.DidClose => Some (Mapper.RequestToDidCloseTextDocumentParams req)
  | Plugins.WillSave | Plugins.WillSaveWaitUntil => Some (Mapper.RequestToWillSaveTextDocumentParams req)
  | Plugins.DidSave => Some (Mapper.RequestToDidSaveTextDocumentParams req)
  | Plugins.WillRenameFiles | Plugins.DidRenameFiles => Some (Mapper.RequestToRenameFilesParams req)
  | Plugins.WillCreateFiles | Plugins.DidCreateFiles => Some (Mapper.RequestToCreateFilesParams req)
  | Plugins.WillDeleteFiles | Plugins.DidDeleteFiles => Some (Mapper.RequestToDeleteFilesParams req)
  | Plugins.CodeAction => Some (Mapper.RequestToCodeActionParams req)
  | Plugins.CodeLens => Some (Mapper.RequestToCodeLensParams req)
  | Plugins.CodeLensResolve => Some (Mapper.RequestToCodeLens req)
  | Plugins.GotoDeclaration => Some (Mapper.RequestToDeclarationParams req)
  | Plugins.GotoDefinition => Some (Mapper.RequestToDefinitionParams req)
  | Plugins.GotoTypeDefinition => Some (Mapper.RequestToTypeDefinitionParams req)
  | Plugins.GotoImplementation => Some (Mapper.RequestToImplementationParams req)
  | Plugins.References => Some (Mapper.RequestToReferencesParams req)
  | Plugins.Hover => Some (Mapper.RequestToHoverParams req)
  | Plugins.DocumentSymbol => Some (Mapper.RequestToDocumentSymbolParams req)
  | Plugins.ExecuteCommand => Some (Mapper.RequestToExecuteCommandParams req)
  | Plugins.WorkDoneProgressCancel => Some (Mapper.RequestToWorkDoneProgressCancelParams req)
  | Plugins.Initialize | Plugins.Initialized | Plugins.Exit | Plugins.EndSession => None
  end.

(** The result that the plugins start from, for the methods that have one. *)
Definition new_result (f : MethodField) : option (Result f) :=
  match f with
  | Plugins.WillSaveWaitUntil | Plugins.CodeAction | Plugins.CodeLens | Plugins.GotoDeclaration
  | Plugins.GotoDefinition | Plugins.GotoTypeDefinition | Plugins.GotoImplementation
  | Plugins.References | Plugins.DocumentSymbol => Some []
  | Plugins.WillRenameFiles | Plugins.WillCreateFiles | Plugins.WillDeleteFiles =>
    Some (zero_data KWorkspaceEdit)
  | Plugins.CodeLensResolve => Some (zero_data KCodeLens)
  | Plugins.Hover => Some (zero_data KHover)
  | _ => None
  end.
(** An empty hover is replied to with nil. *)
Definition result_value (f : MethodField) : Result f → option {f : MethodField & Result f} :=
  match f return Result f → option {f : MethodField & Result f} with
  | Plugins.Hover => λ r, if bool_decide (Contents_Value r = "") then None else Some (existT Plugins.Hover r)
  | f => λ r, Some (existT f r)
  end.

(** The plugins of a method in a session. *)
Definition plugins_of c (id : uuid) (f : MethodField) : MethodLists :=
  default (mkMethodLists [] []) (pluginMethods (core c) !! id ≫= (.!! MethodName f)).

Lemma executePluginMethods_lists {X} c id f hs ha (x : X) :
  executePluginMethods (core c) (mkContext (Some id)) (MethodName f) (Some hs) (Some ha) x =
  (Ok (ha <$> Async (plugins_of c id f)), foldl (λ x m, hs m x) x (Sync (plugins_of c id f))).
Proof.
  unfold executePluginMethods, plugins_of. cbn. destruct (pluginMethods (core c) !! id) as [ms|]; [|done].
  cbn. by destruct (ms !! MethodName f).
Qed.

Lemma execute_eq f id params c :
  execute (R := R) (P := P) f (mkContext (Some id)) params c =
  (Ok tt, set_world (goroutines c ++ (call f (mkContext (Some id)) params <$> Async (plugins_of c id f)))
    (foldl (λ w m, call f (mkContext (Some id)) params m w) (world c) (Sync (plugins_of c id f))) c).
Proof. unfold execute. by rewrite executePluginMethods_lists. Qed.

Lemma execute_result_eq f id params r c :
  execute_result (R := R) (P := P) f (mkContext (Some id)) params r c =
  let x := foldl (λ x m, callSync f (mkContext (Some id)) params m x) (world c, r) (Sync (plugins_of c id f)) in
  (Ok x.2, set_world (goroutines c ++ (call f (mkContext (Some id)) params <$> Async (plugins_of c id f))) x.1 c).
Proof.
  unfold execute_result. rewrite executePluginMethods_lists. cbv zeta.
  destruct (foldl _ _ _) as [w r']. cbn [fst snd]. by rewrite <- list_fmap_compose.
Qed.

Definition written (rs : list Router.Reply) (x : Router.Reply) : gores unit :=
  match reply_error rs x with Some e => Err e | None => Ok tt end.

Lemma run_execute f id params (c : ctrl) rs (m : GoM ctrl unit) :
  m c = execute f (mkContext (Some id)) params c →
  Router.run_error reply_error m (c, rs) =
  let x := Router.mkReply None None in
  (written rs x, (set_world (goroutines c ++ (call f (mkContext (Some id)) params <$> Async (plugins_of c id f)))
    (foldl (λ w m, call f (mkContext (Some id)) params m w) (world c) (Sync (plugins_of c id f))) c, rs ++ [x])).
Proof.
  intros Hm. unfold Router.run_error, sbind, try_, Router.call_ctrl. cbn [fst snd].
  by rewrite Hm, execute_eq.
Qed.
Lemma run_execute_result f id params (c : ctrl) rs r0 (m : GoM ctrl (option (Result f))) :
  (∃ k, m c = (r <- execute_result f (mkContext (Some id)) params r0;; sret (k r)) c ∧
        ∀ r, result_value f r = existT f <$> k r) →
  Router.run_result reply_error f m (c, rs) =
  let y := foldl (λ x m, callSync f (mkContext (Some id)) params m x) (world c, r0) (Sync (plugins_of c id f)) in
  let x := Router.mkReply (result_value f y.2) None in
  (written rs x, (set_world (goroutines c ++ (call f (mkContext (Some id)) params <$> Async (plugins_of c id f)))
    y.1 c, rs ++ [x])).
Proof.
  intros (k&Hm&Hk). unfold Router.run_result, sbind at 1, try_, Router.call_ctrl. cbn [fst snd].
  rewrite Hm. unfold sbind, sret. rewrite execute_result_eq. cbv zeta.
  destruct (foldl _ _ _) as [w r]. cbn [fst snd]. rewrite Hk. by destruct (k r).
Qed.

(** A handler that decodes its parameters. *)
Lemma decode_eq {D} (params : gores D) (k : D → GoM rstate unit) c rs :
  Router.decode reply_error params k (c, rs) =
  match params with
  | Ok x => k x (c, rs)
  | Err e => let x := Router.mkReply None (Some e) in (written rs x, (c, rs ++ [x]))
  | Panic => (Panic, (c, rs))
  | Fuel => (Fuel, (c, rs))
  end.
Proof. by destruct params. Qed.

(** The outcome [h] of a request for [f] whose parameters are decoded to [d]. *)
Definition plugins_reply (f : MethodField) (id : uuid) c rs (d : gores (Params f))
    (h : gores unit * rstate) : Prop :=
  let ctx := mkContext (Some id) in
  let ms := plugins_of c id f in
  match d with
  | Ok params =>
    let after w := set_world (goroutines c ++ (call f ctx params <$> Async ms)) w c in
    h =
    match new_result f with
    | None =>
      let x := Router.mkReply None None in
      (written rs x, (after (foldl (λ w m, call f ctx params m w) (world c) (Sync ms)), rs ++ [x]))
    | Some r0 =>
      let y := foldl (λ y m, callSync f ctx params m y) (world c, r0) (Sync ms) in
      let x := Router.mkReply (result_value f y.2) None in
      (written rs x, (after y.1, rs ++ [x]))
    end
  | Err e => let x := Router.mkReply None (Some e) in h = (written rs x, (c, rs ++ [x]))
  | _ => h.2 = (c, rs)
  end.

Lemma decode_run_error f id c rs (d : gores (Params f)) (m : Params f → GoM ctrl unit) :
  new_result f = None → (∀ params, m params c = execute f (mkContext (Some id)) params c) →
  plugins_reply f id c rs d (Router.decode reply_error d (λ params, Router.run_error reply_error (m params)) (c, rs)).
Proof.
  intros Hn Hm. unfold plugins_reply. rewrite decode_eq. destruct d; [|done..]. rewrite Hn.
  by apply run_execute.
Qed.
Lemma decode_run_result f id c rs (d : gores (Params f)) (m : Params f → GoM ctrl (option (Result f))) r0 :
  new_result f = Some r0 →
  (∀ params, ∃ k, m params c = (r <- execute_result f (mkContext (Some id)) params r0;; sret (k r)) c ∧
    ∀ r, result_value f r = existT f <$> k r) →
  plugins_reply f id c rs d (Router.decode reply_error d (λ params, Router.run_result reply_error f (m params)) (c, rs)).
Proof.
  intros Hn Hm. unfold plugins_reply. rewrite decode_eq. destruct d; [|done..]. rewrite Hn.
  by apply run_execute_result.
Qed.

(** A request for a method of plugins. *)
Lemma HandleReq_plugins f id p req c rs d :
  Method req = MethodName f → decode_params f req = Some d →
  plugins_reply f id c rs d (handle (Router.mkRouter id) p req (c, rs)).
Proof.
  intros Hm Hd. assert (Hsw : switch_field (Method req) = Some f) by by apply switch_field_spec.
  unfold Router.HandleReq. rewrite Hsw. cbn [Router.router_uuid]. cbv zeta.
  destruct f; try done; injection Hd as <-; first
    [ eapply decode_run_result; [reflexivity|]; intros params; exists Some; by split
    | by apply decode_run_error
    | idtac ].
  - apply run_execute. unfold Shutdown, bad_plugin_call. by rewrite execute_eq.
  - by apply run_execute.
  - eapply decode_run_result; [reflexivity|]. intros params. eexists. split; [done|].
    intros r. cbn. by case_bool_decide.
Qed.

(** C10: a request whose parameters cannot be decoded is replied to with the error
    and changes nothing.  Any other request of a session for a method of plugins
    runs the session's plugins of that method, one after the other in their
    order, on the plugins' state and on one shared result, hands the
    asynchronous ones to goroutines, and is replied to with the result as the
    last plugin left it, whatever errors the plugins return; where there are no
    plugins, with the empty result. *)
Theorem HandleReq_runs_plugins f id p req c rs d :
  Method req = MethodName f → decode_params f req = Some d →
  plugins_reply f id c rs d (handle (Router.mkRouter id) p req (c, rs)).
Proof. apply HandleReq_plugins. Qed.

(** ** The start of a session *)

Section start.
Context (id : uuid) (p : N) (c : ctrl) (s : Session) (params : Data KInitializeParams).
Context (Hok : daemon_ok c) (Hs : repo_Get (repo c) id = Ok s).

Definition with_gateway (c : ctrl) : ctrl :=
  set_gateway (GetWorkspaceRoot (mkContext (Some id)) (WorkspaceFolders params) (ideGateway c)).2 c.

(** The session after [initialize_session] when nothing fails. *)
Lemma initialize_session_run (s' : Session) :
  match (GetWorkspaceRoot (mkContext (Some id)) (WorkspaceFolders params) (ideGateway c)).1 with
  | Ok root => root ≠ "" ∧ ∃ repo env, GetRepoName (mkContext (Some id)) root = Ok repo ∧
      GetEnv (mkContext (Some id)) root = Ok env ∧
      s' = set_repo repo env (set_workspace root (UlspEnabled s) (set_params p s))
  | Err _ => s' = set_workspace "" false (set_params p s)
  | _ => False
  end →
  ∃ r', repo_Set (repo c) (Some s') = Ok r' ∧
    initialize_session (R := R) (W := W) (mkContext (Some id)) p params c = (Ok s', set_sessions r' (with_gateway c)).
Proof.
  intros Hcase. destruct (repo_Set_total (repo c) s') as [r' Hr]. exists r'. split; [done|].
  unfold initialize_session, wrapM at 1. unfold sbind at 1. cbn beta.
  rewrite repo_GetFromContext_spec. cbn [ContextToSessionUUID SessionContextKey rbind].
  change (sessions (core c)) with (repo c). rewrite Hs. cbn [wrap_err].
  unfold with_gateway, sbind at 1, try_, on_gateway.
  destruct (GetWorkspaceRoot _ _ (ideGateway c)) as [[root|e| |] g]; cbn [fst] in Hcase; [| |done..].
  - destruct Hcase as (Hroot&rp&env&H1'&H2'&->). cbn [WorkspaceRoot set_workspace].
    rewrite bool_decide_false by done. unfold sbind, wrapM, lift_res. rewrite H1'. cbn. rewrite H2'. cbn.
    unfold sessions_Set. cbn. unfold repo in Hr. by rewrite Hr.
  - subst s'. cbn [WorkspaceRoot set_workspace]. rewrite bool_decide_true by done.
    unfold sbind, wrapM, sret, sessions_Set. cbn. unfold repo in Hr. by rewrite Hr.
Qed.

Lemma router_Initialize_run req rs (x : Result Plugins.Initialize) c' :
  Method req = MethodName Plugins.Initialize → Mapper.RequestToInitializeParams req = Ok params →
  Initialize (mkContext (Some id)) p params c = (Ok x, c') →
  handle (Router.mkRouter id) p req (c, rs) =
  let y := Router.mkReply (Some (existT Plugins.Initialize x)) None in (written rs y, (c', rs ++ [y])).
Proof.
  intros Hm Hd Hi. unfold Router.HandleReq. rewrite (proj2 (switch_field_spec _ Plugins.Initialize)) by done.
  unfold Router.Initialize. rewrite decode_eq, Hd. cbn [Router.router_uuid].
  unfold Router.run_result, sbind at 1, try_, Router.call_ctrl, Router.some, sbind. cbn [fst].
  by rewrite Hi.
Qed.

(** For a workspace without a root, the session is stored as disabled, the
    reply to [initialize] offers no capabilities, and the session has no plugins:
    its later requests run none. *)
Theorem Initialize_disabled req rs e :
  Method req = MethodName Plugins.Initialize → Mapper.RequestToInitializeParams req = Ok params →
  pluginMethods (core c) !! id = None →
  (GetWorkspaceRoot (mkContext (Some id)) (WorkspaceFolders params) (ideGateway c)).1 = Err e →
  let y := Router.mkReply (Some (existT Plugins.Initialize
             (mkInitializeResult "Uber Language Server" None no_capabilities))) None in
  ∃ c', handle (Router.mkRouter id) p req (c, rs) = (written rs y, (c', rs ++ [y])) ∧
    repo_Get (repo c') id = Ok (set_workspace "" false (set_params p s)) ∧
    world c' = world c ∧ ∀ f, plugins_of c' id f = mkMethodLists [] [].
Proof.
  intros Hm Hd Hp Hroot y.
  destruct (initialize_session_run (set_workspace "" false (set_params p s))) as (r'&Hr&Hrun);
    [by rewrite Hroot|].
  assert (Hnone : ∀ f, plugins_of (set_sessions r' (with_gateway c)) id f = mkMethodLists [] []).
  { intros f. unfold plugins_of. cbn. by rewrite Hp. }
  eexists. split; [apply router_Initialize_run; [done..|]|].
  - unfold Initialize. rewrite (sbind_ok _ _ _ _ _ Hrun). cbn [UlspEnabled set_workspace].
    unfold sbind at 1. cbn [sret]. rewrite execute_result_eq, Hnone. reflexivity.
  - split_and!; [|done|].
    + unfold repo. cbn. rewrite (repo_Get_Set _ _ _ id Hr), decide_True; [done|].
      cbn. by rewrite (session_uuid c id s Hok Hs).
    + intros f. unfold plugins_of. cbn. by rewrite Hp.
Qed.

(** C16: in a workspace with a root, the session is stored with the root, the name
    of the repository and the environment; the plugins that are enabled for the
    repository become its plugins, each method in the order of priority; and the
    reply is the server's document synchronisation with what these plugins add. *)
Theorem Initialize_enabled req rs root repoName env enabled :
  Method req = MethodName Plugins.Initialize → Mapper.RequestToInitializeParams req = Ok params →
  UlspEnabled s = true → root ≠ "" →
  (GetWorkspaceRoot (mkContext (Some id)) (WorkspaceFolders params) (ideGateway c)).1 = Ok root →
  GetRepoName (mkContext (Some id)) root = Ok repoName → GetEnv (mkContext (Some id)) root = Ok env →
  let s' := set_repo repoName env (set_workspace root true (set_params p s)) in
  enabled_plugins (mkContext (Some id)) s' (pluginConfig (core c)) (pluginsAll (core c)) = Ok enabled →
  Forall valid enabled → handles enabled (MethodName Plugins.Initialize) →
  let lists f := lists_of enabled (MethodName f) in
  let start := mkInitializeResult "Uber Language Server" (Some sync_options) no_capabilities in
  let x := foldl (λ x m, callSync Plugins.Initialize (mkContext (Some id)) params m x) (world c, start)
             (Sync (lists Plugins.Initialize)) in
  let y := Router.mkReply (Some (existT Plugins.Initialize x.2)) None in
  ∃ c', handle (Router.mkRouter id) p req (c, rs) = (written rs y, (c', rs ++ [y])) ∧
    repo_Get (repo c') id = Ok s' ∧ world c' = x.1 ∧
    ∀ f, handles enabled (MethodName f) → plugins_of c' id f = lists f.
Proof.
  intros Hm Hd He Hne Hroot Hrepo' Henv s' Hen Hv Hh lists start x y.
  destruct (initialize_session_run s') as (r'&Hr&Hrun).
  { rewrite Hroot. split; [done|]. exists repoName, env. unfold s'. by rewrite He. }
  assert (Hid : UUID s' = id) by (cbn; by apply (session_uuid c)).
  assert (Hget : repo_Get r' id = Ok s').
  { rewrite (repo_Get_Set _ _ _ id Hr), decide_True; [done|]. by symmetry. }
  destruct (prioritized_ok enabled Hv) as (rt&Hrt&Hlists).
  set (c1 := set_core (Plugins.mkDaemon r' (<[id := rt]> (pluginMethods (core c))) (pluginConfig (core c))
    (pluginsAll (core c))) (with_gateway c)).
  assert (Hreg : on_core (registerSessionPlugins (mkContext (Some id))) (set_sessions r' (with_gateway c))
    = (Ok tt, c1)).
  { unfold on_core, registerSessionPlugins. cbn. rewrite repo_GetFromContext_spec. cbn. rewrite Hget. cbn.
    rewrite Hen, Hrt. cbn.
    by rewrite (session_uuid c id s Hok Hs). }
  assert (Hpl : ∀ f, handles enabled (MethodName f) → plugins_of c1 id f = lists f).
  { intros f Hf. unfold plugins_of. cbn. rewrite lookup_insert_eq. cbn.
    by rewrite (proj1 (Hlists (MethodName f)) Hf). }
  eexists. split; [apply router_Initialize_run; [done..|]|].
  - unfold Initialize. rewrite (sbind_ok _ _ _ _ _ Hrun). unfold s' at 1. cbn [UlspEnabled set_repo set_workspace].
    rewrite sbind_assoc. unfold wrapM, sbind at 1. rewrite Hreg. cbn [wrap_err].
    unfold sbind at 1. cbn [sret]. rewrite execute_result_eq, (Hpl _ Hh). reflexivity.
  - split_and!; [exact Hget|done|]. intros f Hf. exact (Hpl f Hf).
Qed.
End start.
End daemon.

(** ** The workspace utilities *)

Section utils.
Context {P A : Type} (respond : list (N * IdeClient.ClientCall P) → N → IdeClient.ClientCall P → error + A).
Context (url_Parse fs_WorkspaceRoot : string → gores string)
  (conflict_message : string → string → string → string)
  (run_git : string → gores string) (run_env : string → option error * string * string).

Definition workspace_utils : WorkspaceUtilsApi P := {|
  GetWorkspaceRoot :=
    WorkspaceUtils.GetWorkspaceRoot respond url_Parse fs_WorkspaceRoot conflict_message;
  GetRepoName _ := WorkspaceUtils.GetRepoName run_git;
  GetEnv _ := WorkspaceUtils.GetEnv run_env
|}.

Definition same_clients (g g' : IdeClient.gateway P) : Prop :=
  IdeClient.clients g' = IdeClient.clients g ∧ IdeClient.connections g' = IdeClient.connections g.
#[local] Instance same_clients_preorder : PreOrder same_clients.
Proof. split; [done|]. intros g1 g2 g3 [? ?] [? ?]. split; congruence. Qed.

Lemma find_root_clients ctx folders result : preserves same_clients
  (WorkspaceUtils.find_root respond url_Parse fs_WorkspaceRoot conflict_message ctx folders result).
Proof.
  revert result. induction folders as [|uri folders IH]; intros result; cbn [WorkspaceUtils.find_root].
  - by apply preserves_state; [apply _|].
  - destruct (WorkspaceUtils.folder_root _ _ uri); [|apply IH|by apply preserves_state; [apply _|]..].
    case_bool_decide; [apply IH|]. case_bool_decide; [|apply IH].
    apply preserves_bind; [apply _| |intros; by apply preserves_state; [apply _|]].
    apply preserves_try. intros g. exact (forward_clients respond ctx _ g).
Qed.

(** The workspace utilities are as the daemon expects them. *)
Lemma workspace_utils_laws : @WorkspaceUtilsLaws P workspace_utils.
Proof.
  split. intros ctx folders g. cbn. change (same_clients g (WorkspaceUtils.GetWorkspaceRoot respond url_Parse
    fs_WorkspaceRoot conflict_message ctx folders g).2). unfold WorkspaceUtils.GetWorkspaceRoot.
  case_bool_decide; [done|]. apply preserves_bind; [apply _|apply find_root_clients|].
  intros r. case_bool_decide; by apply preserves_state; [apply _|].
Qed.
End utils.

(** ** Instances *)

#[local] Instance sample_data : LspData := {|
  Data k := match k with KInitializeParams => list string | KHover => string | _ => unit end;
  zero_data k := match k with KInitializeParams => [] | KHover => "" | _ => tt end;
  WorkspaceFolders := id;
  Contents_Value := id
|}.
#[local] Instance sample_json : Json := {|
  Value := bytes; RawValue := id;
  Unmarshal k b z :=
    match k return Data k → error + Data k with
    | KInitializeParams => λ _, inr (if bool_decide (b = []) then [] else ["/w/a"])
    | _ => inr
    end z;
  Marshal := inr;
  Arguments_of _ := []; set_Arguments _ x := x
|}.
(** Plugins that log the call, and add their name to a hover. *)
#[local] Instance sample_api : PluginApi (list (string * MethodField)) := {|
  invoke f ctx m :=
    match f return Params f → option (Result f) → list (string * MethodField) →
      option error * list (string * MethodField) * option (Result f) with
    | Plugins.Hover => λ _ r w, (None, w ++ [(PluginNameKey m, Plugins.Hover)], (λ t : string, t +:+ PluginNameKey m) <$> r)
    | f => λ _ r w, (Some EEOF, w ++ [(PluginNameKey m, f)], r)
    end
|}.
#[local] Instance sample_utils : WorkspaceUtilsApi unit :=
  workspace_utils IdeClient.agreeable WorkspaceUtils.sample_parse WorkspaceUtils.sample_git (λ _ out _, out)
    (λ _, Ok "git@host:repo") (λ _, (None, "A=1", "")).
#[local] Instance sample_utils_laws : WorkspaceUtilsLaws unit.
Proof. apply workspace_utils_laws. Qed.

Definition info (name : string) (p : Z) : PluginInfo :=
  mkPluginInfo {["initialize" := p; "textDocument/hover" := p]}
    (Some (mkMethods name [Plugins.Initialize; Plugins.Hover])) name (Some {["repo"]}).
Definition sample_server :=
  New (R := repository) (W := list (string * MethodField)) (P := unit) (Ok 180)
    (Ok {["a" := true; "b" := true]}) [Some (λ _, Ok (info "a" PriorityRegular)); Some (λ _, Ok (info "b" PriorityHigh))]
    Session.New IdeClient.New [].
Definition no_reply_error (rs : list Router.Reply) (x : Router.Reply) : option error := None.
Abbreviation sample_run := (run IdeClient.agreeable no_reply_error EText).
Definition server : controller repository (list (string * MethodField)) unit :=
  match sample_server with
  | Ok c => c
  | _ => mkController (Plugins.mkDaemon Session.New ∅ ∅ []) false None 0 false 0 IdeClient.New [] []
  end.
Definition connected_server := (sample_run (server, []) [EvConnect (inr 7%N) 1%N]).1.
Definition initialize_request : Request := mkRequest "initialize" [1].
Definition hover_request : Request := mkRequest "textDocument/hover" [].

Example whole_session :
  let s := sample_run (server, []) [EvConnect (inr 7%N) 1%N; EvRequest 7%N 3%N initialize_request;
             EvRequest 7%N 4%N hover_request; EvRequest 7%N 5%N (mkRequest "other" [])] in
  world s.1 = [("b", Plugins.Initialize); ("a", Plugins.Initialize); ("b", Plugins.Hover); ("a", Plugins.Hover)] ∧
  s.2 !! 1%nat = Some (Router.mkReply (Some (existT Plugins.Hover "ba")) None) ∧
  s.2 !! 2%nat = Some (Router.mkReply None (Some (EText "other"))).
Proof. vm_compute. done. Qed.

Lemma repo_New_ok : repo_ok Session.New.
Proof. apply Session.New_ok. Qed.
Lemma server_ok : daemon_ok server.
Proof. by apply (daemon_New_ok (Ok 180) (Ok {["a" := true; "b" := true]})
  [Some (λ _, Ok (info "a" PriorityRegular)); Some (λ _, Ok (info "b" PriorityHigh))] Session.New []);
  [apply repo_New_ok|done|vm_compute]. Qed.
Lemma connected_server_ok : daemon_ok connected_server.
Proof. apply run_ok, server_ok. Qed.

Lemma daemon_invariant_witness :
  daemon_ok (sample_run (server, []) [EvConnect (inr 7%N) 1%N; EvRequest 7%N 3%N initialize_request]).1.
Proof.
  exact (proj1 (daemon_invariant IdeClient.agreeable no_reply_error EText (Ok 180)
    (Ok {["a" := true; "b" := true]})
    [Some (λ _, Ok (info "a" PriorityRegular)); Some (λ _, Ok (info "b" PriorityHigh))] Session.New [] server
    [EvConnect (inr 7%N) 1%N; EvRequest 7%N 3%N initialize_request] repo_New_ok eq_refl eq_refl)).
Defined.

Lemma session_isolated_witness :
  same_at 7%N connected_server (sample_run (connected_server, [])
    [EvConnect (inr 8%N) 2%N; EvRequest 8%N 3%N initialize_request; EvDisconnect 8%N]).1.
Proof.
  refine (proj1 (session_isolated IdeClient.agreeable no_reply_error EText (connected_server, [])
    [EvConnect (inr 8%N) 2%N; EvRequest 8%N 3%N initialize_request; EvDisconnect 8%N]
    connected_server_ok) 7%N _).
  repeat constructor; done.
Defined.

Lemma idle_shutdown_witness :
  shutdowns (sample_run (server, []) (EvElapse <$> [5%N; 10800000000000%N])).1 = 1%nat.
Proof.
  refine (proj2 (idle_shutdown IdeClient.agreeable no_reply_error EText (server, []) server_ok eq_refl)
    [5%N; 10800000000000%N] _ _ _).
  - done.
  - apply no_session_count; [apply server_ok|reflexivity].
  - vm_compute. done.
Defined.

Lemma HandleReq_replies_witness :
  (Router.HandleReq IdeClient.agreeable no_reply_error EText (Router.mkRouter 7%N) 4%N (mkRequest "other" [])
    (connected_server, [])).2 = (connected_server, [Router.mkReply None (Some (EText "other"))]).
Proof.
  refine (proj2 (HandleReq_replies IdeClient.agreeable no_reply_error EText 7%N 4%N (mkRequest "other" [])
    (connected_server, [])) _ _); [by intros []|done].
Defined.

Lemma HandleReq_runs_plugins_witness :
  (Router.HandleReq IdeClient.agreeable no_reply_error EText (Router.mkRouter 7%N) 4%N hover_request
    (connected_server, [])).2.2 = [Router.mkReply None None].
Proof.
  pose proof (HandleReq_runs_plugins IdeClient.agreeable no_reply_error EText Plugins.Hover 7%N 4%N
    hover_request connected_server [] (Ok tt) eq_refl eq_refl) as Hrun.
  rewrite Hrun. vm_compute. reflexivity.
Defined.

Lemma Initialize_disabled_witness :
  ∃ c', (Router.HandleReq IdeClient.agreeable no_reply_error EText (Router.mkRouter 7%N) 3%N
           (mkRequest "initialize" []) (connected_server, [])).2.1 = c' ∧
    ∀ f, plugins_of c' 7%N f = mkMethodLists [] [].
Proof.
  destruct (Initialize_disabled IdeClient.agreeable no_reply_error EText 7%N 3%N connected_server
    (UUIDToSession 7%N (Some 1%N)) [] connected_server_ok eq_refl (mkRequest "initialize" []) []
    (EText "no workspace folders provided")) as (c'&Hrun&_&_&Hpl); try reflexivity.
  exists c'. rewrite Hrun. split; [reflexivity|exact Hpl].
Defined.

Lemma info_valid name p : name ≠ "" → valid (info name p).
Proof.
  intros Hn. split_and!; [apply insert_non_empty|done|]. eexists. split_and!; [done..|].
  intros key q Hk. cbn [info Priorities] in Hk.
  apply lookup_insert_Some in Hk as [[<- _]|[_ Hk]].
  - exists Plugins.Initialize. split; [done|by left].
  - apply lookup_singleton_Some in Hk as [<- _]. exists Plugins.Hover. split; [done|by right; left].
Qed.

Lemma Initialize_enabled_witness :
  ∃ c', (Router.HandleReq IdeClient.agreeable no_reply_error EText (Router.mkRouter 7%N) 3%N
           initialize_request (connected_server, [])).2.1 = c' ∧
    PluginNameKey <$> Sync (plugins_of c' 7%N Plugins.Hover) = ["b"; "a"].
Proof.
  destruct (Initialize_enabled IdeClient.agreeable no_reply_error EText 7%N 3%N connected_server
    (UUIDToSession 7%N (Some 1%N)) ["/w/a"] connected_server_ok eq_refl initialize_request []
    "/w" "repo" ["A=1"] [info "a" PriorityRegular; info "b" PriorityHigh])
    as (c'&Hrun&_&_&Hpl); try reflexivity.
  - done.
  - repeat constructor; by apply info_valid.
  - by apply Exists_cons_hd; eexists.
  - exists c'. rewrite Hrun. split; [reflexivity|]. rewrite Hpl; [reflexivity|].
    by apply Exists_cons_hd; eexists.
Defined.
End DaemonProof.
