(* ===== verification/Application.v ===== *)
(** * The plugins of the application

    Models how the plugins are made from the configuration and put together:
    [MonorepoConfigs] of [src/ulsp/entity/ulsp_daemon.go], the constructors of
    the plugins that read the configuration ([New] in
    [src/ulsp/controller/doc-sync/doc_sync.go],
    [src/ulsp/controller/quick-actions/quick_actions.go],
    [src/ulsp/controller/scip/scip.go],
    [src/ulsp/controller/user-guidance/user_guidance.go],
    [src/ulsp/controller/jdk/jdk.go],
    [src/ulsp/controller/indexer/indexer.go]) and the list of plugins that
    [src/ulsp/controller/ulsp-daemon/ulsp_daemon.go] registers for a session.

    Shown: which plugins handle a method of the protocol, and in which order, for
    every configuration and every repository; a registration never fails.  What
    the configuration has to hold for the constructors to succeed, and that the
    daemon then starts with an idle timer and without sessions. *)

From stdpp Require Import base gmap list strings fin_maps.
From Stdlib Require Import ZArith Lia.
From S2P Require Import Prelude Protocol Session Plugins DocSync Scip Registry Diagnostics IndexNotifier.
From S2P Require Import PersistentNotifier ActionStore QuickActions ScipController Startup Indexer IdeClient.
From S2P Require Import UserGuidance Jdk ScalaAssist ServerInfo Process Daemon.

Local Open Scope Z_scope.

Module Application.

(** ** [entity/ulsp_daemon.go] *)

Definition MonorepoConfigKey : string := "monorepos".

Record FormatterConfig := mkFormatterConfig {
  BinaryPath : string; Language : string; FilterPatterns : list string
}.
Record MonorepoConfigEntry := mkMonorepoConfigEntry {
  Bazel : string;
  Aspects : list string;
  Scip : ScipConfig;
  ProjectViewPaths : list string;
  BSPVersionOverride : string;
  Formatters : list FormatterConfig;
  Languages : list string;
  BuildEnvOverrides : list string;
  RegistryFeatureFlags : gmap string bool
}.
Abbreviation MonorepoConfigs := (gmap MonorepoName MonorepoConfigEntry).

(** The loop of [relevantRepos] over the map, in the order of [range]. *)
Definition relevantRepos (rng : list (MonorepoName * MonorepoConfigEntry)) (predicate : MonorepoConfigEntry → bool)
    : gset MonorepoName :=
  foldl (λ relevantRepos '(monorepoName, monorepoConfig),
    if predicate monorepoConfig then {[monorepoName]} ∪ relevantRepos else relevantRepos) ∅ rng.

(** What the other components read of the entries. *)
Definition languages_of (e : MonorepoConfigEntry) : QuickActions.MonorepoConfigEntry :=
  QuickActions.mkMonorepoConfigEntry (Languages e).

Lemma relevantRepos_elem (rng : list (MonorepoName * MonorepoConfigEntry)) (predicate : MonorepoConfigEntry → bool) m :
  ∀ acc : gset MonorepoName,
  m ∈ foldl (λ relevantRepos '(monorepoName, monorepoConfig),
    if predicate monorepoConfig then {[monorepoName]} ∪ relevantRepos else relevantRepos) acc rng ↔
  m ∈ acc ∨ ∃ e, (m, e) ∈ rng ∧ predicate e = true.
Proof.
  induction rng as [|[n e] rng IH]; intros acc; cbn.
  { split; [by left|]. intros [?|(e&He&_)]; [done|]. by apply elem_of_nil in He. }
  rewrite IH. setoid_rewrite elem_of_cons. destruct (predicate e) eqn:Hp.
  - rewrite elem_of_union, elem_of_singleton. split.
    + intros [[->|?]|(e'&?&?)]; [right; exists e; naive_solver|by left|right; exists e'; naive_solver].
    + intros [?|(e'&[[= -> ->]|?]&?)]; [left; by right|left; by left|right; exists e'; done].
  - split; [naive_solver|]. intros [?|(e'&[[= -> ->]|?]&?)]; [by left|congruence|right; by exists e'].
Qed.

(** In every order of [range] the loop gives the set that the other components
    are modelled with. *)
Theorem relevantRepos_java (configs : MonorepoConfigs) rng :
  rng ≡ₚ map_to_list configs →
  relevantRepos rng (λ e, QuickActions.EnableJavaSupport (languages_of e)) =
  Indexer.RelevantJavaRepos (languages_of <$> configs).
Proof.
  intros Hrng. apply leibniz_equiv. intros m. unfold relevantRepos, Indexer.RelevantJavaRepos.
  rewrite relevantRepos_elem, elem_of_dom, map_lookup_filter, lookup_fmap.
  setoid_rewrite Hrng. setoid_rewrite elem_of_map_to_list.
  split.
  - intros [[]%elem_of_empty|(e&He&Hj)]. rewrite He. cbn. by rewrite option_guard_True.
  - intros [x Hx]. right. destruct (configs !! m) as [e|]; cbn in Hx; [|done]. exists e. split; [done|].
    case_guard; done.
Qed.

(** ** The plugins *)

Section plugins.
Context `{ProtocolMethods}.

(** [availablePlugins] *)
Definition availablePlugins (configs : MonorepoConfigs) : list (option (Context → gores PluginInfo)) :=
  [Some Diagnostics.StartupInfo; Some DocSyncPlugin.StartupInfo; Some QuickActions.StartupInfo;
   Some Controller.StartupInfo; Some UserGuidance.StartupInfo; Some Jdk.StartupInfo;
   Some (Indexer.StartupInfo (languages_of <$> configs)); Some ScalaAssist.StartupInfo].

(** The plugins as rows: the name, the priorities, and the condition on the
    repository of the session. *)
Record Row := mkRow { row_name : string; row_priorities : list (MethodField * Z); row_relevant : MonorepoName → bool }.

Definition plugin_rows (configs : MonorepoConfigs) : list Row :=
  [mkRow "diagnostics" diagnostics_priorities (λ _, true);
   mkRow "doc-sync" docsync_priorities (λ _, true);
   mkRow "quick-actions"
     [(Initialize, PriorityRegular); (DidOpen, PriorityAsync); (DidSave, PriorityAsync); (DidClose, PriorityAsync);
      (EndSession, PriorityRegular); (Plugins.CodeAction, PriorityRegular); (Plugins.CodeLens, PriorityRegular);
      (ExecuteCommand, PriorityAsync); (WorkDoneProgressCancel, PriorityRegular)] (λ _, true);
   mkRow "scip" scip_priorities (λ _, true);
   mkRow "user-guidance" [(Initialized, PriorityAsync)] (λ _, true);
   mkRow "jdk" [(Exit, PriorityAsync)] (λ _, true);
   mkRow "indexer"
     [(Initialize, PriorityRegular); (Initialized, PriorityAsync); (DidOpen, PriorityAsync); (DidSave, PriorityAsync);
      (DidClose, PriorityAsync); (EndSession, PriorityRegular); (WorkDoneProgressCancel, PriorityRegular)]
     (λ repo, match configs !! repo with Some e => QuickActions.EnableJavaSupport (languages_of e) | None => false end);
   mkRow "scala-assist" [(Initialized, PriorityAsync)] (λ _, false)].

(** The rows that count for a session. *)
Definition enabled_rows (configs : MonorepoConfigs) (config : gmap string bool) (repo : MonorepoName) : list Row :=
  List.filter (λ r, row_relevant r repo && default false (config !! row_name r)) (plugin_rows configs).

Definition names_with (rows : list Row) (f : MethodField) (p : Z) : list string :=
  omap (λ r, if bool_decide (field_priority (row_priorities r) f = Some p) then Some (row_name r) else None) rows.
(** The plugins that handle a method at once and later. *)
Definition rows_handle (rows : list Row) (f : MethodField) : option (list string * list string) :=
  if existsb (λ r, bool_decide (is_Some (field_priority (row_priorities r) f))) rows
  then Some (names_with rows f PriorityHigh ++ names_with rows f PriorityRegular, names_with rows f PriorityAsync)
  else None.

(** A plugin is as its row says. *)
Record matches (row : Row) (info : PluginInfo) : Prop := {
  m_valid : valid info;
  m_name : NameKey info = row_name row;
  m_methods : ∃ m, PluginMethods info = Some m ∧ PluginNameKey m = row_name row;
  m_priorities f : Priorities info !! MethodName f = field_priority (row_priorities row) f
}.

Lemma matches_row row info fields :
  Priorities info = list_to_map (prod_map MethodName id <$> row_priorities row) → row_priorities row ≠ [] →
  NameKey info = row_name row → row_name row ≠ "" → PluginMethods info = Some (mkMethods (row_name row) fields) →
  forallb (λ x, bool_decide (x.1 ∈ fields)) (row_priorities row) = true → matches row info.
Proof.
  intros Hp Hne Hn Hn' Hm Hf. split; [|done|by eexists|].
  - eapply (valid_plugin info (row_name row) fields (row_priorities row)); try done. apply Forall_forall.
    intros x Hx. apply list_elem_of_In in Hx. rewrite forallb_forall in Hf. by apply Hf, bool_decide_eq_true in Hx.
  - intros f. by rewrite Hp, priorities_lookup.
Qed.

(** Row by row: what the plugin returns, and for which repositories it is relevant. *)
Definition row_ok (repo : MonorepoName) (ctx : Context) (row : Row) (startup : option (Context → gores PluginInfo)) : Prop :=
  ∃ f info, startup = Some f ∧ f ctx = Ok info ∧ matches row info ∧
    (match RelevantRepos info with Some repos => bool_decide (repo ∈ repos) | None => true end) = row_relevant row repo.

Lemma rows_ok configs repo ctx : Forall2 (row_ok repo ctx) (plugin_rows configs) (availablePlugins configs).
Proof.
  repeat (apply Forall2_cons; split); [..|by apply Forall2_nil]; eexists _, _; (split; [reflexivity|]);
    (split; [reflexivity|]); (split; [eapply matches_row; cbn [Priorities]; rewrite <- ?MethodName_EndSession;
      [reflexivity|done|reflexivity|done|reflexivity|vm_compute; reflexivity]|]); cbn; try done.
  unfold Indexer.RelevantJavaRepos. destruct (configs !! repo) as [e|] eqn:He.
  - destruct (QuickActions.EnableJavaSupport (languages_of e)) eqn:Hj.
    + apply bool_decide_eq_true, elem_of_dom. rewrite map_lookup_filter, lookup_fmap, He. cbn.
      by rewrite option_guard_True.
    + apply bool_decide_eq_false. rewrite elem_of_dom, map_lookup_filter, lookup_fmap, He. cbn.
      rewrite option_guard_False by (cbn; by rewrite Hj). by intros [].
  - apply bool_decide_eq_false. rewrite elem_of_dom, map_lookup_filter, lookup_fmap, He. by intros [].
Qed.

Lemma enabled_rows_ok ctx s config rows plugins :
  Forall2 (row_ok (Monorepo s) ctx) rows plugins →
  ∃ infos, enabled_plugins ctx s config plugins = Ok infos ∧
    Forall2 matches (List.filter (λ r, row_relevant r (Monorepo s) && default false (config !! row_name r)) rows) infos.
Proof.
  induction 1 as [|row startup rows plugins (f&info&->&Hf&Hm&Hr) _ (infos&IH&Hall)]; cbn [enabled_plugins List.filter].
  { by exists []. }
  rewrite Hf. cbn [wrap_err rbind]. rewrite IH. cbn [rbind]. rewrite Hr, (m_name _ _ Hm).
  destruct (row_relevant row (Monorepo s) && _); [|by exists infos].
  exists (info :: infos). split; [done|by constructor].
Qed.

Lemma matches_names rows infos f p : Forall2 matches rows infos →
  PluginNameKey <$> with_priority infos (MethodName f) p = names_with rows f p.
Proof.
  unfold with_priority, names_with. induction 1 as [|row info rows infos Hm _ IH]; [done|]. cbn [omap list_omap].
  rewrite (m_priorities _ _ Hm). destruct (m_methods _ _ Hm) as (m&->&Hn).
  case_bool_decide; [|done]. cbn. by rewrite Hn, <- IH.
Qed.
Lemma matches_handles rows infos f : Forall2 matches rows infos →
  handles infos (MethodName f) ↔
  existsb (λ r, bool_decide (is_Some (field_priority (row_priorities r) f))) rows = true.
Proof.
  unfold handles. induction 1 as [|row info rows infos Hm _ IH]; cbn [existsb].
  { split; [by intros ?%Exists_nil|done]. }
  rewrite Exists_cons, orb_true_iff, bool_decide_eq_true, IH, (m_priorities _ _ Hm). done.
Qed.

(** The lists that are made of plugins that match rows. *)
Lemma rows_registered rows infos : Forall2 matches rows infos →
  ∃ rt, PluginInfoToRuntimePrioritizedMethods infos = Ok rt ∧
    ∀ f, names <$> rt !! MethodName f = rows_handle rows f.
Proof.
  intros Hall. assert (Hv : Forall valid infos).
  { clear -Hall. induction Hall; constructor; [by eapply m_valid|done]. }
  destruct (prioritized_ok infos Hv) as (rt&Hrt&Hl). exists rt. split; [done|]. intros f.
  destruct (Hl (MethodName f)) as [Hyes Hno]. unfold rows_handle. rewrite matches_handles in Hyes, Hno by done.
  destruct (existsb _ rows); [|by rewrite Hno].
  rewrite Hyes by done. cbn. f_equal. unfold names, lists_of. cbn [Sync Async].
  by rewrite fmap_app, !(matches_names rows infos).
Qed.
End plugins.
(** ** Registration *)

Section registration.
Context `{ProtocolMethods} {R : Type} `{Repository R}.

Lemma register_rows (configs : MonorepoConfigs) config (repo : R) registered ctx s :
  repo_GetFromContext repo ctx = Ok s →
  ∃ rt, registerSessionPlugins ctx (mkDaemon repo registered config (availablePlugins configs)) =
      (Ok tt, mkDaemon repo (<[UUID s := rt]> registered) config (availablePlugins configs)) ∧
    ∀ f, names <$> rt !! MethodName f = rows_handle (enabled_rows configs config (Monorepo s)) f.
Proof.
  intros Hs. unfold registerSessionPlugins. cbn [sessions pluginConfig pluginsAll pluginMethods]. rewrite Hs. cbn [wrap_err].
  destruct (enabled_rows_ok ctx s config _ _ (rows_ok configs (Monorepo s) ctx)) as (infos&->&Hall).
  destruct (rows_registered _ _ Hall) as (rt&->&Hrt). cbn [wrap_err]. by exists rt.
Qed.

(** C15: For every configuration of the repositories and of the enabled plugins,
    the plugins of a session can be registered: all of them are valid.  A method
    of the protocol is then handled by exactly the enabled plugins that are
    relevant to the repository of the session, in the order of the table of their
    priorities; the plugins of other sessions stay. *)
Theorem plugins_registered (configs : MonorepoConfigs) config (repo : R) registered ctx s :
  repo_GetFromContext repo ctx = Ok s →
  ∃ rt, registerSessionPlugins ctx (mkDaemon repo registered config (availablePlugins configs)) =
      (Ok tt, mkDaemon repo (<[UUID s := rt]> registered) config (availablePlugins configs)) ∧
    ∀ f, names <$> rt !! MethodName f = rows_handle (enabled_rows configs config (Monorepo s)) f.
Proof. apply register_rows. Qed.
End registration.

(** The plugins of the configuration that comes with the program. *)
Definition base_plugins : gmap string bool :=
  {["doc-sync" := true; "quick-actions" := true; "scip" := true; "user-guidance" := true; "indexer" := true;
    "scala-assist" := false; "jdk" := true]}.
Definition base_monorepos : MonorepoConfigs :=
  {["_default" := mkMonorepoConfigEntry "" [] (mkScipConfig false true [".scip"]) [] "" [] [] [] ∅]}.

(** It does not name the plugin for diagnostics: that is in no list, and the end
    of a session does not reach it, although the SCIP plugin calls it. *)
Theorem base_plugins_no_diagnostics repo f :
  match rows_handle (enabled_rows base_monorepos base_plugins repo) f with
  | Some (now, later) => "diagnostics" ∉ now ++ later
  | None => True
  end.
Proof.
  assert (Hrows : enabled_rows base_monorepos base_plugins repo =
    List.filter (λ r, bool_decide (row_name r ∈ ["doc-sync"; "quick-actions"; "scip"; "user-guidance"; "jdk"]))
      (plugin_rows base_monorepos)).
  { unfold enabled_rows, plugin_rows. cbn [List.filter row_relevant row_name].
    assert (match base_monorepos !! repo with
            | Some e => QuickActions.EnableJavaSupport (languages_of e) | None => false end = false) as ->.
    { destruct (base_monorepos !! repo) as [e|] eqn:He; [|done].
      unfold base_monorepos in He. apply lookup_singleton_Some in He as [_ <-]. done. }
    reflexivity. }
  rewrite Hrows. clear Hrows.
  match goal with |- context [rows_handle ?r f] => set (rows := r) end.
  assert (Hc : match rows_handle rows f with
               | Some (now, later) => bool_decide ("diagnostics" ∈ now ++ later) = false | None => True end)
    by (destruct f; vm_compute; done).
  destruct (rows_handle rows f) as [[]|]; [by apply bool_decide_eq_false in Hc|done].
Qed.
(** ** Constructors *)

(** What the configuration gives for the keys that the plugins read. *)
Record Config := mkConfig {
  PopulateInt : string → gores Z;
  PopulateMonorepos : string → gores MonorepoConfigs;
  PopulatePlugins : string → gores (gmap string bool);
  PopulateGuidance : string → gores (list UserGuidance.Message)
}.

Definition _maxFileSizeKey : string := "maxFileSizeBytes".
Definition _idleTimeoutMinutesKey : string := "idleTimeoutMinutes".
Definition _pluginsKey : string := "ulspPlugins".
Definition _configKey : string := "guidance".

(** The start of the constructors that need the repositories. *)
Definition monorepos (cfg : Config) : gores MonorepoConfigs :=
  match PopulateMonorepos cfg MonorepoConfigKey with Err _ => Panic | r => r end.

Section controllers.
Context `{ProtocolMethods} {R : Type} `{Repository R} {W P S M : Type}.

(** [fsnotify.NewWatcher] *)
Definition scip_New (cfg : Config) (NewWatcher : gores unit) (m : M) (docs : DocState)
    (diags : Diagnostics.controller) : gores (MonorepoConfigs * Controller.controller S M) :=
  configs <-? monorepos cfg;;
  _ <-? wrap_err "failed to create fs watcher for scip" NewWatcher;;
  Ok (configs, Controller.New m docs diags).
Definition quick_actions_New (cfg : Config) : gores (MonorepoConfigs * QuickActions.controller) :=
  configs <-? monorepos cfg;; Ok (configs, QuickActions.New).
Definition indexer_New (cfg : Config) : gores (MonorepoConfigs * Indexer.controller) :=
  configs <-? monorepos cfg;; Ok (configs, Indexer.New).
Definition jdk_New (cfg : Config) : gores MonorepoConfigs := monorepos cfg.
Definition guidance_New (cfg : Config) : gores (list UserGuidance.Message) :=
  wrap_err "configure guidance" (PopulateGuidance cfg _configKey).

(** The plugins and the daemon; the parts of the state that they share are those
    of the SCIP controller. *)
Record Controllers := mkControllers {
  app_quick_actions : QuickActions.controller;
  app_scip : Controller.controller S M;
  app_guidance : list UserGuidance.Message;
  app_indexer : Indexer.controller;
  app_scala : ScalaAssist.controller;
  app_configs : MonorepoConfigs;
  app_daemon : Daemon.controller R W P
}.

(** The constructors in the order of the parameters of the daemon; [world] is the
    state of the plugins, [repo] the new repository of sessions. *)
Definition newControllers (cfg : Config) (NewWatcher : gores unit) (m : M) (files : gmap string string)
    (repo : R) (gateway : IdeClient.gateway P) (world : W) : gores Controllers :=
  let diags := Diagnostics.New in
  docs <-? NewController (PopulateInt cfg _maxFileSizeKey);;
  let? (_, quick) := quick_actions_New cfg in
  let? (_, scip) := scip_New cfg NewWatcher m docs diags in
  guidance <-? guidance_New cfg;;
  _ <-? jdk_New cfg;;
  let? (configs, indexer) := indexer_New cfg in
  let scala := ScalaAssist.New files in
  daemon <-? Daemon.New (PopulateInt cfg _idleTimeoutMinutesKey) (PopulatePlugins cfg _pluginsKey)
    (availablePlugins configs) repo gateway world;;
  Ok (mkControllers quick scip guidance indexer scala configs daemon).

(** The configuration holds what the constructors need. *)
Record complete (cfg : Config) (minutes size : Z) (configs : MonorepoConfigs) (plugins : gmap string bool)
    (messages : list UserGuidance.Message) : Prop := {
  c_minutes : PopulateInt cfg _idleTimeoutMinutesKey = Ok minutes ∧ minutes ≠ 0;
  c_size : PopulateInt cfg _maxFileSizeKey = Ok size ∧ size ≠ 0;
  c_configs : PopulateMonorepos cfg MonorepoConfigKey = Ok configs;
  c_plugins : PopulatePlugins cfg _pluginsKey = Ok plugins;
  c_messages : PopulateGuidance cfg _configKey = Ok messages
}.

(** C30: The constructors of the plugins and of the daemon succeed exactly for a
    complete configuration and a file watcher: then there are no documents,
    registries or diagnostics, the plugins of the daemon are all of the
    application's, and its idle timer runs for the configured minutes.  Otherwise
    no daemon is made: wrong messages and a missing timeout are reported as
    errors, while without the repositories or the maximal size of files the
    process panics. *)
Theorem newControllers_outcome cfg NewWatcher m files repo gateway world :
  let new := newControllers cfg NewWatcher m files repo gateway world in
  (∀ minutes size configs plugins messages, complete cfg minutes size configs plugins messages → NewWatcher = Ok tt →
    ∃ app, new = Ok app ∧ app_configs app = configs ∧ app_guidance app = messages ∧
      Controller.registries (app_scip app) = ∅ ∧ documents (Controller.documents (app_scip app)) = ∅ ∧
      Daemon.core (app_daemon app) = mkDaemon repo ∅ plugins (availablePlugins configs) ∧
      Daemon.idleTimer (app_daemon app) = Some (Some (int64 (minutes * IdeClient.Minute))) ∧
      Daemon.waiting (app_daemon app) = true) ∧
  (∀ app, new = Ok app → NewWatcher = Ok tt ∧ ∃ minutes size configs plugins messages,
    complete cfg minutes size configs plugins messages) ∧
  (∀ e, PopulateMonorepos cfg MonorepoConfigKey = Err e → new = Panic) ∧
  (∀ e, PopulateInt cfg _maxFileSizeKey = Err e ∨ PopulateInt cfg _maxFileSizeKey = Ok 0 → new = Panic) ∧
  (∀ size configs, PopulateInt cfg _maxFileSizeKey = Ok size → size ≠ 0 →
    PopulateMonorepos cfg MonorepoConfigKey = Ok configs →
    (∀ e, NewWatcher = Err e → new = Err (EWrap "failed to create fs watcher for scip" e)) ∧
    (∀ e, NewWatcher = Ok tt → PopulateGuidance cfg _configKey = Err e → new = Err (EWrap "configure guidance" e)) ∧
    (∀ messages, NewWatcher = Ok tt → PopulateGuidance cfg _configKey = Ok messages →
      PopulateInt cfg _idleTimeoutMinutesKey = Ok 0 → new = Err (EText "unable to get idle timeout from config"))).
Proof.
  intros new. unfold new, newControllers, NewController, quick_actions_New, scip_New, guidance_New, jdk_New, indexer_New, monorepos.
  split_and!.
  - intros minutes size configs plugins messages [[Hm Hm'] [Hs Hs'] Hc Hp Hg] Hw.
    rewrite Hm, Hs, Hc, Hp, Hg, Hw. rewrite (proj2 (Z.eqb_neq size 0) Hs'). cbn. unfold Daemon.New. cbn.
    rewrite (proj2 (Z.eqb_neq minutes 0) Hm'). cbn. eexists. split; [reflexivity|]. by split_and!.
  - intros app.
    destruct (PopulateInt cfg _maxFileSizeKey) as [size| | |] eqn:Hs; cbn; try done.
    destruct (Z.eqb_spec size 0) as [|Hsize]; cbn; try done.
    destruct (PopulateMonorepos cfg MonorepoConfigKey) as [configs| | |] eqn:Hc; cbn; try done.
    destruct NewWatcher as [[]| | |]; cbn; try done.
    destruct (PopulateGuidance cfg _configKey) as [messages| | |] eqn:Hg; cbn; try done.
    unfold Daemon.New. destruct (PopulateInt cfg _idleTimeoutMinutesKey) as [minutes| | |] eqn:Hm; cbn; try done.
    destruct (Z.eqb_spec minutes 0) as [|Hmin]; cbn; try done.
    destruct (PopulatePlugins cfg _pluginsKey) as [plugins| | |] eqn:Hp; cbn; try done.
    intros _. split; [done|]. exists minutes, size, configs, plugins, messages. by split.
  - intros e ->. cbn. destruct (PopulateInt cfg _maxFileSizeKey) as [size| | |] eqn:Hs; cbn; try done.
    by destruct (size =? 0).
  - intros e [->|Hs]; cbn; [done|]. by rewrite Hs.
  - intros size configs -> Hs ->. rewrite (proj2 (Z.eqb_neq size 0) Hs). cbn. split_and!.
    + by intros e ->.
    + by intros e -> ->.
    + intros messages -> -> Hm. cbn. unfold Daemon.New. by rewrite Hm.
Qed.
End controllers.
(** ** Instances *)

Definition sample_session : Session := mkSession 7 None None "/w" "r" [] true.
Definition sample_repo : repository := mkRepository {[7%N := SessionToModel sample_session]} 1.

Lemma plugins_registered_witness :
  ∃ rt, registerSessionPlugins (mkContext (Some 7%N)) (mkDaemon sample_repo ∅ base_plugins (availablePlugins base_monorepos)) =
      (Ok tt, mkDaemon sample_repo {[7%N := rt]} base_plugins (availablePlugins base_monorepos)) ∧
    names <$> rt !! "textDocument/didOpen" = Some (["doc-sync"; "scip"], ["quick-actions"]) ∧
    names <$> rt !! "textDocument/definition" = Some (["scip"], []).
Proof.
  destruct (plugins_registered base_monorepos base_plugins sample_repo ∅ (mkContext (Some 7%N)) sample_session)
    as (rt&Hrun&Hrt); [reflexivity|].
  exists rt. split; [exact Hrun|]. split;
    (etransitivity; [first [exact (Hrt DidOpen)|exact (Hrt GotoDefinition)]|vm_compute; reflexivity]).
Defined.

Definition sample_config : Config :=
  mkConfig (λ _, Ok 480) (λ _, Ok base_monorepos) (λ _, Ok base_plugins) (λ _, Ok []).

Lemma newControllers_outcome_witness :
  ∃ app, newControllers (R := repository) (W := unit) (P := N) (S := N) (M := N) sample_config (Ok tt) 0%N ∅ Session.New IdeClient.New tt = Ok app ∧
    Daemon.idleTimer (app_daemon app) = Some (Some (480 * IdeClient.Minute)).
Proof.
  destruct (proj1 (newControllers_outcome (R := repository) (W := unit) (P := N) (S := N) (M := N) sample_config (Ok tt) 0%N ∅ Session.New IdeClient.New tt)
    480 480 base_monorepos base_plugins []) as (app&Hnew&_&_&_&_&_&Ht&_); [by split|reflexivity|].
  exists app. split; [exact Hnew|]. rewrite Ht. reflexivity.
Defined.
End Application.
