(* ===== verification/System.v ===== *)
(** * The server with its plugins

    Puts the layers together: requests of a connection go through the router
    ([Router]) and the daemon ([Daemon]) to the document store ([DocSync]), the
    diagnostics ([Diagnostics]) and the SCIP plugin ([ScipController]), which
    work on one state as in the program, where the SCIP plugin holds pointers to
    the other two.  The plugins are those that [Application] registers; the
    remaining ones see this state and have a state of their own.

    The plugins read the sessions at the time of the call.  A request other than
    [initialize] leaves the sessions alone until its plugins have run, so they
    are a parameter of the plugins here.

    Shown: an editor that opens a document, edits it and asks for a definition
    gets the answer of the index for the text as it was opened, with ranges in
    the text as it is now, through all of the layers. *)

From stdpp Require Import base gmap list strings fin_maps.
From Stdlib Require Import ZArith Lia.
From S2P Require Import Prelude Utf8 Protocol TextOffset TextEdits PositionMapper Session Plugins DocSync DocSyncSpec DocSyncProof.
From S2P Require Import Scip Occurrences Paths Scanner Registry RegistryProof Diagnostics IndexNotifier Capabilities.
From S2P Require Import ScipController ScipControllerProof Startup IdeClient Daemon Router WorkspaceUtils DaemonProof Application.

Local Open Scope Z_scope.

Module System.

(** ** Parameters of requests *)

Record DidChangeParams := mkDidChangeParams {
  ChangedURI : URI; ChangedVersion : Z; ContentChanges : list TextDocumentContentChangeEvent
}.
Record DidSaveParams := mkDidSaveParams { SavedURI : URI; SavedText : bytes }.
Record TextDocumentPositionParams := mkPositionParams { AtURI : URI; AtPosition : Position }.

Definition zero_item : TextDocumentItem := mkTextDocumentItem "" "" 0 [].
Definition zero_position_params : TextDocumentPositionParams := mkPositionParams "" zero_Position.

Section data.
(** the structures that only the other plugins look at *)
Context (Other : DataKind → Type) (zero_other : ∀ k, Other k) (folders : Other KInitializeParams → list string).

Definition SystemData (k : DataKind) : Type :=
  match k with
  | KDidOpenTextDocumentParams => TextDocumentItem
  | KDidChangeTextDocumentParams => DidChangeParams
  | KDidCloseTextDocumentParams | KWillSaveTextDocumentParams | KDocumentSymbolParams => URI
  | KDidSaveTextDocumentParams => DidSaveParams
  | KDeclarationParams | KDefinitionParams | KTypeDefinitionParams | KImplementationParams
  | KReferenceParams | KHoverParams => TextDocumentPositionParams
  | KTextEdit => TextEdit
  | KLocationLink => LocationLink
  | KLocation => Location
  | KHover => ScipController.Hover
  | KDocumentSymbol => DocumentSymbol
  | k => Other k
  end.

(** The daemon makes zero values of hovers and parameters only; a symbol with the
    kind zero is none of the protocol's. *)
Definition system_zero (k : DataKind) : SystemData k :=
  match k return SystemData k with
  | KDidOpenTextDocumentParams => zero_item
  | KDidChangeTextDocumentParams => mkDidChangeParams "" 0 []
  | KDidCloseTextDocumentParams | KWillSaveTextDocumentParams | KDocumentSymbolParams => ""
  | KDidSaveTextDocumentParams => mkDidSaveParams "" []
  | KDeclarationParams | KDefinitionParams | KTypeDefinitionParams | KImplementationParams
  | KReferenceParams | KHoverParams => zero_position_params
  | KTextEdit => mkTextEdit zero_Range []
  | KLocationLink => mkLocationLink None "" zero_Range zero_Range
  | KLocation => mkLocation "" zero_Range
  | KHover => mkHover None "" ""
  | KDocumentSymbol => mkDocumentSymbol "" "" SymbolKindFile zero_Range zero_Range
  | KInitializeParams => zero_other KInitializeParams
  | KInitializedParams => zero_other KInitializedParams
  | KCreateFilesParams => zero_other KCreateFilesParams
  | KRenameFilesParams => zero_other KRenameFilesParams
  | KDeleteFilesParams => zero_other KDeleteFilesParams
  | KDidChangeWatchedFilesParams => zero_other KDidChangeWatchedFilesParams
  | KCodeActionParams => zero_other KCodeActionParams
  | KCodeLensParams => zero_other KCodeLensParams
  | KCodeLens => zero_other KCodeLens
  | KExecuteCommandParams => zero_other KExecuteCommandParams
  | KWorkDoneProgressCancelParams => zero_other KWorkDoneProgressCancelParams
  | KWorkspaceEdit => zero_other KWorkspaceEdit
  | KCodeAction => zero_other KCodeAction
  end.

Definition system_data : LspData :=
  {| Data := SystemData; zero_data := system_zero; WorkspaceFolders := folders; Contents_Value := HoverValue |}.
End data.

(** ** The plugins *)

Section plugins.
Context {data_other : DataKind → Type} (zero_other : ∀ k, data_other k) (folders : data_other KInitializeParams → list string).
#[local] Instance lsp_data : LspData := system_data data_other zero_other folders.

Context {R S M O : Type} `{Repository R} `{Index.PartialIndex S} `{CallbackLog S} `{NotificationManager M}.
Context {B : Bindings} {U : UriLib}.
Context (DiffMain : bytes → bytes → list Diff) (publish_error : uuid → URI → option error)
  (gateway_error : GatewayCall → option error) (maxFileSizeBytes : Z).
Context (configs : gmap MonorepoName ScipConfig) (newIndex : string → gores S).
Context (ReadDir : string → gores (list string)) (ReadFile : string → gores bytes) (MkdirAll : string → gores unit).
Context (watcher : option (string → option error)) (ideGateway : bool) (numCPU : Z)
  (schedule : list (string * string) → list (string * string)).
(** the other plugins by their names, which can panic, and the sessions *)
Context (other : ∀ f : MethodField, Context → string → Params f → option (Result f) →
  Controller.controller S M → O → gores (option (Result f)) * O).
Context (sess : R).

(** The state of the plugins; [crashed]: one of them has panicked. *)
Record World := mkWorld { scip : Controller.controller S M; others : O; crashed : bool }.

Definition plugin_call {A B} (m : GoM (Controller.controller S M) A) (k : A → option B) (w : World)
    : option error * World * option B :=
  let '(r, c) := m (scip w) in
  match r with
  | Ok a => (None, mkWorld c (others w) (crashed w), k a)
  | Err e => (Some e, mkWorld c (others w) (crashed w), None)
  | _ => (None, mkWorld c (others w) true, None)
  end.
(** A handler without a result. *)
Definition unit_call {A B} (m : GoM (Controller.controller S M) A) : World → option error * World * option B :=
  plugin_call m (λ _, None).
(** A handler that appends to the slice that [result] points to; an append
    through a nil pointer panics. *)
Definition append_call {A} (m : list A → GoM (Controller.controller S M) (list A)) (result : option (list A))
    (w : World) : option error * World * option (list A) :=
  match result with
  | Some l => plugin_call (m l) Some w
  | None =>
    let '(e, w', r) := plugin_call (m []) Some w in
    (e, match r with Some (_ :: _) => mkWorld (scip w') (others w') true | _ => w' end, None)
  end.

Definition docsync_call (f : MethodField) (ctx : Context)
    : Params f → option (Result f) → World → option error * World * option (Result f) :=
  match f return Params f → option (Result f) → World → option error * World * option (Result f) with
  | Plugins.Initialize => λ _ _, unit_call (Controller.on_documents (DocSync.initialize sess ctx))
  | Plugins.Shutdown => λ _ _, unit_call (Controller.on_documents (DocSync.shutdown sess ctx))
  | Plugins.EndSession => λ u _, unit_call (Controller.on_documents (DocSync.endSession u))
  | Plugins.DidOpen => λ d _, unit_call (Controller.on_documents (DocSync.didOpen maxFileSizeBytes sess ctx d))
  | Plugins.DidClose => λ doc _, unit_call (Controller.on_documents (DocSync.didClose gateway_error sess ctx doc))
  | Plugins.DidChange => λ p _, unit_call (Controller.on_documents
      (DocSync.didChange gateway_error maxFileSizeBytes sess ctx (ChangedURI p) (ChangedVersion p) (ContentChanges p)))
  | Plugins.DidSave => λ p _, unit_call (Controller.on_documents (DocSync.didSave sess ctx (SavedURI p) (SavedText p)))
  | Plugins.WillSaveWaitUntil => λ doc result,
      append_call (λ l, Controller.on_documents (DocSync.willSaveWaitUntil sess ctx doc l)) result
  | _ => λ _ _ w, (None, w, None)
  end.

Definition diagnostics_call (f : MethodField) (ctx : Context)
    : Params f → option (Result f) → World → option error * World * option (Result f) :=
  match f return Params f → option (Result f) → World → option error * World * option (Result f) with
  | Plugins.Initialize => λ _ _, unit_call (Controller.on_diagnostics (Diagnostics.initialize sess ctx))
  | Plugins.Shutdown => λ _ _, unit_call (Controller.on_diagnostics (Diagnostics.shutdown sess ctx))
  | Plugins.EndSession => λ u _, unit_call (Controller.on_diagnostics (Diagnostics.endSession u))
  | _ => λ _ _ w, (None, w, None)
  end.

Definition scip_call (f : MethodField) (ctx : Context)
    : Params f → option (Result f) → World → option error * World * option (Result f) :=
  match f return Params f → option (Result f) → World → option error * World * option (Result f) with
  | Plugins.Initialize => λ _ result w,
      (None, w, (λ r, mkInitializeResult (ServerInfo_Name r) (TextDocumentSync r)
         (default (ResultCapabilities r) (Controller.initialize (Some (ResultCapabilities r))))) <$> result)
  | Plugins.Initialized => λ _ _, unit_call (Controller.initialized publish_error configs newIndex ReadDir ReadFile MkdirAll
      watcher ideGateway numCPU schedule sess ctx)
  | Plugins.DidOpen => λ d _, unit_call (Controller.didOpen publish_error sess ctx (DocURI d) (string_of_bytes (Text d)))
  | Plugins.DidChange => λ _ _, unit_call (Controller.didChange ctx)
  | Plugins.GotoDefinition => λ p,
      append_call (Controller.gotoDefinition DiffMain publish_error sess ctx (AtURI p) (AtPosition p))
  | Plugins.GotoDeclaration => λ p, append_call (Controller.gotoDeclaration ctx)
  | Plugins.GotoTypeDefinition => λ p, append_call (Controller.gotoTypeDefinition ctx)
  | Plugins.GotoImplementation => λ p, append_call (Controller.gotoImplementation ctx)
  | Plugins.References => λ p,
      append_call (Controller.references DiffMain publish_error sess ctx (AtURI p) (AtPosition p))
  | Plugins.Hover => λ p result,
      plugin_call (Controller.hover DiffMain publish_error sess ctx (AtURI p) (AtPosition p) result) id
  | Plugins.DocumentSymbol => λ doc, append_call (Controller.documentSymbol DiffMain publish_error sess ctx doc)
  | _ => λ _ _ w, (None, w, None)
  end.

(** The methods of a plugin are bound to its controller. *)
Definition plugin_invoke (f : MethodField) (ctx : Context) (m : Methods) (params : Params f) (result : option (Result f))
    (w : World) : option error * World * option (Result f) :=
  if bool_decide (PluginNameKey m = "doc-sync") then docsync_call f ctx params result w
  else if bool_decide (PluginNameKey m = "diagnostics") then diagnostics_call f ctx params result w
  else if bool_decide (PluginNameKey m = "scip") then scip_call f ctx params result w
  else
    let '(r, o) := other f ctx (PluginNameKey m) params result (scip w) (others w) in
    match r with
    | Ok r => (None, mkWorld (scip w) o (crashed w), r)
    | Err e => (Some e, mkWorld (scip w) o (crashed w), None)
    | _ => (None, mkWorld (scip w) o true, None)
    end.

Definition system_api : PluginApi World := {| invoke := plugin_invoke |}.
End plugins.
(** ** A session that edits *)

Section session.
Context {data_other : DataKind → Type} (zero_other : ∀ k, data_other k) (folders : data_other KInitializeParams → list string).
#[local] Instance edit_data : LspData := system_data data_other zero_other folders.

Context `{ProtocolMethods} {R S M O : Type} `{RepositoryLaws R}.
Context {I : Index.PartialIndex S} {C : CallbackLog S} {V : Index.View S} {B : Bindings} {L : Index.Laws S}.
Context {U : UriLib} `{NotificationManager M}.
Context (DiffMain : bytes → bytes → list Diff) (publish_error : uuid → URI → option error)
  (gateway_error : GatewayCall → option error) (maxFileSizeBytes : Z).
Context (configs : gmap MonorepoName ScipConfig) (newIndex : string → gores S).
Context (ReadDir : string → gores (list string)) (ReadFile : string → gores bytes) (MkdirAll : string → gores unit).
Context (watcher : option (string → option error)) (ideGateway : bool) (numCPU : Z)
  (schedule : list (string * string) → list (string * string)).
Context (other : ∀ f : MethodField, Context → string → Params f → option (Result f) →
  Controller.controller S M → O → gores (option (Result f)) * O).
Context (sess : R) (HDiff : DiffMain_law DiffMain) (Hrepo : repo_ok sess).
Context (s : Session) (Hs : repo_Get sess (UUID s) = Ok s).

Abbreviation ctx := (mkContext (Some (UUID s))).
Abbreviation world := (World (S := S) (M := M) (O := O)).
Abbreviation api := (system_api zero_other folders DiffMain publish_error gateway_error maxFileSizeBytes configs newIndex
  ReadDir ReadFile MkdirAll watcher ideGateway numCPU schedule other sess).
#[local] Instance edit_api : PluginApi world := api.

Lemma session_ctx : repo_GetFromContext sess ctx = Ok s.
Proof. by rewrite repo_GetFromContext_spec. Qed.

(** What the session sees: its documents, and an index of its workspace that has
    been asked for the documents [ps] since it was [idx]. *)
Record sees (idx : S) (ps : list string) (e : URI → option AEntry) (w : world) : Prop := {
  se_docs : docs_ok DiffMain s (Controller.documents (scip w));
  se_entry doc : entry s (scip w) doc = e doc;
  se_index : ∃ reg, Controller.registries (scip w) !! WorkspaceRoot s = Some reg ∧ rWorkspaceRoot reg = WorkspaceRoot s ∧
    Index.ready (rIndex reg) ∧ Index.asks ps idx (rIndex reg);
  se_crashed : crashed w = false
}.

(** A method of the plugins, run by their names. *)
Definition call_name (f : MethodField) (params : Params f) (w : world) (name : string) : world :=
  Daemon.call f ctx params (mkMethods name []) w.

Lemma foldl_names f params ms (w : world) :
  foldl (λ w m, Daemon.call f ctx params m w) w ms = foldl (call_name f params) w (PluginNameKey <$> ms).
Proof.
  revert w. induction ms as [|m ms IH]; intros w; [done|]. cbn [foldl fmap list_fmap]. rewrite IH. f_equal.
Qed.

(** The document store: an operation of the session that is known by what it
    does to the abstract store. *)
Lemma docs_call_ok idx ps e w (m : GoM DocState unit) am e' ast' :
  sees idx ps e w → simulates DiffMain m am → am (abs (Controller.documents (scip w))) = (Ok tt, ast') →
  is_Some (adocs ast' !! UUID s) → (∀ doc, aget (UUID s) doc ast' = e' doc) →
  (∀ doc x, e' doc = Some x → entry_fits x) →
  sees idx ps e' (unit_call (B := unit) (Controller.on_documents m) w).1.2.
Proof.
  intros [D1 D2 D3 D4] Hsim Ham Hsome He' Hfit. specialize (Hsim _ (do_wf _ _ _ D1)).
  unfold unit_call, plugin_call, Controller.on_documents. destruct (m (Controller.documents (scip w))) as [r d].
  destruct Hsim as [Hwf Habs]. rewrite Ham in Habs. injection Habs as <- ->.
  split; cbn; [|done|exact D3|exact D4].
  split; [done|done|]. intros doc x. rewrite He'. apply Hfit.
Qed.
(** An operation that puts one document. *)
Lemma put_ok idx ps e w (op : GoM DocState unit) am m doc x ast' :
  sees idx ps e w → simulates DiffMain op am → am (abs (Controller.documents (scip w))) = (Ok tt, ast') →
  adocs (abs (Controller.documents (scip w))) !! UUID s = Some m →
  adocs ast' = <[UUID s := <[doc := x]> m]> (adocs (abs (Controller.documents (scip w)))) → entry_fits x →
  sees idx ps (λ doc', if bool_decide (doc' = doc) then Some x else e doc')
    (unit_call (B := unit) (Controller.on_documents op) w).1.2.
Proof.
  intros Hsees Hsim Ham Hm Ha' Hfit.
  eapply docs_call_ok; [exact Hsees|exact Hsim|exact Ham| | |].
  - rewrite Ha', lookup_insert_eq. by eexists.
  - intros doc'. unfold aget. rewrite Ha', lookup_insert_eq. cbn. case_bool_decide as Hd.
    + subst. by rewrite lookup_insert_eq.
    + rewrite lookup_insert_ne by done. rewrite <- (se_entry _ _ _ _ Hsees). unfold entry, aget. by rewrite Hm.
  - intros doc' y. cbn. case_bool_decide as Hd; [by intros [= <-]|].
    rewrite <- (se_entry _ _ _ _ Hsees). apply (do_fits _ _ _ (se_docs _ _ _ _ Hsees)).
Qed.

Lemma a_didOpen_run a m d :
  adocs a !! UUID s = Some m → validateSize maxFileSizeBytes (Text d) = Ok tt →
  ∃ a', a_didOpen maxFileSizeBytes sess ctx d a = (Ok tt, a') ∧
    adocs a' = <[UUID s := <[DocURI d := new_aentry d None]> m]> (adocs a).
Proof.
  intros Hm Hsize. unfold a_didOpen, adefer, sbind, asession, lift_res. rewrite session_ctx. cbn. rewrite Hm, Hsize.
  cbn. eexists. split; [reflexivity|]. cbn. rewrite <- (insert_id (adocs a) (UUID s) m Hm) at 1. by rewrite alter_insert_eq.
Qed.

Lemma didOpen_store_ok idx ps e w d :
  sees idx ps e w → validateSize maxFileSizeBytes (Text d) = Ok tt → lines_fit (Text d) →
  sees idx ps (λ doc, if bool_decide (doc = DocURI d) then Some (new_aentry d None) else e doc)
    (call_name Plugins.DidOpen d w "doc-sync").
Proof.
  intros Hsees Hsize Hfit. destruct (do_session _ _ _ (se_docs _ _ _ _ Hsees)) as [m Hm].
  destruct (a_didOpen_run _ m d Hm Hsize) as (a'&Hrun&Ha').
  eapply (put_ok _ _ _ _ _ _ m); [exact Hsees|apply sim_didOpen|exact Hrun|exact Hm|exact Ha'|by split].
Qed.

(** An entry after a change of its document. *)
Definition changed (e : AEntry) (text : bytes) (version : Z) : AEntry :=
  mkAEntry (set_version (set_text (aDocument e) text) version) [] true None (Some (entry_base e)).

Lemma a_didChange_run a m doc x version changes text :
  adocs a !! UUID s = Some m → m !! doc = Some x → ApplyContentChanges (Text (aDocument x)) changes = Ok text →
  validateSize maxFileSizeBytes text = Ok tt →
  ∃ a', a_didChange gateway_error maxFileSizeBytes sess ctx doc version changes a = (Ok tt, a') ∧
    adocs a' = <[UUID s := <[doc := changed x text version]> m]> (adocs a).
Proof.
  intros Hm Hd Htext Hsize. unfold a_didChange, wrapM, sbind, asession, lift_res, aentry', aget.
  rewrite session_ctx. cbn. rewrite Hm. cbn. rewrite Hd. cbn. rewrite Htext. cbn. rewrite Hsize. cbn.
  assert (Hput : alter (<[doc := changed x text version]>) (UUID s) (adocs a) =
    <[UUID s := <[doc := changed x text version]> m]> (adocs a)).
  { rewrite <- (insert_id (adocs a) (UUID s) m Hm) at 1. by rewrite alter_insert_eq. }
  destruct (aToken x) as [token|]; [|by eexists]. unfold try_, agateway. cbn.
  destruct (gateway_error (ProgressEnd token)); cbn; by eexists.
Qed.

Lemma didChange_store_ok idx ps e w doc x version changes text :
  sees idx ps e w → e doc = Some x → ApplyContentChanges (Text (aDocument x)) changes = Ok text →
  validateSize maxFileSizeBytes text = Ok tt → lines_fit text →
  sees idx ps (λ doc', if bool_decide (doc' = doc) then Some (changed x text version) else e doc')
    (call_name Plugins.DidChange (mkDidChangeParams doc version changes) w "doc-sync").
Proof.
  intros Hsees Hx Htext Hsize Hfit. destruct (do_session _ _ _ (se_docs _ _ _ _ Hsees)) as [m Hm].
  pose proof (se_entry _ _ _ _ Hsees doc) as Hd. rewrite Hx in Hd. pose proof Hd as Hin. unfold entry, aget in Hin.
  rewrite Hm in Hin. destruct (do_fits _ _ _ (se_docs _ _ _ _ Hsees) doc x Hd) as [Hb _].
  destruct (a_didChange_run _ m doc x version changes text Hm Hin Htext Hsize) as (a'&Hrun&Ha').
  eapply (put_ok _ _ _ _ _ _ m); [exact Hsees|apply sim_didChange|exact Hrun|exact Hm|exact Ha'|by split].
Qed.

(** The documents as a query for [qs] leaves them. *)
Definition after_query (idx : S) (qs : list string) (e : URI → option AEntry) (doc : URI) : option AEntry :=
  reset_base (query_loads s idx qs) doc (e doc).

Lemma didOpen_scip_ok idx ps e w d rel :
  sees idx ps e w → Registry.uriToRelativePath (WorkspaceRoot s) (DocURI d) = Ok rel →
  ∃ idx', Index.asks ps idx idx' ∧ sees idx (ps ++ [rel]) (after_query idx' [rel] e) (call_name Plugins.DidOpen d w "scip").
Proof.
  intros Hsees Hrel. destruct (se_index _ _ _ _ Hsees) as (reg&Hreg&Hroot&Hready&Hun).
  change (call_name Plugins.DidOpen d w "scip") with
    (unit_call (B := unit) (Controller.didOpen publish_error sess ctx (DocURI d) (string_of_bytes (Text d))) w).1.2.
  destruct (RegistryProof.load_ok (WorkspaceRoot s) (DocURI d) rel (rIndex reg) Hrel Hready) as (idx'&Hload&Hready'&Hun').
  assert (Hopen : Registry.DidOpen (WorkspaceRoot s) (DocURI d) (string_of_bytes (Text d)) (rIndex reg) = (Ok tt, idx')).
  { unfold Registry.DidOpen. by rewrite (sbind_ok _ _ _ _ _ Hload). }
  destruct (on_query_ok DiffMain publish_error sess Hrepo ctx s session_ctx (scip w) reg
    (λ root, Registry.DidOpen root (DocURI d) (string_of_bytes (Text d))) _ _ _ (se_docs _ _ _ _ Hsees) Hreg Hroot Hopen Hun')
    as (c'&Hrun&[A1 A2]&Hframe).
  exists (rIndex reg). split; [done|].
  assert (Hcall : Controller.didOpen publish_error sess ctx (DocURI d) (string_of_bytes (Text d)) (scip w) = (Ok tt, c')).
  { unfold Controller.didOpen, Controller.from_context. rewrite session_ctx. unfold sbind at 1, lift_res at 1.
    rewrite sbind_get, Hreg. by rewrite (sbind_try_ok _ _ _ _ _ Hrun). }
  unfold unit_call, plugin_call. rewrite Hcall. split; cbn.
  - done.
  - intros doc. by rewrite A2, (se_entry _ _ _ _ Hsees).
  - eexists. rewrite Hframe. cbn. rewrite lookup_insert_eq. split_and!; [reflexivity|done|done|].
    by eapply asks_trans.
  - apply (se_crashed _ _ _ _ Hsees).
Qed.

Lemma didChange_scip_ok idx ps e w p : sees idx ps e w → sees idx ps e (call_name Plugins.DidChange p w "scip").
Proof. by intros [D1 D2 D3 D4]. Qed.

(** ** The answer *)

(** The link from an occurrence of [doc] to a definition, in documents [e]. *)
Definition link_in (e : URI → option AEntry) (doc : URI) (occ : Model.Occurrence) (def : Model.SymbolOccurrence)
    : LocationLink :=
  let target := match Model.SOccurrence def with
                | Some o => latest_range DiffMain (e (Model.SLocation def)) (ScipToProtocolRange (Model.ORange o))
                | None => zero_Range
                end in
  mkLocationLink (Some (latest_range DiffMain (e doc) (ScipToProtocolRange (Model.ORange occ))))
    (Model.SLocation def) target target.
(** What the index says at a position of the base version. *)
Definition definition_links (idx : S) (e : URI → option AEntry) doc bdoc occ (sy : Scip.Symbol) (pkg : Scip.Package)
    : list LocationLink :=
  match definition_at (WorkspaceRoot s) idx doc bdoc occ
          (ScipDescriptorsToModelDescriptors (Scip.Descriptors sy)) (Scip.Version pkg) with
  | Some (_, def) => [link_in e doc occ def]
  | None => []
  end.

(** Documents that are mapped in the same way. *)
Definition alike (e e' : URI → option AEntry) : Prop := ∀ doc, mapper_of DiffMain (e' doc) = mapper_of DiffMain (e doc).

Lemma link_in_alike e e' doc occ def : alike e e' → link_in e' doc occ def = link_in e doc occ def.
Proof.
  intros He. unfold link_in, latest_range, latest_position. by destruct (Model.SOccurrence def); rewrite !He.
Qed.

Lemma definition_links_alike idx e e' doc bdoc occ sy pkg :
  alike e e' → definition_links idx e' doc bdoc occ sy pkg = definition_links idx e doc bdoc occ sy pkg.
Proof.
  intros He. unfold definition_links. destruct (definition_at _ _ _ _ _ _ _) as [[src def]|]; [|done].
  by rewrite (link_in_alike e).
Qed.

Lemma definition_at_unchanged idx idx' doc bdoc occ ds v :
  Index.unchanged idx idx' →
  definition_at (WorkspaceRoot s) idx' doc bdoc occ ds v = definition_at (WorkspaceRoot s) idx doc bdoc occ ds v.
Proof.
  intros Hun. unfold definition_at, definition_of. rewrite (Index.un_sym _ _ Hun).
  destruct (Index.sym_of idx ds v) as [[info d]|]; cbn; [|done]. by rewrite (Index.un_doc _ _ Hun).
Qed.

(** The documents that a query for the definition asks for. *)
Abbreviation asked idx rel occ sy pkg := (definition_paths idx rel occ
  (ScipDescriptorsToModelDescriptors (Scip.Descriptors sy)) (Scip.Version pkg)).

Lemma asked_unchanged idx idx' rel occ ds v :
  Index.unchanged idx idx' → definition_paths idx' rel occ ds v = definition_paths idx rel occ ds v.
Proof. intros Hun. unfold definition_paths, symbol_paths. by rewrite (Index.un_sym _ _ Hun). Qed.

Lemma definition_call_ok idx ps e w doc rel pos p bdoc occ sy pkg :
  sees idx ps e w → Registry.uriToRelativePath (WorkspaceRoot s) doc = Ok rel → Index.doc_of idx rel = Some bdoc →
  base_position DiffMain (e doc) pos = Some p →
  GetOccurrenceForPosition (Model.Occurrences bdoc) p = Ok (Some occ) →
  ParseScipSymbol (Model.OSymbol occ) = Ok sy → Scip.SPackage sy = Some pkg → Scip.Descriptors sy ≠ [] →
  ∃ w' idx', Index.asks ps idx idx' ∧ let e' := after_query idx' (asked idx rel occ sy pkg) e in
    Daemon.callSync Plugins.GotoDefinition ctx (mkPositionParams doc pos) (mkMethods "scip" []) (w, []) =
      (w', definition_links idx e' doc bdoc occ sy pkg) ∧
    crashed w' = false ∧ ∀ doc', entry s (scip w') doc' = e' doc'.
Proof.
  intros Hsees Hrel Hdoc Hp Hocc Hsy Hpkg Hds. destruct (se_index _ _ _ _ Hsees) as (reg&Hreg&Hroot&Hready&Hasks).
  pose proof (Index.as_unchanged _ _ _ Hasks) as Hun.
  rewrite <- (se_entry _ _ _ _ Hsees) in Hp. rewrite <- (Index.un_doc _ _ Hun) in Hdoc.
  destruct (gotoDefinition_ok DiffMain publish_error sess HDiff Hrepo ctx s session_ctx (scip w) reg doc rel pos p bdoc
    occ sy pkg [] (se_docs _ _ _ _ Hsees) Hreg Hroot Hready Hrel Hdoc Hp Hocc Hsy Hpkg Hds) as (c'&[A1 A2]&Hrun).
  rewrite (asked_unchanged _ _ _ _ _ _ Hun) in A2.
  exists (mkWorld c' (others w) (crashed w)), (rIndex reg). split; [done|]. cbv zeta. set (e' := after_query _ _ _).
  assert (Hent : ∀ doc', entry s c' doc' = e' doc')
    by (intros doc'; unfold e', after_query; by rewrite A2, (se_entry _ _ _ _ Hsees)).
  split_and!; [|apply (se_crashed _ _ _ _ Hsees)|exact Hent].
  transitivity (let '(_, w1, r) := append_call (Controller.gotoDefinition DiffMain publish_error sess ctx doc pos) (Some []) w
                in (w1, default [] r)); [reflexivity|].
  unfold append_call, plugin_call. rewrite Hrun. cbn [default fst snd app]. f_equal.
  unfold definition_links. rewrite (definition_at_unchanged _ _ _ _ _ _ _ Hun).
  clear Hrun. destruct (definition_at _ _ _ _ _ _ _) as [[src def]|]; [|done].
  unfold definition_link, link_in, occurrence_range. rewrite Hent. by destruct (Model.SOccurrence def); rewrite ?Hent.
Qed.

(** ** Requests *)

Section requests.
Context `{!Json} {P A : Type} `{WorkspaceUtilsLaws P}
  (respond : list (N * IdeClient.ClientCall P) → N → IdeClient.ClientCall P → error + A)
  (reply_error : list Router.Reply → Router.Reply → option error) (methodNotFound : string → error).
Context (repos : gmap MonorepoName Application.MonorepoConfigEntry) (config : gmap string bool).
Implicit Types c : Daemon.controller R world P.

Abbreviation router := (Router.mkRouter (UUID s)).
Abbreviation nil_reply := (Router.mkReply None None).

(** The daemon has the session, and its plugins as they are registered. *)
Record serving c : Prop := {
  sg_sessions : sessions (Daemon.core c) = sess;
  sg_plugins : ∃ rt, pluginMethods (Daemon.core c) !! UUID s = Some rt ∧
    ∀ f, names <$> rt !! MethodName f = Application.rows_handle (Application.enabled_rows repos config (Monorepo s)) f
}.

Lemma serving_names c f now later :
  serving c → Application.rows_handle (Application.enabled_rows repos config (Monorepo s)) f = Some (now, later) →
  PluginNameKey <$> Sync (DaemonProof.plugins_of c (UUID s) f) = now.
Proof.
  intros [_ (rt&Hrt&Hn)] Hrows. unfold DaemonProof.plugins_of. rewrite Hrt. cbn. specialize (Hn f).
  rewrite Hrows in Hn. destruct (rt !! MethodName f) as [ms|]; [|done]. by injection Hn as <- _.
Qed.

(** The document store and the index are enabled. *)
Context (Hdocs : config !! "doc-sync" = Some true) (Hscip : config !! "scip" = Some true).

Lemma edit_rows :
  (∃ later, Application.rows_handle (Application.enabled_rows repos config (Monorepo s)) Plugins.DidOpen = Some (["doc-sync"; "scip"], later)) ∧
  (∃ later, Application.rows_handle (Application.enabled_rows repos config (Monorepo s)) Plugins.DidChange = Some (["doc-sync"; "scip"], later)) ∧
  (∃ later, Application.rows_handle (Application.enabled_rows repos config (Monorepo s)) Plugins.GotoDefinition = Some (["scip"], later)).
Proof.
  unfold Application.enabled_rows, Application.plugin_rows. cbn [List.filter Application.row_relevant Application.row_name]. rewrite Hdocs, Hscip. cbn [default andb].
  destruct (default false (config !! "diagnostics")), (default false (config !! "quick-actions")),
    (default false (config !! "user-guidance")), (default false (config !! "jdk")),
    (_ && default false (config !! "indexer"));
  cbn [id]; split_and!; eexists; vm_compute; reflexivity.
Qed.

(** A request for a method, with the parameters that it is decoded to. *)
Definition request_for (f : MethodField) (params : Params f) (r : N * Request) : Prop :=
  Method r.2 = MethodName f ∧ DaemonProof.decode_params f r.2 = Some (Ok params).

Abbreviation serve := (Router.serve_requests respond reply_error methodNotFound router).

Lemma serve_cons r rest c rs x c' :
  Router.HandleReq respond reply_error methodNotFound router r.1 r.2 (c, rs) =
    (DaemonProof.written reply_error rs x, (c', rs ++ [x])) →
  serve (r :: rest) (c, rs) = serve rest (c', rs ++ [x]).
Proof.
  intros Hr. destruct r as [p req]. cbn [Router.serve_requests]. unfold sbind, try_. cbn in Hr. rewrite Hr.
  unfold DaemonProof.written. by destruct (reply_error rs x).
Qed.

Lemma serve_call f params r rest c rs now later :
  serving c → request_for f params r → DaemonProof.new_result f = None →
  Application.rows_handle (Application.enabled_rows repos config (Monorepo s)) f = Some (now, later) →
  ∃ gs, serve (r :: rest) (c, rs) =
    serve rest (Daemon.set_world gs (foldl (call_name f params) (Daemon.world c) now) c, rs ++ [nil_reply]).
Proof.
  intros Hc [Hm Hd] Hnew Hrows. eexists. apply serve_cons.
  pose proof (DaemonProof.HandleReq_plugins respond reply_error methodNotFound f (UUID s) r.1 r.2 c rs _ Hm Hd) as Hrun.
  unfold DaemonProof.plugins_reply in Hrun. rewrite Hnew in Hrun. rewrite Hrun. cbv zeta.
  by rewrite foldl_names, (serving_names _ _ _ _ Hc Hrows).
Qed.

Lemma sees_ext idx ps e e' w : (∀ doc, e doc = e' doc) → sees idx ps e w → sees idx ps e' w.
Proof. intros He [D1 D2 D3 D4]. split; [done| |done..]. intros doc. by rewrite D2. Qed.
Lemma serving_world gs w c : serving c → serving (Daemon.set_world gs w c).
Proof. by intros []. Qed.

Lemma serve_open idx ps e c rs d rel r rest :
  serving c → sees idx ps e (Daemon.world c) → request_for Plugins.DidOpen d r →
  validateSize maxFileSizeBytes (Text d) = Ok tt → lines_fit (Text d) →
  Registry.uriToRelativePath (WorkspaceRoot s) (DocURI d) = Ok rel →
  ∃ gs w idx', serve (r :: rest) (c, rs) = serve rest (Daemon.set_world gs w c, rs ++ [nil_reply]) ∧
    Index.asks ps idx idx' ∧
    sees idx (ps ++ [rel])
      (after_query idx' [rel] (λ doc, if bool_decide (doc = DocURI d) then Some (new_aentry d None) else e doc)) w.
Proof.
  intros Hc Hsees Hr Hsize Hfit Hrel. destruct edit_rows as [[later Hrows] _].
  destruct (serve_call _ _ r rest c rs _ _ Hc Hr eq_refl Hrows) as [gs Hgs]. cbn [foldl] in Hgs.
  pose proof (didOpen_store_ok _ _ _ _ _ Hsees Hsize Hfit) as Hw1.
  destruct (didOpen_scip_ok _ _ _ _ d rel Hw1 Hrel) as (idx'&Ha&Hw2). by eexists gs, _, idx'.
Qed.

(** Changes of a document that the store accepts, from one text to another. *)
Inductive edits_run (doc : URI) : bytes → list (N * Request) → bytes → Prop :=
  | edits_done text : edits_run doc text [] text
  | edits_step text version changes text1 r reqs text2 :
    request_for Plugins.DidChange (mkDidChangeParams doc version changes) r →
    ApplyContentChanges text changes = Ok text1 → validateSize maxFileSizeBytes text1 = Ok tt → lines_fit text1 →
    edits_run doc text1 reqs text2 → edits_run doc text (r :: reqs) text2.

Lemma serve_edits idx ps doc rest text reqs text' : edits_run doc text reqs text' →
  ∀ e c rs x, serving c → sees idx ps e (Daemon.world c) → e doc = Some x → Text (aDocument x) = text →
  ∃ gs w x', serve (reqs ++ rest) (c, rs) = serve rest (Daemon.set_world gs w c, rs ++ replicate (length reqs) nil_reply) ∧
    Text (aDocument x') = text' ∧ entry_base x' = entry_base x ∧
    sees idx ps (λ doc', if bool_decide (doc' = doc) then Some x' else e doc') w.
Proof.
  induction 1 as [text|text version changes text1 r reqs text2 Hr Happ Hsize Hfit _ IH]; intros e c rs x Hc Hsees Hx Ht.
  { exists (Daemon.goroutines c), (Daemon.world c), x. cbn [replicate length app]. rewrite app_nil_r.
    split_and!; [by destruct c|done..|]. eapply sees_ext; [|exact Hsees]. intros doc'. by case_bool_decide; subst. }
  destruct edit_rows as (_&[later Hrows]&_). subst text.
  destruct (serve_call _ _ r (reqs ++ rest) c rs _ _ Hc Hr eq_refl Hrows) as [gs Hgs]. cbn [foldl] in Hgs.
  pose proof (didChange_store_ok _ _ _ _ _ _ version _ _ Hsees Hx Happ Hsize Hfit) as Hw1.
  apply (didChange_scip_ok _ _ _ _ (mkDidChangeParams doc version changes)) in Hw1.
  match type of Hgs with _ = serve _ (?c0, ?rs0) =>
    destruct (IH _ c0 rs0 (changed x text1 version) (serving_world _ _ _ Hc) Hw1) as (gs'&w&x'&Hrun&Hx'&Hb&Hw)
  end; [by rewrite bool_decide_true|done|].
  exists gs', w, x'. rewrite <- app_comm_cons, Hgs, Hrun. cbn [replicate length]. rewrite <- app_assoc.
  split_and!; [done|done|by rewrite Hb|]. eapply sees_ext; [|exact Hw]. intros doc'. by repeat case_bool_decide.
Qed.

Lemma serve_definition idx ps e c rs doc rel pos p bdoc occ sy pkg r :
  serving c → sees idx ps e (Daemon.world c) → request_for Plugins.GotoDefinition (mkPositionParams doc pos) r →
  Registry.uriToRelativePath (WorkspaceRoot s) doc = Ok rel → Index.doc_of idx rel = Some bdoc →
  base_position DiffMain (e doc) pos = Some p →
  GetOccurrenceForPosition (Model.Occurrences bdoc) p = Ok (Some occ) →
  ParseScipSymbol (Model.OSymbol occ) = Ok sy → Scip.SPackage sy = Some pkg → Scip.Descriptors sy ≠ [] →
  ∃ gs w idx', Index.asks ps idx idx' ∧ let e' := after_query idx' (asked idx rel occ sy pkg) e in
    serve [r] (c, rs) = (Ok tt, (Daemon.set_world gs w c, rs ++
      [Router.mkReply (Some (existT Plugins.GotoDefinition (definition_links idx e' doc bdoc occ sy pkg))) None])) ∧
    crashed w = false ∧ ∀ doc', entry s (scip w) doc' = e' doc'.
Proof.
  intros Hc Hsees [Hm Hd] Hrel Hdoc Hp Hocc Hsy Hpkg Hds. destruct edit_rows as (_&_&[later Hrows]).
  destruct (definition_call_ok _ _ _ _ _ _ _ _ _ _ _ _ Hsees Hrel Hdoc Hp Hocc Hsy Hpkg Hds)
    as (w&idx'&Hasks&Hcall&Hcr&Hent).
  pose proof (serving_names _ _ _ _ Hc Hrows) as Hnames.
  pose proof (DaemonProof.HandleReq_plugins respond reply_error methodNotFound _ (UUID s) r.1 r.2 c rs _ Hm Hd) as Hrun.
  unfold DaemonProof.plugins_reply in Hrun. cbn [DaemonProof.new_result] in Hrun.
  destruct (Sync _) as [|m [|? ?]]; try done. cbn in Hnames. injection Hnames as Hname.
  cbn [foldl] in Hrun.
  match type of Hrun with context [Daemon.callSync ?f ?k ?params ?plugin ?x] =>
    assert (Hm' : Daemon.callSync f k params plugin x =
      (w, definition_links idx (after_query idx' (asked idx rel occ sy pkg) e) doc bdoc occ sy pkg))
  end.
  { etransitivity; [|exact Hcall]. destruct m as [n fs]. cbn in Hname. subst n. reflexivity. }
  rewrite Hm' in Hrun. cbv zeta in Hrun. cbn [fst snd] in Hrun.
  eexists _, w, idx'. split; [done|]. split; [|by split]. rewrite (serve_cons _ _ _ _ _ _ Hrun). reflexivity.
Qed.

(** A document that was opened as [d] and now has [text]. *)
Definition opened (d : TextDocumentItem) (text : bytes) : AEntry :=
  mkAEntry (set_text d text) [] true None (Some (Text d)).

(** The documents after the session: the opened one has its base, and of the
    others those that the index has brought to memory for the query have it reset. *)
Definition now_open (idx : S) (e : URI → option AEntry) (d : TextDocumentItem) (text : bytes) (qs : list string) (doc : URI)
    : option AEntry :=
  if bool_decide (doc = DocURI d) then Some (opened d text) else after_query idx qs e doc.

Lemma query_loads_elem idx qs u : u ∈ query_loads s idx qs ↔
  Index.callback_of idx = document_callback ∧
  ∃ p b, (p, b) ∈ Index.loads idx qs ∧ u = Registry.GetURI (WorkspaceRoot s) (Model.RelativePath b).
Proof.
  unfold query_loads. destruct (N.eqb_spec (Index.callback_of idx) document_callback) as [He|Hne].
  - rewrite list_elem_of_fmap. setoid_rewrite loads_docs. naive_solver.
  - rewrite elem_of_nil. naive_solver.
Qed.

(** A query for nothing. *)
Lemma after_query_first idx idx1 qs e doc : Index.asks [] idx idx1 →
  after_query idx1 qs e doc = after_query idx qs e doc.
Proof.
  intros [Hu Hm _]. unfold after_query. apply reset_base_ext. rewrite !query_loads_elem.
  setoid_rewrite loads_elem. rewrite (Index.un_callback _ _ Hu). setoid_rewrite (Index.un_doc _ _ Hu).
  setoid_rewrite Hm. cbn. setoid_rewrite elem_of_nil. naive_solver.
Qed.

(** The loads of two queries. *)
Lemma query_loads_split idx idx' ps qs u : Index.asks ps idx idx' →
  u ∈ query_loads s idx (ps ++ qs) ↔ u ∈ query_loads s idx ps ∨ u ∈ query_loads s idx' qs.
Proof.
  intros Ha. rewrite !query_loads_elem, (Index.un_callback _ _ (Index.as_unchanged _ _ _ Ha)).
  setoid_rewrite (loads_split _ _ _ _ Ha). naive_solver.
Qed.

(** Queries after each other. *)
Lemma after_query_twice idx idx' ps qs e doc : Index.asks ps idx idx' →
  after_query idx' qs (after_query idx ps e) doc = after_query idx (ps ++ qs) e doc.
Proof.
  intros Ha. unfold after_query. rewrite reset_base_app. apply reset_base_ext.
  by rewrite elem_of_app, (query_loads_split _ _ _ _ _ Ha).
Qed.

Lemma now_alike idx idx1 idx2 e d rel text x bdoc qs doc :
  Index.asks [] idx idx1 → Index.asks ([] ++ [rel]) idx idx2 → Index.doc_of idx rel = Some bdoc →
  (∀ q b, q ∈ rel :: qs → Index.doc_of idx q = Some b → q ≠ rel →
    Registry.GetURI (WorkspaceRoot s) (Model.RelativePath b) ≠ DocURI d) →
  Text (aDocument x) = text → entry_base x = Text d →
  mapper_of DiffMain (after_query idx2 (rel :: qs) (λ doc', if bool_decide (doc' = DocURI d) then Some x else
    after_query idx1 [rel] (λ doc'', if bool_decide (doc'' = DocURI d) then Some (new_aentry d None) else e doc'') doc') doc) =
  mapper_of DiffMain (now_open idx e d text (rel :: qs) doc).
Proof.
  intros Ha1 Ha2 Hdoc Huri Hx Hb. unfold now_open. case_bool_decide as Hd.
  - subst doc. unfold after_query at 1. rewrite bool_decide_true by done.
    assert (Hno : DocURI d ∉ query_loads s idx2 (rel :: qs)).
    { rewrite query_loads_elem. intros (_&q&b&Hq&He). apply loads_elem in Hq as (Hq&Hm&Hqb).
      rewrite (Index.un_doc _ _ (Index.as_unchanged _ _ _ Ha2)) in Hqb.
      destruct (decide (q = rel)) as [->|Hne]; [|by apply (Huri q b)].
      apply Hm, (Index.as_memory _ _ _ Ha2). destruct (decide (rel ∈ Index.memory_of idx)); [by left|right].
      apply loads_paths. exists bdoc. apply loads_elem. split_and!; [set_solver|done|done]. }
    unfold reset_base. rewrite bool_decide_false by done. unfold mapper_of. cbn. by rewrite Hb, Hx.
  - f_equal. transitivity (after_query idx2 (rel :: qs) (after_query idx1 [rel] e) doc).
    { unfold after_query. by rewrite !bool_decide_false by done. }
    transitivity (after_query idx2 (rel :: qs) (after_query idx [rel] e) doc).
    { unfold after_query at 1. by rewrite (after_query_first idx idx1 [rel] e doc Ha1). }
    rewrite (after_query_twice idx) by done.
    cbn [app]. unfold after_query. apply reset_base_ext. rewrite !query_loads_elem.
    setoid_rewrite loads_elem. set_solver.
Qed.

(** C5: The document store and the SCIP plugin are enabled for a session, whose
    plugins are registered and whose index is loaded.  The editor opens a document
    that the index knows, changes it with any number of requests that the store
    accepts (edits in range, the size and the lines of the texts within their
    limits), and asks for the definition at a position where the index has a
    symbol; no other document that the index is asked for has its URI.  Every layer
    included, the notifications are replied to with nil and the request with the
    link that the index gives: the position is taken back to the text as it was
    opened, the occurrence there and the definition of its symbol are looked up in
    the index, and their ranges are those in the texts as the session has them
    after the request.  There the document has its text at opening as base, and of
    the other documents exactly that of the definition has its base reset, if the
    index did not have it in memory.  The store and the SCIP plugin do not panic;
    the other enabled plugins handle these methods only in goroutines, none of
    which runs before the last reply. *)
Theorem definition_through_server idx e c rs d rel edits text pos p bdoc occ sy pkg open ask :
  serving c → sees idx [] e (Daemon.world c) →
  request_for Plugins.DidOpen d open → validateSize maxFileSizeBytes (Text d) = Ok tt → lines_fit (Text d) →
  edits_run (DocURI d) (Text d) edits text →
  request_for Plugins.GotoDefinition (mkPositionParams (DocURI d) pos) ask →
  Registry.uriToRelativePath (WorkspaceRoot s) (DocURI d) = Ok rel → Index.doc_of idx rel = Some bdoc →
  (∀ q b, q ∈ asked idx rel occ sy pkg → Index.doc_of idx q = Some b → q ≠ rel →
    Registry.GetURI (WorkspaceRoot s) (Model.RelativePath b) ≠ DocURI d) →
  base_position DiffMain (Some (opened d text)) pos = Some p →
  GetOccurrenceForPosition (Model.Occurrences bdoc) p = Ok (Some occ) →
  ParseScipSymbol (Model.OSymbol occ) = Ok sy → Scip.SPackage sy = Some pkg → Scip.Descriptors sy ≠ [] →
  ∃ gs w, let now := now_open idx e d text (asked idx rel occ sy pkg) in
    serve (open :: edits ++ [ask]) (c, rs) = (Ok tt, (Daemon.set_world gs w c,
      rs ++ replicate (1 + length edits) nil_reply ++
      [Router.mkReply (Some (existT Plugins.GotoDefinition (definition_links idx now (DocURI d) bdoc occ sy pkg))) None])) ∧
    crashed w = false ∧ alike now (entry s (scip w)).
Proof.
  intros Hc Hsees Hopen Hsize Hfit Hedits Hask Hrel Hdoc Huri Hp Hocc Hsy Hpkg Hds.
  destruct (serve_open _ _ _ c rs d rel open (edits ++ [ask]) Hc Hsees Hopen Hsize Hfit Hrel)
    as (gs1&w1&idx1&->&Ha1&Hw1).
  destruct (serve_edits _ _ _ [ask] _ _ _ Hedits _ (Daemon.set_world gs1 w1 c) (rs ++ [nil_reply])
    (if bool_decide (DocURI d ∈ query_loads s idx1 [rel]) then aclear (new_aentry d None) else new_aentry d None)
    (serving_world _ _ _ Hc) Hw1) as (gs2&w2&x&->&Hx&Hb&Hw2).
  { unfold after_query. rewrite bool_decide_true by done. unfold reset_base. by case_bool_decide. }
  { by case_bool_decide. }
  assert (Hbase : entry_base x = Text d) by (rewrite Hb; by case_bool_decide).
  destruct (serve_definition _ _ _ _ (rs ++ [nil_reply] ++ replicate (length edits) nil_reply) (DocURI d) rel pos p bdoc
    occ sy pkg ask (serving_world gs2 w2 _ (serving_world gs1 w1 _ Hc)) Hw2 Hask Hrel Hdoc)
    as (gs3&w3&idx2&Ha2&Hrun&Hcr&Hent); [|done..|].
  { rewrite bool_decide_true by done. rewrite <- Hp. unfold base_position, mapper_of. cbn. by rewrite Hbase, Hx. }
  exists gs3, w3. cbv zeta in Hrun |- *.
  assert (Halike : alike (now_open idx e d text (asked idx rel occ sy pkg)) (entry s (scip w3))).
  { intros doc. rewrite Hent. apply (now_alike idx idx1 idx2 e d rel text x bdoc); done. }
  split_and!; [|done|done].
  rewrite <- (app_assoc rs), Hrun, <- !app_assoc. cbn [replicate Nat.add app].
  rewrite (definition_links_alike _ (now_open idx e d text (asked idx rel occ sy pkg))); [done|].
  intros doc. rewrite <- Halike. by rewrite Hent.
Qed.
End requests.
End session.

(** ** An instance *)

Section sample.
#[local] Instance sample_system_data : LspData := system_data (λ _, unit) (λ _, tt) (λ _, []).

Definition edited_item : TextDocumentItem := mkTextDocumentItem "file:///w/x" "java" 1 abc.
(** [zz] in front of the text. *)
Definition edited_change : DidChangeParams :=
  mkDidChangeParams "file:///w/x" 2 [mkChange (mkRange (mkPosition 0 0) (mkPosition 0 0)) [122; 122]].
Definition asked_position : TextDocumentPositionParams := mkPositionParams "file:///w/x" (mkPosition 0 3).

#[local] Instance sample_json : Json := {|
  Value := unit;
  RawValue _ := tt;
  Unmarshal k _ x := inr
    (match k return Data k → Data k with
     | KDidOpenTextDocumentParams => λ _, edited_item
     | KDidChangeTextDocumentParams => λ _, edited_change
     | KDefinitionParams => λ _, asked_position
     | _ => id
     end x);
  Marshal _ := inr [];
  Arguments_of _ := [];
  set_Arguments _ x := x
|}.

Definition open_request : N * Request := (1%N, mkRequest "textDocument/didOpen" []).
Definition change_request : N * Request := (2%N, mkRequest "textDocument/didChange" []).
Definition definition_request : N * Request := (3%N, mkRequest "textDocument/definition" []).

Definition start_docs : DocState :=
  (run_trace sample_diff id (λ _, Ok []) (λ _, None) (λ _, "token") 100 [(editor_sessions, EvInitialize editor_ctx)] init_state).2.
Definition start_world : World (S := loaded_index) (M := open_handlers) (O := unit) :=
  mkWorld (Controller.set_registries {["/w" := mkRegistry "/w" "/w/.scip" sample_registry]}
    (Controller.New ∅ start_docs Diagnostics.New)) tt false.

Lemma start_docs_entries : adocs (abs start_docs) = {[1%N := ∅]}.
Proof. vm_compute. reflexivity. Qed.

Lemma start_sees :
  sees (V := _) sample_diff editor_session sample_registry [] (λ _, None) start_world.
Proof.
  split; [|reflexivity| |reflexivity].
  - split.
    + pose proof (run_trace_simulates sample_diff id (λ _, Ok []) (λ _, None) (λ _, "token") 100
        [(editor_sessions, EvInitialize editor_ctx)] init_state (wf_init sample_diff)) as Hsim.
      unfold start_world, start_docs. cbn [scip Controller.documents Controller.set_registries Controller.New].
      destruct (run_trace _ _ _ _ _ _ _ _). apply Hsim.
    + change (is_Some (adocs (abs start_docs) !! UUID editor_session)). rewrite start_docs_entries. by eexists.
    + intros doc x. change (aget (UUID editor_session) doc (abs start_docs) = Some x → entry_fits x).
      unfold aget. by rewrite start_docs_entries.
  - eexists. split_and!; [reflexivity|reflexivity|apply sample_ready|apply asks_refl].
Qed.

#[local] Instance system_utils : WorkspaceUtilsApi unit :=
  DaemonProof.workspace_utils IdeClient.agreeable WorkspaceUtils.sample_parse WorkspaceUtils.sample_git (λ _ out _, out)
    (λ _, Ok "git@host:repo") (λ _, (None, "A=1", "")).
#[local] Instance system_utils_laws : WorkspaceUtilsLaws unit.
Proof. apply DaemonProof.workspace_utils_laws. Qed.

(** The other plugins panic, should they be run. *)
Abbreviation sample_other := (λ f (_ : Context) (_ : string) (_ : Params f) (_ : option (Result f))
  (_ : Controller.controller loaded_index open_handlers) (o : unit), (Panic : gores (option (Result f)), o)).
#[local] Instance sample_system_api : PluginApi (World (S := loaded_index) (M := open_handlers) (O := unit)) :=
  system_api (B := simple_bindings) (U := simple_uri) (λ _, tt) (λ _, []) sample_diff (λ _ _, None) (λ _, None) 100 ∅ (λ _, Panic)
    (λ _, Err EEOF) (λ _, Err EEOF) (λ _, Err EEOF) None false 4 id sample_other editor_sessions.

Definition start_daemon : Daemon.controller repository (World (S := loaded_index) (M := open_handlers) (O := unit)) unit :=
  Daemon.mkController
    (registerSessionPlugins editor_ctx (mkDaemon editor_sessions ∅ Application.base_plugins
       (Application.availablePlugins Application.base_monorepos))).2
    false (Some None) 0 true 0 IdeClient.New [] start_world.

Lemma start_serving :
  serving editor_sessions editor_session Application.base_monorepos Application.base_plugins start_daemon.
Proof.
  destruct (Application.register_rows Application.base_monorepos Application.base_plugins editor_sessions ∅ editor_ctx
    editor_session) as (rt&Hrun&Hrt); [reflexivity|].
  unfold start_daemon. rewrite Hrun. split; [done|]. exists rt. split; [apply lookup_insert_eq|exact Hrt].
Qed.

Abbreviation sample_serve := (Router.serve_requests IdeClient.agreeable (λ _ _, None) EText (Router.mkRouter 1%N)).

(** The symbol has moved by two characters. *)
Example edited_replies :
  (sample_serve [open_request; change_request; definition_request] (start_daemon, [])).2.2 =
  [Router.mkReply None None; Router.mkReply None None;
   Router.mkReply (Some (existT Plugins.GotoDefinition [mkLocationLink (Some moved) "file:///w/x" moved moved])) None].
Proof. vm_compute. reflexivity. Qed.

Lemma definition_through_server_witness :
  ∃ st, sample_serve [open_request; change_request; definition_request] (start_daemon, []) = (Ok tt, st) ∧
    crashed (Daemon.world st.1) = false ∧
    st.2 = [Router.mkReply None None; Router.mkReply None None;
      Router.mkReply (Some (existT Plugins.GotoDefinition [mkLocationLink (Some moved) "file:///w/x" moved moved])) None].
Proof.
  destruct (definition_through_server (B := simple_bindings) (U := simple_uri) (λ _, tt) (λ _, []) sample_diff
    (λ _ _, None) (λ _, None) 100 ∅ (λ _, Panic) (λ _, Err EEOF) (λ _, Err EEOF) (λ _, Err EEOF) None false 4 id
    sample_other editor_sessions sample_diff_law editor_repo_ok editor_session eq_refl IdeClient.agreeable (λ _ _, None) EText
    Application.base_monorepos Application.base_plugins eq_refl eq_refl sample_registry (λ _, None) start_daemon []
    edited_item "x" [change_request] zzabc (mkPosition 0 3) (mkPosition 0 1) RegistryProof.sample_doc sample_def
    (Scip.mkSymbol "scip" (Some (Scip.mkPackage "m" "p" "1")) [Scip.mkDescriptor "a" 1 ""])
    (Scip.mkPackage "m" "p" "1") open_request definition_request start_serving start_sees)
    as (gs&w&Hrun&Hcr&_); try (vm_compute; reflexivity).
  - by split.
  - eapply edits_step; [by split|vm_compute; reflexivity|vm_compute; reflexivity|done|]. apply edits_done.
  - by split.
  - intros q b Hq _ Hne. vm_compute in Hq. by apply elem_of_cons in Hq as [->|[->|[]%elem_of_nil]%elem_of_cons].
  - done.
  - eexists. split; [exact Hrun|]. split; [exact Hcr|vm_compute; reflexivity].
Defined.
End sample.
End System.
